(** * The WebGPU replay engine (src/replay/lib.ts), embedded in Rocq

    The development follows the source file top to bottom:
    - JavaScript numbers, exceptions and the console;
    - the live graphics context, as a log of the calls made on it;
    - the Trace model and the wrapper objects built from it;
    - reconstruction ([Replay.load], the wrapper constructors);
    - command resolution (the two [consumeCommands] and the tail of [load]);
    - the replay driver ([execute], [replayTo], [executeSubmit],
      [replaySubmitTo], [encodeIn], [encodeUpTo]);
    - the command enumerator (the three [iterateCommands]).

    Conventions.  A JavaScript reference that may be [undefined] is an
    [option]; reading a property of [undefined] raises [TypeError].
    [console.assert] and [console.warn] never raise: they append to the
    console.  Integer-valued JavaScript numbers are [Z] (path components
    among them: [length - 1] of an empty list is -1), loop counters that
    index an array are [nat].  The host graphics API is not implemented by
    the engine: each call on it is recorded in call order, objects it returns
    are numbered handles, and its validation of the values it is given is
    not modelled, with one exception: the two copy calls of a command
    encoder, whose endpoints the resolver itself strips of their required
    [buffer] or [texture] member, are rejected by the host while it converts
    their arguments; they raise [TypeError] and record nothing.
    The registries and [this.data] are plain objects read by key: they are
    finite maps here, which is what the code reads for every key that is not
    the name of a member of [Object.prototype] ('constructor', 'toString',
    '__proto__', ...); trace serials are taken not to be such names.
    The per-object identity keys ([replayObjectKeys]) and the live-handle to
    wrapper maps are written by the source but never read by the engine; they
    are left out. *)

From Stdlib Require Import ZArith Lia QArith.
From stdpp Require Import gmap strings list.

Open Scope Z_scope.

(** ** JavaScript numbers *)

(** [ToInt32]: the operand conversion of the bitwise operators. *)
Definition to_int32 (z : Z) : Z := (z + 2 ^ 31) mod 2 ^ 32 - 2 ^ 31.

(** [a | b]. *)
Definition js_or (a b : Z) : Z := Z.lor (to_int32 a) (to_int32 b).

(** [a >> b]: sign-propagating shift, the count taken modulo 32. *)
Definition js_shr (a b : Z) : Z := Z.shiftr (to_int32 a) (b mod 32).

(** [Math.max(a, b)] on integers. *)
Definition js_max (a b : Z) : Z := Z.max a b.

(** A value the engine only passes through (colours, origins, formats). *)
Definition JsOpaque := string.

(** [a[i] = x] on a JavaScript array: writing past the end extends the array
    with holes. *)
Definition js_array_set {A} (i : nat) (x : A) (l : list (option A)) : list (option A) :=
  if (i <? length l)%nat then <[i := Some x]> l
  else l ++ replicate (i - length l) None ++ [Some x].

(** [obj[k]] where [k] may be [undefined]: the key is then the string
    "undefined". *)
Definition js_key (k : option string) : string := default "undefined"%string k.

(** ** The live graphics context *)

(** Live objects.  [device.queue] and [pipeline.getBindGroupLayout(i)] are
    queries on an existing object; every other object comes from a creation
    call and is numbered in call order. *)
Inductive Handle :=
| HObject (id : nat)
| HQueueOf (device : Handle)
| HBindGroupLayoutOf (pipeline : Handle) (groupIndex : option nat).

(** WebGPU constants used by the engine ([GPUBufferUsage], [GPUTextureUsage]
    of the WebGPU interface definition). *)
Module GPUBufferUsage.
Definition COPY_SRC : Z := 4.
Definition COPY_DST : Z := 8.
End GPUBufferUsage.

Module GPUTextureUsage.
Definition COPY_SRC : Z := 1.
Definition COPY_DST : Z := 2.
Definition TEXTURE_BINDING : Z := 4.
End GPUTextureUsage.

Record Extent3D := { ext_width : Z; ext_height : Z; ext_depthOrArrayLayers : Z }.

Record Viewport := {
  vp_x : Q; vp_y : Q; vp_width : Q; vp_height : Q; vp_minDepth : Q; vp_maxDepth : Q }.

(** Calls on a [GPURenderPassEncoder]. *)
Inductive PassCall :=
| PassDraw (vertexCount instanceCount firstVertex firstInstance : Z)
| PassDrawIndexed (indexCount instanceCount firstIndex baseVertex firstInstance : Z)
| PassEnd
| PassPopDebugGroup
| PassPushDebugGroup (groupLabel : string)
| PassSetBindGroup (index : nat) (bindGroup : Handle) (dynamicOffsets : option (list Z))
| PassSetIndexBuffer (buffer : Handle) (indexFormat : JsOpaque) (offset size : Z)
| PassSetPipeline (pipeline : Handle)
| PassSetVertexBuffer (slot : nat) (buffer : Handle) (offset size : Z)
| PassSetViewport (v : Viewport).

(** Calls on a [GPUCommandEncoder] that the host accepts.  The copy calls
    are not among them: see [encode_buffer_command]. *)
Inductive EncoderCall :=
| EncBeginRenderPass (colorViews : list Handle) (pass : Handle)
| EncPopDebugGroup
| EncPushDebugGroup (groupLabel : string)
| EncFinish (commandBuffer : Handle).

(** Every call the engine makes on the live graphics context. *)
Inductive GpuCall :=
| RequestAdapter (result : option Handle)
| RequestAdapterInfo (adapter : Handle)
| RequestDevice (adapter : Handle) (result : Handle)
| CreateBindGroupLayout (device : Handle) (result : Handle)
| CreatePipelineLayout (device : Handle) (bindGroupLayouts : list (option Handle)) (result : Handle)
| CreateShaderModule (device : Handle) (code : string) (result : Handle)
| CreateRenderPipelineAsync (device : Handle) (vertexModule : option Handle)
    (fragmentModule : option (option Handle)) (layout : option (option Handle)) (result : Handle)
| GetBindGroupLayout (pipeline : Handle) (groupIndex : option nat)
| CreateBuffer (device : Handle) (usage size : Z) (mappedAtCreation : bool) (result : Handle)
| CreateSampler (device : Handle) (result : Handle)
| CreateTexture (device : Handle) (usage : Z) (size : Extent3D) (result : Handle)
| CreateView (texture : Handle) (result : Handle)
| CreateQuerySet (device : Handle) (result : Handle)
| CreateBindGroup (device : Handle) (layout : option Handle) (resources : list (option Handle))
    (result : Handle)
| DestroyTexture (texture : Handle)
| WriteBuffer (queue buffer : Handle) (bufferOffset : Z) (data : list Z)
| WriteTexture (queue : Handle) (texture : Handle) (mipLevel : Z) (data : list Z)
    (bytesPerRow rowsPerImage : option Z) (size : Extent3D)
| WriteTextureCommand (queue : Handle) (texture : Handle) (data : list Z) (size : JsOpaque)
| CreateCommandEncoder (device : Handle) (result : Handle)
| OnEncoder (encoder : Handle) (call : EncoderCall)
| OnPass (pass : Handle) (call : PassCall)
| Submit (queue : Handle) (commandBuffers : list Handle).

(** ** Exceptions and the console *)

Inductive JsError := TypeError (what : string).

Inductive Res (A : Type) :=
| Ok (a : A)
| Throw (e : JsError).
Arguments Ok {A} a.
Arguments Throw {A} e.

Inductive ConsoleMsg :=
| AssertionFailed (message : string)
| Warning (message : string).

(** [`...'${name}'`]: the messages built from a command name. *)
Definition quoted (prefix name : string) : string :=
  (prefix ++ "'" ++ name ++ "'")%string.

(** ** Wrapper objects below the render pipeline *)

Record TraceData := { td_serial : string; td_size : Z }.

Record ReplayAdapter := { ra_label : string; ra_webgpuObject : Handle }.

Record ReplayDevice := { rd_label : string; rd_webgpuObject : Handle }.

Record ReplayQueue := {
  rq_label : string; rq_device : ReplayDevice; rq_webgpuObject : Handle }.

Record ReplayShaderModule := {
  rsm_label : string; rsm_device : ReplayDevice; rsm_code : string;
  rsm_webgpuObject : Handle }.

Record ReplayPipelineLayout := {
  rpl_label : string; rpl_device : ReplayDevice; rpl_webgpuObject : Handle }.

(** ** The Trace model *)

Record TraceAdapter := { tad_label : option string }.

Record TraceDevice := { tdv_label : option string; tdv_adapterSerial : string }.

Record TraceQueue := { tq_label : option string; tq_deviceSerial : string }.

(** A layout descriptor is explicit when it carries [entries]; an implicit
    one names the render pipeline it is derived from. *)
Inductive TraceBindGroupLayout :=
| TraceExplicitBindGroupLayout (label : option string) (deviceSerial : string)
    (entries : list JsOpaque)
| TraceImplicitBindGroupLayout (label : option string) (deviceSerial : string)
    (renderPipelineSerial : option string) (groupIndex : option nat).

Definition tbgl_label (d : TraceBindGroupLayout) : option string :=
  match d with
  | TraceExplicitBindGroupLayout l _ _ => l
  | TraceImplicitBindGroupLayout l _ _ _ => l
  end.

Definition tbgl_deviceSerial (d : TraceBindGroupLayout) : string :=
  match d with
  | TraceExplicitBindGroupLayout _ s _ => s
  | TraceImplicitBindGroupLayout _ s _ _ => s
  end.

Definition tbgl_entries (d : TraceBindGroupLayout) : option (list JsOpaque) :=
  match d with
  | TraceExplicitBindGroupLayout _ _ e => Some e
  | TraceImplicitBindGroupLayout _ _ _ _ => None
  end.

Definition tbgl_renderPipelineSerial (d : TraceBindGroupLayout) : option string :=
  match d with
  | TraceExplicitBindGroupLayout _ _ _ => None
  | TraceImplicitBindGroupLayout _ _ s _ => s
  end.

Definition tbgl_groupIndex (d : TraceBindGroupLayout) : option nat :=
  match d with
  | TraceExplicitBindGroupLayout _ _ _ => None
  | TraceImplicitBindGroupLayout _ _ _ g => g
  end.

Record TracePipelineLayout := {
  tpl_label : option string; tpl_deviceSerial : string;
  tpl_bindGroupLayoutsSerial : list string }.

Record TraceShaderModule := {
  tsm_label : option string; tsm_deviceSerial : string; tsm_code : string }.

(** A programmable stage of a pipeline descriptor.  [module] is absent in a
    captured trace; [ReplayRenderPipeline.recreate] writes it. *)
Record TraceProgrammableStage := {
  stage_moduleSerial : string;
  stage_module : option ReplayShaderModule;
  stage_entryPoint : string }.

(** The [layout] property of a pipeline descriptor: the string 'auto', or
    anything else (absent in a captured trace; written by [recreate]). *)
Inductive TraceLayoutField :=
| LayoutAuto
| LayoutValue (layout : option ReplayPipelineLayout).

Record TraceRenderPipeline := {
  trp_label : option string;
  trp_deviceSerial : string;
  trp_vertex : TraceProgrammableStage;
  trp_fragment : option TraceProgrammableStage;
  trp_layout : TraceLayoutField;
  trp_layoutSerial : option string }.

Record TraceBuffer := {
  tb_label : option string;
  tb_deviceSerial : string;
  tb_usage : Z;
  tb_size : Z;
  tb_state : string;
  tb_initialData : option TraceData }.

Record TraceSampler := { tsa_label : option string; tsa_deviceSerial : string }.

Record TraceTextureInitialData := {
  tid_data : TraceData; tid_mipLevel : Z; tid_bytesPerRow : option Z }.

Record TraceTexture := {
  tt_label : option string;
  tt_deviceSerial : string;
  tt_size : Extent3D;
  tt_format : JsOpaque;
  tt_usage : Z;
  tt_sampleCount : Z;
  tt_mipLevelCount : Z;
  tt_dimension : option string;
  tt_swapChainId : option string;
  tt_state : string;
  tt_initialData : option (list TraceTextureInitialData) }.

Record TraceTextureView := {
  ttv_label : option string;
  ttv_textureSerial : string;
  ttv_dimension : option string;
  ttv_baseMipLevel : option Z;
  ttv_mipLevelCount : option Z;
  ttv_baseArrayLayer : option Z;
  ttv_arrayLayerCount : option Z }.

Record TraceQuerySet := { tqs_label : option string; tqs_deviceSerial : string }.

Record TraceBindGroupEntry := {
  tbe_binding : nat;
  tbe_textureViewSerial : option string;
  tbe_samplerSerial : option string;
  tbe_bufferSerial : option string;
  tbe_offset : option Z;
  tbe_size : option Z }.

Record TraceBindGroup := {
  tbg_label : option string;
  tbg_deviceSerial : string;
  tbg_layoutSerial : string;
  tbg_entries : list TraceBindGroupEntry }.

(** *** Commands recorded in a command buffer *)

Record TraceColorAttachment := {
  tca_viewSerial : string;
  tca_resolveTargetSerial : option string;
  tca_clearValue : JsOpaque;
  tca_loadOp : string;
  tca_storeOp : string }.

Record TraceDepthStencilAttachment := {
  tds_viewSerial : string;
  tds_depthStoreOp : option string;
  tds_stencilStoreOp : option string }.

Record TraceTimestampWrite := {
  tw_querySetSerial : string; tw_queryIndex : Z; tw_location : JsOpaque }.

Record TraceBeginRenderPassArgs := {
  tbr_label : option string;
  tbr_colorAttachments : list TraceColorAttachment;
  tbr_depthStencilAttachment : option TraceDepthStencilAttachment;
  tbr_timestampWrites : list TraceTimestampWrite;
  tbr_occlusionQuerySetSerial : option string;
  tbr_maxDrawCount : Z }.

Record TraceImageCopyBuffer := { tcb_bufferSerial : string; tcb_offset : Z }.

Record TraceImageCopyTexture := { tct_textureSerial : string; tct_mipLevel : Z }.

(** The flat stream of a command buffer descriptor.  [TraceOtherCommand n]
    stands for a command whose [name] is [n], none of the names above it. *)
Inductive TraceCommandBufferCommand :=
| TraceBeginRenderPass (args : TraceBeginRenderPassArgs)
| TraceEndPass
| TraceCopyBufferToTexture (source : TraceImageCopyBuffer)
    (destination : TraceImageCopyTexture) (copySize : JsOpaque)
| TraceCopyTextureToTexture (source destination : TraceImageCopyTexture) (copySize : JsOpaque)
| TracePushDebugGroup (groupLabel : string)
| TracePopDebugGroup
| TraceSetBindGroup (index : nat) (bindGroupSerial : string) (dynamicOffsets : option (list Z))
| TraceSetIndexBuffer (bufferSerial : string) (indexFormat : JsOpaque) (offset size : Z)
| TraceSetPipeline (pipelineSerial : string)
| TraceSetVertexBuffer (slot : nat) (bufferSerial : string) (offset size : Z)
| TraceDraw (vertexCount instanceCount firstVertex firstInstance : Z)
| TraceDrawIndexed (indexCount instanceCount firstIndex baseVertex firstInstance : Z)
| TraceSetViewport (v : Viewport)
| TraceSetScissorRect (x y width height : Z)
| TraceOtherCommand (name : string).

Definition trace_command_name (c : TraceCommandBufferCommand) : string :=
  match c with
  | TraceBeginRenderPass _ => "beginRenderPass"
  | TraceEndPass => "endPass"
  | TraceCopyBufferToTexture _ _ _ => "copyBufferToTexture"
  | TraceCopyTextureToTexture _ _ _ => "copyTextureToTexture"
  | TracePushDebugGroup _ => "pushDebugGroup"
  | TracePopDebugGroup => "popDebugGroup"
  | TraceSetBindGroup _ _ _ => "setBindGroup"
  | TraceSetIndexBuffer _ _ _ _ => "setIndexBuffer"
  | TraceSetPipeline _ => "setPipeline"
  | TraceSetVertexBuffer _ _ _ _ => "setVertexBuffer"
  | TraceDraw _ _ _ _ => "draw"
  | TraceDrawIndexed _ _ _ _ _ => "drawIndexed"
  | TraceSetViewport _ => "setViewport"
  | TraceSetScissorRect _ _ _ _ => "setScissorRect"
  | TraceOtherCommand n => n
  end.

Record TraceCommandBuffer := {
  tcmb_label : option string; tcmb_commands : list TraceCommandBufferCommand }.

(** *** Top-level (queue) commands *)

Inductive TraceQueueCommand :=
| TraceQueueCommandSubmit (queueSerial : string) (commandBufferSerials : list string)
| TraceQueueCommandWriteBuffer (queueSerial bufferSerial : string) (bufferOffset : Z)
    (data : TraceData)
| TraceQueueCommandWriteTexture (queueSerial : string) (destination : TraceImageCopyTexture)
    (data : TraceData) (size : JsOpaque)
| TraceQueueCommandPresent (textureSerial : string) (canvasContextSerial : JsOpaque)
| TraceQueueCommandTextureDestroy (textureSerial : string)
| TraceQueueCommandBufferUpdateData (bufferSerial : string) (updates : JsOpaque)
| TraceQueueCommandBufferUnmap (bufferSerial : string)
| TraceQueueCommandOther (name : string).

Definition trace_queue_command_name (c : TraceQueueCommand) : string :=
  match c with
  | TraceQueueCommandSubmit _ _ => "queueSubmit"
  | TraceQueueCommandWriteBuffer _ _ _ _ => "queueWriteBuffer"
  | TraceQueueCommandWriteTexture _ _ _ _ => "queueWriteTexture"
  | TraceQueueCommandPresent _ _ => "present"
  | TraceQueueCommandTextureDestroy _ => "textureDestroy"
  | TraceQueueCommandBufferUpdateData _ _ => "bufferUpdateData"
  | TraceQueueCommandBufferUnmap _ => "bufferUnmap"
  | TraceQueueCommandOther n => n
  end.

(** *** The Trace value *)

(** [trace.objects]: per category, the descriptors keyed by serial, in the
    enumeration order of the JavaScript object; a category may be absent. *)
Record TraceObjects := {
  to_adapters : option (list (string * TraceAdapter));
  to_devices : option (list (string * TraceDevice));
  to_queues : option (list (string * TraceQueue));
  to_bindGroupLayouts : option (list (string * TraceBindGroupLayout));
  to_pipelineLayouts : option (list (string * TracePipelineLayout));
  to_shaderModules : option (list (string * TraceShaderModule));
  to_renderPipelines : option (list (string * TraceRenderPipeline));
  to_buffers : option (list (string * TraceBuffer));
  to_samplers : option (list (string * TraceSampler));
  to_textures : option (list (string * TraceTexture));
  to_textureViews : option (list (string * TraceTextureView));
  to_querySets : option (list (string * TraceQuerySet));
  to_bindGroups : option (list (string * TraceBindGroup));
  to_commandBuffers : option (list (string * TraceCommandBuffer)) }.

Record Trace := {
  trace_data : list (string * list Z);
  trace_objects : TraceObjects;
  trace_commands : list TraceQueueCommand }.

(** Assignment to [trace.objects.renderPipelines[serial]]'s fields: the only
    write the engine performs on the Trace value. *)
Definition set_renderPipelines (t : Trace) (ps : option (list (string * TraceRenderPipeline)))
  : Trace :=
  let o := trace_objects t in
  {| trace_data := trace_data t;
     trace_objects :=
       {| to_adapters := to_adapters o; to_devices := to_devices o;
          to_queues := to_queues o; to_bindGroupLayouts := to_bindGroupLayouts o;
          to_pipelineLayouts := to_pipelineLayouts o;
          to_shaderModules := to_shaderModules o;
          to_renderPipelines := ps;
          to_buffers := to_buffers o; to_samplers := to_samplers o;
          to_textures := to_textures o; to_textureViews := to_textureViews o;
          to_querySets := to_querySets o; to_bindGroups := to_bindGroups o;
          to_commandBuffers := to_commandBuffers o |};
     trace_commands := trace_commands t |}.

(** ** The remaining wrapper objects *)

Record ReplayBindGroupLayout := {
  rbgl_label : string;
  rbgl_device : option ReplayDevice;
  rbgl_desc : TraceBindGroupLayout;
  rbgl_webgpuObject : option Handle;
  rbgl_implicit : bool }.

(** [desc] of a pipeline wrapper is the descriptor object of the trace itself
    (the constructor stores the reference): it is kept as the serial under
    which that object sits in [trace.objects.renderPipelines]. *)
Record ReplayRenderPipeline := {
  rrp_label : string;
  rrp_device : ReplayDevice;
  rrp_desc : string;
  rrp_webgpuObject : Handle }.

Record ReplayBuffer := {
  rb_label : string;
  rb_device : ReplayDevice;
  rb_usage : Z;
  rb_size : Z;
  rb_webgpuObject : Handle }.

Record ReplaySampler := {
  rs_label : string; rs_device : ReplayDevice; rs_webgpuObject : Handle }.

Record ReplayTexture := {
  rt_label : string;
  rt_device : ReplayDevice;
  rt_size : Extent3D;
  rt_format : JsOpaque;
  rt_sampleCount : Z;
  rt_mipLevelCount : Z;
  rt_dimension : string;
  rt_swapChainId : option string;
  rt_webgpuObject : Handle }.

Record ReplayTextureView := {
  rtv_label : string;
  rtv_texture : ReplayTexture;
  rtv_dimension : option string;
  rtv_baseMipLevel : Z;
  rtv_mipLevelCount : Z;
  rtv_baseArrayLayer : Z;
  rtv_arrayLayerCount : Z;
  rtv_webgpuObject : Handle }.

Record ReplayQuerySet := {
  rqs_label : string; rqs_device : ReplayDevice; rqs_webgpuObject : Handle }.

Inductive ReplayBinding :=
| BindingTextureView (view : option ReplayTextureView)
| BindingSampler (sampler : option ReplaySampler)
| BindingBuffer (buffer : option ReplayBuffer) (offset size : option Z).

Record ReplayBindGroup := {
  rbg_label : string;
  rbg_device : ReplayDevice;
  rbg_bindings : list (option ReplayBinding);
  rbg_webgpuObject : Handle }.

(** ** Resolved commands *)

Record ReplayRenderPassColorAttachment := {
  ca_view : Handle;
  ca_viewState : ReplayTextureView;
  ca_resolveTarget : option Handle;
  ca_resolveTargetState : option ReplayTextureView;
  ca_clearValue : JsOpaque;
  ca_loadOp : string;
  ca_storeOp : string }.

Record ReplayRenderPassTimestampWrite := {
  rtw_querySet : Handle;
  rtw_querySetState : option ReplayQuerySet;
  rtw_queryIndex : Z;
  rtw_location : JsOpaque }.

Record ReplayRenderPassDepthStencilAttachment := {
  dsa_view : Handle;
  dsa_viewState : ReplayTextureView;
  dsa_depthStoreOp : option string;
  dsa_stencilStoreOp : option string }.

Record ReplayCommandBeginRenderPassArgs := {
  bra_label : option string;
  bra_colorAttachments : list ReplayRenderPassColorAttachment;
  bra_timestampWrites : list ReplayRenderPassTimestampWrite;
  bra_occlusionQuerySetState : option (option ReplayQuerySet);
  bra_maxDrawCount : Z;
  bra_depthStencilAttachment : option ReplayRenderPassDepthStencilAttachment }.

(** Copy endpoints after resolution: the wrapper is attached; the live handle
    the resolver stores next to it is deleted again by the resolver. *)
Record ReplayImageCopyBuffer := { cpb_bufferState : ReplayBuffer; cpb_offset : Z }.

Record ReplayImageCopyTexture := { cpt_textureState : ReplayTexture; cpt_mipLevel : Z }.

(** [ReplayCommandBufferCommand]: one union for what sits in a command buffer
    and what sits in a render pass.  Resolution starts from
    [structuredClone(command)]: a command that carries no serial (draw,
    drawIndexed, setViewport, the debug groups, endPass) stays that clone,
    and so does every command the resolver does not handle ([CmdClone]); the
    other constructors are the clones rewritten by the resolver, their
    serials replaced by wrappers. *)
Inductive ReplayCommandBufferCommand :=
| CmdClone (c : TraceCommandBufferCommand)
| CmdCopyTextureToTexture (source destination : ReplayImageCopyTexture) (copySize : JsOpaque)
| CmdCopyBufferToTexture (source : ReplayImageCopyBuffer)
    (destination : ReplayImageCopyTexture) (copySize : JsOpaque)
| CmdBeginRenderPass (args : ReplayCommandBeginRenderPassArgs)
| CmdRenderPass (renderPass : ReplayRenderPass)
| CmdSetBindGroup (index : nat) (bindGroup : option ReplayBindGroup)
    (dynamicOffsets : option (list Z))
| CmdSetIndexBuffer (buffer : option ReplayBuffer) (indexFormat : JsOpaque) (offset size : Z)
| CmdSetPipeline (pipeline : option ReplayRenderPipeline)
| CmdSetVertexBuffer (slot : nat) (buffer : option ReplayBuffer) (offset size : Z)
with ReplayRenderPass :=
| MkReplayRenderPass (label : string) (commands : list ReplayCommandBufferCommand).

Definition rp_label (rp : ReplayRenderPass) : string :=
  match rp with MkReplayRenderPass l _ => l end.

Definition rp_commands (rp : ReplayRenderPass) : list ReplayCommandBufferCommand :=
  match rp with MkReplayRenderPass _ cs => cs end.

(** [c.name]. *)
Definition command_name (c : ReplayCommandBufferCommand) : string :=
  match c with
  | CmdClone t => trace_command_name t
  | CmdCopyTextureToTexture _ _ _ => "copyTextureToTexture"
  | CmdCopyBufferToTexture _ _ _ => "copyBufferToTexture"
  | CmdBeginRenderPass _ => "beginRenderPass"
  | CmdRenderPass _ => "renderPass"
  | CmdSetBindGroup _ _ _ => "setBindGroup"
  | CmdSetIndexBuffer _ _ _ _ => "setIndexBuffer"
  | CmdSetPipeline _ => "setPipeline"
  | CmdSetVertexBuffer _ _ _ _ => "setVertexBuffer"
  end.

Record ReplayCommandBuffer := {
  rcb_label : string; rcb_commands : list ReplayCommandBufferCommand }.

Inductive ReplayQueueCommand :=
| ReplayCommandSubmit (queue : option ReplayQueue)
    (commandBuffers : list (option ReplayCommandBuffer))
| ReplayCommandWriteBuffer (queue : option ReplayQueue) (buffer : option ReplayBuffer)
    (bufferOffset : Z) (data : TraceData)
| ReplayCommandWriteTexture (queue : option ReplayQueue) (textureState : ReplayTexture)
    (texture : Handle) (mipLevel : Z) (data : TraceData) (size : JsOpaque)
| ReplayCommandPresent (texture : option ReplayTexture) (canvasContextSerial : JsOpaque)
| ReplayCommandTextureDestroy (texture : option ReplayTexture)
| ReplayCommandBufferUpdateData (buffer : option ReplayBuffer) (updates : JsOpaque)
| ReplayCommandBufferUnmap (buffer : option ReplayBuffer)
| ReplayCommandBad.

Definition queue_command_name (c : ReplayQueueCommand) : string :=
  match c with
  | ReplayCommandSubmit _ _ => "queueSubmit"
  | ReplayCommandWriteBuffer _ _ _ _ => "queueWriteBuffer"
  | ReplayCommandWriteTexture _ _ _ _ _ _ => "queueWriteTexture"
  | ReplayCommandPresent _ _ => "present"
  | ReplayCommandTextureDestroy _ => "textureDestroy"
  | ReplayCommandBufferUpdateData _ _ => "bufferUpdateData"
  | ReplayCommandBufferUnmap _ => "bufferUnmap"
  | ReplayCommandBad => "bad-command"
  end.

(** ** The Replay session *)

(** The registries and the resolved command list.  A fresh session has every
    registry empty and no command. *)
Record Replay := {
  data : gmap string (list Z);
  adapters : gmap string ReplayAdapter;
  devices : gmap string ReplayDevice;
  queues : gmap string ReplayQueue;
  bindGroupLayouts : gmap string ReplayBindGroupLayout;
  pipelineLayouts : gmap string ReplayPipelineLayout;
  shaderModules : gmap string ReplayShaderModule;
  renderPipelines : gmap string ReplayRenderPipeline;
  buffers : gmap string ReplayBuffer;
  samplers : gmap string ReplaySampler;
  textures : gmap string ReplayTexture;
  textureViews : gmap string ReplayTextureView;
  querySets : gmap string ReplayQuerySet;
  bindGroups : gmap string ReplayBindGroup;
  commandBuffers : gmap string ReplayCommandBuffer;
  commands : list ReplayQueueCommand }.

(** The snapshot built while a render pass is replayed. *)
Record RenderPassState := {
  rps_viewport : Viewport;
  rps_colorAttachments : list (ReplayTextureView * option ReplayTextureView);
  rps_depthStencilAttachment : option ReplayTextureView;
  rps_pipeline : option ReplayRenderPipeline;
  rps_bindGroups : list (option (ReplayBindGroup * option (list Z)));
  rps_vertexBuffers : list (option (ReplayBuffer * Z * Z));
  rps_indexBuffer : option ReplayBuffer * Z * Z }.

(** [replay.state]: whatever was assigned last. *)
Inductive ReplayState :=
| StateUndefined
| StateEmpty
| StateCurrentTexture (currentTexture : option ReplayTexture)
| StateBeginArgs (args : ReplayCommandBeginRenderPassArgs)
| StateRenderPass (s : RenderPassState).

(** ** The execution environment *)

(** What the engine can change besides its own locals: the Trace value it was
    handed, the live graphics context (call log and handle counter), the
    console, and the two session fields written during replay. *)
Record Env := {
  env_trace : Trace;
  env_gpu : list GpuCall;
  env_console : list ConsoleMsg;
  env_next : nat;
  env_state : ReplayState;
  env_textureStateToShow : option ReplayTexture }.

Definition init_env (t : Trace) : Env :=
  {| env_trace := t; env_gpu := []; env_console := []; env_next := 0%nat;
     env_state := StateUndefined; env_textureStateToShow := None |}.

Definition M (A : Type) : Type := Env -> Res A * Env.

Definition ret {A} (a : A) : M A := fun e => (Ok a, e).

Definition bind {A B} (m : M A) (k : A -> M B) : M B :=
  fun e => match m e with
           | (Ok a, e') => k a e'
           | (Throw err, e') => (Throw err, e')
           end.

Definition throw {A} (err : JsError) : M A := fun e => (Throw err, e).

Declare Scope js_scope.
Delimit Scope js_scope with js.
Notation "x <- c1 ;; c2" := (bind c1 (fun x => c2))
  (at level 100, c1 at next level, right associativity) : js_scope.
Notation "c1 ;; c2" := (bind c1 (fun _ : unit => c2))
  (at level 100, right associativity) : js_scope.
Open Scope js_scope.

(** The outcome of a settled promise, observed without re-raising. *)
Definition settle {A} (m : M A) : M (Res A) :=
  fun e => let (r, e') := m e in (Ok r, e').

(** Reading a property of [o]. *)
Definition deref {A} (what : string) (o : option A) : M A :=
  match o with
  | Some a => ret a
  | None => throw (TypeError what)
  end.

Definition gpu (c : GpuCall) : M unit :=
  fun e => (Ok tt,
            {| env_trace := env_trace e; env_gpu := env_gpu e ++ [c];
               env_console := env_console e; env_next := env_next e;
               env_state := env_state e;
               env_textureStateToShow := env_textureStateToShow e |}).

(** A call that returns a new live object. *)
Definition create (call : Handle -> GpuCall) : M Handle :=
  fun e => let h := HObject (env_next e) in
           (Ok h,
            {| env_trace := env_trace e; env_gpu := env_gpu e ++ [call h];
               env_console := env_console e; env_next := S (env_next e);
               env_state := env_state e;
               env_textureStateToShow := env_textureStateToShow e |}).

Definition console (m : ConsoleMsg) : M unit :=
  fun e => (Ok tt,
            {| env_trace := env_trace e; env_gpu := env_gpu e;
               env_console := env_console e ++ [m]; env_next := env_next e;
               env_state := env_state e;
               env_textureStateToShow := env_textureStateToShow e |}).

Definition console_assert (cond : bool) (message : string) : M unit :=
  if cond then ret tt else console (AssertionFailed message).

Definition console_warn (message : string) : M unit := console (Warning message).

Definition set_state (s : ReplayState) : M unit :=
  fun e => (Ok tt,
            {| env_trace := env_trace e; env_gpu := env_gpu e;
               env_console := env_console e; env_next := env_next e;
               env_state := s;
               env_textureStateToShow := env_textureStateToShow e |}).

Definition get_state : M ReplayState := fun e => (Ok (env_state e), e).

Definition set_textureStateToShow (t : ReplayTexture) : M unit :=
  fun e => (Ok tt,
            {| env_trace := env_trace e; env_gpu := env_gpu e;
               env_console := env_console e; env_next := env_next e;
               env_state := env_state e;
               env_textureStateToShow := Some t |}).

Definition modify_trace (f : Trace -> Trace) : M unit :=
  fun e => (Ok tt,
            {| env_trace := f (env_trace e); env_gpu := env_gpu e;
               env_console := env_console e; env_next := env_next e;
               env_state := env_state e;
               env_textureStateToShow := env_textureStateToShow e |}).

(** [for (const x of l) body(x)]. *)
Fixpoint for_of {A} (l : list A) (body : A -> M unit) : M unit :=
  match l with
  | [] => ret tt
  | x :: l' => body x ;; for_of l' body
  end.

(** [l.map(f)] with a callback that may raise. *)
Fixpoint map_m {A B} (f : A -> M B) (l : list A) : M (list B) :=
  match l with
  | [] => ret []
  | x :: l' => y <- f x ;; ys <- map_m f l' ;; ret (y :: ys)
  end.

(** [for (let i = start; ...; i++) body(i)], run [count] times. *)
Fixpoint for_range (count start : nat) (body : nat -> M unit) : M unit :=
  match count with
  | O => ret tt
  | S n => body start ;; for_range n (S start) body
  end.

(** [desc.label ?? '']. *)
Definition label_of (l : option string) : string := default ""%string l.

(** ** Reconstruction: the wrapper constructors

    A constructor receives the session ([this.replay]); the registries it
    reads from it are the first arguments here. *)

(** [Replay.getData]: a serial [this.data] does not hold raises at
    [dataBuf.byteLength]. *)
Definition getData (r_data : gmap string (list Z)) (serializedData : TraceData)
  : M (list Z) :=
  dataBuf <- deref "byteLength" (r_data !! td_serial serializedData) ;;
  console_assert (Z.of_nat (length dataBuf) =? td_size serializedData) "" ;;
  ret dataBuf.

(** [ReplayAdapter].  The constructor makes no call: [webgpuObject] is not
    set when it runs.  [recreate] is an async function with two [await]s; it
    is given in two parts, cut at the first one.

    Up to the first [await]: the adapter is requested from the injected
    acquisition function. *)
Definition ReplayAdapter_recreate_request
    (requestUnwrappedAdapter : TraceAdapter -> option Handle) (desc : TraceAdapter)
  : M (option Handle) :=
  let webgpuObject := requestUnwrappedAdapter desc in
  gpu (RequestAdapter webgpuObject) ;;
  ret webgpuObject.

(** From the first [await] on, once the adapter has arrived. *)
Definition ReplayAdapter_recreate_resume (desc : TraceAdapter) (webgpuObject : option Handle)
  : M ReplayAdapter :=
  adapter <- deref "requestAdapterInfo" webgpuObject ;;
  gpu (RequestAdapterInfo adapter) ;;
  ret {| ra_label := label_of (tad_label desc); ra_webgpuObject := adapter |}.

(** [ReplayDevice]: constructor and [recreate].  The only [await] of
    [recreate] is on the result of its last call. *)
Definition new_ReplayDevice (r_adapters : gmap string ReplayAdapter) (desc : TraceDevice)
  : M ReplayDevice :=
  adapter <- deref "webgpuObject" (r_adapters !! tdv_adapterSerial desc) ;;
  device <- create (RequestDevice (ra_webgpuObject adapter)) ;;
  ret {| rd_label := label_of (tdv_label desc); rd_webgpuObject := device |}.

Definition new_ReplayQueue (r_devices : gmap string ReplayDevice) (desc : TraceQueue)
  : M ReplayQueue :=
  device <- deref "webgpuObject" (r_devices !! tq_deviceSerial desc) ;;
  ret {| rq_label := label_of (tq_label desc); rq_device := device;
         rq_webgpuObject := HQueueOf (rd_webgpuObject device) |}.

Definition new_ReplayBindGroupLayout (r_devices : gmap string ReplayDevice)
    (desc : TraceBindGroupLayout) : M ReplayBindGroupLayout :=
  let device := r_devices !! tbgl_deviceSerial desc in
  let implicit := match tbgl_entries desc with None => true | Some _ => false end in
  if implicit then
    ret {| rbgl_label := label_of (tbgl_label desc); rbgl_device := device;
           rbgl_desc := desc; rbgl_webgpuObject := None; rbgl_implicit := implicit |}
  else
    dev <- deref "webgpuObject" device ;;
    layout <- create (CreateBindGroupLayout (rd_webgpuObject dev)) ;;
    ret {| rbgl_label := label_of (tbgl_label desc); rbgl_device := device;
           rbgl_desc := desc; rbgl_webgpuObject := Some layout;
           rbgl_implicit := implicit |}.

(** [ReplayBindGroupLayout.initializeFromImplicitDesc]. *)
Definition initializeFromImplicitDesc (r_renderPipelines : gmap string ReplayRenderPipeline)
    (this : ReplayBindGroupLayout) : M ReplayBindGroupLayout :=
  pipeline <- deref "webgpuObject"
    (r_renderPipelines !! js_key (tbgl_renderPipelineSerial (rbgl_desc this))) ;;
  let groupIndex := tbgl_groupIndex (rbgl_desc this) in
  gpu (GetBindGroupLayout (rrp_webgpuObject pipeline) groupIndex) ;;
  ret {| rbgl_label := rbgl_label this; rbgl_device := rbgl_device this;
         rbgl_desc := rbgl_desc this;
         rbgl_webgpuObject := Some (HBindGroupLayoutOf (rrp_webgpuObject pipeline) groupIndex);
         rbgl_implicit := rbgl_implicit this |}.

Definition new_ReplayPipelineLayout (r_devices : gmap string ReplayDevice)
    (r_bindGroupLayouts : gmap string ReplayBindGroupLayout) (desc : TracePipelineLayout)
  : M ReplayPipelineLayout :=
  device <- deref "webgpuObject" (r_devices !! tpl_deviceSerial desc) ;;
  layouts <- map_m (fun s => l <- deref "webgpuObject" (r_bindGroupLayouts !! s) ;;
                             ret (rbgl_webgpuObject l))
                   (tpl_bindGroupLayoutsSerial desc) ;;
  layout <- create (CreatePipelineLayout (rd_webgpuObject device) layouts) ;;
  ret {| rpl_label := label_of (tpl_label desc); rpl_device := device;
         rpl_webgpuObject := layout |}.

(** [ReplayShaderModule].  The creation call is guarded
    ([this.device.webgpuObject?.createShaderModule]); a device wrapper of
    the registry always holds its live device, so the guard never skips the
    call, and a serial the registry does not hold raises at
    [this.device.webgpuObject]. *)
Definition new_ReplayShaderModule (r_devices : gmap string ReplayDevice)
    (desc : TraceShaderModule) : M ReplayShaderModule :=
  device <- deref "webgpuObject" (r_devices !! tsm_deviceSerial desc) ;;
  module <- create (CreateShaderModule (rd_webgpuObject device) (tsm_code desc)) ;;
  ret {| rsm_label := label_of (tsm_label desc); rsm_device := device;
         rsm_code := tsm_code desc; rsm_webgpuObject := module |}.

(** Writing a field of the descriptor object that sits under [serial] in
    [trace.objects.renderPipelines]. *)
Definition write_pipeline_desc (serial : string) (f : TraceRenderPipeline -> TraceRenderPipeline)
  : M unit :=
  modify_trace (fun t =>
    set_renderPipelines t
      (option_map (map (fun kv : string * TraceRenderPipeline =>
                          if String.eqb (fst kv) serial then (fst kv, f (snd kv)) else kv))
                  (to_renderPipelines (trace_objects t)))).

Definition set_stage_module (m : option ReplayShaderModule) (s : TraceProgrammableStage)
  : TraceProgrammableStage :=
  {| stage_moduleSerial := stage_moduleSerial s; stage_module := m;
     stage_entryPoint := stage_entryPoint s |}.

Definition set_vertex_module (m : option ReplayShaderModule) (d : TraceRenderPipeline)
  : TraceRenderPipeline :=
  {| trp_label := trp_label d; trp_deviceSerial := trp_deviceSerial d;
     trp_vertex := set_stage_module m (trp_vertex d);
     trp_fragment := trp_fragment d; trp_layout := trp_layout d;
     trp_layoutSerial := trp_layoutSerial d |}.

Definition set_fragment_module (m : option ReplayShaderModule) (d : TraceRenderPipeline)
  : TraceRenderPipeline :=
  {| trp_label := trp_label d; trp_deviceSerial := trp_deviceSerial d;
     trp_vertex := trp_vertex d;
     trp_fragment := option_map (set_stage_module m) (trp_fragment d);
     trp_layout := trp_layout d; trp_layoutSerial := trp_layoutSerial d |}.

Definition set_layout (l : option ReplayPipelineLayout) (d : TraceRenderPipeline)
  : TraceRenderPipeline :=
  {| trp_label := trp_label d; trp_deviceSerial := trp_deviceSerial d;
     trp_vertex := trp_vertex d; trp_fragment := trp_fragment d;
     trp_layout := LayoutValue l; trp_layoutSerial := trp_layoutSerial d |}.

(** [ReplayRenderPipeline]: constructor and [recreate].  [this.desc] is
    [desc] itself, the object under [serial] in the trace, so the three
    assignments of [recreate] land in the trace. *)
Definition new_ReplayRenderPipeline (r_devices : gmap string ReplayDevice)
    (r_shaderModules : gmap string ReplayShaderModule)
    (r_pipelineLayouts : gmap string ReplayPipelineLayout)
    (serial : string) (desc : TraceRenderPipeline) : M ReplayRenderPipeline :=
  let device := r_devices !! trp_deviceSerial desc in
  let vsModule := r_shaderModules !! stage_moduleSerial (trp_vertex desc) in
  write_pipeline_desc serial (set_vertex_module vsModule) ;;
  vs <- deref "webgpuObject" vsModule ;;
  fragment <-
    match trp_fragment desc with
    | Some f =>
        let fsModule := r_shaderModules !! stage_moduleSerial f in
        write_pipeline_desc serial (set_fragment_module fsModule) ;;
        fs <- deref "webgpuObject" fsModule ;;
        ret (Some (Some (rsm_webgpuObject fs)))
    | None => ret None
    end ;;
  layout <-
    match trp_layout desc with
    | LayoutAuto => ret None
    | LayoutValue _ =>
        let layout := r_pipelineLayouts !! js_key (trp_layoutSerial desc) in
        write_pipeline_desc serial (set_layout layout) ;;
        l <- deref "webgpuObject" layout ;;
        ret (Some (Some (rpl_webgpuObject l)))
    end ;;
  dev <- deref "webgpuObject" device ;;
  pipeline <- create (CreateRenderPipelineAsync (rd_webgpuObject dev)
                        (Some (rsm_webgpuObject vs)) fragment layout) ;;
  ret {| rrp_label := label_of (trp_label desc); rrp_device := dev; rrp_desc := serial;
         rrp_webgpuObject := pipeline |}.

(** The usage a buffer is created with. *)
Definition createBuffer_usage (desc : TraceBuffer) : Z :=
  js_or (js_or (tb_usage desc) GPUBufferUsage.COPY_SRC) GPUBufferUsage.COPY_DST.

Definition new_ReplayBuffer (r_devices : gmap string ReplayDevice)
    (r_data : gmap string (list Z)) (desc : TraceBuffer) : M ReplayBuffer :=
  let device := r_devices !! tb_deviceSerial desc in
  console_assert (String.eqb (tb_state desc) "unmapped"
                  || String.eqb (tb_state desc) "mapped-at-creation") "" ;;
  dev <- deref "webgpuObject" device ;;
  buffer <- create (CreateBuffer (rd_webgpuObject dev) (createBuffer_usage desc)
                      (tb_size desc) (String.eqb (tb_state desc) "mapped-at-creation")) ;;
  match tb_initialData desc with
  | Some initialData =>
      dataBuf <- getData r_data initialData ;;
      gpu (WriteBuffer (HQueueOf (rd_webgpuObject dev)) buffer 0 dataBuf)
  | None => ret tt
  end ;;
  ret {| rb_label := label_of (tb_label desc); rb_device := dev;
         rb_usage := tb_usage desc; rb_size := tb_size desc; rb_webgpuObject := buffer |}.

Definition new_ReplaySampler (r_devices : gmap string ReplayDevice) (desc : TraceSampler)
  : M ReplaySampler :=
  device <- deref "webgpuObject" (r_devices !! tsa_deviceSerial desc) ;;
  sampler <- create (CreateSampler (rd_webgpuObject device)) ;;
  ret {| rs_label := label_of (tsa_label desc); rs_device := device;
         rs_webgpuObject := sampler |}.

(** The usage a texture is created with. *)
Definition createTexture_usage (desc : TraceTexture) : Z :=
  js_or (js_or (js_or (tt_usage desc) GPUTextureUsage.COPY_SRC) GPUTextureUsage.COPY_DST)
        GPUTextureUsage.TEXTURE_BINDING.

(** [ReplayTexture.loadInitialData]. *)
Definition loadInitialData (r_data : gmap string (list Z)) (this : ReplayTexture)
    (initialData : list TraceTextureInitialData) : M unit :=
  if negb (rt_sampleCount this =? 1) then
    console_warn "No support for sampleCount > 1 texture initial data."
  else if negb (String.eqb (rt_dimension this) "2d") then
    console_warn "No support for dimension != '2d' texture initial data."
  else
    for_of initialData (fun subResource =>
      dataBuf <- getData r_data (tid_data subResource) ;;
      let mip := tid_mipLevel subResource in
      let width := js_max 1 (js_shr (ext_width (rt_size this)) mip) in
      let height := js_max 1 (js_shr (ext_height (rt_size this)) mip) in
      let depthOrArrayLayers := ext_depthOrArrayLayers (rt_size this) in
      gpu (WriteTexture (HQueueOf (rd_webgpuObject (rt_device this))) (rt_webgpuObject this)
             mip dataBuf (tid_bytesPerRow subResource) (Some height)
             {| ext_width := width; ext_height := height;
                ext_depthOrArrayLayers := depthOrArrayLayers |})).

Definition new_ReplayTexture (r_devices : gmap string ReplayDevice)
    (r_data : gmap string (list Z)) (desc : TraceTexture) : M ReplayTexture :=
  let device := r_devices !! tt_deviceSerial desc in
  dev <- deref "webgpuObject" device ;;
  texture <- create (CreateTexture (rd_webgpuObject dev) (createTexture_usage desc)
                       (tt_size desc)) ;;
  let this :=
    {| rt_label := label_of (tt_label desc); rt_device := dev; rt_size := tt_size desc;
       rt_format := tt_format desc; rt_sampleCount := tt_sampleCount desc;
       rt_mipLevelCount := tt_mipLevelCount desc;
       rt_dimension := default "2d"%string (tt_dimension desc);
       rt_swapChainId := tt_swapChainId desc; rt_webgpuObject := texture |} in
  match tt_initialData desc with
  | Some initialData => loadInitialData r_data this initialData
  | None =>
      if String.eqb (tt_state desc) "destroyed" then gpu (DestroyTexture texture)
      else ret tt
  end ;;
  ret this.

Definition texture_view_dimension (texture : ReplayTexture) : option string :=
  if String.eqb (rt_dimension texture) "1d" then Some "1d"%string
  else if String.eqb (rt_dimension texture) "2d" then
    Some (if ext_depthOrArrayLayers (rt_size texture) >? 1 then "2d-array" else "2d")%string
  else if String.eqb (rt_dimension texture) "3d" then Some "3d"%string
  else None.

Definition new_ReplayTextureView (r_textures : gmap string ReplayTexture)
    (desc : TraceTextureView) : M ReplayTextureView :=
  let texture := r_textures !! ttv_textureSerial desc in
  dimension <-
    match ttv_dimension desc with
    | Some d => ret (Some d)
    | None => t <- deref "dimension" texture ;; ret (texture_view_dimension t)
    end ;;
  let baseMipLevel := default 0 (ttv_baseMipLevel desc) in
  mipLevelCount <-
    match ttv_mipLevelCount desc with
    | Some n => ret n
    | None => t <- deref "mipLevelCount" texture ;; ret (rt_mipLevelCount t - baseMipLevel)
    end ;;
  let baseArrayLayer := default 0 (ttv_baseArrayLayer desc) in
  arrayLayerCount <-
    match ttv_dimension desc, ttv_arrayLayerCount desc with
    | _, Some n => ret n
    | Some d, None =>
        if String.eqb d "2d-array" then
          t <- deref "size" texture ;;
          ret (ext_depthOrArrayLayers (rt_size t) - baseArrayLayer)
        else ret 1
    | None, None => ret 1
    end ;;
  t <- deref "webgpuObject" texture ;;
  view <- create (CreateView (rt_webgpuObject t)) ;;
  ret {| rtv_label := label_of (ttv_label desc); rtv_texture := t;
         rtv_dimension := dimension; rtv_baseMipLevel := baseMipLevel;
         rtv_mipLevelCount := mipLevelCount; rtv_baseArrayLayer := baseArrayLayer;
         rtv_arrayLayerCount := arrayLayerCount; rtv_webgpuObject := view |}.

Definition new_ReplayQuerySet (r_devices : gmap string ReplayDevice) (desc : TraceQuerySet)
  : M ReplayQuerySet :=
  device <- deref "webgpuObject" (r_devices !! tqs_deviceSerial desc) ;;
  querySet <- create (CreateQuerySet (rd_webgpuObject device)) ;;
  ret {| rqs_label := label_of (tqs_label desc); rqs_device := device;
         rqs_webgpuObject := querySet |}.

Definition new_ReplayBindGroup (r_devices : gmap string ReplayDevice)
    (r_bindGroupLayouts : gmap string ReplayBindGroupLayout)
    (r_textureViews : gmap string ReplayTextureView)
    (r_samplers : gmap string ReplaySampler)
    (r_buffers : gmap string ReplayBuffer)
    (desc : TraceBindGroup) : M ReplayBindGroup :=
  let device := r_devices !! tbg_deviceSerial desc in
  let bindings :=
    fold_left (fun bindings e =>
      match tbe_textureViewSerial e, tbe_samplerSerial e, tbe_bufferSerial e with
      | Some s, _, _ =>
          js_array_set (tbe_binding e) (BindingTextureView (r_textureViews !! s)) bindings
      | None, Some s, _ =>
          js_array_set (tbe_binding e) (BindingSampler (r_samplers !! s)) bindings
      | None, None, Some s =>
          js_array_set (tbe_binding e)
            (BindingBuffer (r_buffers !! s) (tbe_offset e) (tbe_size e)) bindings
      | None, None, None => bindings
      end) (tbg_entries desc) [] in
  dev <- deref "webgpuObject" device ;;
  layout <- deref "webgpuObject" (r_bindGroupLayouts !! tbg_layoutSerial desc) ;;
  resources <- map_m (fun e =>
      match tbe_textureViewSerial e, tbe_samplerSerial e, tbe_bufferSerial e with
      | Some s, _, _ =>
          v <- deref "webgpuObject" (r_textureViews !! s) ;; ret (Some (rtv_webgpuObject v))
      | None, Some s, _ =>
          v <- deref "webgpuObject" (r_samplers !! s) ;; ret (Some (rs_webgpuObject v))
      | None, None, Some s =>
          v <- deref "webgpuObject" (r_buffers !! s) ;; ret (Some (rb_webgpuObject v))
      | None, None, None => ret None
      end) (tbg_entries desc) ;;
  bindGroup <- create (CreateBindGroup (rd_webgpuObject dev) (rbgl_webgpuObject layout)
                         resources) ;;
  ret {| rbg_label := label_of (tbg_label desc); rbg_device := dev;
         rbg_bindings := bindings; rbg_webgpuObject := bindGroup |}.

(** ** Command resolution *)

(** [if (serial)]: a serial is truthy when present and not the empty string. *)
Definition truthy_serial (s : option string) : option string :=
  match s with
  | Some v => if String.eqb v "" then None else Some v
  | None => None
  end.

(** The rewriting of the arguments of a beginRenderPass clone, first part of
    the 'beginRenderPass' case of [ReplayCommandBuffer.consumeCommands].  A
    timestamp write reads [w.querySet.webgpuObject] where the trace carries
    [querySetSerial] only, so it raises. *)
Definition resolve_beginRenderPass (replay : Replay) (args : TraceBeginRenderPassArgs)
  : M ReplayCommandBeginRenderPassArgs :=
  colorAttachments <- map_m (fun a =>
      viewState <- deref "webgpuObject" (textureViews replay !! tca_viewSerial a) ;;
      resolve <-
        match truthy_serial (tca_resolveTargetSerial a) with
        | Some s =>
            resolveTargetState <- deref "webgpuObject" (textureViews replay !! s) ;;
            ret (Some (rtv_webgpuObject resolveTargetState), Some resolveTargetState)
        | None => ret (None, None)
        end ;;
      ret {| ca_view := rtv_webgpuObject viewState; ca_viewState := viewState;
             ca_resolveTarget := fst resolve; ca_resolveTargetState := snd resolve;
             ca_clearValue := tca_clearValue a; ca_loadOp := tca_loadOp a;
             ca_storeOp := tca_storeOp a |})
    (tbr_colorAttachments args) ;;
  depthStencilAttachment <-
    match tbr_depthStencilAttachment args with
    | Some ds =>
        viewState <- deref "webgpuObject" (textureViews replay !! tds_viewSerial ds) ;;
        ret (Some {| dsa_view := rtv_webgpuObject viewState; dsa_viewState := viewState;
                     dsa_depthStoreOp := tds_depthStoreOp ds;
                     dsa_stencilStoreOp := tds_stencilStoreOp ds |})
    | None => ret None
    end ;;
  timestampWrites <- map_m (fun w =>
      let querySetState := querySets replay !! tw_querySetSerial w in
      querySet <- deref "webgpuObject" (None : option ReplayQuerySet) ;;
      ret {| rtw_querySet := rqs_webgpuObject querySet; rtw_querySetState := querySetState;
             rtw_queryIndex := tw_queryIndex w; rtw_location := tw_location w |})
    (tbr_timestampWrites args) ;;
  let occlusionQuerySetState :=
    option_map (fun s => querySets replay !! s) (tbr_occlusionQuerySetSerial args) in
  ret {| bra_label := tbr_label args;
         bra_colorAttachments := colorAttachments;
         bra_timestampWrites := timestampWrites;
         bra_occlusionQuerySetState := occlusionQuerySetState;
         bra_maxDrawCount := tbr_maxDrawCount args;
         bra_depthStencilAttachment := depthStencilAttachment |}.

(** The switch of [ReplayRenderPass.consumeCommands] for a command other
    than endPass: the value pushed on [this.commands]. *)
Definition resolve_render_pass_command (replay : Replay) (c : TraceCommandBufferCommand)
  : M ReplayCommandBufferCommand :=
  match c with
  | TraceSetBindGroup index bindGroupSerial dynamicOffsets =>
      ret (CmdSetBindGroup index (bindGroups replay !! bindGroupSerial) dynamicOffsets)
  | TraceSetIndexBuffer bufferSerial indexFormat offset size =>
      ret (CmdSetIndexBuffer (buffers replay !! bufferSerial) indexFormat offset size)
  | TraceSetPipeline pipelineSerial =>
      ret (CmdSetPipeline (renderPipelines replay !! pipelineSerial))
  | TraceSetVertexBuffer slot bufferSerial offset size =>
      ret (CmdSetVertexBuffer slot (buffers replay !! bufferSerial) offset size)
  | TraceDraw _ _ _ _ | TraceDrawIndexed _ _ _ _ _ => ret (CmdClone c)
  | TraceSetViewport _ | TracePushDebugGroup _ | TracePopDebugGroup => ret (CmdClone c)
  | _ =>
      console_assert false
        (quoted "Unhandled render pass command type " (trace_command_name c)) ;;
      ret (CmdClone c)
  end.

(** [ReplayRenderPass.consumeCommands]: [commands] is [this.commands], which
    already holds the begin marker; the result is [this.commands] at the
    return and what is left in the iterator. *)
Fixpoint ReplayRenderPass_consumeCommands (replay : Replay)
    (commandIterator : list TraceCommandBufferCommand)
    (commands : list ReplayCommandBufferCommand)
  : M (list ReplayCommandBufferCommand * list TraceCommandBufferCommand) :=
  match commandIterator with
  | [] =>
      console_assert false "BeginRenderPass command doesn't have an associated EndPass." ;;
      ret (commands, [])
  | TraceEndPass :: rest => ret (commands ++ [CmdClone TraceEndPass], rest)
  | c :: rest =>
      c' <- resolve_render_pass_command replay c ;;
      ReplayRenderPass_consumeCommands replay rest (commands ++ [c'])
  end.

(** [ReplayCommandBuffer.consumeCommands].  The render pass reads from the
    same iterator, so the loop goes on from what the pass left; [fuel] bounds
    the number of iterations and is the length of the stream. *)
Fixpoint ReplayCommandBuffer_consumeCommands (fuel : nat) (replay : Replay)
    (commandIterator : list TraceCommandBufferCommand)
    (commands : list ReplayCommandBufferCommand)
  : M (list ReplayCommandBufferCommand) :=
  match fuel, commandIterator with
  | O, _ => ret commands
  | _, [] => ret commands
  | S fuel', c :: rest =>
      match c with
      | TraceBeginRenderPass args =>
          args' <- resolve_beginRenderPass replay args ;;
          rp <- ReplayRenderPass_consumeCommands replay rest [CmdBeginRenderPass args'] ;;
          ReplayCommandBuffer_consumeCommands fuel' replay (snd rp)
            (commands ++ [CmdRenderPass (MkReplayRenderPass (label_of (bra_label args'))
                                           (fst rp))])
      | TraceCopyBufferToTexture source destination copySize =>
          bufferState <- deref "webgpuObject" (buffers replay !! tcb_bufferSerial source) ;;
          textureState <- deref "webgpuObject"
            (textures replay !! tct_textureSerial destination) ;;
          ReplayCommandBuffer_consumeCommands fuel' replay rest
            (commands ++ [CmdCopyBufferToTexture
                            {| cpb_bufferState := bufferState;
                               cpb_offset := tcb_offset source |}
                            {| cpt_textureState := textureState;
                               cpt_mipLevel := tct_mipLevel destination |}
                            copySize])
      | TraceCopyTextureToTexture source destination copySize =>
          sourceState <- deref "webgpuObject" (textures replay !! tct_textureSerial source) ;;
          destinationState <- deref "webgpuObject"
            (textures replay !! tct_textureSerial destination) ;;
          ReplayCommandBuffer_consumeCommands fuel' replay rest
            (commands ++ [CmdCopyTextureToTexture
                            {| cpt_textureState := sourceState;
                               cpt_mipLevel := tct_mipLevel source |}
                            {| cpt_textureState := destinationState;
                               cpt_mipLevel := tct_mipLevel destination |}
                            copySize])
      | TracePushDebugGroup _ | TracePopDebugGroup =>
          ReplayCommandBuffer_consumeCommands fuel' replay rest (commands ++ [CmdClone c])
      | _ =>
          console_assert false
            (quoted "Unhandled command encoder command " (trace_command_name c)) ;;
          ReplayCommandBuffer_consumeCommands fuel' replay rest (commands ++ [CmdClone c])
      end
  end.

(** [ReplayCommandBuffer]: the constructor.  Its closing assertion, that the
    iterator is exhausted, holds whenever the loop above has returned. *)
Definition new_ReplayCommandBuffer (replay : Replay) (desc : TraceCommandBuffer)
  : M ReplayCommandBuffer :=
  commands <- ReplayCommandBuffer_consumeCommands (length (tcmb_commands desc)) replay
                (tcmb_commands desc) [] ;;
  ret {| rcb_label := label_of (tcmb_label desc); rcb_commands := commands |}.

(** The callback of [trace.commands.map] in [Replay.load]. *)
Definition resolve_queue_command (replay : Replay) (c : TraceQueueCommand)
  : M ReplayQueueCommand :=
  match c with
  | TraceQueueCommandSubmit queueSerial commandBufferSerials =>
      ret (ReplayCommandSubmit (queues replay !! queueSerial)
             (map (fun serial => commandBuffers replay !! serial) commandBufferSerials))
  | TraceQueueCommandWriteBuffer queueSerial bufferSerial bufferOffset data =>
      ret (ReplayCommandWriteBuffer (queues replay !! queueSerial)
             (buffers replay !! bufferSerial) bufferOffset data)
  | TraceQueueCommandWriteTexture queueSerial destination data size =>
      textureState <- deref "webgpuObject"
        (textures replay !! tct_textureSerial destination) ;;
      ret (ReplayCommandWriteTexture (queues replay !! queueSerial) textureState
             (rt_webgpuObject textureState) (tct_mipLevel destination) data size)
  | TraceQueueCommandPresent textureSerial canvasContextSerial =>
      ret (ReplayCommandPresent (textures replay !! textureSerial) canvasContextSerial)
  | TraceQueueCommandTextureDestroy textureSerial =>
      ret (ReplayCommandTextureDestroy (textures replay !! textureSerial))
  | TraceQueueCommandBufferUpdateData bufferSerial updates =>
      ret (ReplayCommandBufferUpdateData (buffers replay !! bufferSerial) updates)
  | TraceQueueCommandBufferUnmap bufferSerial =>
      ret (ReplayCommandBufferUnmap (buffers replay !! bufferSerial))
  | TraceQueueCommandOther name =>
      console_assert false (quoted "Unhandled command type " name) ;;
      ret ReplayCommandBad
  end.

(** ** Reconstruction: [Replay.load] *)

(** What [recreateObjects] and [recreateObjectsAsync] return: the empty
    object literal when the category is absent from the trace, else the pair
    whose first component is the registry of the category. *)
Inductive Recreated (T : Type) :=
| EmptyObject
| RecreatedObjects (recreatedObjects : gmap string T).
Arguments EmptyObject {T}.
Arguments RecreatedObjects {T} recreatedObjects.

(** [[a, b] = value]: array destructuring needs an iterable. *)
Definition destructure {T} (value : Recreated T) : M (gmap string T) :=
  match value with
  | EmptyObject => throw (TypeError "{} is not iterable")
  | RecreatedObjects objs => ret objs
  end.

Fixpoint recreate_loop {D T} (Class : string -> D -> M T) (descMap : list (string * D))
    (recreatedObjects : gmap string T) : M (gmap string T) :=
  match descMap with
  | [] => ret recreatedObjects
  | (traceSerial, desc) :: descMap' =>
      obj <- Class traceSerial desc ;;
      recreate_loop Class descMap' (<[traceSerial := obj]> recreatedObjects)
  end.

(** [recreateObjects]: [Class] gets the descriptor and the serial it sits
    under (the address of the descriptor object). *)
Definition recreateObjects {D T} (Class : string -> D -> M T)
    (descMap : option (list (string * D))) : M (Recreated T) :=
  match descMap with
  | None => ret EmptyObject
  | Some l => objs <- recreate_loop Class l ∅ ;; ret (RecreatedObjects objs)
  end.

(** The loop of [recreateObjectsAsync].  Calling an async function runs it
    up to its first [await], so when the loop ends the constructor of every
    object has run and every [recreate] has run that far ([start]), in
    enumeration order.  An exception there rejects the promise of that
    [recreate]; it does not leave the loop.  The result lists, per object,
    what its [recreate] waits for, or the rejection. *)
Fixpoint recreate_async_start {D P} (start : string -> D -> M P)
    (descMap : list (string * D)) : M (list (string * D * Res P)) :=
  match descMap with
  | [] => ret []
  | (traceSerial, desc) :: descMap' =>
      promise <- settle (start traceSerial desc) ;;
      recreatePromises <- recreate_async_start start descMap' ;;
      ret ((traceSerial, desc, promise) :: recreatePromises)
  end.

(** The rejection that comes first in the list. *)
Fixpoint first_rejection {K P} (recreatePromises : list (K * Res P)) : option JsError :=
  match recreatePromises with
  | [] => None
  | (_, Ok _) :: rest => first_rejection rest
  | (_, Throw err) :: _ => Some err
  end.

(** [await Promise.all(recreatePromises)]: what is left of every [recreate]
    ([resume]) runs while the loader waits, in the order of the requests
    (the host is taken to answer them in that order) and whether or not
    another one fails.  [rejected] is the earliest rejection so far; it is
    raised at the end. *)
Fixpoint recreate_async_settle {D P T} (resume : D -> P -> M T)
    (recreatePromises : list (string * D * Res P)) (recreatedObjects : gmap string T)
    (rejected : option JsError) : M (gmap string T) :=
  match recreatePromises with
  | [] =>
      match rejected with
      | None => ret recreatedObjects
      | Some err => throw err
      end
  | (traceSerial, desc, Ok p) :: rest =>
      outcome <- settle (resume desc p) ;;
      match outcome with
      | Ok obj =>
          recreate_async_settle resume rest (<[traceSerial := obj]> recreatedObjects)
            rejected
      | Throw err =>
          recreate_async_settle resume rest recreatedObjects
            (match rejected with None => Some err | Some _ => rejected end)
      end
  | (_, _, Throw _) :: rest => recreate_async_settle resume rest recreatedObjects rejected
  end.

(** [recreateObjectsAsync]: [start] is the constructor followed by
    [recreate] up to its first [await], [resume] is [recreate] from there.
    A rejection from the loop is earlier than any from a resumption. *)
Definition recreateObjectsAsync {D P T} (start : string -> D -> M P) (resume : D -> P -> M T)
    (descMap : option (list (string * D))) : M (Recreated T) :=
  match descMap with
  | None => ret EmptyObject
  | Some l =>
      recreatePromises <- recreate_async_start start l ;;
      objs <- recreate_async_settle resume recreatePromises ∅
                (first_rejection recreatePromises) ;;
      ret (RecreatedObjects objs)
  end.

(** The rest of a [recreate] whose only [await] is on its last call: the
    result is stored. *)
Definition recreate_stored {D T} (_ : D) (obj : T) : M T := ret obj.

(** [this.data]: every blob copied into a [Uint8Array]. *)
Definition load_data (blobs : list (string * list Z)) : gmap string (list Z) :=
  fold_left (fun d kv => <[fst kv := map (fun x => x mod 256) (snd kv)]> d) blobs ∅.

(** The loop over [this.bindGroupLayouts] that follows the creation of the
    render pipelines; [keys] are the keys of the registry in enumeration
    order. *)
Fixpoint initialize_implicit_layouts (r_renderPipelines : gmap string ReplayRenderPipeline)
    (keys : list string) (r_bindGroupLayouts : gmap string ReplayBindGroupLayout)
  : M (gmap string ReplayBindGroupLayout) :=
  match keys with
  | [] => ret r_bindGroupLayouts
  | i :: keys' =>
      match r_bindGroupLayouts !! i with
      | Some layout =>
          if rbgl_implicit layout then
            layout' <- initializeFromImplicitDesc r_renderPipelines layout ;;
            initialize_implicit_layouts r_renderPipelines keys'
              (<[i := layout']> r_bindGroupLayouts)
          else initialize_implicit_layouts r_renderPipelines keys' r_bindGroupLayouts
      | None => initialize_implicit_layouts r_renderPipelines keys' r_bindGroupLayouts
      end
  end.

Definition registry_keys {D} (descMap : option (list (string * D))) : list string :=
  match descMap with
  | Some l => map fst l
  | None => []
  end.

Definition get_trace : M Trace := fun e => (Ok (env_trace e), e).

(** The registries up to and including the render pipelines, before the
    implicit layouts are initialised. *)
Record EarlyRegistries := {
  er_adapters : gmap string ReplayAdapter;
  er_devices : gmap string ReplayDevice;
  er_queues : gmap string ReplayQueue;
  er_bindGroupLayouts : gmap string ReplayBindGroupLayout;
  er_pipelineLayouts : gmap string ReplayPipelineLayout;
  er_shaderModules : gmap string ReplayShaderModule;
  er_renderPipelines : gmap string ReplayRenderPipeline }.

(** [Replay.load], from its start to the creation of the render pipelines. *)
Definition load_until_pipelines (requestUnwrappedAdapter : TraceAdapter -> option Handle)
    (objects : TraceObjects) : M EarlyRegistries :=
  r_adapters <-
    (v <- recreateObjectsAsync
            (fun _ => ReplayAdapter_recreate_request requestUnwrappedAdapter)
            ReplayAdapter_recreate_resume
            (to_adapters objects) ;; destructure v) ;;
  r_devices <-
    (v <- recreateObjectsAsync (fun _ => new_ReplayDevice r_adapters) recreate_stored
            (to_devices objects) ;; destructure v) ;;
  r_queues <-
    (v <- recreateObjects (fun _ => new_ReplayQueue r_devices) (to_queues objects) ;;
     destructure v) ;;
  r_bindGroupLayouts <-
    (v <- recreateObjects (fun _ => new_ReplayBindGroupLayout r_devices)
            (to_bindGroupLayouts objects) ;; destructure v) ;;
  r_pipelineLayouts <-
    (v <- recreateObjects (fun _ => new_ReplayPipelineLayout r_devices r_bindGroupLayouts)
            (to_pipelineLayouts objects) ;; destructure v) ;;
  r_shaderModules <-
    (v <- recreateObjects (fun _ => new_ReplayShaderModule r_devices)
            (to_shaderModules objects) ;; destructure v) ;;
  r_renderPipelines <-
    (v <- recreateObjectsAsync
            (new_ReplayRenderPipeline r_devices r_shaderModules r_pipelineLayouts)
            recreate_stored
            (to_renderPipelines objects) ;; destructure v) ;;
  ret {| er_adapters := r_adapters; er_devices := r_devices; er_queues := r_queues;
         er_bindGroupLayouts := r_bindGroupLayouts;
         er_pipelineLayouts := r_pipelineLayouts; er_shaderModules := r_shaderModules;
         er_renderPipelines := r_renderPipelines |}.

(** [Replay.load], from the initialisation of the implicit layouts to the
    end. *)
Definition load_from_implicit_layouts (trace : Trace) (r_data : gmap string (list Z))
    (early : EarlyRegistries) : M Replay :=
  let objects := trace_objects trace in
  let r_devices := er_devices early in
  r_bindGroupLayouts <-
    initialize_implicit_layouts (er_renderPipelines early)
      (registry_keys (to_bindGroupLayouts objects)) (er_bindGroupLayouts early) ;;
  r_buffers <-
    (v <- recreateObjects (fun _ => new_ReplayBuffer r_devices r_data)
            (to_buffers objects) ;; destructure v) ;;
  r_samplers <-
    (v <- recreateObjects (fun _ => new_ReplaySampler r_devices) (to_samplers objects) ;;
     destructure v) ;;
  r_textures <-
    (v <- recreateObjects (fun _ => new_ReplayTexture r_devices r_data)
            (to_textures objects) ;; destructure v) ;;
  r_textureViews <-
    (v <- recreateObjects (fun _ => new_ReplayTextureView r_textures)
            (to_textureViews objects) ;; destructure v) ;;
  r_querySets <-
    (v <- recreateObjects (fun _ => new_ReplayQuerySet r_devices) (to_querySets objects) ;;
     destructure v) ;;
  r_bindGroups <-
    (v <- recreateObjects
            (fun _ => new_ReplayBindGroup r_devices r_bindGroupLayouts r_textureViews
                        r_samplers r_buffers)
            (to_bindGroups objects) ;; destructure v) ;;
  let session (r_commandBuffers : gmap string ReplayCommandBuffer)
              (r_commands : list ReplayQueueCommand) : Replay :=
    {| data := r_data; adapters := er_adapters early; devices := r_devices;
       queues := er_queues early; bindGroupLayouts := r_bindGroupLayouts;
       pipelineLayouts := er_pipelineLayouts early;
       shaderModules := er_shaderModules early;
       renderPipelines := er_renderPipelines early; buffers := r_buffers;
       samplers := r_samplers; textures := r_textures; textureViews := r_textureViews;
       querySets := r_querySets; bindGroups := r_bindGroups;
       commandBuffers := r_commandBuffers; commands := r_commands |} in
  r_commandBuffers <-
    (v <- recreateObjects (fun _ => new_ReplayCommandBuffer (session ∅ []))
            (to_commandBuffers objects) ;; destructure v) ;;
  r_commands <- map_m (resolve_queue_command (session r_commandBuffers []))
                  (trace_commands trace) ;;
  ret (session r_commandBuffers r_commands).

(** [Replay.load]. *)
Definition load (requestUnwrappedAdapter : TraceAdapter -> option Handle) : M Replay :=
  trace <- get_trace ;;
  let r_data := load_data (trace_data trace) in
  early <- load_until_pipelines requestUnwrappedAdapter (trace_objects trace) ;;
  load_from_implicit_layouts trace r_data early.

(** [loadReplay]: a fresh session loaded from [trace]; the result comes with
    the environment the load leaves behind, the trace included. *)
Definition loadReplay (trace : Trace)
    (requestUnwrappedAdapterFn : TraceAdapter -> option Handle) : Res Replay * Env :=
  load requestUnwrappedAdapterFn (init_env trace).

(** ** The replay driver *)

(** [path.shift()]: the first element, [undefined] on an empty array; the
    array the callee goes on with is the tail. *)
Definition shift (path : list Z) : option Z * list Z := (head path, tail path).

(** [a[i]] for a number [i] that may be [undefined] or negative. *)
Definition js_index {A} (a : list A) (i : option Z) : option A :=
  match i with
  | Some z => if z <? 0 then None else a !! Z.to_nat z
  | None => None
  end.

(** Number of iterations of [for (let i = start; i <= last; i++)]; a
    comparison with [undefined] is false. *)
Definition iterations_through (start : Z) (last : option Z) : nat :=
  match last with
  | Some z => Z.to_nat (z + 1 - start)
  | None => O
  end.

(** [for (let i = start; ...; i++) acc = body(i, acc)], run [count] times. *)
Fixpoint for_range_acc {St} (count start : nat) (body : nat -> St -> M St) (acc : St)
  : M St :=
  match count with
  | O => ret acc
  | S n => acc' <- body start acc ;; for_range_acc n (S start) body acc'
  end.

(** The warnings of [ReplayRenderPass.encodeUpTo] about discarded
    attachments, from the store operations of the pass descriptor. *)
Definition warn_discards (colorStoreOps : list string)
    (depthStencil : option (option string * option string)) : M unit :=
  for_of colorStoreOps (fun storeOp =>
    if String.eqb storeOp "discard" then
      console_warn "Don't know how to turn discard into stores yet"
    else ret tt) ;;
  match depthStencil with
  | Some (stencilStoreOp, depthStoreOp) =>
      if bool_decide (stencilStoreOp = Some "discard"%string)
         || bool_decide (depthStoreOp = Some "discard"%string)
      then console_warn "Don't know how to turn discard into stores yet"
      else ret tt
  | None => ret tt
  end.

Definition set_viewport (v : Viewport) (s : RenderPassState) : RenderPassState :=
  {| rps_viewport := v; rps_colorAttachments := rps_colorAttachments s;
     rps_depthStencilAttachment := rps_depthStencilAttachment s;
     rps_pipeline := rps_pipeline s; rps_bindGroups := rps_bindGroups s;
     rps_vertexBuffers := rps_vertexBuffers s; rps_indexBuffer := rps_indexBuffer s |}.

Definition set_pipeline (p : ReplayRenderPipeline) (s : RenderPassState) : RenderPassState :=
  {| rps_viewport := rps_viewport s; rps_colorAttachments := rps_colorAttachments s;
     rps_depthStencilAttachment := rps_depthStencilAttachment s;
     rps_pipeline := Some p; rps_bindGroups := rps_bindGroups s;
     rps_vertexBuffers := rps_vertexBuffers s; rps_indexBuffer := rps_indexBuffer s |}.

Definition set_bindGroup (index : nat) (g : ReplayBindGroup) (dynamicOffsets : option (list Z))
    (s : RenderPassState) : RenderPassState :=
  {| rps_viewport := rps_viewport s; rps_colorAttachments := rps_colorAttachments s;
     rps_depthStencilAttachment := rps_depthStencilAttachment s;
     rps_pipeline := rps_pipeline s;
     rps_bindGroups := js_array_set index (g, dynamicOffsets) (rps_bindGroups s);
     rps_vertexBuffers := rps_vertexBuffers s; rps_indexBuffer := rps_indexBuffer s |}.

Definition set_vertexBuffer (slot : nat) (b : ReplayBuffer) (offset size : Z)
    (s : RenderPassState) : RenderPassState :=
  {| rps_viewport := rps_viewport s; rps_colorAttachments := rps_colorAttachments s;
     rps_depthStencilAttachment := rps_depthStencilAttachment s;
     rps_pipeline := rps_pipeline s; rps_bindGroups := rps_bindGroups s;
     rps_vertexBuffers := js_array_set slot (b, offset, size) (rps_vertexBuffers s);
     rps_indexBuffer := rps_indexBuffer s |}.

Definition set_indexBuffer (b : ReplayBuffer) (offset size : Z) (s : RenderPassState)
  : RenderPassState :=
  {| rps_viewport := rps_viewport s; rps_colorAttachments := rps_colorAttachments s;
     rps_depthStencilAttachment := rps_depthStencilAttachment s;
     rps_pipeline := rps_pipeline s; rps_bindGroups := rps_bindGroups s;
     rps_vertexBuffers := rps_vertexBuffers s; rps_indexBuffer := (Some b, offset, size) |}.

Definition unhandled_render_pass_command (c : ReplayCommandBufferCommand) : M unit :=
  console_assert false (quoted "Unhandled render pass command type " (command_name c)).

(** The switch in the loop of [ReplayRenderPass.encodeUpTo]: one command
    replayed on the pass encoder, with the snapshot and the
    [renderPassEnded] flag it leaves.  A clone that still carries its serial
    has no wrapper to read.  The 'setBindGroup' case reads the dynamic
    offsets from the command itself ([c.dynamicOffsets]), where a recorded
    command holds only [name] and [args]: the offsets recorded under
    [c.args.dynamicOffsets] reach neither the call nor the snapshot. *)
Definition encode_pass_command (renderPass : Handle) (c : ReplayCommandBufferCommand)
    (acc : RenderPassState * bool) : M (RenderPassState * bool) :=
  let (state, renderPassEnded) := acc in
  match c with
  | CmdClone (TraceDraw vertexCount instanceCount firstVertex firstInstance) =>
      gpu (OnPass renderPass (PassDraw vertexCount instanceCount firstVertex firstInstance)) ;;
      ret (state, renderPassEnded)
  | CmdClone (TraceDrawIndexed indexCount instanceCount firstIndex baseVertex firstInstance) =>
      gpu (OnPass renderPass
             (PassDrawIndexed indexCount instanceCount firstIndex baseVertex firstInstance)) ;;
      ret (state, renderPassEnded)
  | CmdClone TraceEndPass =>
      gpu (OnPass renderPass PassEnd) ;;
      ret (state, true)
  | CmdClone TracePopDebugGroup =>
      gpu (OnPass renderPass PassPopDebugGroup) ;;
      ret (state, renderPassEnded)
  | CmdClone (TracePushDebugGroup groupLabel) =>
      gpu (OnPass renderPass (PassPushDebugGroup groupLabel)) ;;
      ret (state, renderPassEnded)
  | CmdSetBindGroup index bindGroup _ =>
      (* the offsets are recorded under [c.args]; [c.dynamicOffsets] is
         [undefined] *)
      let dynamicOffsets : option (list Z) := None in
      g <- deref "webgpuObject" bindGroup ;;
      gpu (OnPass renderPass (PassSetBindGroup index (rbg_webgpuObject g) dynamicOffsets)) ;;
      ret (set_bindGroup index g dynamicOffsets state, renderPassEnded)
  | CmdSetIndexBuffer buffer indexFormat offset size =>
      b <- deref "webgpuObject" buffer ;;
      gpu (OnPass renderPass (PassSetIndexBuffer (rb_webgpuObject b) indexFormat offset size)) ;;
      ret (set_indexBuffer b offset size state, renderPassEnded)
  | CmdSetPipeline pipeline =>
      p <- deref "webgpuObject" pipeline ;;
      gpu (OnPass renderPass (PassSetPipeline (rrp_webgpuObject p))) ;;
      ret (set_pipeline p state, renderPassEnded)
  | CmdSetVertexBuffer slot buffer offset size =>
      b <- deref "webgpuObject" buffer ;;
      gpu (OnPass renderPass (PassSetVertexBuffer slot (rb_webgpuObject b) offset size)) ;;
      ret (set_vertexBuffer slot b offset size state, renderPassEnded)
  | CmdClone (TraceSetBindGroup _ _ _) | CmdClone (TraceSetIndexBuffer _ _ _ _)
  | CmdClone (TraceSetPipeline _) | CmdClone (TraceSetVertexBuffer _ _ _ _) =>
      throw (TypeError "webgpuObject")
  | CmdClone (TraceSetViewport v) =>
      gpu (OnPass renderPass (PassSetViewport v)) ;;
      ret (set_viewport v state, renderPassEnded)
  | _ =>
      unhandled_render_pass_command c ;;
      ret (state, renderPassEnded)
  end.

(** The snapshot [ReplayRenderPass.encodeUpTo] starts from. *)
Definition initial_pass_state (renderPassDesc : ReplayCommandBeginRenderPassArgs)
    (firstAttachment : ReplayTextureView) : RenderPassState :=
  {| rps_viewport :=
       {| vp_x := 0; vp_y := 0;
          vp_width := inject_Z (ext_width (rt_size (rtv_texture firstAttachment)));
          vp_height := inject_Z (ext_height (rt_size (rtv_texture firstAttachment)));
          vp_minDepth := 0; vp_maxDepth := 1 |};
     rps_colorAttachments :=
       map (fun a => (ca_viewState a, ca_resolveTargetState a))
           (bra_colorAttachments renderPassDesc);
     rps_depthStencilAttachment :=
       option_map dsa_viewState (bra_depthStencilAttachment renderPassDesc);
     rps_pipeline := None; rps_bindGroups := []; rps_vertexBuffers := [];
     rps_indexBuffer := (None, 0, 0) |}.

(** [ReplayRenderPass.encodeUpTo]. *)
Definition ReplayRenderPass_encodeUpTo (this : ReplayRenderPass) (path : list Z)
    (encoder : Handle) : M unit :=
  let commandIndex := fst (shift path) in
  let commands := rp_commands this in
  console_assert (0 <? length commands)%nat "" ;;
  first <- deref "name" (commands !! O) ;;
  console_assert (String.eqb (command_name first) "beginRenderPass") "" ;;
  last <- deref "name" (commands !! (length commands - 1)%nat) ;;
  console_assert (String.eqb (command_name last) "endPass") "" ;;
  let partial := negb (bool_decide (commandIndex = Some (Z.of_nat (length commands)))) in
  match first with
  | CmdBeginRenderPass renderPassDesc =>
      (if partial then
         warn_discards (map ca_storeOp (bra_colorAttachments renderPassDesc))
           (option_map (fun ds => (dsa_stencilStoreOp ds, dsa_depthStoreOp ds))
              (bra_depthStencilAttachment renderPassDesc))
       else ret tt) ;;
      console_assert
        (match bra_colorAttachments renderPassDesc with [] => false | _ :: _ => true end)
        "Computing render pass size currently requires the first color attachment to always be set." ;;
      a <- deref "viewState" (head (bra_colorAttachments renderPassDesc)) ;;
      let firstAttachment := ca_viewState a in
      console_assert (rtv_baseMipLevel firstAttachment =? 0) "" ;;
      if bool_decide (commandIndex = Some 0) then
        set_state (StateBeginArgs renderPassDesc)
      else
        let state := initial_pass_state renderPassDesc firstAttachment in
        renderPass <- create (fun pass =>
          OnEncoder encoder
            (EncBeginRenderPass (map ca_view (bra_colorAttachments renderPassDesc)) pass)) ;;
        match ca_resolveTarget a with
        | Some _ =>
            resolveTargetState <- deref "texture" (ca_resolveTargetState a) ;;
            set_textureStateToShow (rtv_texture resolveTargetState)
        | None => set_textureStateToShow (rtv_texture (ca_viewState a))
        end ;;
        final <- for_range_acc (iterations_through 1 commandIndex) 1%nat
                   (fun i acc =>
                      c <- deref "name" (commands !! i) ;;
                      encode_pass_command renderPass c acc)
                   (state, false) ;;
        if snd final then ret tt
        else set_state (StateRenderPass (fst final)) ;; gpu (OnPass renderPass PassEnd)
  | CmdClone (TraceBeginRenderPass renderPassDesc) =>
      (* an unresolved clone: the attachments carry no [viewState] *)
      (if partial then
         warn_discards (map tca_storeOp (tbr_colorAttachments renderPassDesc))
           (option_map (fun ds => (tds_stencilStoreOp ds, tds_depthStoreOp ds))
              (tbr_depthStencilAttachment renderPassDesc))
       else ret tt) ;;
      console_assert false
        "Computing render pass size currently requires the first color attachment to always be set." ;;
      throw (TypeError "viewState")
  | _ => throw (TypeError "colorAttachments")
  end.

(** [ReplayRenderPass.encodeIn]. *)
Definition ReplayRenderPass_encodeIn (this : ReplayRenderPass) (encoder : Handle) : M unit :=
  ReplayRenderPass_encodeUpTo this [Z.of_nat (length (rp_commands this)) - 1] encoder.

Definition unhandled_encoder_command (c : ReplayCommandBufferCommand) : M unit :=
  console_assert false (quoted "Unhandled command encoder command type " (command_name c)).

(** The switch in the loop of [ReplayCommandBuffer.encodeUpTo]; [target] is
    [i === commandIndex && !full].  A copy command reaches the encoder with
    the endpoints the resolver left: the wrapper under [bufferState] or
    [textureState], and no [buffer] or [texture] (the resolver sets the
    member and deletes it again; an unresolved clone never had it).  The
    member is a required one, so the call raises [TypeError] in the host and
    nothing is encoded. *)
Definition encode_buffer_command (encoder : Handle) (path : list Z) (target : bool)
    (c : ReplayCommandBufferCommand) : M unit :=
  match c with
  | CmdRenderPass renderPass =>
      if target then ReplayRenderPass_encodeUpTo renderPass path encoder
      else ReplayRenderPass_encodeIn renderPass encoder
  | CmdCopyBufferToTexture _ _ _
  | CmdClone (TraceCopyBufferToTexture _ _ _) =>
      (* [encoder.copyBufferToTexture(c.args.source, ...)]: [source] has no
         [buffer] member *)
      throw (TypeError "buffer")
  | CmdCopyTextureToTexture _ _ _
  | CmdClone (TraceCopyTextureToTexture _ _ _) =>
      (* [encoder.copyTextureToTexture(c.args.source, ...)]: [source] has no
         [texture] member *)
      throw (TypeError "texture")
  | CmdClone TracePopDebugGroup => gpu (OnEncoder encoder EncPopDebugGroup)
  | CmdClone (TracePushDebugGroup groupLabel) =>
      gpu (OnEncoder encoder (EncPushDebugGroup groupLabel))
  | CmdClone (TraceOtherCommand name) =>
      if String.eqb name "renderPass" then throw (TypeError "encodeIn")
      else unhandled_encoder_command c
  | _ => unhandled_encoder_command c
  end.

(** [ReplayCommandBuffer.encodeUpTo]. *)
Definition ReplayCommandBuffer_encodeUpTo (this : ReplayCommandBuffer) (path : list Z)
    (encoder : Handle) (full : bool) : M unit :=
  let (commandIndex, path') := shift path in
  for_range (iterations_through 0 commandIndex) O (fun i =>
    c <- deref "name" (rcb_commands this !! i) ;;
    encode_buffer_command encoder path'
      (bool_decide (Some (Z.of_nat i) = commandIndex) && negb full) c).

(** [ReplayCommandBuffer.encodeIn]. *)
Definition ReplayCommandBuffer_encodeIn (this : ReplayCommandBuffer) (encoder : Handle)
  : M unit :=
  ReplayCommandBuffer_encodeUpTo this [Z.of_nat (length (rcb_commands this)) - 1] encoder true.

(** [encoder.finish()] followed by [queue.submit([...])]. *)
Definition finish_and_submit (this : ReplayQueue) (encoder : Handle) : M unit :=
  commandBuffer <- create (fun cb => OnEncoder encoder (EncFinish cb)) ;;
  gpu (Submit (rq_webgpuObject this) [commandBuffer]).

(** [ReplayQueue.executeSubmit]. *)
Definition executeSubmit (this : ReplayQueue)
    (commandBuffers : list (option ReplayCommandBuffer)) : M unit :=
  encoder <- create (CreateCommandEncoder (rd_webgpuObject (rq_device this))) ;;
  for_of commandBuffers (fun commandBuffer =>
    cb <- deref "encodeIn" commandBuffer ;;
    ReplayCommandBuffer_encodeIn cb encoder) ;;
  finish_and_submit this encoder.

(** [ReplayQueue.replaySubmitTo]. *)
Definition replaySubmitTo (this : ReplayQueue) (path : list Z)
    (commandBuffers : list (option ReplayCommandBuffer)) : M unit :=
  let (commandBufferIndex, path') := shift path in
  encoder <- create (CreateCommandEncoder (rd_webgpuObject (rq_device this))) ;;
  (* for (let i = 0; i < commandBufferIndex - 1; i++) *)
  for_range (match commandBufferIndex with
             | Some j => Z.to_nat (j - 1)
             | None => O
             end) O
    (fun i =>
       cb <- deref "encodeIn" (mjoin (commandBuffers !! i)) ;;
       ReplayCommandBuffer_encodeIn cb encoder) ;;
  target <- deref "encodeUpTo" (mjoin (js_index commandBuffers commandBufferIndex)) ;;
  ReplayCommandBuffer_encodeUpTo target path' encoder false ;;
  finish_and_submit this encoder.

(** [Replay.execute]. *)
Definition execute (replay : Replay) (command : ReplayQueueCommand) : M unit :=
  match command with
  | ReplayCommandSubmit queue commandBuffers =>
      q <- deref "executeSubmit" queue ;;
      executeSubmit q commandBuffers
  | ReplayCommandWriteBuffer queue buffer bufferOffset serializedData =>
      dataBuf <- getData (data replay) serializedData ;;
      q <- deref "webgpuObject" queue ;;
      b <- deref "webgpuObject" buffer ;;
      gpu (WriteBuffer (rq_webgpuObject q) (rb_webgpuObject b) bufferOffset dataBuf)
  | ReplayCommandWriteTexture queue _ texture _ serializedData size =>
      dataBuf <- getData (data replay) serializedData ;;
      q <- deref "webgpuObject" queue ;;
      gpu (WriteTextureCommand (rq_webgpuObject q) texture dataBuf size)
  | ReplayCommandPresent texture _ => set_state (StateCurrentTexture texture)
  | ReplayCommandTextureDestroy _ => ret tt
  | _ =>
      console_assert false (quoted "Unhandled command type " (queue_command_name command))
  end.

(** [Replay.endPath]. *)
Definition endPath (replay : Replay) : list Z := [Z.of_nat (length (commands replay))].

(** [Replay.replayTo]; the result is [this.state]. *)
Definition replayTo (replay : Replay) (path : list Z) : M ReplayState :=
  set_state StateEmpty ;;
  let (replayLevel, path') := shift path in
  for_range (iterations_through 0 replayLevel) O (fun i =>
    c <- deref "name" (commands replay !! i) ;;
    match c with
    | ReplayCommandSubmit queue commandBuffers =>
        if bool_decide (Some (Z.of_nat i) = replayLevel) then
          q <- deref "replaySubmitTo" queue ;;
          replaySubmitTo q path' commandBuffers
        else
          q <- deref "executeSubmit" queue ;;
          executeSubmit q commandBuffers
    | _ => execute replay c
    end) ;;
  get_state.

(** Full execution: [execute] called on every top-level command in order. *)
Definition execute_all (replay : Replay) : M unit :=
  for_of (commands replay) (execute replay).

(** ** The command enumerator *)

(** What a generator yields as [command]: a top-level command or a command
    of a command buffer or render pass. *)
Inductive YieldedCommand :=
| QueueLevel (c : ReplayQueueCommand)
| BufferLevel (c : ReplayCommandBufferCommand).

(** [{ path, command }]. *)
Definition Yielded : Type := list Z * YieldedCommand.

(** The case labels of the three [iterateCommands] that yield the command. *)
Definition pass_yield_names : list string :=
  ["beginRenderPass"; "copyBufferToTexture"; "copyTextureToTexture"; "draw"; "drawIndexed";
   "endPass"; "popDebugGroup"; "pushDebugGroup"; "setBindGroup"; "setIndexBuffer";
   "setPipeline"; "setVertexBuffer"; "setViewport"]%string.

Definition buffer_yield_names : list string :=
  ["copyBufferToTexture"; "copyTextureToTexture"; "popDebugGroup"; "pushDebugGroup"]%string.

Definition queue_yield_names : list string :=
  ["queueWriteBuffer"; "queueWriteTexture"; "present"; "textureDestroy"; "bufferUpdateData";
   "bufferUnmap"]%string.

Definition name_in (names : list string) (name : string) : bool :=
  existsb (String.eqb name) names.

(** [ReplayRenderPass.iterateCommands([i, j, k])], from index [l] on;
    [commands] is [this.commands] from that index. *)
Fixpoint ReplayRenderPass_iterateCommands_from (i j k : Z) (l : nat)
    (commands : list ReplayCommandBufferCommand) : M (list Yielded) :=
  match commands with
  | [] => ret []
  | c :: rest =>
      now <- (if name_in pass_yield_names (command_name c) then
                ret [([i; j; k; Z.of_nat l], BufferLevel c)]
              else unhandled_render_pass_command c ;; ret []) ;;
      later <- ReplayRenderPass_iterateCommands_from i j k (S l) rest ;;
      ret (now ++ later)
  end.

Definition ReplayRenderPass_iterateCommands (this : ReplayRenderPass) (i j k : Z)
  : M (list Yielded) :=
  ReplayRenderPass_iterateCommands_from i j k O (rp_commands this).

(** [ReplayCommandBuffer.iterateCommands([i, j])], from index [k] on. *)
Fixpoint ReplayCommandBuffer_iterateCommands_from (i j : Z) (k : nat)
    (commands : list ReplayCommandBufferCommand) : M (list Yielded) :=
  match commands with
  | [] => ret []
  | c :: rest =>
      now <- match c with
             | CmdRenderPass renderPass =>
                 ReplayRenderPass_iterateCommands renderPass i j (Z.of_nat k)
             | _ =>
                 if String.eqb (command_name c) "renderPass" then
                   throw (TypeError "iterateCommands")
                 else if name_in buffer_yield_names (command_name c) then
                   ret [([i; j; Z.of_nat k], BufferLevel c)]
                 else unhandled_encoder_command c ;; ret []
             end ;;
      later <- ReplayCommandBuffer_iterateCommands_from i j (S k) rest ;;
      ret (now ++ later)
  end.

Definition ReplayCommandBuffer_iterateCommands (this : ReplayCommandBuffer) (i j : Z)
  : M (list Yielded) :=
  ReplayCommandBuffer_iterateCommands_from i j O (rcb_commands this).

(** The inner loop of [Replay.iterateCommands] over the command buffers of a
    submit, from index [j] on. *)
Fixpoint iterate_commandBuffers_from (i : Z) (j : nat)
    (commandBuffers : list (option ReplayCommandBuffer)) : M (list Yielded) :=
  match commandBuffers with
  | [] => ret []
  | commandBuffer :: rest =>
      cb <- deref "iterateCommands" commandBuffer ;;
      now <- ReplayCommandBuffer_iterateCommands cb i (Z.of_nat j) ;;
      later <- iterate_commandBuffers_from i (S j) rest ;;
      ret (now ++ later)
  end.

(** [Replay.iterateCommands], from index [i] on. *)
Fixpoint Replay_iterateCommands_from (i : nat) (commands : list ReplayQueueCommand)
  : M (list Yielded) :=
  match commands with
  | [] => ret []
  | c :: rest =>
      now <- match c with
             | ReplayCommandSubmit _ commandBuffers =>
                 iterate_commandBuffers_from (Z.of_nat i) O commandBuffers
             | _ =>
                 if name_in queue_yield_names (queue_command_name c) then
                   ret [([Z.of_nat i], QueueLevel c)]
                 else
                   console_assert false
                     (quoted "Unhandled command type " (queue_command_name c)) ;;
                   ret []
             end ;;
      later <- Replay_iterateCommands_from (S i) rest ;;
      ret (now ++ later)
  end.

(** [Replay.iterateCommands]: everything the generator yields, in order. *)
Definition iterateCommands (replay : Replay) : M (list Yielded) :=
  Replay_iterateCommands_from O (commands replay).

(** *** The enumeration the specification describes

    One pair per leaf (non-container) command, in document order: a top-level
    command other than a submit at [[i]]; the commands of command buffer [j]
    of submit [i] at [[i; j; k]]; the children of the render pass at encoder
    index [k] at [[i; j; k; l]]. *)
Definition leaves_of_pass (i j k : Z) (rp : ReplayRenderPass) : list Yielded :=
  imap (fun l c => ([i; j; k; Z.of_nat l], BufferLevel c)) (rp_commands rp).

Definition leaves_of_buffer (i j : Z) (cb : ReplayCommandBuffer) : list Yielded :=
  concat (imap (fun k c =>
                  match c with
                  | CmdRenderPass rp => leaves_of_pass i j (Z.of_nat k) rp
                  | _ => [([i; j; Z.of_nat k], BufferLevel c)]
                  end) (rcb_commands cb)).

Definition leaves_of_command (i : nat) (c : ReplayQueueCommand) : list Yielded :=
  match c with
  | ReplayCommandSubmit _ commandBuffers =>
      concat (imap (fun j cb =>
                      match cb with
                      | Some cb => leaves_of_buffer (Z.of_nat i) (Z.of_nat j) cb
                      | None => []
                      end) commandBuffers)
  | _ => [([Z.of_nat i], QueueLevel c)]
  end.

Definition leaves (replay : Replay) : list Yielded :=
  concat (imap leaves_of_command (commands replay)).

(** The leaves whose kind the enumerator has a case for, by the level the
    path addresses. *)
Definition enumerated (y : Yielded) : bool :=
  match y with
  | (_, QueueLevel c) => name_in queue_yield_names (queue_command_name c)
  | ([_; _; _], BufferLevel c) => name_in buffer_yield_names (command_name c)
  | (_, BufferLevel c) => name_in pass_yield_names (command_name c)
  end.

(** * The step list of the user interface (src/ui/views/StepsVis/StepsVis.tsx) *)

(** [arrayEqual], on step identifiers (arrays of numbers): the loop from
    index [i], run [count] times. *)
Fixpoint arrayEqual_from (count i : nat) (a b : list Z) : bool :=
  match count with
  | O => true
  | S n =>
      if negb (bool_decide (a !! i = b !! i)) then false
      else arrayEqual_from n (S i) a b
  end.

Definition arrayEqual (a b : list Z) : bool :=
  if negb (length a =? length b)%nat then false
  else arrayEqual_from (length a) O a b.

(** [interleave]: the [while] loop from index [i], run [count] times. *)
Fixpoint interleave_from {A} (count i : nat) (array : list A) (elem : A) (newArray : list A)
  : list A :=
  match count with
  | O => newArray
  | S n =>
      match array !! i with
      | Some x => interleave_from n (S i) array elem (newArray ++ [elem; x])
      | None => newArray
      end
  end.

Definition interleave {A} (array : list A) (elem : A) : list A :=
  match array !! O with
  | Some x => interleave_from (length array - 1) 1 array elem [x]
  | None => interleave_from (length array) O array elem []
  end.

(** A row of the step list that answers a click: the identifier it passes
    to [playTo] and the command name it shows. *)
Definition Step : Type := list Z * string.

(** Rendering raises when it reads a property of [undefined]. *)
Definition and_then {A B} (r : Res A) (k : A -> Res B) : Res B :=
  match r with
  | Ok a => k a
  | Throw err => Throw err
  end.

(** [Command] on a command of a command buffer or of a render pass: the
    rows it renders, top to bottom.  The pseudo-command of a render pass goes
    to [RenderPass], which renders its own row and then [Commands] on the
    children of the pass, under the same identifier; a command named
    'renderPass' or 'queueSubmit' that is no such container has no
    [renderPass.commands] or [args.commandBuffers] to map over; every other
    command goes to [GenericCommand]. *)
Fixpoint Command_of_buffer (command : ReplayCommandBufferCommand) (commandId : list Z)
    {struct command} : Res (list Step) :=
  match command with
  | CmdRenderPass (MkReplayRenderPass _ commands) =>
      and_then
        ((fix Commands (commands : list ReplayCommandBufferCommand) (ndx : nat)
            : Res (list Step) :=
            match commands with
            | [] => Ok []
            | c :: rest =>
                and_then (Command_of_buffer c (commandId ++ [Z.of_nat ndx])) (fun now =>
                and_then (Commands rest (S ndx)) (fun later => Ok (now ++ later)))
            end) commands O)
        (fun children => Ok ((commandId, "renderPass"%string) :: children))
  | _ =>
      if String.eqb (command_name command) "renderPass" then Throw (TypeError "commands")
      else if String.eqb (command_name command) "queueSubmit" then
        Throw (TypeError "commandBuffers")
      else Ok [(commandId, command_name command)]
  end.

(** [Commands] on the commands of a command buffer or render pass, from
    index [ndx] on: each command is rendered under [[...commandId, ndx]]. *)
Fixpoint Commands_of_buffer_from (ndx : nat) (commands : list ReplayCommandBufferCommand)
    (commandId : list Z) : Res (list Step) :=
  match commands with
  | [] => Ok []
  | c :: rest =>
      and_then (Command_of_buffer c (commandId ++ [Z.of_nat ndx])) (fun now =>
      and_then (Commands_of_buffer_from (S ndx) rest commandId) (fun later =>
      Ok (now ++ later)))
  end.

(** The [commandBuffers.map] of [QueueSubmit], from index [ndx] on: the
    heading of a command buffer answers no click; its commands are rendered
    under [[...commandId, ndx]]. *)
Fixpoint QueueSubmit_buffers_from (ndx : nat)
    (commandBuffers : list (option ReplayCommandBuffer)) (commandId : list Z)
  : Res (list Step) :=
  match commandBuffers with
  | [] => Ok []
  | cb :: rest =>
      and_then (match cb with
                | Some cb => Commands_of_buffer_from O (rcb_commands cb)
                               (commandId ++ [Z.of_nat ndx])
                | None => Throw (TypeError "commands")
                end) (fun now =>
      and_then (QueueSubmit_buffers_from (S ndx) rest commandId) (fun later =>
      Ok (now ++ later)))
  end.

(** [Command] on a top-level command: a submit goes to [QueueSubmit], every
    other command to [GenericCommand]. *)
Definition Command_of_queue (command : ReplayQueueCommand) (commandId : list Z)
  : Res (list Step) :=
  match command with
  | ReplayCommandSubmit _ commandBuffers =>
      and_then (QueueSubmit_buffers_from O commandBuffers commandId) (fun children =>
      Ok ((commandId, "queueSubmit"%string) :: children))
  | _ => Ok [(commandId, queue_command_name command)]
  end.

(** [Commands] on the top-level command list, from index [ndx] on. *)
Fixpoint Commands_of_queue_from (ndx : nat) (commands : list ReplayQueueCommand)
    (commandId : list Z) : Res (list Step) :=
  match commands with
  | [] => Ok []
  | c :: rest =>
      and_then (Command_of_queue c (commandId ++ [Z.of_nat ndx])) (fun now =>
      and_then (Commands_of_queue_from (S ndx) rest commandId) (fun later =>
      Ok (now ++ later)))
  end.

(** The rows of [StepsVis]: [<Commands commands={replay.commands}
    commandId={[]} />]. *)
Definition StepsVis_steps (replay : Replay) : Res (list Step) :=
  Commands_of_queue_from O (commands replay) [].

(** * Vocabulary of the statements *)

(** [flags] is included in [usage], as sets of the 32 flag bits. *)
Definition usage_includes (usage flags : Z) : Prop :=
  forall n, 0 <= n < 32 -> Z.testbit flags n = true -> Z.testbit usage n = true.

(** Strict inclusion: included, and some flag bit of [usage] is not in
    [flags]. *)
Definition usage_strictly_includes (usage flags : Z) : Prop :=
  usage_includes usage flags /\
  exists n, 0 <= n < 32 /\ Z.testbit usage n = true /\ Z.testbit flags n = false.

(** Whatever the outcome, [m] only appends calls that satisfy [P]. *)
Definition gpu_appends {A} (P : GpuCall -> Prop) (m : M A) : Prop :=
  forall e, exists calls,
    env_gpu (snd (m e)) = env_gpu e ++ calls /\ Forall P calls.

(** [c] is a [writeTexture] into [texture]. *)
Definition is_WriteTexture_on (texture : Handle) (c : GpuCall) : Prop :=
  match c with
  | WriteTexture _ t _ _ _ _ _ => t = texture
  | _ => False
  end.

(** [e] with [msgs] appended to the console. *)
Definition log (msgs : list ConsoleMsg) (e : Env) : Env :=
  {| env_trace := env_trace e; env_gpu := env_gpu e;
     env_console := env_console e ++ msgs; env_next := env_next e;
     env_state := env_state e; env_textureStateToShow := env_textureStateToShow e |}.

(** [e] with [replay.state] replaced. *)
Definition with_state (s : ReplayState) (e : Env) : Env :=
  {| env_trace := env_trace e; env_gpu := env_gpu e; env_console := env_console e;
     env_next := env_next e; env_state := s;
     env_textureStateToShow := env_textureStateToShow e |}.

(** [m] cannot fail and only writes to the console. *)
Definition console_only (m : M unit) : Prop :=
  forall e, exists msgs, m e = (Ok tt, log msgs e).

(** [m] leaves the environment as it found it, whatever its outcome. *)
Definition reads_only {A} (m : M A) : Prop := forall e, snd (m e) = e.

(** The case labels of the three resolution switches. *)
Definition queue_resolve_names : list string :=
  ["queueSubmit"; "queueWriteBuffer"; "queueWriteTexture"; "present"; "textureDestroy";
   "bufferUpdateData"; "bufferUnmap"]%string.

Definition encoder_resolve_names : list string :=
  ["beginRenderPass"; "copyBufferToTexture"; "copyTextureToTexture"; "pushDebugGroup";
   "popDebugGroup"]%string.

Definition pass_resolve_names : list string :=
  ["endPass"; "setBindGroup"; "setIndexBuffer"; "setPipeline"; "setVertexBuffer"; "draw";
   "drawIndexed"; "setViewport"; "pushDebugGroup"; "popDebugGroup"]%string.

Definition missing_end_message : string :=
  "BeginRenderPass command doesn't have an associated EndPass.".

(** The shape of a render pass found in a resolved command buffer whose
    command list ends with [final] and whose resolution wrote [msgs] on the
    console: the begin marker comes first; the end marker comes last, unless
    the pass is unterminated, in which case it holds no end marker, the
    missing endPass was reported and the pass is the last command of the
    buffer. *)
Definition resolved_pass_shape (final : option ReplayCommandBufferCommand)
    (msgs : list ConsoleMsg) (rp : ReplayRenderPass) : Prop :=
  exists args children,
    rp_commands rp = CmdBeginRenderPass args :: children /\
    (last (rp_commands rp) = Some (CmdClone TraceEndPass)
     \/
     ((CmdClone TraceEndPass ∉ rp_commands rp) /\
      (AssertionFailed missing_end_message ∈ msgs) /\
      final = Some (CmdRenderPass rp))).

(** The trees the enumerator walks to the end: every command buffer of a
    submit is there, and no command other than the render-pass
    pseudo-command is named 'renderPass'. *)
Definition buffer_enumerable (cb : ReplayCommandBuffer) : bool :=
  forallb (fun c => match c with
                    | CmdRenderPass _ => true
                    | _ => negb (String.eqb (command_name c) "renderPass")
                    end) (rcb_commands cb).

Definition command_enumerable (c : ReplayQueueCommand) : bool :=
  match c with
  | ReplayCommandSubmit _ commandBuffers =>
      forallb (fun cb => match cb with
                         | Some cb => buffer_enumerable cb
                         | None => false
                         end) commandBuffers
  | _ => true
  end.

Definition enumerable (replay : Replay) : bool :=
  forallb command_enumerable (commands replay).

(** What the enumerator writes on the console for a leaf it has no case
    for. *)
Definition unhandled_report (y : Yielded) : ConsoleMsg :=
  match y with
  | (_, QueueLevel c) =>
      AssertionFailed (quoted "Unhandled command type " (queue_command_name c))
  | ([_; _; _], BufferLevel c) =>
      AssertionFailed (quoted "Unhandled command encoder command type " (command_name c))
  | (_, BufferLevel c) =>
      AssertionFailed (quoted "Unhandled render pass command type " (command_name c))
  end.

(** Of the leaves [ls], those the enumerator yields and the reports it
    writes for the others. *)
Definition yielded_of (ls : list Yielded) : list Yielded := List.filter enumerated ls.

Definition reports_of (ls : list Yielded) : list ConsoleMsg :=
  map unhandled_report (List.filter (fun y => negb (enumerated y)) ls).

(** [m] yields the enumerated leaves of [ls], in order, and reports the
    others. *)
Definition enumerates (m : M (list Yielded)) (ls : list Yielded) : Prop :=
  forall e, m e = (Ok (yielded_of ls), log (reports_of ls) e).

(** ** Sample values *)

Definition sample_objects : TraceObjects :=
  {| to_adapters := Some []; to_devices := Some []; to_queues := Some [];
     to_bindGroupLayouts := Some []; to_pipelineLayouts := Some [];
     to_shaderModules := Some []; to_renderPipelines := Some []; to_buffers := Some [];
     to_samplers := Some []; to_textures := Some []; to_textureViews := Some [];
     to_querySets := Some []; to_bindGroups := Some []; to_commandBuffers := Some [] |}.

Definition sample_trace : Trace :=
  {| trace_data := []; trace_objects := sample_objects; trace_commands := [] |}.

Definition sample_device : ReplayDevice :=
  {| rd_label := ""; rd_webgpuObject := HObject 100 |}.

Definition sample_devices : gmap string ReplayDevice := {[ "1"%string := sample_device ]}.

(** A buffer recorded with usage COPY_SRC | COPY_DST. *)
Definition sample_buffer_desc : TraceBuffer :=
  {| tb_label := None; tb_deviceSerial := "1"; tb_usage := 12; tb_size := 256;
     tb_state := "unmapped"; tb_initialData := None |}.

(** A texture recorded with usage COPY_SRC | COPY_DST | TEXTURE_BINDING, in
    state 'destroyed', without and with initial data. *)
Definition sample_texture_desc (initialData : option (list TraceTextureInitialData))
  : TraceTexture :=
  {| tt_label := None; tt_deviceSerial := "1";
     tt_size := {| ext_width := 1; ext_height := 1; ext_depthOrArrayLayers := 1 |};
     tt_format := "rgba8unorm"; tt_usage := 7; tt_sampleCount := 1; tt_mipLevelCount := 1;
     tt_dimension := None; tt_swapChainId := None; tt_state := "destroyed";
     tt_initialData := initialData |}.

Definition sample_data : gmap string (list Z) := {[ "9"%string := [1; 2; 3; 4] ]}.

Definition sample_initial_data : list TraceTextureInitialData :=
  [ {| tid_data := {| td_serial := "9"; td_size := 4 |}; tid_mipLevel := 0;
       tid_bytesPerRow := Some 4 |} ].

(** A session with nothing in it. *)
Definition empty_replay : Replay :=
  {| data := ∅; adapters := ∅; devices := ∅; queues := ∅; bindGroupLayouts := ∅;
     pipelineLayouts := ∅; shaderModules := ∅; renderPipelines := ∅; buffers := ∅;
     samplers := ∅; textures := ∅; textureViews := ∅; querySets := ∅; bindGroups := ∅;
     commandBuffers := ∅; commands := [] |}.

(** The arguments of a render pass that has a depth-stencil attachment only
    (none here, for brevity) and no colour attachment. *)
Definition sample_begin_no_color : TraceBeginRenderPassArgs :=
  {| tbr_label := None; tbr_colorAttachments := []; tbr_depthStencilAttachment := None;
     tbr_timestampWrites := []; tbr_occlusionQuerySetSerial := None;
     tbr_maxDrawCount := 0 |}.

Definition sample_resolved_no_color : ReplayCommandBeginRenderPassArgs :=
  {| bra_label := None; bra_colorAttachments := []; bra_timestampWrites := [];
     bra_occlusionQuerySetState := None; bra_maxDrawCount := 0;
     bra_depthStencilAttachment := None |}.

(** A texture, a view of it, and the arguments of a pass drawing into it. *)
Definition sample_texture : ReplayTexture :=
  {| rt_label := ""; rt_device := sample_device;
     rt_size := {| ext_width := 4; ext_height := 4; ext_depthOrArrayLayers := 1 |};
     rt_format := "rgba8unorm"; rt_sampleCount := 1; rt_mipLevelCount := 1;
     rt_dimension := "2d"; rt_swapChainId := None; rt_webgpuObject := HObject 101 |}.

Definition sample_view : ReplayTextureView :=
  {| rtv_label := ""; rtv_texture := sample_texture; rtv_dimension := Some "2d"%string;
     rtv_baseMipLevel := 0; rtv_mipLevelCount := 1; rtv_baseArrayLayer := 0;
     rtv_arrayLayerCount := 1; rtv_webgpuObject := HObject 102 |}.

Definition sample_attachment : ReplayRenderPassColorAttachment :=
  {| ca_view := HObject 102; ca_viewState := sample_view; ca_resolveTarget := None;
     ca_resolveTargetState := None; ca_clearValue := ""; ca_loadOp := "clear";
     ca_storeOp := "store" |}.

Definition sample_begin_args : ReplayCommandBeginRenderPassArgs :=
  {| bra_label := None; bra_colorAttachments := [sample_attachment];
     bra_timestampWrites := []; bra_occlusionQuerySetState := None; bra_maxDrawCount := 0;
     bra_depthStencilAttachment := None |}.

(** A render pass with one draw between its markers. *)
Definition sample_pass : ReplayRenderPass :=
  MkReplayRenderPass ""
    [CmdBeginRenderPass sample_begin_args; CmdClone (TraceDraw 3 1 0 0);
     CmdClone TraceEndPass].

(** A trace whose only command buffer holds a command the encoder switch
    does not know, then a render pass holding a command the render-pass
    switch does not know, and whose command list holds a submit of that
    buffer, a command the top-level switch does not know, and a present. *)
Definition sample_trace_unrecognized : Trace :=
  {| trace_data := [];
     trace_objects :=
       {| to_adapters := Some []; to_devices := Some []; to_queues := Some [];
          to_bindGroupLayouts := Some []; to_pipelineLayouts := Some [];
          to_shaderModules := Some []; to_renderPipelines := Some []; to_buffers := Some [];
          to_samplers := Some []; to_textures := Some []; to_textureViews := Some [];
          to_querySets := Some []; to_bindGroups := Some [];
          to_commandBuffers :=
            Some [("1"%string,
                   {| tcmb_label := None;
                      tcmb_commands :=
                        [TraceOtherCommand "beginComputePass";
                         TraceBeginRenderPass sample_begin_no_color;
                         TraceSetScissorRect 0 0 1 1;
                         TraceEndPass] |})] |};
     trace_commands :=
       [TraceQueueCommandSubmit "1" ["1"%string];
        TraceQueueCommandOther "dispatch";
        TraceQueueCommandPresent "5" ""] |}.

(** A command buffer descriptor whose render pass is never ended. *)
Definition sample_unterminated : TraceCommandBuffer :=
  {| tcmb_label := None;
     tcmb_commands := [TraceBeginRenderPass sample_begin_no_color; TraceDraw 3 1 0 0] |}.

(** A queue, and a submit of two command buffers: the first pushes a debug
    group, the second pops it. *)
Definition sample_queue : ReplayQueue :=
  {| rq_label := ""; rq_device := sample_device;
     rq_webgpuObject := HQueueOf (rd_webgpuObject sample_device) |}.

Definition sample_first_buffer : ReplayCommandBuffer :=
  {| rcb_label := "first"; rcb_commands := [CmdClone (TracePushDebugGroup "frame")] |}.

Definition sample_second_buffer : ReplayCommandBuffer :=
  {| rcb_label := "second"; rcb_commands := [CmdClone TracePopDebugGroup] |}.

Definition sample_submit_replay : Replay :=
  {| data := ∅; adapters := ∅; devices := sample_devices; queues := ∅;
     bindGroupLayouts := ∅; pipelineLayouts := ∅; shaderModules := ∅;
     renderPipelines := ∅; buffers := ∅; samplers := ∅; textures := ∅; textureViews := ∅;
     querySets := ∅; bindGroups := ∅; commandBuffers := ∅;
     commands := [ReplayCommandSubmit (Some sample_queue)
                    [Some sample_first_buffer; Some sample_second_buffer]] |}.

(** A trace with one adapter, device, queue, shader module and pipeline
    layout; an explicit bind-group layout "1" and an implicit one "2" derived
    from pipeline "1" at group index 1; pipeline "1" with an automatic
    layout and pipeline "2" with the explicit pipeline layout "1". *)
Definition sample_vertex : TraceProgrammableStage :=
  {| stage_moduleSerial := "1"; stage_module := None; stage_entryPoint := "main" |}.

Definition sample_pipeline_objects : TraceObjects :=
  {| to_adapters := Some [("1"%string, {| tad_label := None |})];
     to_devices := Some [("1"%string, {| tdv_label := None; tdv_adapterSerial := "1" |})];
     to_queues := Some [("1"%string, {| tq_label := None; tq_deviceSerial := "1" |})];
     to_bindGroupLayouts :=
       Some [("1"%string, TraceExplicitBindGroupLayout None "1" []);
             ("2"%string, TraceImplicitBindGroupLayout None "1" (Some "1"%string) (Some 1%nat))];
     to_pipelineLayouts :=
       Some [("1"%string, {| tpl_label := None; tpl_deviceSerial := "1";
                             tpl_bindGroupLayoutsSerial := ["1"%string] |})];
     to_shaderModules :=
       Some [("1"%string, {| tsm_label := None; tsm_deviceSerial := "1";
                             tsm_code := "@vertex fn main() {}" |})];
     to_renderPipelines :=
       Some [("1"%string, {| trp_label := None; trp_deviceSerial := "1";
                             trp_vertex := sample_vertex; trp_fragment := None;
                             trp_layout := LayoutAuto; trp_layoutSerial := None |});
             ("2"%string, {| trp_label := None; trp_deviceSerial := "1";
                             trp_vertex := sample_vertex; trp_fragment := None;
                             trp_layout := LayoutValue None;
                             trp_layoutSerial := Some "1"%string |})];
     to_buffers := Some []; to_samplers := Some []; to_textures := Some [];
     to_textureViews := Some []; to_querySets := Some []; to_bindGroups := Some [];
     to_commandBuffers := Some [] |}.

Definition sample_pipeline_trace : Trace :=
  {| trace_data := []; trace_objects := sample_pipeline_objects; trace_commands := [] |}.

(** An adapter acquisition function that always answers with the same
    adapter. *)
Definition sample_requestAdapter (options : TraceAdapter) : option Handle :=
  Some (HObject 1000).

(** A session whose only object is the texture view "7", and the arguments
    of a depth-only render pass on that view: a depth-stencil attachment and
    no colour attachment. *)
Definition sample_depth_replay : Replay :=
  {| data := ∅; adapters := ∅; devices := ∅; queues := ∅; bindGroupLayouts := ∅;
     pipelineLayouts := ∅; shaderModules := ∅; renderPipelines := ∅; buffers := ∅;
     samplers := ∅; textures := ∅; textureViews := {[ "7"%string := sample_view ]};
     querySets := ∅; bindGroups := ∅; commandBuffers := ∅; commands := [] |}.

Definition sample_begin_depth_only : TraceBeginRenderPassArgs :=
  {| tbr_label := None; tbr_colorAttachments := [];
     tbr_depthStencilAttachment :=
       Some {| tds_viewSerial := "7"; tds_depthStoreOp := Some "store"%string;
               tds_stencilStoreOp := None |};
     tbr_timestampWrites := []; tbr_occlusionQuerySetSerial := None;
     tbr_maxDrawCount := 0 |}.

Definition sample_resolved_depth_only : ReplayCommandBeginRenderPassArgs :=
  {| bra_label := None; bra_colorAttachments := []; bra_timestampWrites := [];
     bra_occlusionQuerySetState := None; bra_maxDrawCount := 0;
     bra_depthStencilAttachment :=
       Some {| dsa_view := HObject 102; dsa_viewState := sample_view;
               dsa_depthStoreOp := Some "store"%string; dsa_stencilStoreOp := None |} |}.

(** A session whose only command submits one command buffer holding
    [sample_pass], and a session whose only command is a present. *)
Definition sample_pass_replay : Replay :=
  {| data := ∅; adapters := ∅; devices := sample_devices; queues := ∅;
     bindGroupLayouts := ∅; pipelineLayouts := ∅; shaderModules := ∅;
     renderPipelines := ∅; buffers := ∅; samplers := ∅; textures := ∅; textureViews := ∅;
     querySets := ∅; bindGroups := ∅; commandBuffers := ∅;
     commands := [ReplayCommandSubmit (Some sample_queue)
                    [Some {| rcb_label := ""; rcb_commands := [CmdRenderPass sample_pass] |}]] |}.

Definition sample_present_replay : Replay :=
  {| data := ∅; adapters := ∅; devices := ∅; queues := ∅; bindGroupLayouts := ∅;
     pipelineLayouts := ∅; shaderModules := ∅; renderPipelines := ∅; buffers := ∅;
     samplers := ∅; textures := ∅; textureViews := ∅; querySets := ∅; bindGroups := ∅;
     commandBuffers := ∅;
     commands := [ReplayCommandPresent (Some sample_texture) ""] |}.

(** * Vocabulary of the further properties *)

(** [m] is a function of its arguments up to the console: in every
    environment it has the same outcome and appends the same lines to the
    console, and it touches nothing else. *)
Definition console_function {A} (m : M A) : Prop :=
  exists (r : Res A) (msgs : list ConsoleMsg), forall e, m e = (r, log msgs e).

(** The calls that encode commands: on a command encoder, [finish] apart,
    and on a render pass encoder. *)
Definition encoding_call (c : GpuCall) : Prop :=
  match c with
  | OnEncoder _ (EncFinish _) => False
  | OnEncoder _ _ | OnPass _ _ => True
  | _ => False
  end.

(** The calls of a replay: a command encoder is created, commands are
    encoded and submitted, and data is written through the queue. *)
Definition replay_call (c : GpuCall) : Prop :=
  match c with
  | CreateCommandEncoder _ _ | OnEncoder _ _ | OnPass _ _ | Submit _ _
  | WriteBuffer _ _ _ _ | WriteTextureCommand _ _ _ _ => True
  | _ => False
  end.

(** Whatever its outcome, [m] leaves the trace as it is and only appends
    calls that satisfy [P]. *)
Definition replays_within {A} (P : GpuCall -> Prop) (m : M A) : Prop :=
  forall e,
    env_trace (snd (m e)) = env_trace e /\
    exists calls, env_gpu (snd (m e)) = env_gpu e ++ calls /\ Forall P calls.

(** [c] is the end marker of a render pass. *)
Definition is_endPass (c : ReplayCommandBufferCommand) : bool :=
  match c with
  | CmdClone TraceEndPass => true
  | _ => false
  end.

(** A call on the render pass encoder [pass] other than [end]. *)
Definition pass_call_before_end (pass : Handle) (c : GpuCall) : Prop :=
  match c with
  | OnPass p call => p = pass /\ call <> PassEnd
  | _ => False
  end.

(** What a replayed command of a render pass leaves in the snapshot: the
    state-setting commands whose wrapper is there record their arguments
    (a bind group without its dynamic offsets), every other command leaves
    the snapshot as it is. *)
Definition record_command (s : RenderPassState) (c : ReplayCommandBufferCommand)
  : RenderPassState :=
  match c with
  | CmdSetBindGroup index (Some g) _ => set_bindGroup index g None s
  | CmdSetIndexBuffer (Some b) _ offset size => set_indexBuffer b offset size s
  | CmdSetPipeline (Some p) => set_pipeline p s
  | CmdSetVertexBuffer slot (Some b) offset size => set_vertexBuffer slot b offset size s
  | CmdClone (TraceSetViewport v) => set_viewport v s
  | _ => s
  end.

(** ** Further sample values *)

Definition sample_viewport : Viewport :=
  {| vp_x := 1; vp_y := 1; vp_width := 2; vp_height := 2; vp_minDepth := 0; vp_maxDepth := 1 |}.

(** A render pass that sets the viewport before its draw. *)
Definition sample_viewport_pass : ReplayRenderPass :=
  MkReplayRenderPass ""
    [CmdBeginRenderPass sample_begin_args; CmdClone (TraceSetViewport sample_viewport);
     CmdClone (TraceDraw 3 1 0 0); CmdClone TraceEndPass].

(** The commands of a resolved command buffer with every render pass
    replaced by its children: the flat order of the recorded stream. *)
Definition flattened (commands : list ReplayCommandBufferCommand)
  : list ReplayCommandBufferCommand :=
  concat (map (fun c => match c with
                        | CmdRenderPass rp => rp_commands rp
                        | _ => [c]
                        end) commands).

(** [registry] holds one wrapper per descriptor of the category [descMap],
    which is present in the trace, under the serial of the descriptor. *)
Definition registry_of {D T} (descMap : option (list (string * D)))
    (registry : gmap string T) : Prop :=
  exists l, descMap = Some l /\ forall s, is_Some (registry !! s) <-> (s ∈ map fst l).

(** The name a top-level trace command has once resolved. *)
Definition resolved_queue_name (c : TraceQueueCommand) : string :=
  match c with
  | TraceQueueCommandOther _ => "bad-command"
  | _ => trace_queue_command_name c
  end.


(** A trace that carries one data blob, with a value that does not fit a
    byte. *)
Definition sample_data_trace : Trace :=
  {| trace_data := [("9"%string, [1; 2; 3; 260])]; trace_objects := sample_objects;
     trace_commands := [] |}.

(** The extent of mip level [mip] of a 2-D texture of extent [size]: width
    and height halved [mip] times, rounded down, and at least 1; the layers
    are not reduced. *)
Definition mip_extent (size : Extent3D) (mip : Z) : Extent3D :=
  {| ext_width := Z.max 1 (ext_width size / 2 ^ mip);
     ext_height := Z.max 1 (ext_height size / 2 ^ mip);
     ext_depthOrArrayLayers := ext_depthOrArrayLayers size |}.

(** The upload of one recorded sub-resource into the texture [this]. *)
Definition initial_data_write (r_data : gmap string (list Z)) (this : ReplayTexture)
    (subResource : TraceTextureInitialData) : GpuCall :=
  let extent := mip_extent (rt_size this) (tid_mipLevel subResource) in
  WriteTexture (HQueueOf (rd_webgpuObject (rt_device this))) (rt_webgpuObject this)
    (tid_mipLevel subResource)
    (default [] (r_data !! td_serial (tid_data subResource)))
    (tid_bytesPerRow subResource) (Some (ext_height extent)) extent.

(** A 4x4 texture with three mip levels recorded. *)
Definition sample_mip_data : list TraceTextureInitialData :=
  [ {| tid_data := {| td_serial := "9"; td_size := 4 |}; tid_mipLevel := 0;
       tid_bytesPerRow := Some 16 |};
    {| tid_data := {| td_serial := "9"; td_size := 4 |}; tid_mipLevel := 1;
       tid_bytesPerRow := Some 8 |};
    {| tid_data := {| td_serial := "9"; td_size := 4 |}; tid_mipLevel := 3;
       tid_bytesPerRow := Some 4 |} ].

(** A multisampled texture. *)
Definition sample_multisampled_texture : ReplayTexture :=
  {| rt_label := ""; rt_device := sample_device;
     rt_size := {| ext_width := 4; ext_height := 4; ext_depthOrArrayLayers := 1 |};
     rt_format := "rgba8unorm"; rt_sampleCount := 4; rt_mipLevelCount := 1;
     rt_dimension := "2d"; rt_swapChainId := None; rt_webgpuObject := HObject 101 |}.

(** [m], started in [e], raises without having made a call on the graphics
    context. *)
Definition raises_without_calls {A} (m : M A) (e : Env) : Prop :=
  (exists err, fst (m e) = Throw err) /\ env_gpu (snd (m e)) = env_gpu e.

(** A view recorded with no optional field over the texture "5", and a 2-D
    texture with six layers. *)
Definition sample_view_desc : TraceTextureView :=
  {| ttv_label := None; ttv_textureSerial := "5"; ttv_dimension := None;
     ttv_baseMipLevel := None; ttv_mipLevelCount := None; ttv_baseArrayLayer := None;
     ttv_arrayLayerCount := None |}.

Definition sample_layered_texture : ReplayTexture :=
  {| rt_label := ""; rt_device := sample_device;
     rt_size := {| ext_width := 4; ext_height := 4; ext_depthOrArrayLayers := 6 |};
     rt_format := "rgba8unorm"; rt_sampleCount := 1; rt_mipLevelCount := 3;
     rt_dimension := "2d"; rt_swapChainId := None; rt_webgpuObject := HObject 101 |}.

(** The name of a node of the command tree. *)
Definition node_name (node : YieldedCommand) : string :=
  match node with
  | QueueLevel c => queue_command_name c
  | BufferLevel c => command_name c
  end.

(** What a bind group keeps for an entry of its descriptor: the wrapper the
    entry names, looked up in the registry of its kind; nothing for an entry
    that names no resource. *)
Definition binding_of (r_textureViews : gmap string ReplayTextureView)
    (r_samplers : gmap string ReplaySampler) (r_buffers : gmap string ReplayBuffer)
    (e : TraceBindGroupEntry) : option ReplayBinding :=
  match tbe_textureViewSerial e, tbe_samplerSerial e, tbe_bufferSerial e with
  | Some s, _, _ => Some (BindingTextureView (r_textureViews !! s))
  | None, Some s, _ => Some (BindingSampler (r_samplers !! s))
  | None, None, Some s => Some (BindingBuffer (r_buffers !! s) (tbe_offset e) (tbe_size e))
  | None, None, None => None
  end.

(** A bind group descriptor with a sampler at binding 2 and nothing below,
    and the registries it is built against. *)
Definition sample_sampler : ReplaySampler :=
  {| rs_label := ""; rs_device := sample_device; rs_webgpuObject := HObject 103 |}.

Definition sample_layout : ReplayBindGroupLayout :=
  {| rbgl_label := ""; rbgl_device := Some sample_device;
     rbgl_desc := TraceExplicitBindGroupLayout None "1" [];
     rbgl_webgpuObject := Some (HObject 104); rbgl_implicit := false |}.

Definition sample_entry : TraceBindGroupEntry :=
  {| tbe_binding := 2; tbe_textureViewSerial := None; tbe_samplerSerial := Some "3"%string;
     tbe_bufferSerial := None; tbe_offset := None; tbe_size := None |}.

Definition sample_bind_group_desc : TraceBindGroup :=
  {| tbg_label := None; tbg_deviceSerial := "1"; tbg_layoutSerial := "1";
     tbg_entries := [sample_entry] |}.

(** The calls of a load: an adapter and a device are requested, objects are
    created, initial data is written and textures recorded as destroyed are
    destroyed; nothing is encoded or submitted. *)
Definition load_call (c : GpuCall) : Prop :=
  match c with
  | CreateCommandEncoder _ _ | OnEncoder _ _ | OnPass _ _ | Submit _ _
  | WriteTextureCommand _ _ _ _ => False
  | _ => True
  end.

(** ** Sessions that can be replayed *)

(** [m] returns normally in every environment. *)
Definition returns {A} (m : M A) : Prop := forall e, exists a e', m e = (Ok a, e').

Definition present {A} (o : option A) : bool :=
  match o with
  | Some _ => true
  | None => false
  end.

(** A command of a render pass that the driver can encode: a state-setting
    command carries the wrapper of what it sets. *)
Definition pass_command_replayable (c : ReplayCommandBufferCommand) : bool :=
  match c with
  | CmdSetBindGroup _ bindGroup _ => present bindGroup
  | CmdSetIndexBuffer buffer _ _ _ => present buffer
  | CmdSetPipeline pipeline => present pipeline
  | CmdSetVertexBuffer _ buffer _ _ => present buffer
  | CmdClone (TraceSetBindGroup _ _ _) | CmdClone (TraceSetIndexBuffer _ _ _ _)
  | CmdClone (TraceSetPipeline _) | CmdClone (TraceSetVertexBuffer _ _ _ _) => false
  | _ => true
  end.

(** A render pass that the driver can encode: it starts with a resolved
    begin marker that has a first colour attachment (whose resolve target,
    if any, is resolved) and no occlusion query set (the resolver puts the
    wrapper, not the live query set, under [occlusionQuerySet]), and its
    other commands can be encoded. *)
Definition pass_replayable (rp : ReplayRenderPass) : bool :=
  match rp_commands rp with
  | CmdBeginRenderPass args :: children =>
      match bra_colorAttachments args with
      | a :: _ =>
          match ca_resolveTarget a with
          | Some _ => present (ca_resolveTargetState a)
          | None => true
          end
          && negb (present (bra_occlusionQuerySetState args))
          && forallb pass_command_replayable children
      | [] => false
      end
  | _ => false
  end.

(** A command of a command buffer that the driver can encode: a render pass
    that can be encoded, a debug group, or a command the driver only reports.
    A copy cannot: its call is rejected. *)
Definition buffer_command_replayable (c : ReplayCommandBufferCommand) : bool :=
  match c with
  | CmdRenderPass rp => pass_replayable rp
  | CmdCopyBufferToTexture _ _ _ | CmdCopyTextureToTexture _ _ _
  | CmdClone (TraceCopyBufferToTexture _ _ _)
  | CmdClone (TraceCopyTextureToTexture _ _ _) => false
  | CmdClone (TraceOtherCommand name) => negb (String.eqb name "renderPass")
  | _ => true
  end.

Definition buffer_replayable (cb : ReplayCommandBuffer) : bool :=
  forallb buffer_command_replayable (rcb_commands cb).

(** A top-level command that can be executed: its queue, its buffer and
    its data are there, and so is every command buffer of a submit. *)
Definition command_replayable (replay : Replay) (c : ReplayQueueCommand) : bool :=
  match c with
  | ReplayCommandSubmit queue commandBuffers =>
      present queue &&
      forallb (fun cb => match cb with
                         | Some cb => buffer_replayable cb
                         | None => false
                         end) commandBuffers
  | ReplayCommandWriteBuffer queue buffer _ serializedData =>
      present queue && present buffer && present (data replay !! td_serial serializedData)
  | ReplayCommandWriteTexture queue _ _ _ serializedData _ =>
      present queue && present (data replay !! td_serial serializedData)
  | _ => true
  end.

Definition replayable (replay : Replay) : bool :=
  forallb (command_replayable replay) (commands replay).

(** ** Keys a plain object does not hold *)

(** The names of the members of [Object.prototype]: a plain object answers
    them whether or not it holds them. *)
Definition Object_prototype_names : list string :=
  ["constructor"; "__defineGetter__"; "__defineSetter__"; "hasOwnProperty";
   "__lookupGetter__"; "__lookupSetter__"; "isPrototypeOf"; "propertyIsEnumerable";
   "toString"; "valueOf"; "__proto__"; "toLocaleString"]%string.

Definition inherited_name (k : string) : bool := name_in Object_prototype_names k.

(** [registry[k]] is [undefined]: the registry, a plain object whose
    prototype was not replaced (it has no entry written under '__proto__'),
    holds nothing under [k], and [k] names nothing it inherits. *)
Definition not_held {T} (registry : gmap string T) (k : string) : Prop :=
  registry !! k = None /\ inherited_name k = false /\ registry !! "__proto__"%string = None.

(** ** The snapshot of a render pass, field by field *)

(** The last of the values [pick] reads off [commands], in order. *)
Definition last_picked {V} (pick : ReplayCommandBufferCommand -> option V)
    (commands : list ReplayCommandBufferCommand) : option V :=
  last (omap pick commands).

(** What the state-setting commands of a render pass set; a command whose
    wrapper is missing sets nothing (its replay raises). *)
Definition viewport_set (c : ReplayCommandBufferCommand) : option Viewport :=
  match c with
  | CmdClone (TraceSetViewport v) => Some v
  | _ => None
  end.

Definition pipeline_set (c : ReplayCommandBufferCommand) : option ReplayRenderPipeline :=
  match c with
  | CmdSetPipeline pipeline => pipeline
  | _ => None
  end.

Definition indexBuffer_set (c : ReplayCommandBufferCommand)
  : option (option ReplayBuffer * Z * Z) :=
  match c with
  | CmdSetIndexBuffer (Some b) _ offset size => Some (Some b, offset, size)
  | _ => None
  end.

(** The bind group a command sets, with the index it sets it at; the
    snapshot keeps no dynamic offsets with it. *)
Definition bindGroup_set (c : ReplayCommandBufferCommand)
  : option (nat * (ReplayBindGroup * option (list Z))) :=
  match c with
  | CmdSetBindGroup index (Some g) _ => Some (index, (g, None))
  | _ => None
  end.

Definition vertexBuffer_set (c : ReplayCommandBufferCommand)
  : option (nat * (ReplayBuffer * Z * Z)) :=
  match c with
  | CmdSetVertexBuffer slot (Some b) offset size => Some (slot, (b, offset, size))
  | _ => None
  end.

(** Entry [i] of a JavaScript array that starts empty and receives the
    assignments [writes] (index and value) in order: the value last written
    at [i]; a hole when nothing was written at [i] and something at a higher
    index; nothing when [i] is past every index written. *)
Definition array_entry {V} (writes : list (nat * V)) (i : nat) : option (option V) :=
  match last (omap (fun w => if (fst w =? i)%nat then Some (snd w) else None) writes) with
  | Some v => Some (Some v)
  | None => if existsb (fun w => (i <? fst w)%nat) writes then Some None else None
  end.

(** The viewport that covers a texture. *)
Definition full_viewport (texture : ReplayTexture) : Viewport :=
  {| vp_x := 0; vp_y := 0;
     vp_width := inject_Z (ext_width (rt_size texture));
     vp_height := inject_Z (ext_height (rt_size texture));
     vp_minDepth := 0; vp_maxDepth := 1 |}.

(** A render pass that binds and sets state before it draws: a bind group
    at index 1 (recorded with dynamic offsets), a viewport, then another
    viewport. *)
Definition sample_bind_group : ReplayBindGroup :=
  {| rbg_label := ""; rbg_device := sample_device; rbg_bindings := [];
     rbg_webgpuObject := HObject 105 |}.

Definition sample_state_pass : ReplayRenderPass :=
  MkReplayRenderPass ""
    [CmdBeginRenderPass sample_begin_args;
     CmdSetBindGroup 1 (Some sample_bind_group) (Some [256]);
     CmdClone (TraceSetViewport (full_viewport sample_texture));
     CmdClone (TraceSetViewport sample_viewport);
     CmdClone (TraceDraw 3 1 0 0); CmdClone TraceEndPass].

(** ** Where the replay driver stops *)

(** What the loop of [replayTo] does with the top-level command at the
    index the path starts with; [rest] is the path after that index. *)
Definition replayTo_target (replay : Replay) (rest : list Z) (c : ReplayQueueCommand)
  : M unit :=
  match c with
  | ReplayCommandSubmit queue commandBuffers =>
      q <- deref "replaySubmitTo" queue ;;
      replaySubmitTo q rest commandBuffers
  | _ => execute replay c
  end.

(** [replaySubmitTo] around the buffer its path stops in, at index [j]:
    the encoder is created, the loop over the earlier buffers runs
    ([j - 1] times), [inside] encodes into the encoder, and the encoder is
    finished and submitted. *)
Definition replaySubmitTo_around (this : ReplayQueue)
    (commandBuffers : list (option ReplayCommandBuffer)) (j : nat) (inside : Handle -> M unit)
  : M unit :=
  encoder <- create (CreateCommandEncoder (rd_webgpuObject (rq_device this))) ;;
  for_of (take (j - 1) commandBuffers)
    (fun commandBuffer =>
       cb <- deref "encodeIn" commandBuffer ;;
       ReplayCommandBuffer_encodeIn cb encoder) ;;
  inside encoder ;;
  finish_and_submit this encoder.

(** [ReplayRenderPass.encodeUpTo] stops at the command [c] of index [l]:
    in a pass that starts with its begin marker and has a first colour
    attachment, replaying to index 0 leaves the arguments of the begin
    marker as the state; replaying to a later index begins the pass, runs
    the loop over the commands 1 to [l - 1], hands [c] to the switch of the
    loop, and closes as the source does after the loop. *)
Definition ReplayRenderPass_stops_at (rp : ReplayRenderPass) (l : nat)
    (c : ReplayCommandBufferCommand) : Prop :=
  forall args children a others encoder e,
    rp_commands rp = CmdBeginRenderPass args :: children ->
    bra_colorAttachments args = a :: others ->
    exists msgs,
      ReplayRenderPass_encodeUpTo rp [Z.of_nat l] encoder e =
      match l with
      | O => (Ok tt, with_state (StateBeginArgs args) (log msgs e))
      | S before =>
          (renderPass <- create (fun pass =>
             OnEncoder encoder
               (EncBeginRenderPass (map ca_view (bra_colorAttachments args)) pass)) ;;
           match ca_resolveTarget a with
           | Some _ =>
               resolveTargetState <- deref "texture" (ca_resolveTargetState a) ;;
               set_textureStateToShow (rtv_texture resolveTargetState)
           | None => set_textureStateToShow (rtv_texture (ca_viewState a))
           end ;;
           acc <- for_range_acc before 1%nat
                    (fun i acc =>
                       c' <- deref "name" (rp_commands rp !! i) ;;
                       encode_pass_command renderPass c' acc)
                    (initial_pass_state args (ca_viewState a), false) ;;
           final <- encode_pass_command renderPass c acc ;;
           if snd final then ret tt
           else set_state (StateRenderPass (fst final)) ;; gpu (OnPass renderPass PassEnd))
            (log msgs e)
      end.

(** [replayTo], called with [path], stops at [node]: the node sits in the
    command tree at the positions [path] lists, and the replay executes the
    top-level commands before the first position in full and then handles
    the node as its target:
    - a top-level command is handed to the switch of [replayTo];
    - a command of a command buffer is handed to the switch of
      [ReplayCommandBuffer.encodeUpTo] with the target flag, after the
      commands before it in that buffer;
    - a child of a render pass is the command [ReplayRenderPass.encodeUpTo]
      stops at, the pass being the target of its buffer. *)
Inductive replayTo_stops_at (replay : Replay) : list Z -> YieldedCommand -> Prop :=
| stops_at_top (i : nat) (c : ReplayQueueCommand) :
    commands replay !! i = Some c ->
    (forall e,
       replayTo replay [Z.of_nat i] e
       = (for_of (take i (commands replay)) (execute replay) ;;
          replayTo_target replay [] c ;;
          get_state) (with_state StateEmpty e)) ->
    replayTo_stops_at replay [Z.of_nat i] (QueueLevel c)
| stops_in_buffer (i j k : nat) (queue : option ReplayQueue)
    (commandBuffers : list (option ReplayCommandBuffer)) (cb : ReplayCommandBuffer)
    (c : ReplayCommandBufferCommand) :
    commands replay !! i = Some (ReplayCommandSubmit queue commandBuffers) ->
    commandBuffers !! j = Some (Some cb) ->
    rcb_commands cb !! k = Some c ->
    (forall e,
       replayTo replay [Z.of_nat i; Z.of_nat j; Z.of_nat k] e
       = (for_of (take i (commands replay)) (execute replay) ;;
          (q <- deref "replaySubmitTo" queue ;;
           replaySubmitTo_around q commandBuffers j (fun encoder =>
             for_of (take k (rcb_commands cb)) (encode_buffer_command encoder [] false) ;;
             encode_buffer_command encoder [] true c)) ;;
          get_state) (with_state StateEmpty e)) ->
    replayTo_stops_at replay [Z.of_nat i; Z.of_nat j; Z.of_nat k] (BufferLevel c)
| stops_in_pass (i j k l : nat) (queue : option ReplayQueue)
    (commandBuffers : list (option ReplayCommandBuffer)) (cb : ReplayCommandBuffer)
    (rp : ReplayRenderPass) (c : ReplayCommandBufferCommand) :
    commands replay !! i = Some (ReplayCommandSubmit queue commandBuffers) ->
    commandBuffers !! j = Some (Some cb) ->
    rcb_commands cb !! k = Some (CmdRenderPass rp) ->
    rp_commands rp !! l = Some c ->
    (forall e,
       replayTo replay [Z.of_nat i; Z.of_nat j; Z.of_nat k; Z.of_nat l] e
       = (for_of (take i (commands replay)) (execute replay) ;;
          (q <- deref "replaySubmitTo" queue ;;
           replaySubmitTo_around q commandBuffers j (fun encoder =>
             for_of (take k (rcb_commands cb))
               (encode_buffer_command encoder [Z.of_nat l] false) ;;
             ReplayRenderPass_encodeUpTo rp [Z.of_nat l] encoder)) ;;
          get_state) (with_state StateEmpty e)) ->
    ReplayRenderPass_stops_at rp l c ->
    replayTo_stops_at replay [Z.of_nat i; Z.of_nat j; Z.of_nat k; Z.of_nat l] (BufferLevel c).

(** * Properties *)

(** ** The monad *)

Lemma bind_ok_inv {A B} (m : M A) (k : A -> M B) (e e' : Env) (b : B) :
  bind m k e = (Ok b, e') ->
  exists a e1, m e = (Ok a, e1) /\ k a e1 = (Ok b, e').
Proof.
  unfold bind. destruct (m e) as [[a | err] e1]; intros H.
  - exists a, e1. split; [reflexivity | exact H].
  - discriminate H.
Qed.

Lemma bind_ok {A B} (m : M A) (k : A -> M B) (e e1 : Env) (a : A) :
  m e = (Ok a, e1) -> bind m k e = k a e1.
Proof. unfold bind. intros ->. reflexivity. Qed.

Lemma bind_ret {A B} (a : A) (k : A -> M B) (e : Env) : bind (ret a) k e = k a e.
Proof. reflexivity. Qed.

Lemma bind_ext {A B} (m1 m2 : M A) (k1 k2 : A -> M B) (e : Env) :
  m1 e = m2 e -> (forall a e1, k1 a e1 = k2 a e1) -> bind m1 k1 e = bind m2 k2 e.
Proof.
  intros Hm Hk. unfold bind. rewrite Hm. destruct (m2 e) as [[a | err] e1]; auto.
Qed.

Lemma bind_throw {A B} (m : M A) (k : A -> M B) (e e1 : Env) (err : JsError) :
  m e = (Throw err, e1) -> bind m k e = (Throw err, e1).
Proof. unfold bind. intros ->. reflexivity. Qed.

Lemma deref_ok_inv {A} (what : string) (o : option A) (e e' : Env) (a : A) :
  deref what o e = (Ok a, e') -> o = Some a /\ e' = e.
Proof.
  destruct o as [x |]; cbn; intros H; inversion H; subst; auto.
Qed.

(** Splitting a successful sequence into its steps. *)
Ltac bind_inv H :=
  let a := fresh "a" in
  let e1 := fresh "e" in
  let H1 := fresh "Hstep" in
  apply bind_ok_inv in H; destruct H as (a & e1 & H1 & H).

(** ** Bits of the usage flags *)

Lemma to_int32_mod (z : Z) : to_int32 z mod 2 ^ 32 = z mod 2 ^ 32.
Proof.
  unfold to_int32. rewrite Zminus_mod_idemp_l. f_equal. lia.
Qed.

Lemma to_int32_testbit (z n : Z) :
  0 <= n < 32 -> Z.testbit (to_int32 z) n = Z.testbit z n.
Proof.
  intros Hn.
  rewrite <- (Z.mod_pow2_bits_low (to_int32 z) 32 n) by lia.
  rewrite to_int32_mod. apply Z.mod_pow2_bits_low. lia.
Qed.

Lemma js_or_testbit (a b n : Z) :
  0 <= n < 32 -> Z.testbit (js_or a b) n = Z.testbit a n || Z.testbit b n.
Proof.
  intros Hn. unfold js_or. rewrite Z.lor_spec, !to_int32_testbit by lia. reflexivity.
Qed.

Lemma createBuffer_usage_testbit (desc : TraceBuffer) (n : Z) :
  0 <= n < 32 ->
  Z.testbit (createBuffer_usage desc) n =
  Z.testbit (tb_usage desc) n || Z.testbit GPUBufferUsage.COPY_SRC n
  || Z.testbit GPUBufferUsage.COPY_DST n.
Proof.
  intros Hn. unfold createBuffer_usage. rewrite !js_or_testbit by lia. reflexivity.
Qed.

Lemma createTexture_usage_testbit (desc : TraceTexture) (n : Z) :
  0 <= n < 32 ->
  Z.testbit (createTexture_usage desc) n =
  Z.testbit (tt_usage desc) n || Z.testbit GPUTextureUsage.COPY_SRC n
  || Z.testbit GPUTextureUsage.COPY_DST n || Z.testbit GPUTextureUsage.TEXTURE_BINDING n.
Proof.
  intros Hn. unfold createTexture_usage. rewrite !js_or_testbit by lia. reflexivity.
Qed.

(** ** Buffers and textures: what the constructors ask of the device *)

(** The calls of the buffer constructor: none when the device is missing,
    else the creation, followed by the upload of the initial data if any. *)
Lemma new_ReplayBuffer_calls (r_devices : gmap string ReplayDevice)
    (r_data : gmap string (list Z)) (desc : TraceBuffer) (e : Env) :
  let e' := snd (new_ReplayBuffer r_devices r_data desc e) in
  match r_devices !! tb_deviceSerial desc with
  | None => env_gpu e' = env_gpu e
  | Some dev =>
      exists uploads,
        env_gpu e' =
          env_gpu e ++
          CreateBuffer (rd_webgpuObject dev) (createBuffer_usage desc) (tb_size desc)
            (String.eqb (tb_state desc) "mapped-at-creation") (HObject (env_next e))
          :: uploads /\
        forall c, c ∈ uploads ->
          exists data, c = WriteBuffer (HQueueOf (rd_webgpuObject dev))
                             (HObject (env_next e)) 0 data
  end.
Proof.
  unfold new_ReplayBuffer, bind, console_assert.
  destruct (r_devices !! tb_deviceSerial desc) as [dev |];
    destruct (String.eqb (tb_state desc) "unmapped"
              || String.eqb (tb_state desc) "mapped-at-creation"); cbn;
    try reflexivity.
  all: destruct (tb_initialData desc) as [d |]; cbn.
  all: try (exists []; split; [reflexivity | intros c Hc; inversion Hc]).
  all: unfold getData, bind, deref, console_assert;
    destruct (r_data !! td_serial d) as [buf |]; cbn;
    [ destruct (Z.of_nat (length buf) =? td_size d); cbn;
      eexists; (split; [rewrite <- app_assoc; reflexivity |]);
      intros c Hc; apply list_elem_of_singleton in Hc; subst; eexists; reflexivity
    | exists []; split; [reflexivity | intros c Hc; inversion Hc] ].
Qed.

(** ** Calls added to the log *)

Lemma gpu_appends_ret {A} (P : GpuCall -> Prop) (a : A) : gpu_appends P (ret a).
Proof. intros e. exists []. cbn. rewrite app_nil_r. auto. Qed.

Lemma gpu_appends_throw {A} (P : GpuCall -> Prop) (err : JsError) :
  gpu_appends P (throw err : M A).
Proof. intros e. exists []. cbn. rewrite app_nil_r. auto. Qed.

Lemma gpu_appends_deref {A} (P : GpuCall -> Prop) (what : string) (o : option A) :
  gpu_appends P (deref what o).
Proof. destruct o; [apply gpu_appends_ret | apply gpu_appends_throw]. Qed.

Lemma gpu_appends_console (P : GpuCall -> Prop) (msg : ConsoleMsg) :
  gpu_appends P (console msg).
Proof. intros e. exists []. cbn. rewrite app_nil_r. auto. Qed.

Lemma gpu_appends_console_assert (P : GpuCall -> Prop) (b : bool) (msg : string) :
  gpu_appends P (console_assert b msg).
Proof. destruct b; [apply gpu_appends_ret | apply gpu_appends_console]. Qed.

Lemma gpu_appends_console_warn (P : GpuCall -> Prop) (msg : string) :
  gpu_appends P (console_warn msg).
Proof. apply gpu_appends_console. Qed.

Lemma gpu_appends_gpu (P : GpuCall -> Prop) (c : GpuCall) : P c -> gpu_appends P (gpu c).
Proof. intros Hc e. exists [c]. cbn. auto. Qed.

Lemma gpu_appends_bind {A B} (P : GpuCall -> Prop) (m : M A) (k : A -> M B) :
  gpu_appends P m -> (forall a, gpu_appends P (k a)) -> gpu_appends P (bind m k).
Proof.
  intros Hm Hk e. unfold bind. destruct (Hm e) as (c1 & E1 & F1).
  destruct (m e) as [[a | err] e1]; cbn in *.
  - destruct (Hk a e1) as (c2 & E2 & F2). exists (c1 ++ c2).
    rewrite E2, E1, app_assoc. split; [reflexivity | apply Forall_app; auto].
  - exists c1. auto.
Qed.

Lemma gpu_appends_for_of {A} (P : GpuCall -> Prop) (l : list A) (body : A -> M unit) :
  (forall x, gpu_appends P (body x)) -> gpu_appends P (for_of l body).
Proof.
  intros Hb. induction l as [| x l IH]; cbn.
  - apply gpu_appends_ret.
  - apply gpu_appends_bind; auto.
Qed.

Lemma gpu_appends_getData (P : GpuCall -> Prop) (r_data : gmap string (list Z))
    (d : TraceData) : gpu_appends P (getData r_data d).
Proof.
  unfold getData. apply gpu_appends_bind; [apply gpu_appends_deref |].
  intros buf. apply gpu_appends_bind; [apply gpu_appends_console_assert |].
  intros _. apply gpu_appends_ret.
Qed.

Lemma loadInitialData_calls (r_data : gmap string (list Z)) (this : ReplayTexture)
    (initialData : list TraceTextureInitialData) :
  gpu_appends (is_WriteTexture_on (rt_webgpuObject this))
    (loadInitialData r_data this initialData).
Proof.
  unfold loadInitialData.
  destruct (negb (rt_sampleCount this =? 1)); [apply gpu_appends_console_warn |].
  destruct (negb (String.eqb (rt_dimension this) "2d")); [apply gpu_appends_console_warn |].
  apply gpu_appends_for_of. intros sub.
  apply gpu_appends_bind; [apply gpu_appends_getData |].
  intros buf. apply gpu_appends_gpu. reflexivity.
Qed.

(** The calls of the texture constructor: none when the device is missing,
    else the creation followed by the initial-data writes if the descriptor
    carries initial data, and otherwise by the destruction if the recorded
    state is 'destroyed'. *)
Lemma new_ReplayTexture_calls (r_devices : gmap string ReplayDevice)
    (r_data : gmap string (list Z)) (desc : TraceTexture) (e : Env) :
  let e' := snd (new_ReplayTexture r_devices r_data desc e) in
  let texture := HObject (env_next e) in
  match r_devices !! tt_deviceSerial desc with
  | None => env_gpu e' = env_gpu e
  | Some dev =>
      exists rest,
        env_gpu e' =
          env_gpu e ++
          CreateTexture (rd_webgpuObject dev) (createTexture_usage desc) (tt_size desc) texture
          :: rest /\
        match tt_initialData desc with
        | Some _ => Forall (is_WriteTexture_on texture) rest
        | None =>
            rest = if String.eqb (tt_state desc) "destroyed" then [DestroyTexture texture]
                   else []
        end
  end.
Proof.
  unfold new_ReplayTexture.
  destruct (r_devices !! tt_deviceSerial desc) as [dev |]; cbn; [| reflexivity].
  destruct (tt_initialData desc) as [initialData |]; unfold bind.
  - match goal with
    | |- context [loadInitialData ?d ?t ?i ?env] =>
        destruct (loadInitialData_calls d t i env) as (calls & E & F);
        destruct (loadInitialData d t i env) as [[[] | err] e1]
    end; cbn in *; exists calls; rewrite E, <- app_assoc; auto.
  - destruct (String.eqb (tt_state desc) "destroyed"); cbn;
      eexists; (split; [| reflexivity]); rewrite <- ?app_assoc, ?app_nil_r; reflexivity.
Qed.

Lemma new_ReplayBuffer_result (r_devices : gmap string ReplayDevice)
    (r_data : gmap string (list Z)) (desc : TraceBuffer) (e e' : Env) (b : ReplayBuffer) :
  new_ReplayBuffer r_devices r_data desc e = (Ok b, e') ->
  exists dev, r_devices !! tb_deviceSerial desc = Some dev /\ rb_device b = dev /\
              rb_webgpuObject b = HObject (env_next e).
Proof.
  unfold new_ReplayBuffer. intros H.
  bind_inv H. bind_inv H. apply deref_ok_inv in Hstep0 as [Hdev ->].
  bind_inv H. bind_inv H. inversion H; subst; clear H. cbn.
  exists a0. split; [exact Hdev | split; [reflexivity |]].
  unfold create in Hstep0. inversion Hstep0; subst.
  unfold console_assert in Hstep.
  destruct (_ || _) in Hstep; inversion Hstep; subst; reflexivity.
Qed.

Lemma new_ReplayTexture_result (r_devices : gmap string ReplayDevice)
    (r_data : gmap string (list Z)) (desc : TraceTexture) (e e' : Env) (t : ReplayTexture) :
  new_ReplayTexture r_devices r_data desc e = (Ok t, e') ->
  exists dev, r_devices !! tt_deviceSerial desc = Some dev /\ rt_device t = dev /\
              rt_webgpuObject t = HObject (env_next e).
Proof.
  unfold new_ReplayTexture. intros H.
  bind_inv H. apply deref_ok_inv in Hstep as [Hdev ->].
  bind_inv H. bind_inv H. inversion H; subst; clear H. cbn.
  exists a. split; [exact Hdev | split; [reflexivity |]].
  unfold create in Hstep. inversion Hstep; subst. reflexivity.
Qed.

(** C10 (amended).  A buffer is created with the recorded usage or-ed with
    COPY_SRC and COPY_DST, a texture with the recorded usage or-ed with
    COPY_SRC, COPY_DST and TEXTURE_BINDING: the usage of the created object
    includes every recorded flag and the added ones.  (The inclusion need
    not be strict.) *)
Theorem created_usage_includes_recorded_usage :
  (forall r_devices r_data desc e b e',
     new_ReplayBuffer r_devices r_data desc e = (Ok b, e') ->
     (exists rest,
        env_gpu e' =
          env_gpu e ++
          CreateBuffer (rd_webgpuObject (rb_device b)) (createBuffer_usage desc)
            (tb_size desc) (String.eqb (tb_state desc) "mapped-at-creation")
            (rb_webgpuObject b) :: rest) /\
     usage_includes (createBuffer_usage desc) (tb_usage desc) /\
     usage_includes (createBuffer_usage desc) GPUBufferUsage.COPY_SRC /\
     usage_includes (createBuffer_usage desc) GPUBufferUsage.COPY_DST) /\
  (forall r_devices r_data desc e t e',
     new_ReplayTexture r_devices r_data desc e = (Ok t, e') ->
     (exists rest,
        env_gpu e' =
          env_gpu e ++
          CreateTexture (rd_webgpuObject (rt_device t)) (createTexture_usage desc)
            (tt_size desc) (rt_webgpuObject t) :: rest) /\
     usage_includes (createTexture_usage desc) (tt_usage desc) /\
     usage_includes (createTexture_usage desc) GPUTextureUsage.COPY_SRC /\
     usage_includes (createTexture_usage desc) GPUTextureUsage.COPY_DST /\
     usage_includes (createTexture_usage desc) GPUTextureUsage.TEXTURE_BINDING).
Proof.
  split.
  - intros r_devices r_data desc e b e' H.
    destruct (new_ReplayBuffer_result _ _ _ _ _ _ H) as (dev & Hdev & Hd & Hh).
    pose proof (new_ReplayBuffer_calls r_devices r_data desc e) as Hc.
    cbn zeta in Hc. rewrite Hdev, H in Hc. cbn in Hc.
    destruct Hc as (uploads & E & _).
    split; [exists uploads; rewrite Hd, Hh; exact E |].
    repeat split; intros n Hn Hbit; rewrite createBuffer_usage_testbit by lia;
      rewrite Hbit; rewrite ?orb_true_r; reflexivity.
  - intros r_devices r_data desc e t e' H.
    destruct (new_ReplayTexture_result _ _ _ _ _ _ H) as (dev & Hdev & Hd & Hh).
    pose proof (new_ReplayTexture_calls r_devices r_data desc e) as Hc.
    cbn zeta in Hc. rewrite Hdev, H in Hc. cbn in Hc.
    destruct Hc as (rest & E & _).
    split; [exists rest; rewrite Hd, Hh; exact E |].
    repeat split; intros n Hn Hbit; rewrite createTexture_usage_testbit by lia;
      rewrite Hbit; rewrite ?orb_true_r; reflexivity.
Qed.

Lemma created_usage_includes_recorded_usage_witness :
  let e := init_env sample_trace in
  let r := new_ReplayBuffer sample_devices sample_data sample_buffer_desc e in
  let b := {| rb_label := ""; rb_device := sample_device; rb_usage := 12; rb_size := 256;
              rb_webgpuObject := HObject 0 |} in
  r = (Ok b, snd r) /\
  ((exists rest,
      env_gpu (snd r) =
        env_gpu e ++
        CreateBuffer (rd_webgpuObject (rb_device b)) (createBuffer_usage sample_buffer_desc)
          (tb_size sample_buffer_desc)
          (String.eqb (tb_state sample_buffer_desc) "mapped-at-creation")
          (rb_webgpuObject b) :: rest) /\
   usage_includes (createBuffer_usage sample_buffer_desc) (tb_usage sample_buffer_desc) /\
   usage_includes (createBuffer_usage sample_buffer_desc) GPUBufferUsage.COPY_SRC /\
   usage_includes (createBuffer_usage sample_buffer_desc) GPUBufferUsage.COPY_DST).
Proof.
  intros e r b.
  assert (Hr : r = (Ok b, snd r)) by (vm_compute; reflexivity).
  split; [exact Hr |].
  exact (proj1 created_usage_includes_recorded_usage
           sample_devices sample_data sample_buffer_desc e b (snd r) Hr).
Defined.

(** C10, as stated, fails: a buffer recorded with usage COPY_SRC | COPY_DST
    is created with exactly that usage, which is not a strict superset. *)
Lemma created_usage_not_strictly_larger :
  env_gpu (snd (new_ReplayBuffer sample_devices sample_data sample_buffer_desc
                  (init_env sample_trace)))
  = [CreateBuffer (HObject 100) (tb_usage sample_buffer_desc) 256 false (HObject 0)] /\
  ~ usage_strictly_includes (createBuffer_usage sample_buffer_desc)
      (tb_usage sample_buffer_desc).
Proof.
  split; [vm_compute; reflexivity |].
  intros (_ & n & Hn & Hset & Hclear).
  change (createBuffer_usage sample_buffer_desc) with 12 in Hset.
  change (tb_usage sample_buffer_desc) with 12 in Hclear.
  congruence.
Qed.

(** C9 (amended).  A texture descriptor whose recorded state is 'destroyed'
    and which carries no initial data gives a texture that is destroyed right
    after its creation, with no write in between; when the descriptor
    carries initial data the constructor takes the initial-data branch
    instead: the only calls after the creation are writes of that data, and
    the texture is not destroyed. *)
Theorem destroyed_texture_without_initial_data :
  forall r_devices r_data desc dev e,
    tt_state desc = "destroyed"%string ->
    r_devices !! tt_deviceSerial desc = Some dev ->
    let texture := HObject (env_next e) in
    exists rest,
      env_gpu (snd (new_ReplayTexture r_devices r_data desc e)) =
        env_gpu e ++
        CreateTexture (rd_webgpuObject dev) (createTexture_usage desc) (tt_size desc) texture
        :: rest /\
      match tt_initialData desc with
      | None => rest = [DestroyTexture texture]
      | Some _ => Forall (is_WriteTexture_on texture) rest
      end.
Proof.
  intros r_devices r_data desc dev e Hstate Hdev texture.
  pose proof (new_ReplayTexture_calls r_devices r_data desc e) as Hc.
  cbn zeta in Hc. rewrite Hdev in Hc. destruct Hc as (rest & E & Hrest).
  exists rest. split; [exact E |].
  destruct (tt_initialData desc); [exact Hrest |].
  rewrite Hstate in Hrest. exact Hrest.
Qed.

Lemma destroyed_texture_without_initial_data_witness :
  let desc := sample_texture_desc None in
  let e := init_env sample_trace in
  tt_state desc = "destroyed"%string /\
  sample_devices !! tt_deviceSerial desc = Some sample_device /\
  exists rest,
    env_gpu (snd (new_ReplayTexture sample_devices sample_data desc e)) =
      env_gpu e ++
      CreateTexture (rd_webgpuObject sample_device) (createTexture_usage desc) (tt_size desc)
        (HObject (env_next e)) :: rest /\
    match tt_initialData desc with
    | None => rest = [DestroyTexture (HObject (env_next e))]
    | Some _ => Forall (is_WriteTexture_on (HObject (env_next e))) rest
    end.
Proof.
  intros desc e.
  assert (H1 : tt_state desc = "destroyed"%string) by reflexivity.
  assert (H2 : sample_devices !! tt_deviceSerial desc = Some sample_device)
    by (vm_compute; reflexivity).
  split; [exact H1 | split; [exact H2 |]].
  exact (destroyed_texture_without_initial_data sample_devices sample_data desc
           sample_device e H1 H2).
Defined.

(** C9, as stated, fails: a texture recorded as destroyed that also carries
    initial data gets that data written and is not destroyed. *)
Lemma destroyed_texture_with_initial_data_is_written :
  tt_state (sample_texture_desc (Some sample_initial_data)) = "destroyed"%string /\
  env_gpu (snd (new_ReplayTexture sample_devices sample_data
                  (sample_texture_desc (Some sample_initial_data))
                  (init_env sample_trace)))
  = [CreateTexture (HObject 100) 7
       {| ext_width := 1; ext_height := 1; ext_depthOrArrayLayers := 1 |} (HObject 0);
     WriteTexture (HQueueOf (HObject 100)) (HObject 0) 0 [1; 2; 3; 4] (Some 4) (Some 1)
       {| ext_width := 1; ext_height := 1; ext_depthOrArrayLayers := 1 |}].
Proof. split; vm_compute; reflexivity. Qed.

(** ** The console *)

Lemma log_nil (e : Env) : log [] e = e.
Proof. destruct e. unfold log. cbn. rewrite app_nil_r. reflexivity. Qed.

Lemma log_log (m1 m2 : list ConsoleMsg) (e : Env) : log m2 (log m1 e) = log (m1 ++ m2) e.
Proof. unfold log. cbn. rewrite app_assoc. reflexivity. Qed.

Lemma console_assert_run (b : bool) (msg : string) (e : Env) :
  console_assert b msg e = (Ok tt, log (if b then [] else [AssertionFailed msg]) e).
Proof. destruct b; cbn; [rewrite log_nil |]; reflexivity. Qed.

Lemma console_only_ret : console_only (ret tt).
Proof. intros e. exists []. rewrite log_nil. reflexivity. Qed.

Lemma console_only_console (msg : ConsoleMsg) : console_only (console msg).
Proof. intros e. exists [msg]. reflexivity. Qed.

Lemma console_only_assert (b : bool) (msg : string) : console_only (console_assert b msg).
Proof. intros e. eexists. apply console_assert_run. Qed.

Lemma console_only_bind (m : M unit) (k : unit -> M unit) :
  console_only m -> (forall u, console_only (k u)) -> console_only (bind m k).
Proof.
  intros Hm Hk e. destruct (Hm e) as (m1 & E1).
  destruct (Hk tt (log m1 e)) as (m2 & E2).
  exists (m1 ++ m2). unfold bind. rewrite E1, E2, log_log. reflexivity.
Qed.

Lemma console_only_for_of {A} (l : list A) (body : A -> M unit) :
  (forall x, console_only (body x)) -> console_only (for_of l body).
Proof.
  intros Hb. induction l as [| x l IH]; cbn.
  - apply console_only_ret.
  - apply console_only_bind; auto.
Qed.

Lemma console_only_warn_discards (ops : list string)
    (ds : option (option string * option string)) : console_only (warn_discards ops ds).
Proof.
  unfold warn_discards. apply console_only_bind.
  - apply console_only_for_of. intros op.
    destruct (String.eqb op "discard"); [apply console_only_console | apply console_only_ret].
  - intros _. destruct ds as [[s d] |]; [| apply console_only_ret].
    destruct (_ || _); [apply console_only_console | apply console_only_ret].
Qed.

(** A step that only writes to the console, followed by the rest. *)
Lemma bind_console_only {B} (m : M unit) (k : unit -> M B) (e : Env) :
  console_only m -> exists msgs, bind m k e = k tt (log msgs e).
Proof.
  intros Hm. destruct (Hm e) as (msgs & E). exists msgs. unfold bind. rewrite E. reflexivity.
Qed.

(** Running the console-only step an execution starts with. *)
Ltac step_console :=
  let m := fresh "msgs" in
  match goal with
  | |- context [bind (console_assert ?b ?s) ?k ?env] =>
      destruct (bind_console_only (console_assert b s) k env (console_only_assert _ _))
        as (m & ->)
  | |- context [bind (warn_discards ?o ?d) ?k ?env] =>
      destruct (bind_console_only (warn_discards o d) k env (console_only_warn_discards _ _))
        as (m & ->)
  end.

(** ** Replaying to the begin marker of a render pass *)

Lemma encodeUpTo_begin_marker (rp : ReplayRenderPass)
    (args : ReplayCommandBeginRenderPassArgs) (children : list ReplayCommandBufferCommand)
    (a : ReplayRenderPassColorAttachment) (others : list ReplayRenderPassColorAttachment)
    (rest : list Z) (encoder : Handle) (e : Env) :
  rp_commands rp = CmdBeginRenderPass args :: children ->
  bra_colorAttachments args = a :: others ->
  exists msgs,
    ReplayRenderPass_encodeUpTo rp (0 :: rest) encoder e =
    (Ok tt, with_state (StateBeginArgs args) (log msgs e)).
Proof.
  intros Hcmds Hatt. unfold ReplayRenderPass_encodeUpTo. rewrite Hcmds. cbn [shift fst head].
  step_console.
  cbn [lookup list_lookup deref].
  rewrite bind_ret.
  step_console.
  assert (Hlast : exists c, (CmdBeginRenderPass args :: children)
                            !! (length (CmdBeginRenderPass args :: children) - 1)%nat = Some c).
  { apply lookup_lt_is_Some. cbn. lia. }
  destruct Hlast as (c & ->). cbn [deref].
  rewrite bind_ret.
  step_console.
  rewrite bool_decide_eq_false_2 by (cbn; intros [=]; lia). cbn [negb].
  step_console.
  rewrite Hatt.
  step_console.
  cbn [head deref]. rewrite bind_ret.
  step_console.
  rewrite bool_decide_eq_true_2 by reflexivity.
  rewrite !log_log. eexists. reflexivity.
Qed.

(** C5 (amended).  For a resolved render pass whose begin arguments hold a
    first colour attachment, replaying to the begin marker (index 0 inside
    the pass) makes no call on the graphics context and leaves the begin
    arguments of the pass as the session state. *)
Theorem replay_to_begin_marker :
  forall rp args children a others rest encoder e,
    rp_commands rp = CmdBeginRenderPass args :: children ->
    bra_colorAttachments args = a :: others ->
    let r := ReplayRenderPass_encodeUpTo rp (0 :: rest) encoder e in
    fst r = Ok tt /\
    env_gpu (snd r) = env_gpu e /\
    env_next (snd r) = env_next e /\
    env_state (snd r) = StateBeginArgs args.
Proof.
  intros rp args children a others rest encoder e Hcmds Hatt r.
  destruct (encodeUpTo_begin_marker rp args children a others rest encoder e Hcmds Hatt)
    as (msgs & E).
  subst r. rewrite E. cbn. auto.
Qed.

Lemma replay_to_begin_marker_witness :
  let e := init_env sample_trace in
  let r := ReplayRenderPass_encodeUpTo sample_pass [0] (HObject 0) e in
  rp_commands sample_pass =
    CmdBeginRenderPass sample_begin_args :: [CmdClone (TraceDraw 3 1 0 0); CmdClone TraceEndPass] /\
  bra_colorAttachments sample_begin_args = sample_attachment :: [] /\
  fst r = Ok tt /\
  env_gpu (snd r) = env_gpu e /\
  env_next (snd r) = env_next e /\
  env_state (snd r) = StateBeginArgs sample_begin_args.
Proof.
  intros e r.
  split; [reflexivity | split; [reflexivity |]].
  exact (replay_to_begin_marker sample_pass sample_begin_args _ sample_attachment [] []
           (HObject 0) e eq_refl eq_refl).
Defined.

(** C5, as stated, fails: a command buffer whose render pass has a
    depth-stencil attachment and no colour attachment resolves, and
    replaying that pass to its begin marker raises before the state is
    set. *)
Lemma begin_marker_of_pass_without_color_attachment :
  let e := init_env sample_trace in
  let pass := MkReplayRenderPass ""
                [CmdBeginRenderPass sample_resolved_depth_only; CmdClone TraceEndPass] in
  fst (new_ReplayCommandBuffer sample_depth_replay
         {| tcmb_label := None;
            tcmb_commands := [TraceBeginRenderPass sample_begin_depth_only; TraceEndPass] |} e)
  = Ok {| rcb_label := ""; rcb_commands := [CmdRenderPass pass] |} /\
  fst (ReplayRenderPass_encodeUpTo pass [0] (HObject 0) e) = Throw (TypeError "viewState") /\
  env_state (snd (ReplayRenderPass_encodeUpTo pass [0] (HObject 0) e)) = StateUndefined.
Proof. repeat split; vm_compute; reflexivity. Qed.

(** The same through [replayTo]: the path [[0; 0; 0; 0]] addresses the begin
    marker of the pass in the first buffer of the first submit; the encoder
    is created, finished and submitted with nothing encoded in it, and the
    state returned is the begin arguments. *)
Example replayTo_begin_marker_example :
  let r := replayTo sample_pass_replay [0; 0; 0; 0] (init_env sample_trace) in
  fst r = Ok (StateBeginArgs sample_begin_args) /\
  env_gpu (snd r)
  = [CreateCommandEncoder (HObject 100) (HObject 0);
     OnEncoder (HObject 0) (EncFinish (HObject 1));
     Submit (HQueueOf (HObject 100)) [HObject 1]].
Proof. split; vm_compute; reflexivity. Qed.

(** Replaying the same pass to its draw ([[0; 0; 0; 1]]) begins the pass,
    issues the draw and force-ends the pass; nothing is bound in the
    snapshot. *)
Example replayTo_draw_example :
  let r := replayTo sample_pass_replay [0; 0; 0; 1] (init_env sample_trace) in
  fst r = Ok (StateRenderPass (initial_pass_state sample_begin_args sample_view)) /\
  env_gpu (snd r)
  = [CreateCommandEncoder (HObject 100) (HObject 0);
     OnEncoder (HObject 0) (EncBeginRenderPass [HObject 102] (HObject 1));
     OnPass (HObject 1) (PassDraw 3 1 0 0);
     OnPass (HObject 1) PassEnd;
     OnEncoder (HObject 0) (EncFinish (HObject 2));
     Submit (HQueueOf (HObject 100)) [HObject 2]].
Proof. split; vm_compute; reflexivity. Qed.

(** ** Resolution *)

Lemma reads_only_ret {A} (a : A) : reads_only (ret a).
Proof. intros e. reflexivity. Qed.

Lemma reads_only_throw {A} (err : JsError) : reads_only (throw err : M A).
Proof. intros e. reflexivity. Qed.

Lemma reads_only_deref {A} (what : string) (o : option A) : reads_only (deref what o).
Proof. destruct o; [apply reads_only_ret | apply reads_only_throw]. Qed.

Lemma reads_only_bind {A B} (m : M A) (k : A -> M B) :
  reads_only m -> (forall a, reads_only (k a)) -> reads_only (bind m k).
Proof.
  intros Hm Hk e. unfold bind. specialize (Hm e).
  destruct (m e) as [[a | err] e1]; cbn in *; subst; [apply Hk | reflexivity].
Qed.

Lemma reads_only_map_m {A B} (f : A -> M B) (l : list A) :
  (forall x, reads_only (f x)) -> reads_only (map_m f l).
Proof.
  intros Hf. induction l as [| x l IH]; cbn; [apply reads_only_ret |].
  apply reads_only_bind; [apply Hf |]. intros y.
  apply reads_only_bind; [apply IH |]. intros ys. apply reads_only_ret.
Qed.

Lemma reads_only_ok {A} (m : M A) (e e' : Env) (a : A) :
  reads_only m -> m e = (Ok a, e') -> e' = e.
Proof. intros Hm H. specialize (Hm e). rewrite H in Hm. exact Hm. Qed.

Lemma reads_only_resolve_beginRenderPass (replay : Replay) (args : TraceBeginRenderPassArgs) :
  reads_only (resolve_beginRenderPass replay args).
Proof.
  unfold resolve_beginRenderPass.
  apply reads_only_bind.
  { apply reads_only_map_m. intros a.
    apply reads_only_bind; [apply reads_only_deref |]. intros v.
    apply reads_only_bind; [| intros; apply reads_only_ret].
    destruct (truthy_serial _); [| apply reads_only_ret].
    apply reads_only_bind; [apply reads_only_deref | intros; apply reads_only_ret]. }
  intros cas. apply reads_only_bind.
  { destruct (tbr_depthStencilAttachment args); [| apply reads_only_ret].
    apply reads_only_bind; [apply reads_only_deref | intros; apply reads_only_ret]. }
  intros ds. apply reads_only_bind; [| intros; apply reads_only_ret].
  apply reads_only_map_m. intros w.
  apply reads_only_bind; [apply reads_only_deref | intros; apply reads_only_ret].
Qed.

(** The render-pass switch never fails; a command outside its case labels
    is kept as its clone, with an assertion failure on the console. *)
Lemma resolve_render_pass_command_spec (replay : Replay) (c : TraceCommandBufferCommand)
    (e : Env) :
  exists c' msgs,
    resolve_render_pass_command replay c e = (Ok c', log msgs e) /\
    (c <> TraceEndPass -> c' <> CmdClone TraceEndPass) /\
    (name_in pass_resolve_names (trace_command_name c) = false ->
     c' = CmdClone c /\
     msgs = [AssertionFailed
               (quoted "Unhandled render pass command type " (trace_command_name c))]).
Proof.
  destruct c; cbn [resolve_render_pass_command];
    try (eexists; exists []; rewrite log_nil;
         split; [reflexivity | split; [congruence | cbn; congruence]]).
  all: eexists; eexists; (split; [unfold bind; rewrite console_assert_run; reflexivity |]);
    split; [congruence | auto].
Qed.

(** [ReplayRenderPass.consumeCommands] never fails.  It returns the commands
    it was given followed by the resolved [pre]fix of the stream up to the
    first endPass, that one included; when the stream holds no endPass it
    takes the whole stream, returns without an end marker and reports the
    missing endPass on the console. *)
Lemma ReplayRenderPass_consumeCommands_spec (replay : Replay)
    (stream : list TraceCommandBufferCommand) :
  forall (commands : list ReplayCommandBufferCommand) (e : Env),
  exists more rest msgs,
    ReplayRenderPass_consumeCommands replay stream commands e
    = (Ok (commands ++ more, rest), log msgs e) /\
    ((exists pre body,
        stream = pre ++ TraceEndPass :: rest /\ (TraceEndPass ∉ pre) /\
        more = body ++ [CmdClone TraceEndPass] /\ (CmdClone TraceEndPass ∉ body) /\
        length body = length pre)
     \/
     ((TraceEndPass ∉ stream) /\ rest = [] /\ (CmdClone TraceEndPass ∉ more) /\
      length more = length stream /\
      AssertionFailed missing_end_message ∈ msgs)).
Proof.
  induction stream as [| c stream IH]; intros commands e.
  - exists [], [], [AssertionFailed missing_end_message]. split.
    + cbn. rewrite app_nil_r. reflexivity.
    + right. repeat split; try apply not_elem_of_nil. apply list_elem_of_singleton. reflexivity.
  - assert (Hstep : c = TraceEndPass \/
              (c <> TraceEndPass /\
               ReplayRenderPass_consumeCommands replay (c :: stream) commands e =
               bind (resolve_render_pass_command replay c)
                    (fun c' => ReplayRenderPass_consumeCommands replay stream
                                 (commands ++ [c'])) e)).
    { destruct c; try (right; split; [congruence | reflexivity]). left. reflexivity. }
    destruct Hstep as [-> | [Hne Hstep]].
    + exists [CmdClone TraceEndPass], stream, []. rewrite log_nil. split; [reflexivity |].
      left. exists [], []. repeat split; try apply not_elem_of_nil.
    + rewrite Hstep. clear Hstep.
      destruct (resolve_render_pass_command_spec replay c e) as (c' & m1 & E1 & Hc' & _).
      destruct (IH (commands ++ [c']) (log m1 e)) as (more & rest & m2 & E2 & Hshape).
      exists (c' :: more), rest, (m1 ++ m2). split.
      * unfold bind. rewrite E1, E2, log_log, <- app_assoc. reflexivity.
      * destruct Hshape as [(pre & body & -> & Hpre & -> & Hbody & Hlen)
                           | (Hno & -> & Hmore & Hlen & Hmsg)].
        -- left. exists (c :: pre), (c' :: body). repeat split.
           ++ intros Hin. apply elem_of_cons in Hin as [Hin | Hin]; [congruence | auto].
           ++ intros Hin. apply elem_of_cons in Hin as [Hin | Hin]; [| auto].
              apply (Hc' Hne). symmetry. exact Hin.
           ++ cbn. rewrite Hlen. reflexivity.
        -- right. repeat split.
           ++ intros Hin. apply elem_of_cons in Hin as [Hin | Hin]; [congruence | auto].
           ++ intros Hin. apply elem_of_cons in Hin as [Hin | Hin]; [| auto].
              apply (Hc' Hne). symmetry. exact Hin.
           ++ cbn. rewrite Hlen. reflexivity.
           ++ apply elem_of_app. right. exact Hmsg.
Qed.

(** One turn of the loop of [ReplayCommandBuffer.consumeCommands] on a
    command other than beginRenderPass: it raises (a copy whose buffer or
    texture is missing) or pushes one command, not a render pass, and goes
    on; a command outside the case labels is pushed as its clone, with an
    assertion failure on the console. *)
Lemma ReplayCommandBuffer_consumeCommands_step (fuel : nat) (replay : Replay)
    (c : TraceCommandBufferCommand) (rest : list TraceCommandBufferCommand)
    (commands : list ReplayCommandBufferCommand) (e : Env) :
  (forall args, c <> TraceBeginRenderPass args) ->
  ((exists err,
      ReplayCommandBuffer_consumeCommands (S fuel) replay (c :: rest) commands e
      = (Throw err, e)) \/
   (exists c' msgs,
      (forall rp, c' <> CmdRenderPass rp) /\
      ReplayCommandBuffer_consumeCommands (S fuel) replay (c :: rest) commands e
      = ReplayCommandBuffer_consumeCommands fuel replay rest (commands ++ [c'])
          (log msgs e))) /\
  (name_in encoder_resolve_names (trace_command_name c) = false ->
   ReplayCommandBuffer_consumeCommands (S fuel) replay (c :: rest) commands e
   = ReplayCommandBuffer_consumeCommands fuel replay rest (commands ++ [CmdClone c])
       (log [AssertionFailed
               (quoted "Unhandled command encoder command " (trace_command_name c))] e)).
Proof.
  intros Hbegin.
  destruct c; cbn [ReplayCommandBuffer_consumeCommands].
  1: exfalso; eapply Hbegin; reflexivity.
  2: { split; [| cbn; discriminate].
       destruct (buffers replay !! tcb_bufferSerial source) as [b |];
         [| left; eexists; reflexivity].
       destruct (textures replay !! tct_textureSerial destination) as [t |];
         [| left; eexists; reflexivity].
       right. eexists. exists []. rewrite log_nil.
       refine (conj _ eq_refl). congruence. }
  2: { split; [| cbn; discriminate].
       destruct (textures replay !! tct_textureSerial source) as [s |];
         [| left; eexists; reflexivity].
       destruct (textures replay !! tct_textureSerial destination) as [t |];
         [| left; eexists; reflexivity].
       right. eexists. exists []. rewrite log_nil.
       refine (conj _ eq_refl). congruence. }
  2, 3: split; [| cbn; discriminate]; right; eexists; exists []; rewrite log_nil;
    refine (conj _ eq_refl); congruence.
  all: unfold bind; rewrite console_assert_run; cbn [negb];
    split; [| reflexivity]; right; eexists; eexists;
    refine (conj _ eq_refl); congruence.
Qed.

Lemma last_cons_nonempty {A} (x : A) (l : list A) (y : A) :
  last l = Some y -> last (x :: l) = Some y.
Proof. destruct l; [discriminate | auto]. Qed.

(** [ReplayCommandBuffer.consumeCommands]: when it returns, it has only
    added to the commands it was given and to the console, and every render
    pass it added has the shape above. *)
Lemma ReplayCommandBuffer_consumeCommands_spec (replay : Replay) (fuel : nat) :
  forall (stream : list TraceCommandBufferCommand)
         (commands cmds : list ReplayCommandBufferCommand) (e e' : Env),
    ReplayCommandBuffer_consumeCommands fuel replay stream commands e = (Ok cmds, e') ->
    exists more msgs,
      cmds = commands ++ more /\ e' = log msgs e /\
      forall rp, CmdRenderPass rp ∈ more -> resolved_pass_shape (last more) msgs rp.
Proof.
  induction fuel as [| fuel IH]; intros stream commands cmds e e' H.
  { cbn in H. inversion H; subst. exists [], []. rewrite app_nil_r, log_nil.
    repeat split. intros rp Hin. inversion Hin. }
  destruct stream as [| c rest].
  { cbn in H. inversion H; subst. exists [], []. rewrite app_nil_r, log_nil.
    repeat split. intros rp Hin. inversion Hin. }
  assert (Hc : (exists args, c = TraceBeginRenderPass args) \/
               (forall args, c <> TraceBeginRenderPass args)).
  { destruct c; try (right; congruence). left. eexists. reflexivity. }
  destruct Hc as [[targs ->] | Hc].
  - cbn [ReplayCommandBuffer_consumeCommands] in H.
    bind_inv H.
    apply (reads_only_ok _ _ _ _ (reads_only_resolve_beginRenderPass _ _)) in Hstep.
    subst e0. rename a into args.
    bind_inv H.
    destruct (ReplayRenderPass_consumeCommands_spec replay rest [CmdBeginRenderPass args] e)
      as (children & rest' & m1 & E1 & Hshape).
    rewrite E1 in Hstep. inversion Hstep; subst; clear Hstep. cbn [fst snd] in H.
    set (rp := MkReplayRenderPass (label_of (bra_label args))
                 ([CmdBeginRenderPass args] ++ children)) in *.
    destruct Hshape as [(pre & body & -> & Hpre & -> & Hbody & Hlen)
                       | (Hno & -> & Hchildren & Hlen & Hmsg)].
    + apply IH in H. destruct H as (more & m2 & -> & -> & Hmore).
      exists (CmdRenderPass rp :: more), (m1 ++ m2).
      split; [rewrite <- app_assoc; reflexivity |].
      split; [rewrite log_log; reflexivity |].
      intros rp' Hin. apply elem_of_cons in Hin as [Hin | Hin].
      * inversion Hin; subst rp'. exists args, (body ++ [CmdClone TraceEndPass]).
        split; [reflexivity |]. left. cbn [rp_commands rp].
        rewrite app_assoc. apply last_snoc.
      * destruct (Hmore rp' Hin) as (args' & children' & Hcmds & Hlast).
        exists args', children'. split; [exact Hcmds |].
        destruct Hlast as [Hlast | (Hnoend & Hm & Hfinal)]; [left; exact Hlast |].
        right. split; [exact Hnoend |]. split; [apply elem_of_app; right; exact Hm |].
        apply last_cons_nonempty. exact Hfinal.
    + assert (Hdone : cmds = commands ++ [CmdRenderPass rp] /\ e' = log m1 e).
      { destruct fuel; cbn in H; inversion H; auto. }
      destruct Hdone as [-> ->].
      exists [CmdRenderPass rp], m1. repeat split.
      intros rp' Hin. apply list_elem_of_singleton in Hin. inversion Hin; subst rp'.
      exists args, children. split; [reflexivity |]. right.
      split; [| split; [exact Hmsg | reflexivity]].
      cbn [rp_commands rp]. intros Hin'. apply elem_of_cons in Hin' as [Hin' | Hin'];
        [discriminate | apply Hchildren; exact Hin'].
  - destruct (ReplayCommandBuffer_consumeCommands_step fuel replay c rest commands e Hc)
      as [[(err & E) | (c' & m1 & Hc' & E)] _].
    + rewrite E in H. discriminate.
    + rewrite E in H. apply IH in H. destruct H as (more & m2 & -> & -> & Hmore).
      exists (c' :: more), (m1 ++ m2).
      split; [rewrite <- app_assoc; reflexivity |].
      split; [rewrite log_log; reflexivity |].
      intros rp' Hin. apply elem_of_cons in Hin as [Hin | Hin].
      * exfalso. apply (Hc' rp'). symmetry. exact Hin.
      * destruct (Hmore rp' Hin) as (args' & children' & Hcmds & Hlast).
        exists args', children'. split; [exact Hcmds |].
        destruct Hlast as [Hlast | (Hnoend & Hm & Hfinal)]; [left; exact Hlast |].
        right. split; [exact Hnoend |]. split; [apply elem_of_app; right; exact Hm |].
        apply last_cons_nonempty. exact Hfinal.
Qed.

(** The bound on the iterations of [ReplayCommandBuffer.consumeCommands] is
    never hit: any bound at least the length of the stream gives the same
    run. *)
Lemma ReplayCommandBuffer_consumeCommands_fuel (replay : Replay) (f1 : nat) :
  forall (f2 : nat) (stream : list TraceCommandBufferCommand)
         (commands : list ReplayCommandBufferCommand) (e : Env),
    (length stream <= f1)%nat -> (length stream <= f2)%nat ->
    ReplayCommandBuffer_consumeCommands f1 replay stream commands e
    = ReplayCommandBuffer_consumeCommands f2 replay stream commands e.
Proof.
  induction f1 as [| f1 IH]; intros f2 stream commands e H1 H2.
  { destruct stream; [| cbn in H1; lia]. destruct f2; reflexivity. }
  destruct stream as [| c rest]; [destruct f2; reflexivity |].
  destruct f2 as [| f2]; [cbn in H2; lia |].
  cbn [length] in H1, H2.
  destruct c; cbn [ReplayCommandBuffer_consumeCommands].
  1: { unfold bind at 1 3.
       destruct (resolve_beginRenderPass replay args e) as [[args' | err] e1];
         [| reflexivity].
       destruct (ReplayRenderPass_consumeCommands_spec replay rest
                   [CmdBeginRenderPass args'] e1) as (more & rest' & msgs & E & Hshape).
       unfold bind. rewrite E. cbn [fst snd].
       assert (length rest' <= length rest)%nat.
       { destruct Hshape as [(pre & body & -> & _) | (_ & -> & _)];
           [rewrite length_app; cbn; lia | cbn; lia]. }
       apply IH; lia. }
  all: unfold bind;
    repeat match goal with
           | |- context [deref _ ?o _] => destruct o; cbn [deref ret throw]
           end;
    rewrite ?console_assert_run; try reflexivity; apply IH; lia.
Qed.

Lemma map_m_cons_ok {A B} (f : A -> M B) (x : A) (l : list A) (y : B) (e e1 : Env) :
  f x e = (Ok y, e1) ->
  map_m f (x :: l) e = bind (map_m f l) (fun ys => ret (y :: ys)) e1.
Proof. intros H. cbn. unfold bind at 1. rewrite H. reflexivity. Qed.

(** C3 (amended).  A command whose kind is outside the case labels of a
    resolution switch does not stop resolution and raises nothing: an
    assertion failure naming it is written on the console and resolution
    goes on with the commands that follow.  At the top level the command is
    replaced by the 'bad-command' placeholder, at its position; in a command
    buffer and in a render pass the clone of the command itself is pushed on
    the resolved command list. *)
Theorem unrecognized_command_is_reported_and_kept :
  (forall replay c rest e,
     name_in queue_resolve_names (trace_queue_command_name c) = false ->
     let report := AssertionFailed
                     (quoted "Unhandled command type " (trace_queue_command_name c)) in
     resolve_queue_command replay c e = (Ok ReplayCommandBad, log [report] e) /\
     map_m (resolve_queue_command replay) (c :: rest) e
     = bind (map_m (resolve_queue_command replay) rest)
            (fun resolved => ret (ReplayCommandBad :: resolved)) (log [report] e)) /\
  (forall replay c rest commands e,
     name_in pass_resolve_names (trace_command_name c) = false ->
     let report := AssertionFailed
                     (quoted "Unhandled render pass command type " (trace_command_name c)) in
     ReplayRenderPass_consumeCommands replay (c :: rest) commands e
     = ReplayRenderPass_consumeCommands replay rest (commands ++ [CmdClone c])
         (log [report] e) /\
     exists more rest' msgs,
       ReplayRenderPass_consumeCommands replay (c :: rest) commands e
       = (Ok (commands ++ CmdClone c :: more, rest'), log (report :: msgs) e)) /\
  (forall fuel replay c rest commands e,
     name_in encoder_resolve_names (trace_command_name c) = false ->
     let report := AssertionFailed
                     (quoted "Unhandled command encoder command " (trace_command_name c)) in
     ReplayCommandBuffer_consumeCommands (S fuel) replay (c :: rest) commands e
     = ReplayCommandBuffer_consumeCommands fuel replay rest (commands ++ [CmdClone c])
         (log [report] e) /\
     forall cmds e',
       ReplayCommandBuffer_consumeCommands (S fuel) replay (c :: rest) commands e
       = (Ok cmds, e') ->
       exists more msgs, cmds = commands ++ CmdClone c :: more /\ e' = log (report :: msgs) e).
Proof.
  split; [| split].
  - intros replay c rest e Hname report.
    assert (E : resolve_queue_command replay c e = (Ok ReplayCommandBad, log [report] e)).
    { destruct c; cbn in Hname; try discriminate. reflexivity. }
    split; [exact E |]. apply map_m_cons_ok. exact E.
  - intros replay c rest commands e Hname report.
    assert (Hne : c <> TraceEndPass) by (intros ->; discriminate).
    assert (E : ReplayRenderPass_consumeCommands replay (c :: rest) commands e
                = ReplayRenderPass_consumeCommands replay rest (commands ++ [CmdClone c])
                    (log [report] e)).
    { destruct (resolve_render_pass_command_spec replay c e) as (c' & m & E & _ & Hc').
      destruct (Hc' Hname) as [-> ->].
      destruct c; try congruence; cbn [ReplayRenderPass_consumeCommands];
        unfold bind; rewrite E; reflexivity. }
    split; [exact E |].
    destruct (ReplayRenderPass_consumeCommands_spec replay rest (commands ++ [CmdClone c])
                (log [report] e)) as (more & rest' & msgs & E' & _).
    exists more, rest', msgs. rewrite E, E', log_log, <- app_assoc. reflexivity.
  - intros fuel replay c rest commands e Hname report.
    assert (Hc : forall args, c <> TraceBeginRenderPass args)
      by (intros args ->; discriminate).
    destruct (ReplayCommandBuffer_consumeCommands_step fuel replay c rest commands e Hc)
      as [_ E].
    specialize (E Hname). fold report in E.
    split; [exact E |].
    intros cmds e' H. rewrite E in H.
    apply ReplayCommandBuffer_consumeCommands_spec in H.
    destruct H as (more & msgs & -> & -> & _).
    exists more, msgs. rewrite log_log, <- app_assoc. split; reflexivity.
Qed.

Lemma unrecognized_command_is_reported_and_kept_witness :
  let e := init_env sample_trace in
  let top := TraceQueueCommandOther "dispatch" in
  let scissor := TraceSetScissorRect 0 0 1 1 in
  let draw := TraceDraw 3 1 0 0 in
  (name_in queue_resolve_names (trace_queue_command_name top) = false /\
   resolve_queue_command empty_replay top e
   = (Ok ReplayCommandBad,
      log [AssertionFailed (quoted "Unhandled command type " (trace_queue_command_name top))]
        e)) /\
  (name_in pass_resolve_names (trace_command_name scissor) = false /\
   ReplayRenderPass_consumeCommands empty_replay (scissor :: [TraceEndPass]) [] e
   = ReplayRenderPass_consumeCommands empty_replay [TraceEndPass] ([] ++ [CmdClone scissor])
       (log [AssertionFailed
               (quoted "Unhandled render pass command type " (trace_command_name scissor))]
          e)) /\
  (name_in encoder_resolve_names (trace_command_name draw) = false /\
   ReplayCommandBuffer_consumeCommands 1 empty_replay (draw :: []) [] e
   = ReplayCommandBuffer_consumeCommands 0 empty_replay [] ([] ++ [CmdClone draw])
       (log [AssertionFailed
               (quoted "Unhandled command encoder command " (trace_command_name draw))]
          e)).
Proof.
  intros e top scissor draw.
  destruct unrecognized_command_is_reported_and_kept as (Htop & Hpass & Hbuffer).
  split; [| split].
  - split; [reflexivity |].
    exact (proj1 (Htop empty_replay top [] e eq_refl)).
  - split; [reflexivity |].
    exact (proj1 (Hpass empty_replay scissor [TraceEndPass] [] e eq_refl)).
  - split; [reflexivity |].
    exact (proj1 (Hbuffer O empty_replay draw [] [] e eq_refl)).
Defined.

(** C3, as stated, fails: a trace with an unknown command at each of the
    three levels loads without an error, and the three of them sit in the
    resolved command tree, followed by the commands resolved after them. *)
Lemma unrecognized_commands_survive_load :
  match fst (loadReplay sample_trace_unrecognized (fun _ => None)) with
  | Ok replay =>
      commands replay =
        [ReplayCommandSubmit None
           [Some {| rcb_label := "";
                    rcb_commands :=
                      [CmdClone (TraceOtherCommand "beginComputePass");
                       CmdRenderPass
                         (MkReplayRenderPass ""
                            [CmdBeginRenderPass sample_resolved_no_color;
                             CmdClone (TraceSetScissorRect 0 0 1 1);
                             CmdClone TraceEndPass])] |}];
         ReplayCommandBad;
         ReplayCommandPresent None ""]
  | Throw _ => False
  end /\
  env_console (snd (loadReplay sample_trace_unrecognized (fun _ => None))) =
    [AssertionFailed "Unhandled command encoder command 'beginComputePass'";
     AssertionFailed "Unhandled render pass command type 'setScissorRect'";
     AssertionFailed "Unhandled command type 'dispatch'"].
Proof. split; vm_compute; reflexivity. Qed.

(** C4 (amended).  The children of a render-pass pseudo-command start with
    the begin marker, so they are never empty.  When the stream holds an
    endPass after the beginRenderPass, the children end with the end marker,
    at the first such endPass.  When it holds none, the missing endPass is
    reported by an assertion failure on the console and the pass is produced
    all the same: it takes every remaining command of the stream, holds no
    end marker, and is the last command of its command buffer. *)
Theorem render_pass_children_shape :
  (forall replay args stream e,
     exists children rest msgs,
       ReplayRenderPass_consumeCommands replay stream [CmdBeginRenderPass args] e
       = (Ok (CmdBeginRenderPass args :: children, rest), log msgs e) /\
       (((TraceEndPass ∈ stream) /\
         last children = Some (CmdClone TraceEndPass) /\
         exists pre, stream = pre ++ TraceEndPass :: rest /\ (TraceEndPass ∉ pre) /\
                     length children = S (length pre))
        \/
        ((TraceEndPass ∉ stream) /\
         (CmdClone TraceEndPass ∉ children) /\
         length children = length stream /\ rest = [] /\
         (AssertionFailed missing_end_message ∈ msgs)))) /\
  (forall replay desc e cb e',
     new_ReplayCommandBuffer replay desc e = (Ok cb, e') ->
     exists msgs,
       e' = log msgs e /\
       forall rp, CmdRenderPass rp ∈ rcb_commands cb ->
                  resolved_pass_shape (last (rcb_commands cb)) msgs rp).
Proof.
  split.
  - intros replay args stream e.
    destruct (ReplayRenderPass_consumeCommands_spec replay stream [CmdBeginRenderPass args] e)
      as (more & rest & msgs & E & Hshape).
    exists more, rest, msgs. split; [exact E |].
    destruct Hshape as [(pre & body & -> & Hpre & -> & Hbody & Hlen)
                       | (Hno & -> & Hmore & Hlen & Hmsg)].
    + left. split; [apply elem_of_app; right; apply elem_of_cons; left; reflexivity |].
      split; [apply last_snoc |].
      exists pre. split; [reflexivity | split; [exact Hpre |]].
      rewrite length_app. cbn. lia.
    + right. auto.
  - intros replay desc e cb e' H. unfold new_ReplayCommandBuffer in H.
    bind_inv H. inversion H; subst; clear H. cbn [rcb_commands].
    apply ReplayCommandBuffer_consumeCommands_spec in Hstep.
    destruct Hstep as (more & msgs & -> & -> & Hmore).
    exists msgs. split; [reflexivity |]. exact Hmore.
Qed.

Lemma render_pass_children_shape_witness :
  let e := init_env sample_trace in
  let desc := {| tcmb_label := None;
                 tcmb_commands := [TraceBeginRenderPass sample_begin_no_color;
                                   TraceEndPass] |} in
  let cb := {| rcb_label := "";
               rcb_commands :=
                 [CmdRenderPass
                    (MkReplayRenderPass ""
                       [CmdBeginRenderPass sample_resolved_no_color;
                        CmdClone TraceEndPass])] |} in
  new_ReplayCommandBuffer empty_replay desc e = (Ok cb, e) /\
  exists msgs,
    e = log msgs e /\
    forall rp, CmdRenderPass rp ∈ rcb_commands cb ->
               resolved_pass_shape (last (rcb_commands cb)) msgs rp.
Proof.
  intros e desc cb.
  assert (H : new_ReplayCommandBuffer empty_replay desc e = (Ok cb, e))
    by (vm_compute; reflexivity).
  split; [exact H |].
  exact (proj2 render_pass_children_shape empty_replay desc e cb e H).
Defined.

(** C4, as stated, fails: a command buffer whose render pass is never ended
    resolves without an error into a pass with no end marker; the missing
    endPass is only written on the console. *)
Lemma unterminated_render_pass_is_produced :
  new_ReplayCommandBuffer empty_replay sample_unterminated (init_env sample_trace)
  = (Ok {| rcb_label := "";
           rcb_commands :=
             [CmdRenderPass
                (MkReplayRenderPass ""
                   [CmdBeginRenderPass sample_resolved_no_color;
                    CmdClone (TraceDraw 3 1 0 0)])] |},
     log [AssertionFailed missing_end_message] (init_env sample_trace)).
Proof. vm_compute. reflexivity. Qed.

(** ** The replay driver *)

Lemma js_index_of_nat {A} (l : list A) (i : nat) : js_index l (Some (Z.of_nat i)) = l !! i.
Proof.
  unfold js_index. destruct (Z.ltb_spec (Z.of_nat i) 0); [lia |].
  rewrite Nat2Z.id. reflexivity.
Qed.

Lemma for_range_S (n start : nat) (body : nat -> M unit) :
  for_range (S n) start body = bind (body start) (fun _ => for_range n (S start) body).
Proof. reflexivity. Qed.

(** The loop of [replaySubmitTo] over the command buffers before the
    target: for a target index [j] it runs [j - 1] times, so it encodes the
    buffers of index 0 to [j - 2] and leaves out buffer [j - 1]. *)
Lemma replaySubmitTo_loop_encodes (encoder : Handle)
    (commandBuffers : list (option ReplayCommandBuffer)) (n : nat) :
  forall (start : nat) (e : Env),
    (start + n <= length commandBuffers)%nat ->
    for_range n start
      (fun i =>
         cb <- deref "encodeIn" (mjoin (commandBuffers !! i)) ;;
         ReplayCommandBuffer_encodeIn cb encoder) e
    = for_of (take n (drop start commandBuffers))
        (fun commandBuffer =>
           cb <- deref "encodeIn" commandBuffer ;;
           ReplayCommandBuffer_encodeIn cb encoder) e.
Proof.
  induction n as [| n IH]; intros start e Hlen; [reflexivity |].
  destruct (lookup_lt_is_Some_2 commandBuffers start ltac:(lia)) as (cb & Hcb).
  rewrite (drop_S _ _ _ Hcb). cbn [take for_of]. rewrite for_range_S.
  apply bind_ext.
  - rewrite Hcb. reflexivity.
  - intros _ e1. apply IH. lia.
Qed.

Lemma replaySubmitTo_encodes_up_to_two_before (this : ReplayQueue) (j : nat) (path' : list Z)
    (commandBuffers : list (option ReplayCommandBuffer)) (e : Env) :
  (j <= length commandBuffers)%nat ->
  replaySubmitTo this (Z.of_nat j :: path') commandBuffers e
  = (encoder <- create (CreateCommandEncoder (rd_webgpuObject (rq_device this))) ;;
     for_of (take (j - 1) commandBuffers)
       (fun commandBuffer =>
          cb <- deref "encodeIn" commandBuffer ;;
          ReplayCommandBuffer_encodeIn cb encoder) ;;
     target <- deref "encodeUpTo" (mjoin (commandBuffers !! j)) ;;
     ReplayCommandBuffer_encodeUpTo target path' encoder false ;;
     finish_and_submit this encoder) e.
Proof.
  intros Hj. unfold replaySubmitTo. cbn [shift head tail].
  rewrite js_index_of_nat.
  replace (Z.to_nat (Z.of_nat j - 1)) with (j - 1)%nat by lia.
  unfold bind at 1 5. cbn [create].
  unfold bind at 1 4.
  rewrite (replaySubmitTo_loop_encodes _ commandBuffers (j - 1) O) by lia.
  reflexivity.
Qed.

(** C1: the code at a failing input.  Replaying a submit of two command
    buffers to the first command of the second one ([0; 1; 0]) encodes
    nothing of the first buffer: the loop over the earlier buffers stops at
    [commandBufferIndex - 1].  Full execution of the same submit encodes
    both.  With no buffer-internal component ([0; 1]) nothing of the target
    buffer is encoded either. *)
Theorem replaySubmitTo_skips_the_buffer_before_the_target :
  let e := init_env sample_trace in
  let device := rd_webgpuObject sample_device in
  let encoder := HObject 0 in
  let closing := [OnEncoder encoder (EncFinish (HObject 1));
                  Submit (HQueueOf device) [HObject 1]] in
  replayTo sample_submit_replay [0; 1; 0] e
  = (Ok StateEmpty,
     {| env_trace := sample_trace;
        env_gpu := CreateCommandEncoder device encoder
                   :: OnEncoder encoder EncPopDebugGroup :: closing;
        env_console := []; env_next := 2%nat; env_state := StateEmpty;
        env_textureStateToShow := None |}) /\
  env_gpu (snd (execute_all sample_submit_replay e))
  = CreateCommandEncoder device encoder
    :: OnEncoder encoder (EncPushDebugGroup "frame")
    :: OnEncoder encoder EncPopDebugGroup :: closing /\
  env_gpu (snd (replayTo sample_submit_replay [0; 1] e))
  = CreateCommandEncoder device encoder :: closing.
Proof. repeat split; vm_compute; reflexivity. Qed.

(** The loop of [replayTo] when the target is one past the last command:
    it runs [execute] on what is left of the command list and then reads the
    name of a command that does not exist. *)
Lemma replayTo_loop_past_the_end (replay : Replay) (suffix : list ReplayQueueCommand) :
  forall (i : nat) (path' : list Z) (e : Env),
    drop i (commands replay) = suffix ->
    for_range (S (length suffix)) i
      (fun i =>
         c <- deref "name" (commands replay !! i) ;;
         match c with
         | ReplayCommandSubmit queue commandBuffers =>
             if bool_decide (Some (Z.of_nat i) = Some (Z.of_nat (length (commands replay))))
             then q <- deref "replaySubmitTo" queue ;; replaySubmitTo q path' commandBuffers
             else q <- deref "executeSubmit" queue ;; executeSubmit q commandBuffers
         | _ => execute replay c
         end) e
    = match for_of suffix (execute replay) e with
      | (Ok _, e1) => (Throw (TypeError "name"), e1)
      | (Throw err, e1) => (Throw err, e1)
      end.
Proof.
  induction suffix as [| c suffix IH]; intros i path' e Hdrop;
    match goal with |- for_range _ _ ?f _ = _ => set (body := f) in * end.
  - assert (Hnone : commands replay !! i = None).
    { rewrite <- (Nat.add_0_r i), <- lookup_drop, Hdrop. reflexivity. }
    cbn [length]. rewrite for_range_S. unfold bind. subst body. cbv beta.
    unfold bind. rewrite Hnone. reflexivity.
  - assert (Hsome : commands replay !! i = Some c).
    { rewrite <- (Nat.add_0_r i), <- lookup_drop, Hdrop. reflexivity. }
    assert (Hnext : drop (S i) (commands replay) = suffix).
    { change (S i) with (1 + i)%nat. rewrite Nat.add_comm, <- drop_drop, Hdrop.
      reflexivity. }
    assert (Hlt : (i < length (commands replay))%nat).
    { apply lookup_lt_Some in Hsome. exact Hsome. }
    assert (Hbody : body i e = execute replay c e).
    { subst body. cbv beta. unfold bind at 1. rewrite Hsome. cbn [deref ret].
      destruct c; try reflexivity.
      rewrite bool_decide_eq_false_2 by (intros [=]; lia). reflexivity. }
    cbn [length for_of]. rewrite for_range_S. unfold bind. rewrite Hbody.
    destruct (execute replay c e) as [[[] | err] e1]; [| reflexivity].
    apply (IH (S i) path' e1 Hnext).
Qed.

(** C2: the code on every input.  Replaying to the terminal path does what
    full execution does on a session whose state has been emptied, and then
    raises instead of returning: the loop runs up to and including index
    [commands.length], where there is no command. *)
Theorem replayTo_endPath_raises :
  forall replay e,
    replayTo replay (endPath replay) e
    = match execute_all replay (with_state StateEmpty e) with
      | (Ok _, e1) => (Throw (TypeError "name"), e1)
      | (Throw err, e1) => (Throw err, e1)
      end.
Proof.
  intros replay e. unfold replayTo, endPath, execute_all. cbn [shift head tail].
  unfold bind at 1. cbn [set_state]. fold (with_state StateEmpty e).
  unfold bind at 1.
  replace (iterations_through 0 (Some (Z.of_nat (length (commands replay)))))
    with (S (length (commands replay))) by (cbn; lia).
  rewrite (replayTo_loop_past_the_end replay (commands replay) O []
             (with_state StateEmpty e) eq_refl).
  destruct (for_of (commands replay) (execute replay) (with_state StateEmpty e))
    as [[[] | err] e1]; reflexivity.
Qed.

(** On a session whose only command is a present, the terminal path is
    [[1]]: the present is executed and the call raises. *)
Example replayTo_endPath_example :
  endPath sample_present_replay = [1] /\
  replayTo sample_present_replay (endPath sample_present_replay) (init_env sample_trace)
  = (Throw (TypeError "name"),
     with_state (StateCurrentTexture (Some sample_texture)) (init_env sample_trace)).
Proof. split; vm_compute; reflexivity. Qed.

(** ** The command enumerator *)

Lemma yielded_of_app (l1 l2 : list Yielded) :
  yielded_of (l1 ++ l2) = yielded_of l1 ++ yielded_of l2.
Proof. unfold yielded_of. apply List.filter_app. Qed.

Lemma reports_of_app (l1 l2 : list Yielded) :
  reports_of (l1 ++ l2) = reports_of l1 ++ reports_of l2.
Proof. unfold reports_of. rewrite List.filter_app, map_app. reflexivity. Qed.

Lemma enumerates_nil : enumerates (ret []) [].
Proof. intros e. cbn. rewrite log_nil. reflexivity. Qed.

(** One turn of a generator loop: what this turn yields, then the rest. *)
Lemma enumerates_app (m1 m2 : M (list Yielded)) (l1 l2 : list Yielded) :
  enumerates m1 l1 -> enumerates m2 l2 ->
  enumerates (now <- m1 ;; later <- m2 ;; ret (now ++ later)) (l1 ++ l2).
Proof.
  intros H1 H2 e. unfold bind. rewrite H1, H2. cbn.
  rewrite yielded_of_app, reports_of_app, log_log. reflexivity.
Qed.

Lemma enumerates_ext (m : M (list Yielded)) (l1 l2 : list Yielded) :
  l1 = l2 -> enumerates m l1 -> enumerates m l2.
Proof. intros ->. auto. Qed.

(** A leaf with a case yields itself; one without is reported. *)
Lemma enumerates_leaf (y : Yielded) (unhandled : M unit) :
  (forall e, unhandled e = (Ok tt, log [unhandled_report y] e)) ->
  enumerates (if enumerated y then ret [y] else unhandled ;; ret []) [y].
Proof.
  intros Hu e. unfold yielded_of, reports_of. cbn [List.filter].
  destruct (enumerated y); cbn [negb map].
  - cbn. rewrite log_nil. reflexivity.
  - unfold bind. rewrite Hu. reflexivity.
Qed.

Lemma ReplayRenderPass_iterateCommands_from_enumerates (i j k : Z)
    (commands : list ReplayCommandBufferCommand) :
  forall l : nat,
    enumerates (ReplayRenderPass_iterateCommands_from i j k l commands)
      (imap (fun n c => ([i; j; k; Z.of_nat (l + n)], BufferLevel c)) commands).
Proof.
  induction commands as [| c rest IH]; intros l; [apply enumerates_nil |].
  rewrite imap_cons. cbn [ReplayRenderPass_iterateCommands_from].
  apply (enumerates_app _ _ [_] _).
  - rewrite Nat.add_0_r.
    apply (enumerates_leaf ([i; j; k; Z.of_nat l], BufferLevel c)).
    intros e. reflexivity.
  - eapply enumerates_ext; [| apply (IH (S l))].
    apply imap_ext. intros n x _. cbn. repeat f_equal. lia.
Qed.

Lemma ReplayRenderPass_iterateCommands_enumerates (rp : ReplayRenderPass) (i j k : Z) :
  enumerates (ReplayRenderPass_iterateCommands rp i j k) (leaves_of_pass i j k rp).
Proof. apply (ReplayRenderPass_iterateCommands_from_enumerates i j k (rp_commands rp) O). Qed.

Lemma ReplayCommandBuffer_iterateCommands_from_enumerates (i j : Z)
    (commands : list ReplayCommandBufferCommand) :
  forall k : nat,
    buffer_enumerable {| rcb_label := ""; rcb_commands := commands |} = true ->
    enumerates (ReplayCommandBuffer_iterateCommands_from i j k commands)
      (concat (imap (fun n c =>
                       match c with
                       | CmdRenderPass rp => leaves_of_pass i j (Z.of_nat (k + n)) rp
                       | _ => [([i; j; Z.of_nat (k + n)], BufferLevel c)]
                       end) commands)).
Proof.
  induction commands as [| c rest IH]; intros k Hok; [apply enumerates_nil |].
  unfold buffer_enumerable in Hok. cbn [rcb_commands forallb] in Hok.
  apply andb_true_iff in Hok as [Hc Hrest].
  rewrite imap_cons. cbn [concat ReplayCommandBuffer_iterateCommands_from].
  apply enumerates_app.
  - rewrite Nat.add_0_r.
    assert (Hleaf : forall c0, c0 = c -> (forall rp, c <> CmdRenderPass rp) ->
              enumerates
                (if String.eqb (command_name c) "renderPass" then
                   throw (TypeError "iterateCommands")
                 else if name_in buffer_yield_names (command_name c) then
                   ret [([i; j; Z.of_nat k], BufferLevel c)]
                 else unhandled_encoder_command c ;; ret [])
                [([i; j; Z.of_nat k], BufferLevel c)]).
    { intros c0 _ Hnot.
      assert (Hname : String.eqb (command_name c) "renderPass" = false).
      { destruct c; try (apply negb_true_iff; exact Hc). exfalso. eapply Hnot. reflexivity. }
      rewrite Hname.
      apply (enumerates_leaf ([i; j; Z.of_nat k], BufferLevel c)).
      intros e. reflexivity. }
    destruct c; try (apply (Hleaf _ eq_refl); congruence).
    apply ReplayRenderPass_iterateCommands_enumerates.
  - eapply enumerates_ext; [| apply (IH (S k)); exact Hrest].
    f_equal. apply imap_ext. intros n x _. cbn.
    replace (k + S n)%nat with (S (k + n)) by lia. reflexivity.
Qed.

Lemma ReplayCommandBuffer_iterateCommands_enumerates (cb : ReplayCommandBuffer) (i j : Z) :
  buffer_enumerable cb = true ->
  enumerates (ReplayCommandBuffer_iterateCommands cb i j) (leaves_of_buffer i j cb).
Proof.
  intros Hok.
  apply (ReplayCommandBuffer_iterateCommands_from_enumerates i j (rcb_commands cb) O).
  destruct cb. exact Hok.
Qed.

Lemma iterate_commandBuffers_from_enumerates (i : Z)
    (commandBuffers : list (option ReplayCommandBuffer)) :
  forall j : nat,
    forallb (fun cb => match cb with
                       | Some cb => buffer_enumerable cb
                       | None => false
                       end) commandBuffers = true ->
    enumerates (iterate_commandBuffers_from i j commandBuffers)
      (concat (imap (fun n cb =>
                       match cb with
                       | Some cb => leaves_of_buffer i (Z.of_nat (j + n)) cb
                       | None => []
                       end) commandBuffers)).
Proof.
  induction commandBuffers as [| cb rest IH]; intros j Hok; [apply enumerates_nil |].
  cbn [forallb] in Hok. apply andb_true_iff in Hok as [Hcb Hrest].
  destruct cb as [cb |]; [| discriminate].
  rewrite imap_cons. cbn [concat iterate_commandBuffers_from deref].
  intros e. rewrite bind_ret. revert e.
  apply enumerates_app.
  - rewrite Nat.add_0_r. apply ReplayCommandBuffer_iterateCommands_enumerates. exact Hcb.
  - eapply enumerates_ext; [| apply (IH (S j)); exact Hrest].
    f_equal. apply imap_ext. intros n x _. cbn.
    replace (j + S n)%nat with (S (j + n)) by lia. reflexivity.
Qed.

Lemma Replay_iterateCommands_from_enumerates (commands : list ReplayQueueCommand) :
  forall i : nat,
    forallb command_enumerable commands = true ->
    enumerates (Replay_iterateCommands_from i commands)
      (concat (imap (fun n c => leaves_of_command (i + n) c) commands)).
Proof.
  induction commands as [| c rest IH]; intros i Hok; [apply enumerates_nil |].
  cbn [forallb] in Hok. apply andb_true_iff in Hok as [Hc Hrest].
  rewrite imap_cons. cbn [concat Replay_iterateCommands_from].
  apply enumerates_app.
  - rewrite Nat.add_0_r.
    destruct c as [queue cbs | | | | | | |];
      try (apply (enumerates_leaf ([Z.of_nat i], QueueLevel _)); intros e; reflexivity).
    apply (iterate_commandBuffers_from_enumerates (Z.of_nat i) cbs O). exact Hc.
  - eapply enumerates_ext; [| apply (IH (S i)); exact Hrest].
    f_equal. apply imap_ext. intros n x _. cbn.
    replace (i + S n)%nat with (S (i + n)) by lia. reflexivity.
Qed.

(** *** Paths *)

Lemma elem_of_concat_imap {A B} (f : nat -> A -> list B) (l : list A) (y : B) :
  y ∈ concat (imap f l) <-> exists i x, l !! i = Some x /\ y ∈ f i x.
Proof.
  rewrite list_elem_of_In, in_concat. split.
  - intros (ys & Hys & Hy). apply list_elem_of_In, elem_of_lookup_imap in Hys.
    destruct Hys as (i & x & -> & Hx). exists i, x. split; [exact Hx |].
    apply list_elem_of_In. exact Hy.
  - intros (i & x & Hx & Hy). exists (f i x). split.
    + apply list_elem_of_In, elem_of_lookup_imap. exists i, x. auto.
    + apply list_elem_of_In. exact Hy.
Qed.

(** C7 (amended).  On a resolved command tree in which every command buffer
    of a submit is present (and no unhandled clone is itself named
    'renderPass'), the enumerator runs to the end and yields, in document
    order, exactly one (path, command) pair per leaf command of a kind it has
    a case for; a leaf of another kind ('bad-command', an unhandled encoder
    or render-pass command) yields no pair and is reported on the console.
    The paths follow the addressing scheme: [[i]] for the top-level command
    at position [i] when it is no submit, [[i; j; k]] for the command at
    position [k] of command buffer [j] of the submit at position [i],
    [[i; j; k; l]] for the child at position [l] of the render pass at
    position [k] of that buffer.  The pairs do not depend on the
    environment, so the enumeration can be run again from the start with the
    same result. *)
Theorem enumerator_yields_the_enumerated_leaves :
  forall replay,
    enumerable replay = true ->
    forall e,
      iterateCommands replay e
      = (Ok (yielded_of (leaves replay)), log (reports_of (leaves replay)) e).
Proof.
  intros replay Hok. exact (Replay_iterateCommands_from_enumerates (commands replay) O Hok).
Qed.

Lemma enumerator_yields_the_enumerated_leaves_witness :
  let e := init_env sample_trace in
  enumerable sample_submit_replay = true /\
  iterateCommands sample_submit_replay e
  = (Ok (yielded_of (leaves sample_submit_replay)),
     log (reports_of (leaves sample_submit_replay)) e) /\
  yielded_of (leaves sample_submit_replay)
  = [([0; 0; 0], BufferLevel (CmdClone (TracePushDebugGroup "frame")));
     ([0; 1; 0], BufferLevel (CmdClone TracePopDebugGroup))].
Proof.
  intros e.
  assert (H : enumerable sample_submit_replay = true) by reflexivity.
  split; [exact H |].
  split; [| reflexivity].
  exact (enumerator_yields_the_enumerated_leaves sample_submit_replay H e).
Defined.

(** C7, as stated, fails: the tree resolved from a trace with an unknown
    command at each level has six leaves, and the enumerator yields three
    pairs. *)
Lemma enumerator_skips_unrecognized_leaves :
  match fst (loadReplay sample_trace_unrecognized (fun _ => None)) with
  | Ok replay =>
      map fst (leaves replay) = [[0; 0; 0]; [0; 0; 1; 0]; [0; 0; 1; 1]; [0; 0; 1; 2]; [1]; [2]] /\
      fst (iterateCommands replay (init_env sample_trace))
      = Ok [([0; 0; 1; 0], BufferLevel (CmdBeginRenderPass sample_resolved_no_color));
            ([0; 0; 1; 2], BufferLevel (CmdClone TraceEndPass));
            ([2], QueueLevel (ReplayCommandPresent None ""))]
  | Throw _ => False
  end.
Proof. vm_compute. split; reflexivity. Qed.

(** ** Reconstruction *)

(** C8: the code at a failing input.  Loading a trace with two render
    pipelines succeeds and leaves the Trace value changed: the descriptor of
    each pipeline now holds the shader-module wrapper under [vertex.module],
    and the descriptor with an explicit layout holds the pipeline-layout
    wrapper under [layout].  [recreate] writes through [this.desc], which is
    the descriptor object of the trace, not a clone of it. *)
Theorem load_writes_into_the_trace :
  let r := loadReplay sample_pipeline_trace sample_requestAdapter in
  let device := {| rd_label := ""; rd_webgpuObject := HObject 0 |} in
  let module := {| rsm_label := ""; rsm_device := device;
                   rsm_code := "@vertex fn main() {}"; rsm_webgpuObject := HObject 3 |} in
  let layout := {| rpl_label := ""; rpl_device := device; rpl_webgpuObject := HObject 2 |} in
  let vertex := {| stage_moduleSerial := "1"; stage_module := Some module;
                   stage_entryPoint := "main" |} in
  (exists replay, fst r = Ok replay) /\
  env_trace (snd r) <> sample_pipeline_trace /\
  to_renderPipelines (trace_objects (env_trace (snd r)))
  = Some [("1"%string, {| trp_label := None; trp_deviceSerial := "1"; trp_vertex := vertex;
                          trp_fragment := None; trp_layout := LayoutAuto;
                          trp_layoutSerial := None |});
          ("2"%string, {| trp_label := None; trp_deviceSerial := "1"; trp_vertex := vertex;
                          trp_fragment := None; trp_layout := LayoutValue (Some layout);
                          trp_layoutSerial := Some "1"%string |})].
Proof.
  intros r device module layout vertex. split; [| split].
  - destruct (fst r) as [replay | err] eqn:E.
    + exists replay. reflexivity.
    + vm_compute in E. discriminate E.
  - intros H.
    apply (f_equal (fun t => to_renderPipelines (trace_objects t))) in H.
    vm_compute in H. discriminate H.
  - vm_compute. reflexivity.
Qed.

Lemma recreateObjects_ok {D T} (Class : string -> D -> M T)
    (descMap : option (list (string * D))) (e e' : Env) (objs : gmap string T) :
  (v <- recreateObjects Class descMap ;; destructure v) e = (Ok objs, e') ->
  exists l, descMap = Some l /\ recreate_loop Class l ∅ e = (Ok objs, e').
Proof.
  intros H. bind_inv H. destruct descMap as [l |]; cbn in Hstep.
  - exists l. split; [reflexivity |]. bind_inv Hstep. inversion Hstep; subst.
    cbn in H. inversion H; subst. exact Hstep0.
  - inversion Hstep; subst. cbn in H. discriminate H.
Qed.

(** Every object of a registry built by [recreateObjects] comes from the
    constructor applied to a descriptor of the category, under the serial of
    that descriptor. *)
Lemma recreate_loop_spec {D T} (Class : string -> D -> M T)
    (Q : string -> D -> T -> Prop) :
  (forall s d e o e', Class s d e = (Ok o, e') -> Q s d o) ->
  forall l acc e objs e',
    recreate_loop Class l acc e = (Ok objs, e') ->
    forall s o, objs !! s = Some o ->
                acc !! s = Some o \/ exists d, (s, d) ∈ l /\ Q s d o.
Proof.
  intros HQ. induction l as [| [s0 d0] l IH]; intros acc e objs e' H s o Hs.
  - cbn in H. inversion H; subst. left. exact Hs.
  - cbn [recreate_loop] in H. bind_inv H.
    destruct (IH _ _ _ _ H s o Hs) as [Hacc | (d & Hd & Hq)].
    + destruct (decide (s0 = s)) as [-> | Hne].
      * rewrite lookup_insert_eq in Hacc. inversion Hacc; subst.
        right. exists d0. split; [left | eapply HQ; exact Hstep].
      * rewrite lookup_insert_ne in Hacc by exact Hne. left. exact Hacc.
    + right. exists d. split; [right; exact Hd | exact Hq].
Qed.







(** * Further properties of the engine *)

(** ** Resolution and enumeration are functions of the session *)

Lemma console_function_ret {A} (a : A) : console_function (ret a).
Proof. exists (Ok a), []. intros e. rewrite log_nil. reflexivity. Qed.

Lemma console_function_throw {A} (err : JsError) : console_function (throw err : M A).
Proof. exists (Throw err), []. intros e. rewrite log_nil. reflexivity. Qed.

Lemma console_function_deref {A} (what : string) (o : option A) :
  console_function (deref what o).
Proof. destruct o; [apply console_function_ret | apply console_function_throw]. Qed.

Lemma console_function_console (msg : ConsoleMsg) : console_function (console msg).
Proof. exists (Ok tt), [msg]. intros e. reflexivity. Qed.

Lemma console_function_assert (b : bool) (msg : string) :
  console_function (console_assert b msg).
Proof. eexists _, _. intros e. apply console_assert_run. Qed.

Lemma console_function_bind {A B} (m : M A) (k : A -> M B) :
  console_function m -> (forall a, console_function (k a)) -> console_function (bind m k).
Proof.
  intros (r & msgs & Hm) Hk. destruct r as [a | err].
  - destruct (Hk a) as (r' & msgs' & Hka). exists r', (msgs ++ msgs'). intros e.
    unfold bind. rewrite Hm, Hka, log_log. reflexivity.
  - exists (Throw err), msgs. intros e. unfold bind. rewrite Hm. reflexivity.
Qed.

Lemma console_function_map_m {A B} (f : A -> M B) (l : list A) :
  (forall x, console_function (f x)) -> console_function (map_m f l).
Proof.
  intros Hf. induction l as [| x l IH]; cbn [map_m].
  - apply console_function_ret.
  - apply console_function_bind; [apply Hf |]. intros y.
    apply console_function_bind; [apply IH |]. intros ys. apply console_function_ret.
Qed.

Ltac console_fn :=
  repeat first
    [ apply console_function_ret | apply console_function_throw
    | apply console_function_deref | apply console_function_assert
    | apply console_function_console
    | apply console_function_bind; [| intros ?]
    | apply console_function_map_m; intros ? ].

Lemma console_function_resolve_beginRenderPass (replay : Replay)
    (args : TraceBeginRenderPassArgs) :
  console_function (resolve_beginRenderPass replay args).
Proof.
  unfold resolve_beginRenderPass.
  apply console_function_bind.
  { apply console_function_map_m. intros a.
    apply console_function_bind; [apply console_function_deref |]. intros v.
    apply console_function_bind; [| intros ?; apply console_function_ret].
    destruct (truthy_serial _); console_fn. }
  intros cas. apply console_function_bind.
  { destruct (tbr_depthStencilAttachment args); console_fn. }
  intros ds. console_fn.
Qed.

Lemma console_function_resolve_render_pass_command (replay : Replay)
    (c : TraceCommandBufferCommand) :
  console_function (resolve_render_pass_command replay c).
Proof. destruct c; cbn; console_fn. Qed.

Lemma console_function_ReplayRenderPass_consumeCommands (replay : Replay)
    (stream : list TraceCommandBufferCommand) :
  forall commands, console_function (ReplayRenderPass_consumeCommands replay stream commands).
Proof.
  induction stream as [| c rest IH]; intros commands.
  - cbn. console_fn.
  - assert (Hstep : console_function
              (c' <- resolve_render_pass_command replay c ;;
               ReplayRenderPass_consumeCommands replay rest (commands ++ [c']))).
    { apply console_function_bind;
        [apply console_function_resolve_render_pass_command | intros c'; apply IH]. }
    destruct c; try exact Hstep. cbn. console_fn.
Qed.

Lemma console_function_ReplayCommandBuffer_consumeCommands (replay : Replay) (fuel : nat) :
  forall stream commands,
    console_function (ReplayCommandBuffer_consumeCommands fuel replay stream commands).
Proof.
  induction fuel as [| fuel IH]; intros stream commands.
  - cbn. console_fn.
  - destruct stream as [| c rest]; [cbn; console_fn |].
    destruct c; cbn [ReplayCommandBuffer_consumeCommands];
      repeat first
        [ apply IH
        | apply console_function_resolve_beginRenderPass
        | apply console_function_ReplayRenderPass_consumeCommands
        | apply console_function_deref | apply console_function_assert
        | apply console_function_console
        | apply console_function_bind; [| intros ?] ].
Qed.

Lemma console_function_resolve_queue_command (replay : Replay) (c : TraceQueueCommand) :
  console_function (resolve_queue_command replay c).
Proof. destruct c; cbn; console_fn. Qed.

Lemma console_function_ReplayRenderPass_iterateCommands_from (i j k : Z)
    (commands : list ReplayCommandBufferCommand) :
  forall l, console_function (ReplayRenderPass_iterateCommands_from i j k l commands).
Proof.
  induction commands as [| c rest IH]; intros l; cbn [ReplayRenderPass_iterateCommands_from].
  - console_fn.
  - apply console_function_bind.
    { destruct (name_in pass_yield_names (command_name c)); unfold unhandled_render_pass_command;
        console_fn. }
    intros now. apply console_function_bind; [apply IH | intros later; console_fn].
Qed.

Lemma console_function_ReplayCommandBuffer_iterateCommands_from (i j : Z)
    (commands : list ReplayCommandBufferCommand) :
  forall k, console_function (ReplayCommandBuffer_iterateCommands_from i j k commands).
Proof.
  induction commands as [| c rest IH]; intros k;
    cbn [ReplayCommandBuffer_iterateCommands_from].
  - console_fn.
  - apply console_function_bind.
    { destruct c;
        try apply console_function_ReplayRenderPass_iterateCommands_from;
        (destruct (String.eqb _ "renderPass");
         [console_fn
         | destruct (name_in buffer_yield_names _); unfold unhandled_encoder_command;
           console_fn]). }
    intros now. apply console_function_bind; [apply IH | intros later; console_fn].
Qed.

Lemma console_function_iterate_commandBuffers_from (i : Z)
    (commandBuffers : list (option ReplayCommandBuffer)) :
  forall j, console_function (iterate_commandBuffers_from i j commandBuffers).
Proof.
  induction commandBuffers as [| cb rest IH]; intros j; cbn [iterate_commandBuffers_from].
  - console_fn.
  - apply console_function_bind; [apply console_function_deref |]. intros cb'.
    apply console_function_bind;
      [apply console_function_ReplayCommandBuffer_iterateCommands_from |].
    intros now. apply console_function_bind; [apply IH | intros later; console_fn].
Qed.

Lemma console_function_Replay_iterateCommands_from (commands : list ReplayQueueCommand) :
  forall i, console_function (Replay_iterateCommands_from i commands).
Proof.
  induction commands as [| c rest IH]; intros i; cbn [Replay_iterateCommands_from].
  - console_fn.
  - apply console_function_bind.
    { destruct c; try apply console_function_iterate_commandBuffers_from;
        (destruct (name_in queue_yield_names _); console_fn). }
    intros now. apply console_function_bind; [apply IH | intros later; console_fn].
Qed.

Lemma console_function_new_ReplayCommandBuffer (replay : Replay) (desc : TraceCommandBuffer) :
  console_function (new_ReplayCommandBuffer replay desc).
Proof.
  unfold new_ReplayCommandBuffer.
  apply console_function_bind;
    [apply console_function_ReplayCommandBuffer_consumeCommands | intros; console_fn].
Qed.

(** X1.  Command resolution is a function of the session registries: a
    command buffer built from a descriptor, and the top-level command list
    built from the trace commands, have the same outcome (the same value or
    the same exception) in every environment; resolution makes no call on
    the graphics context and writes neither the trace nor [replay.state]; all
    it leaves behind is the same lines appended to the console. *)
Theorem resolution_depends_on_the_registries_only :
  forall replay,
    (forall desc, console_function (new_ReplayCommandBuffer replay desc)) /\
    (forall cmds, console_function (map_m (resolve_queue_command replay) cmds)).
Proof.
  intros replay. split.
  - intros desc. apply console_function_new_ReplayCommandBuffer.
  - intros cmds. apply console_function_map_m.
    apply console_function_resolve_queue_command.
Qed.

(** X2.  The enumerator can be restarted: on any command tree, a run of
    [iterateCommands] has the same outcome in every environment (the same
    sequence of pairs, or the same exception), makes no call on the graphics
    context, and leaves nothing behind but the same console lines. *)
Theorem enumeration_is_repeatable :
  forall replay, console_function (iterateCommands replay).
Proof.
  intros replay. apply console_function_Replay_iterateCommands_from.
Qed.

(** ** What a replay may touch *)

Lemma replays_within_weaken {A} (P Q : GpuCall -> Prop) (m : M A) :
  (forall c, P c -> Q c) -> replays_within P m -> replays_within Q m.
Proof.
  intros HPQ Hm e. destruct (Hm e) as (Ht & calls & Hg & Hall).
  split; [exact Ht |]. exists calls. split; [exact Hg |].
  eapply Forall_impl; eauto.
Qed.

Lemma replays_within_quiet {A} (P : GpuCall -> Prop) (m : M A) :
  (forall e, env_trace (snd (m e)) = env_trace e /\ env_gpu (snd (m e)) = env_gpu e) ->
  replays_within P m.
Proof.
  intros Hm e. destruct (Hm e) as (Ht & Hg). split; [exact Ht |].
  exists []. rewrite app_nil_r. auto.
Qed.

Lemma replays_within_ret {A} (P : GpuCall -> Prop) (a : A) : replays_within P (ret a).
Proof. apply replays_within_quiet. intros e. auto. Qed.

Lemma replays_within_throw {A} (P : GpuCall -> Prop) (err : JsError) :
  replays_within P (throw err : M A).
Proof. apply replays_within_quiet. intros e. auto. Qed.

Lemma replays_within_deref {A} (P : GpuCall -> Prop) (what : string) (o : option A) :
  replays_within P (deref what o).
Proof. destruct o; [apply replays_within_ret | apply replays_within_throw]. Qed.

Lemma replays_within_console (P : GpuCall -> Prop) (msg : ConsoleMsg) :
  replays_within P (console msg).
Proof. apply replays_within_quiet. intros e. auto. Qed.

Lemma replays_within_console_assert (P : GpuCall -> Prop) (b : bool) (msg : string) :
  replays_within P (console_assert b msg).
Proof. destruct b; [apply replays_within_ret | apply replays_within_console]. Qed.

Lemma replays_within_set_state (P : GpuCall -> Prop) (s : ReplayState) :
  replays_within P (set_state s).
Proof. apply replays_within_quiet. intros e. auto. Qed.

Lemma replays_within_get_state (P : GpuCall -> Prop) : replays_within P get_state.
Proof. apply replays_within_quiet. intros e. auto. Qed.

Lemma replays_within_set_textureStateToShow (P : GpuCall -> Prop) (t : ReplayTexture) :
  replays_within P (set_textureStateToShow t).
Proof. apply replays_within_quiet. intros e. auto. Qed.

Lemma replays_within_gpu (P : GpuCall -> Prop) (c : GpuCall) :
  P c -> replays_within P (gpu c).
Proof. intros Hc e. split; [reflexivity |]. exists [c]. cbn. auto. Qed.

Lemma replays_within_create (P : GpuCall -> Prop) (call : Handle -> GpuCall) :
  (forall h, P (call h)) -> replays_within P (create call).
Proof. intros Hc e. split; [reflexivity |]. eexists [_]. cbn. auto. Qed.

Lemma replays_within_bind {A B} (P : GpuCall -> Prop) (m : M A) (k : A -> M B) :
  replays_within P m -> (forall a, replays_within P (k a)) -> replays_within P (bind m k).
Proof.
  intros Hm Hk e. unfold bind. destruct (Hm e) as (Ht & calls & Hg & Hall).
  destruct (m e) as [[a | err] e1]; cbn in *.
  - destruct (Hk a e1) as (Ht' & calls' & Hg' & Hall'). split; [congruence |].
    exists (calls ++ calls'). rewrite Hg', Hg, app_assoc. split; [reflexivity |].
    apply Forall_app; auto.
  - split; [exact Ht |]. exists calls. auto.
Qed.

Lemma replays_within_for_of {A} (P : GpuCall -> Prop) (l : list A) (body : A -> M unit) :
  (forall x, replays_within P (body x)) -> replays_within P (for_of l body).
Proof.
  intros Hb. induction l as [| x l IH]; cbn [for_of].
  - apply replays_within_ret.
  - apply replays_within_bind; [apply Hb | intros _; exact IH].
Qed.

Lemma replays_within_for_range (P : GpuCall -> Prop) (body : nat -> M unit) (n : nat) :
  (forall i, replays_within P (body i)) ->
  forall start, replays_within P (for_range n start body).
Proof.
  intros Hb. induction n as [| n IH]; intros start; cbn [for_range].
  - apply replays_within_ret.
  - apply replays_within_bind; [apply Hb | intros _; apply IH].
Qed.

Lemma replays_within_for_range_acc {St} (P : GpuCall -> Prop) (body : nat -> St -> M St)
    (n : nat) :
  (forall i acc, replays_within P (body i acc)) ->
  forall start acc, replays_within P (for_range_acc n start body acc).
Proof.
  intros Hb. induction n as [| n IH]; intros start acc; cbn [for_range_acc].
  - apply replays_within_ret.
  - apply replays_within_bind; [apply Hb | intros acc'; apply IH].
Qed.

Lemma replays_within_getData (P : GpuCall -> Prop) (r_data : gmap string (list Z))
    (d : TraceData) : replays_within P (getData r_data d).
Proof.
  unfold getData. apply replays_within_bind; [apply replays_within_deref | intros buf].
  apply replays_within_bind; [apply replays_within_console_assert | intros _].
  apply replays_within_ret.
Qed.

Ltac replays_within_steps :=
  repeat first
    [ apply replays_within_ret | apply replays_within_throw | apply replays_within_deref
    | apply replays_within_console_assert | apply replays_within_console
    | apply replays_within_set_state | apply replays_within_get_state
    | apply replays_within_set_textureStateToShow | apply replays_within_getData
    | apply replays_within_gpu; exact I
    | apply replays_within_create; intros ?; exact I
    | apply replays_within_for_of; intros ?
    | apply replays_within_bind; [| intros ?] ].

Lemma replays_within_warn_discards (P : GpuCall -> Prop) (ops : list string)
    (ds : option (option string * option string)) :
  replays_within P (warn_discards ops ds).
Proof.
  unfold warn_discards, console_warn.
  apply replays_within_bind.
  - apply replays_within_for_of. intros op. destruct (String.eqb op "discard"); replays_within_steps.
  - intros _. destruct ds as [[s d] |]; [| replays_within_steps].
    destruct (_ || _); replays_within_steps.
Qed.

Lemma replays_within_encode_pass_command (renderPass : Handle)
    (c : ReplayCommandBufferCommand) (acc : RenderPassState * bool) :
  replays_within encoding_call (encode_pass_command renderPass c acc).
Proof.
  destruct acc as [state ended].
  destruct c as [t | | | | | | | |]; [destruct t |..];
    cbn [encode_pass_command]; unfold unhandled_render_pass_command; replays_within_steps.
Qed.

Lemma replays_within_ReplayRenderPass_encodeUpTo (this : ReplayRenderPass) (path : list Z)
    (encoder : Handle) :
  replays_within encoding_call (ReplayRenderPass_encodeUpTo this path encoder).
Proof.
  unfold ReplayRenderPass_encodeUpTo.
  apply replays_within_bind; [replays_within_steps | intros _].
  apply replays_within_bind; [replays_within_steps | intros first].
  apply replays_within_bind; [replays_within_steps | intros _].
  apply replays_within_bind; [replays_within_steps | intros last].
  apply replays_within_bind; [replays_within_steps | intros _].
  destruct first as [t | | | args | | | | |]; try apply replays_within_throw.
  - destruct t; try apply replays_within_throw.
    apply replays_within_bind;
      [destruct (negb _); [apply replays_within_warn_discards | replays_within_steps] | intros _].
    replays_within_steps.
  - apply replays_within_bind;
      [destruct (negb _); [apply replays_within_warn_discards | replays_within_steps] | intros _].
    apply replays_within_bind; [replays_within_steps | intros _].
    apply replays_within_bind; [replays_within_steps | intros a].
    apply replays_within_bind; [replays_within_steps | intros _].
    destruct (bool_decide _); [replays_within_steps |].
    apply replays_within_bind; [replays_within_steps | intros pass].
    apply replays_within_bind; [destruct (ca_resolveTarget a); replays_within_steps | intros _].
    apply replays_within_bind.
    + apply replays_within_for_range_acc. intros i acc.
      apply replays_within_bind; [replays_within_steps | intros c].
      apply replays_within_encode_pass_command.
    + intros final. destruct (snd final); replays_within_steps.
Qed.

Lemma replays_within_encode_buffer_command (encoder : Handle) (path : list Z) (target : bool)
    (c : ReplayCommandBufferCommand) :
  replays_within encoding_call (encode_buffer_command encoder path target c).
Proof.
  destruct c as [t | | | | rp | | | |]; [destruct t |..];
    cbn [encode_buffer_command]; unfold unhandled_encoder_command, ReplayRenderPass_encodeIn;
    try (destruct target); try apply replays_within_ReplayRenderPass_encodeUpTo;
    try (destruct (String.eqb _ _)); replays_within_steps.
Qed.

Lemma replays_within_ReplayCommandBuffer_encodeUpTo (this : ReplayCommandBuffer)
    (path : list Z) (encoder : Handle) (full : bool) :
  replays_within encoding_call (ReplayCommandBuffer_encodeUpTo this path encoder full).
Proof.
  unfold ReplayCommandBuffer_encodeUpTo. destruct (shift path) as [commandIndex path'].
  apply replays_within_for_range. intros i.
  apply replays_within_bind; [replays_within_steps | intros c].
  apply replays_within_encode_buffer_command.
Qed.

Lemma encoding_call_replay_call (c : GpuCall) : encoding_call c -> replay_call c.
Proof. destruct c as [| | | | | | | | | | | | | | | | | | | e call | |]; cbn; auto. Qed.

Lemma replays_within_executeSubmit (this : ReplayQueue)
    (commandBuffers : list (option ReplayCommandBuffer)) :
  replays_within replay_call (executeSubmit this commandBuffers).
Proof.
  unfold executeSubmit, finish_and_submit, ReplayCommandBuffer_encodeIn.
  apply replays_within_bind; [replays_within_steps | intros encoder].
  apply replays_within_bind; [| intros _; replays_within_steps].
  apply replays_within_for_of. intros cb.
  apply replays_within_bind; [replays_within_steps | intros cb'].
  apply (replays_within_weaken encoding_call); [apply encoding_call_replay_call |].
  apply replays_within_ReplayCommandBuffer_encodeUpTo.
Qed.

Lemma replays_within_replaySubmitTo (this : ReplayQueue) (path : list Z)
    (commandBuffers : list (option ReplayCommandBuffer)) :
  replays_within replay_call (replaySubmitTo this path commandBuffers).
Proof.
  unfold replaySubmitTo, finish_and_submit, ReplayCommandBuffer_encodeIn.
  destruct (shift path) as [commandBufferIndex path'].
  apply replays_within_bind; [replays_within_steps | intros encoder].
  apply replays_within_bind.
  { apply replays_within_for_range. intros i.
    apply replays_within_bind; [replays_within_steps | intros cb'].
    apply (replays_within_weaken encoding_call); [apply encoding_call_replay_call |].
    apply replays_within_ReplayCommandBuffer_encodeUpTo. }
  intros _. apply replays_within_bind; [replays_within_steps | intros target].
  apply replays_within_bind; [| intros _; replays_within_steps].
  apply (replays_within_weaken encoding_call); [apply encoding_call_replay_call |].
  apply replays_within_ReplayCommandBuffer_encodeUpTo.
Qed.

Lemma replays_within_execute (replay : Replay) (command : ReplayQueueCommand) :
  replays_within replay_call (execute replay command).
Proof.
  destruct command; cbn [execute];
    try (apply replays_within_bind; [replays_within_steps | intros ?; apply replays_within_executeSubmit]);
    replays_within_steps.
Qed.

(** X3.  A replay never creates or destroys a resource and never writes to
    the trace: whatever the path and whatever the outcome, [replayTo] leaves
    the trace as it is and the calls it appends are of six kinds only
    (createCommandEncoder, a call on a command encoder, a call on a render
    pass encoder, submit, writeBuffer, writeTexture); the same holds for the
    full execution of the command list.  In particular a recorded
    textureDestroy destroys nothing. *)
Theorem replay_only_encodes_submits_and_writes :
  forall replay,
    (forall path, replays_within replay_call (replayTo replay path)) /\
    replays_within replay_call (execute_all replay).
Proof.
  intros replay. split.
  - intros path. unfold replayTo. destruct (shift path) as [replayLevel path'].
    apply replays_within_bind; [replays_within_steps | intros _].
    apply replays_within_bind; [| intros _; replays_within_steps].
    apply replays_within_for_range. intros i.
    apply replays_within_bind; [replays_within_steps | intros c].
    destruct c; try apply replays_within_execute.
    destruct (bool_decide _).
    + apply replays_within_bind; [replays_within_steps | intros q].
      apply replays_within_replaySubmitTo.
    + apply replays_within_bind; [replays_within_steps | intros q].
      apply replays_within_executeSubmit.
  - unfold execute_all. apply replays_within_for_of. intros c.
    apply replays_within_execute.
Qed.

(** ** Submission *)

Lemma bind_assoc {A B C} (m : M A) (k : A -> M B) (k' : B -> M C) (e : Env) :
  bind (bind m k) k' e = bind m (fun a => bind (k a) k') e.
Proof. unfold bind. destruct (m e) as [[a | err] e1]; reflexivity. Qed.

Lemma encode_then_submit (this : ReplayQueue) (encoder : Handle) (m : M unit) (e : Env) :
  replays_within encoding_call m ->
  let r := (m ;; finish_and_submit this encoder) e in
  exists body,
    Forall encoding_call body /\
    match fst r with
    | Ok _ =>
        exists commandBuffer,
          env_gpu (snd r) =
            env_gpu e ++ body ++
              [OnEncoder encoder (EncFinish commandBuffer);
               Submit (rq_webgpuObject this) [commandBuffer]]
    | Throw _ => env_gpu (snd r) = env_gpu e ++ body
    end.
Proof.
  intros Hm. destruct (Hm e) as (_ & body & Hg & Hall). exists body. split; [exact Hall |].
  unfold bind. destruct (m e) as [[[] | err] e1]; cbn in *.
  - eexists. rewrite Hg, <- !app_assoc. reflexivity.
  - exact Hg.
Qed.

(** X4.  A submit reaches the queue once, at the very end, or not at all.
    [executeSubmit] and [replaySubmitTo] first create one command encoder;
    the calls that follow only encode commands; when the encoding raises,
    nothing is finished or submitted; when it succeeds, the last two calls
    are [finish] on that encoder and one [submit] of the single command
    buffer [finish] returned, on the queue of the submit. *)
Theorem submit_is_last_or_absent :
  forall this commandBuffers e,
    let device := rd_webgpuObject (rq_device this) in
    let encoder := HObject (env_next e) in
    let shape (r : Res unit * Env) :=
      exists body,
        Forall encoding_call body /\
        match fst r with
        | Ok _ =>
            exists commandBuffer,
              env_gpu (snd r) =
                env_gpu e ++ CreateCommandEncoder device encoder :: body ++
                  [OnEncoder encoder (EncFinish commandBuffer);
                   Submit (rq_webgpuObject this) [commandBuffer]]
        | Throw _ => env_gpu (snd r) = env_gpu e ++ CreateCommandEncoder device encoder :: body
        end in
    shape (executeSubmit this commandBuffers e) /\
    forall path, shape (replaySubmitTo this path commandBuffers e).
Proof.
  intros this commandBuffers e device encoder shape.
  set (e1 := snd (create (CreateCommandEncoder device) e)).
  assert (Hshape : forall m : M unit,
             replays_within encoding_call m ->
             shape ((m ;; finish_and_submit this encoder) e1)).
  { intros m Hm. destruct (encode_then_submit this encoder m e1 Hm) as (body & Hall & Hr).
    exists body. split; [exact Hall |].
    destruct (fst _).
    - destruct Hr as (cb & Hr). exists cb. rewrite Hr. cbn. rewrite <- app_assoc. reflexivity.
    - rewrite Hr. cbn. rewrite <- app_assoc. reflexivity. }
  split.
  - apply Hshape. apply replays_within_for_of. intros cb.
    apply replays_within_bind; [replays_within_steps | intros cb'].
    apply replays_within_ReplayCommandBuffer_encodeUpTo.
  - intros path. unfold replaySubmitTo. destruct (shift path) as [commandBufferIndex path'].
    set (m := (for_range (match commandBufferIndex with
                          | Some j => Z.to_nat (j - 1)
                          | None => O
                          end) O
                 (fun i =>
                    cb <- deref "encodeIn" (mjoin (commandBuffers !! i)) ;;
                    ReplayCommandBuffer_encodeIn cb encoder) ;;
               target <- deref "encodeUpTo"
                           (mjoin (js_index commandBuffers commandBufferIndex)) ;;
               ReplayCommandBuffer_encodeUpTo target path' encoder false)).
    assert (Heq : (for_range (match commandBufferIndex with
                              | Some j => Z.to_nat (j - 1)
                              | None => O
                              end) O
                     (fun i =>
                        cb <- deref "encodeIn" (mjoin (commandBuffers !! i)) ;;
                        ReplayCommandBuffer_encodeIn cb encoder) ;;
                   target <- deref "encodeUpTo"
                               (mjoin (js_index commandBuffers commandBufferIndex)) ;;
                   ReplayCommandBuffer_encodeUpTo target path' encoder false ;;
                   finish_and_submit this encoder) e1
                  = (m ;; finish_and_submit this encoder) e1).
    { unfold m. rewrite bind_assoc. apply bind_ext; [reflexivity |].
      intros a e3. rewrite bind_assoc. reflexivity. }
    assert (Hm : replays_within encoding_call m).
    { apply replays_within_bind.
      { apply replays_within_for_range. intros i.
        apply replays_within_bind; [replays_within_steps | intros cb'].
        apply replays_within_ReplayCommandBuffer_encodeUpTo. }
      intros _. apply replays_within_bind; [replays_within_steps | intros target].
      apply replays_within_ReplayCommandBuffer_encodeUpTo. }
    pose proof (Hshape m Hm) as Hs. rewrite <- Heq in Hs. exact Hs.
Qed.

(** ** Indices past the end *)

Lemma for_range_ok_lookup {A} (l : list A) (what : string) (f : nat -> A -> M unit)
    (n : nat) :
  forall start e e',
    for_range n start (fun i => c <- deref what (l !! i) ;; f i c) e = (Ok tt, e') ->
    forall i, (start <= i < start + n)%nat -> is_Some (l !! i).
Proof.
  induction n as [| n IH]; intros start e e' H i Hi; [lia |].
  rewrite for_range_S in H. bind_inv H. bind_inv Hstep.
  apply deref_ok_inv in Hstep0 as [Hl _].
  destruct (decide (i = start)) as [-> | Hne]; [eauto |].
  eapply (IH (S start)); [exact H | lia].
Qed.

Lemma for_range_acc_ok_lookup {A St} (l : list A) (what : string)
    (f : nat -> A -> St -> M St) (n : nat) :
  forall start acc e acc' e',
    for_range_acc n start (fun i acc => c <- deref what (l !! i) ;; f i c acc) acc e
    = (Ok acc', e') ->
    forall i, (start <= i < start + n)%nat -> is_Some (l !! i).
Proof.
  induction n as [| n IH]; intros start acc e acc' e' H i Hi; [lia |].
  cbn [for_range_acc] in H. bind_inv H. bind_inv Hstep.
  apply deref_ok_inv in Hstep0 as [Hl _].
  destruct (decide (i = start)) as [-> | Hne]; [eauto |].
  eapply (IH (S start)); [exact H | lia].
Qed.

Lemma lookup_length_not_Some {A} (l : list A) : ~ is_Some (l !! length l).
Proof. rewrite lookup_ge_None_2; [intros [x Hx]; discriminate | lia]. Qed.

(** X5.  An index at or past the end of a list raises at every level of a
    path: [replayTo] with a first component that is not below the number of
    top-level commands, [replaySubmitTo] with a command buffer index that is
    not below the number of command buffers, [ReplayCommandBuffer.encodeUpTo]
    and [ReplayRenderPass.encodeUpTo] with a command index that is not below
    the number of commands, never return normally.  So the index
    [commands.length] that [encodeUpTo] treats as the full pass cannot be
    replayed to. *)
Theorem index_past_the_end_raises :
  (forall replay z rest e,
     Z.of_nat (length (commands replay)) <= z ->
     exists err, fst (replayTo replay (z :: rest) e) = Throw err) /\
  (forall this commandBuffers z rest e,
     Z.of_nat (length commandBuffers) <= z ->
     exists err, fst (replaySubmitTo this (z :: rest) commandBuffers e) = Throw err) /\
  (forall cb z rest encoder full e,
     Z.of_nat (length (rcb_commands cb)) <= z ->
     exists err,
       fst (ReplayCommandBuffer_encodeUpTo cb (z :: rest) encoder full e) = Throw err) /\
  (forall rp z rest encoder e,
     Z.of_nat (length (rp_commands rp)) <= z ->
     exists err, fst (ReplayRenderPass_encodeUpTo rp (z :: rest) encoder e) = Throw err).
Proof.
  repeat split.
  - intros replay z rest e Hz.
    destruct (replayTo replay (z :: rest) e) as [[s | err] e'] eqn:H; [| eauto].
    exfalso. unfold replayTo, shift in H. cbn [head tail] in H.
    bind_inv H. bind_inv H. destruct a0.
    eapply (lookup_length_not_Some (commands replay)).
    eapply for_range_ok_lookup; [exact Hstep0 |].
    unfold iterations_through. lia.
  - intros this commandBuffers z rest e Hz.
    destruct (replaySubmitTo this (z :: rest) commandBuffers e) as [[s | err] e'] eqn:H;
      [| eauto].
    exfalso. unfold replaySubmitTo, shift in H. cbn [head tail] in H.
    bind_inv H. bind_inv H. bind_inv H.
    apply deref_ok_inv in Hstep1 as [Hl _].
    unfold js_index in Hl. destruct (z <? 0); [discriminate |].
    rewrite lookup_ge_None_2 in Hl; [discriminate | lia].
  - intros cb z rest encoder full e Hz.
    destruct (ReplayCommandBuffer_encodeUpTo cb (z :: rest) encoder full e)
      as [[[] | err] e'] eqn:H; [| eauto].
    exfalso. unfold ReplayCommandBuffer_encodeUpTo, shift in H. cbn [head tail] in H.
    eapply (lookup_length_not_Some (rcb_commands cb)).
    eapply for_range_ok_lookup; [exact H |].
    unfold iterations_through. lia.
  - intros rp z rest encoder e Hz.
    destruct (ReplayRenderPass_encodeUpTo rp (z :: rest) encoder e)
      as [[[] | err] e'] eqn:H; [| eauto].
    exfalso. unfold ReplayRenderPass_encodeUpTo, shift in H. cbn [head tail fst] in H.
    bind_inv H. bind_inv H. apply deref_ok_inv in Hstep0 as [Hfirst ->].
    bind_inv H. bind_inv H. bind_inv H.
    assert (Hlen : (1 <= length (rp_commands rp))%nat).
    { destruct (rp_commands rp); [discriminate | cbn; lia]. }
    destruct a0 as [t | | | args | | | | |]; try discriminate.
    + destruct t; try discriminate. bind_inv H. bind_inv H. discriminate.
    + bind_inv H. bind_inv H. bind_inv H. bind_inv H.
      rewrite bool_decide_eq_false_2 in H by (intros [= ->]; lia).
      bind_inv H. bind_inv H. bind_inv H.
      eapply (lookup_length_not_Some (rp_commands rp)).
      match goal with
      | Hloop : for_range_acc _ _ _ _ _ = _ |- _ =>
          eapply for_range_acc_ok_lookup; [exact Hloop |]
      end.
      unfold iterations_through. lia.
Qed.

Lemma index_past_the_end_raises_witness :
  let e := init_env sample_trace in
  (exists err, fst (replayTo sample_present_replay [1] e) = Throw err) /\
  (exists err,
     fst (replaySubmitTo sample_queue [2; 0] [Some sample_first_buffer; Some sample_second_buffer]
            e) = Throw err) /\
  (exists err,
     fst (ReplayCommandBuffer_encodeUpTo sample_first_buffer [1] (HObject 0) false e)
     = Throw err) /\
  (exists err, fst (ReplayRenderPass_encodeUpTo sample_pass [3] (HObject 0) e) = Throw err).
Proof.
  destruct index_past_the_end_raises as (Hreplay & Hsubmit & Hbuffer & Hpass).
  repeat split.
  - apply Hreplay. vm_compute. discriminate.
  - apply Hsubmit. vm_compute. discriminate.
  - apply Hbuffer. vm_compute. discriminate.
  - apply Hpass. vm_compute. discriminate.
Defined.

(** ** Replaying into a render pass *)

Lemma encode_pass_command_spec (pass : Handle) (c : ReplayCommandBufferCommand)
    (s : RenderPassState) (b : bool) (e : Env) (s' : RenderPassState) (b' : bool) (e' : Env) :
  encode_pass_command pass c (s, b) e = (Ok (s', b'), e') ->
  s' = record_command s c /\ env_state e' = env_state e /\
  if is_endPass c then b' = true /\ env_gpu e' = env_gpu e ++ [OnPass pass PassEnd]
  else b' = b /\
       exists body, env_gpu e' = env_gpu e ++ body /\ Forall (pass_call_before_end pass) body.
Proof.
  intros H.
  assert (Hquiet : forall e0 : Env,
             exists body, env_gpu e0 = env_gpu e0 ++ body /\
                          Forall (pass_call_before_end pass) body).
  { intros e0. exists []. rewrite app_nil_r. auto. }
  assert (Hone : forall (e0 : Env) call,
             call <> PassEnd ->
             exists body, env_gpu e0 ++ [OnPass pass call] = env_gpu e0 ++ body /\
                          Forall (pass_call_before_end pass) body).
  { intros e0 call Hcall. exists [OnPass pass call]. split; [reflexivity |].
    repeat constructor. exact Hcall. }
  destruct c as [t | | | | | index [g |] dyn | [buf |] fmt off sz | [p |] | slot [buf |] off sz];
    [destruct t |..];
    cbv [encode_pass_command bind gpu ret deref throw unhandled_render_pass_command
         console_assert console] in H;
    try discriminate;
    injection H as <- <- <-; cbn [is_endPass record_command env_state env_gpu];
    repeat split; auto; apply Hone; discriminate.
Qed.

Lemma encode_pass_loop_before_end (pass : Handle) (commands : list ReplayCommandBufferCommand)
    (n : nat) :
  forall start s e s' b' e',
    for_range_acc n start
      (fun i acc => c <- deref "name" (commands !! i) ;; encode_pass_command pass c acc)
      (s, false) e = (Ok (s', b'), e') ->
    (forall i c, (start <= i < start + n)%nat -> commands !! i = Some c ->
                 is_endPass c = false) ->
    b' = false /\
    s' = fold_left record_command (take n (drop start commands)) s /\
    env_state e' = env_state e /\
    exists body, env_gpu e' = env_gpu e ++ body /\ Forall (pass_call_before_end pass) body.
Proof.
  induction n as [| n IH]; intros start s e s' b' e' H Hend.
  - cbn in H. injection H as <- <- <-. rewrite take_0. cbn.
    repeat split; auto. exists []. rewrite app_nil_r. auto.
  - cbn [for_range_acc] in H. bind_inv H. bind_inv Hstep.
    apply deref_ok_inv in Hstep0 as [Hc ->]. destruct a as [s1 b1].
    apply encode_pass_command_spec in Hstep as (Hs1 & Hst1 & Hcall).
    rewrite (Hend start a0) in Hcall by (auto; lia).
    destruct Hcall as (-> & body1 & Hg1 & Hall1).
    apply IH in H as (Hb & Hs & Hst & body & Hg & Hall); [| intros; eapply Hend; eauto; lia].
    rewrite (drop_S _ _ _ Hc). cbn [take fold_left]. rewrite <- Hs1.
    repeat split; auto; [congruence |].
    exists (body1 ++ body). rewrite Hg, Hg1, app_assoc. split; [reflexivity |].
    apply Forall_app; auto.
Qed.

Lemma for_range_acc_S {St} (body : nat -> St -> M St) (n start : nat) (acc : St) :
  for_range_acc (S n) start body acc
  = (acc' <- body start acc ;; for_range_acc n (S start) body acc').
Proof. reflexivity. Qed.

Lemma for_range_acc_snoc {St} (body : nat -> St -> M St) (n : nat) :
  forall start acc e,
    for_range_acc (S n) start body acc e
    = (acc' <- for_range_acc n start body acc ;; body (start + n)%nat acc') e.
Proof.
  induction n as [| n IH]; intros start acc e.
  - cbn [for_range_acc]. rewrite Nat.add_0_r. rewrite bind_ret.
    unfold bind. destruct (body start acc e) as [[a | err] e1]; reflexivity.
  - rewrite (for_range_acc_S body (S n) start acc).
    rewrite (for_range_acc_S body n start acc).
    rewrite bind_assoc. apply bind_ext; [reflexivity |].
    intros a e1. rewrite IH. replace (S start + n)%nat with (start + S n)%nat by lia.
    reflexivity.
Qed.

Lemma encodeUpTo_inside (rp : ReplayRenderPass)
    (args : ReplayCommandBeginRenderPassArgs) (children : list ReplayCommandBufferCommand)
    (a : ReplayRenderPassColorAttachment) (others : list ReplayRenderPassColorAttachment)
    (z : Z) (rest : list Z) (encoder : Handle) (e : Env) :
  rp_commands rp = CmdBeginRenderPass args :: children ->
  bra_colorAttachments args = a :: others ->
  z <> 0 ->
  exists msgs,
    ReplayRenderPass_encodeUpTo rp (z :: rest) encoder e =
    (renderPass <- create (fun pass =>
       OnEncoder encoder (EncBeginRenderPass (map ca_view (bra_colorAttachments args)) pass)) ;;
     match ca_resolveTarget a with
     | Some _ =>
         resolveTargetState <- deref "texture" (ca_resolveTargetState a) ;;
         set_textureStateToShow (rtv_texture resolveTargetState)
     | None => set_textureStateToShow (rtv_texture (ca_viewState a))
     end ;;
     final <- for_range_acc (iterations_through 1 (Some z)) 1%nat
                (fun i acc =>
                   c <- deref "name" (rp_commands rp !! i) ;;
                   encode_pass_command renderPass c acc)
                (initial_pass_state args (ca_viewState a), false) ;;
     if snd final then ret tt
     else set_state (StateRenderPass (fst final)) ;; gpu (OnPass renderPass PassEnd))
      (log msgs e).
Proof.
  intros Hcmds Hatt Hz. unfold ReplayRenderPass_encodeUpTo. rewrite Hcmds.
  cbn [shift fst head].
  step_console.
  cbn [lookup list_lookup deref].
  rewrite bind_ret.
  step_console.
  assert (Hlast : exists c, (CmdBeginRenderPass args :: children)
                            !! (length (CmdBeginRenderPass args :: children) - 1)%nat = Some c).
  { apply lookup_lt_is_Some. cbn. lia. }
  destruct Hlast as (c & ->). cbn [deref].
  rewrite bind_ret.
  step_console.
  assert (Hrest : forall e0 : Env,
            (console_assert
               (match bra_colorAttachments args with [] => false | _ :: _ => true end)
               "Computing render pass size currently requires the first color attachment to always be set." ;;
             a <- deref "viewState" (head (bra_colorAttachments args)) ;;
             console_assert (rtv_baseMipLevel (ca_viewState a) =? 0) "" ;;
             if bool_decide (Some z = Some 0) then set_state (StateBeginArgs args)
             else
               renderPass <- create (fun pass =>
                 OnEncoder encoder
                   (EncBeginRenderPass (map ca_view (bra_colorAttachments args)) pass)) ;;
               match ca_resolveTarget a with
               | Some _ =>
                   resolveTargetState <- deref "texture" (ca_resolveTargetState a) ;;
                   set_textureStateToShow (rtv_texture resolveTargetState)
               | None => set_textureStateToShow (rtv_texture (ca_viewState a))
               end ;;
               final <- for_range_acc (iterations_through 1 (Some z)) 1%nat
                          (fun i acc =>
                             c <- deref "name" ((CmdBeginRenderPass args :: children) !! i) ;;
                             encode_pass_command renderPass c acc)
                          (initial_pass_state args (ca_viewState a), false) ;;
               if snd final then ret tt
               else set_state (StateRenderPass (fst final)) ;;
                    gpu (OnPass renderPass PassEnd)) e0
            = (renderPass <- create (fun pass =>
                 OnEncoder encoder
                   (EncBeginRenderPass (map ca_view (bra_colorAttachments args)) pass)) ;;
               match ca_resolveTarget a with
               | Some _ =>
                   resolveTargetState <- deref "texture" (ca_resolveTargetState a) ;;
                   set_textureStateToShow (rtv_texture resolveTargetState)
               | None => set_textureStateToShow (rtv_texture (ca_viewState a))
               end ;;
               final <- for_range_acc (iterations_through 1 (Some z)) 1%nat
                          (fun i acc =>
                             c <- deref "name" ((CmdBeginRenderPass args :: children) !! i) ;;
                             encode_pass_command renderPass c acc)
                          (initial_pass_state args (ca_viewState a), false) ;;
               if snd final then ret tt
               else set_state (StateRenderPass (fst final)) ;;
                    gpu (OnPass renderPass PassEnd))
              (log (if rtv_baseMipLevel (ca_viewState a) =? 0 then []
                    else [AssertionFailed ""]) e0)).
  { intros e0. rewrite Hatt. cbn [head deref console_assert]. rewrite !bind_ret.
    unfold bind at 1. rewrite console_assert_run.
    rewrite bool_decide_eq_false_2 by congruence. reflexivity. }
  destruct (negb _).
  - step_console. rewrite Hrest, log_log, !log_log. eexists. reflexivity.
  - rewrite bind_ret. rewrite Hrest, !log_log. eexists. reflexivity.
Qed.

Lemma encodeUpTo_inside_spec (rp : ReplayRenderPass)
    (args : ReplayCommandBeginRenderPassArgs) (children : list ReplayCommandBufferCommand)
    (a : ReplayRenderPassColorAttachment) (others : list ReplayRenderPassColorAttachment)
    (n : nat) (rest : list Z) (encoder : Handle) (e e' : Env) :
  rp_commands rp = CmdBeginRenderPass args :: children ->
  bra_colorAttachments args = a :: others ->
  (1 <= n)%nat ->
  (forall i c, (1 <= i < n)%nat -> rp_commands rp !! i = Some c -> is_endPass c = false) ->
  ReplayRenderPass_encodeUpTo rp (Z.of_nat n :: rest) encoder e = (Ok tt, e') ->
  let pass := HObject (env_next e) in
  exists target body,
    rp_commands rp !! n = Some target /\
    env_gpu e' =
      env_gpu e ++
      OnEncoder encoder (EncBeginRenderPass (map ca_view (bra_colorAttachments args)) pass)
      :: body ++ [OnPass pass PassEnd] /\
    Forall (pass_call_before_end pass) body /\
    env_state e' =
      if is_endPass target then env_state e
      else StateRenderPass
             (fold_left record_command (take n children)
                (initial_pass_state args (ca_viewState a))).
Proof.
  intros Hcmds Hatt Hn Hend H pass.
  destruct (encodeUpTo_inside rp args children a others (Z.of_nat n) rest encoder e
              Hcmds Hatt ltac:(lia)) as (msgs & Heq).
  rewrite Heq in H. clear Heq.
  unfold bind at 1 in H. cbn [create log env_next env_gpu env_trace env_console env_state
                              env_textureStateToShow] in H.
  fold pass in H.
  bind_inv H.
  assert (He0 : env_gpu e0 = env_gpu e ++
                  [OnEncoder encoder
                     (EncBeginRenderPass (map ca_view (bra_colorAttachments args)) pass)] /\
                env_state e0 = env_state e).
  { destruct (ca_resolveTarget a).
    - bind_inv Hstep. apply deref_ok_inv in Hstep0 as [_ ->].
      injection Hstep as _ <-. cbn. auto.
    - injection Hstep as _ <-. cbn. auto. }
  destruct He0 as (Hg0 & Hs0). clear Hstep.
  bind_inv H. destruct a1 as [s1 b1]. cbn [fst snd] in H.
  replace (iterations_through 1 (Some (Z.of_nat n))) with (S (n - 1)) in Hstep
    by (unfold iterations_through; lia).
  rewrite for_range_acc_snoc in Hstep. bind_inv Hstep. destruct a1 as [s2 b2].
  apply encode_pass_loop_before_end in Hstep0
    as (-> & Hs2 & Hst2 & body & Hg2 & Hall);
    [| intros i c Hi; apply Hend; lia].
  replace (1 + (n - 1))%nat with n in Hstep by lia.
  bind_inv Hstep. apply deref_ok_inv in Hstep0 as [Htarget ->].
  apply encode_pass_command_spec in Hstep as (Hs1 & Hst1 & Hcall).
  exists a1.
  assert (Hsnap : record_command s2 a1
                  = fold_left record_command (take n children)
                      (initial_pass_state args (ca_viewState a))).
  { rewrite Hs2, Hcmds. cbn [drop]. rewrite drop_0.
    rewrite Hcmds in Htarget.
    destruct n as [| m]; [lia |]. cbn [lookup list_lookup] in Htarget.
    replace (S m - 1)%nat with m by lia.
    rewrite (take_S_r _ _ _ Htarget), fold_left_app. reflexivity. }
  destruct (is_endPass a1).
  - destruct Hcall as (-> & Hg1). injection H as <-.
    exists body. repeat split; auto; [| congruence].
    rewrite Hg1, Hg2, Hg0, <- !app_assoc. reflexivity.
  - destruct Hcall as (-> & body1 & Hg1 & Hall1).
    unfold bind in H. cbn in H. injection H as <-. cbn.
    exists (body ++ body1). repeat split; auto.
    + rewrite Hg1, Hg2, Hg0, <- !app_assoc. reflexivity.
    + apply Forall_app; auto.
    + rewrite Hs1, Hsnap. reflexivity.
Qed.

(** X6.  A replayed render pass is begun once and ended once.  For a render
    pass that starts with its begin marker and has a first colour
    attachment, replaying to the command at index [n >= 1], no end marker
    standing before it, when it returns normally has appended:
    [beginRenderPass] on the command encoder, then calls on the pass encoder
    it returned, none of which is [end], then one [end] on that pass
    encoder.  This holds whether the target is the end marker (the pass is
    ended by its own command) or an earlier command (the pass is ended after
    the target). *)
Theorem replayed_render_pass_is_ended_once :
  forall rp args children a others n rest encoder e e',
    rp_commands rp = CmdBeginRenderPass args :: children ->
    bra_colorAttachments args = a :: others ->
    (1 <= n)%nat ->
    (forall i c, (1 <= i < n)%nat -> rp_commands rp !! i = Some c -> is_endPass c = false) ->
    ReplayRenderPass_encodeUpTo rp (Z.of_nat n :: rest) encoder e = (Ok tt, e') ->
    let pass := HObject (env_next e) in
    exists body,
      env_gpu e' =
        env_gpu e ++
        OnEncoder encoder (EncBeginRenderPass (map ca_view (bra_colorAttachments args)) pass)
        :: body ++ [OnPass pass PassEnd] /\
      Forall (pass_call_before_end pass) body.
Proof.
  intros rp args children a others n rest encoder e e' Hcmds Hatt Hn Hend H pass.
  destruct (encodeUpTo_inside_spec rp args children a others n rest encoder e e'
              Hcmds Hatt Hn Hend H) as (target & body & _ & Hg & Hall & _).
  exists body. auto.
Qed.

Lemma replayed_render_pass_is_ended_once_witness :
  let e := init_env sample_trace in
  let e' := snd (ReplayRenderPass_encodeUpTo sample_pass [1] (HObject 0) e) in
  exists body,
    env_gpu e' =
      env_gpu e ++
      OnEncoder (HObject 0) (EncBeginRenderPass [HObject 102] (HObject 0))
      :: body ++ [OnPass (HObject 0) PassEnd] /\
    Forall (pass_call_before_end (HObject 0)) body.
Proof.
  intros e e'.
  apply (replayed_render_pass_is_ended_once sample_pass sample_begin_args
           [CmdClone (TraceDraw 3 1 0 0); CmdClone TraceEndPass] sample_attachment []
           1%nat [] (HObject 0) e e').
  - reflexivity.
  - reflexivity.
  - lia.
  - intros i c Hi. lia.
  - vm_compute. reflexivity.
Defined.

Lemma js_array_set_lookup_eq {A} (i : nat) (x : A) (l : list (option A)) :
  js_array_set i x l !! i = Some (Some x).
Proof.
  unfold js_array_set. destruct (i <? length l)%nat eqn:Hi.
  - apply Nat.ltb_lt in Hi. apply list_lookup_insert_eq. exact Hi.
  - apply Nat.ltb_ge in Hi. rewrite lookup_app_r by exact Hi.
    rewrite lookup_app_r by (rewrite length_replicate; lia).
    rewrite length_replicate. replace (i - length l - (i - length l))%nat with O by lia.
    reflexivity.
Qed.

Lemma js_array_set_lookup_ne {A} (i j : nat) (x : A) (l : list (option A)) (v : option A) :
  i <> j -> l !! j = Some v -> js_array_set i x l !! j = Some v.
Proof.
  intros Hne Hj. unfold js_array_set. destruct (i <? length l)%nat.
  - rewrite list_lookup_insert_ne by exact Hne. exact Hj.
  - apply lookup_app_l_Some. exact Hj.
Qed.

(** ** The snapshot of a render pass *)

Lemma js_array_set_lookup_past {A} (i j : nat) (x : A) (l : list (option A)) :
  i <> j -> l !! j = None ->
  js_array_set i x l !! j = if (j <? i)%nat then Some None else None.
Proof.
  intros Hne Hj. apply lookup_ge_None in Hj. unfold js_array_set.
  destruct (Nat.ltb_spec i (length l)) as [Hi | Hi].
  - rewrite list_lookup_insert_ne by exact Hne.
    destruct (Nat.ltb_spec j i); [lia |]. apply lookup_ge_None. lia.
  - rewrite lookup_app_r by exact Hj.
    destruct (Nat.ltb_spec j i) as [Hji | Hji].
    + rewrite lookup_app_l by (rewrite length_replicate; lia).
      apply lookup_replicate_2. lia.
    + rewrite lookup_app_r by (rewrite length_replicate; lia).
      rewrite length_replicate. apply lookup_ge_None. cbn. lia.
Qed.

(** A JavaScript array written by index holds, at every index, what
    [array_entry] says of the assignments made. *)
Lemma array_entry_written {V} (writes : list (nat * V)) :
  forall i,
    fold_left (fun a w => js_array_set (fst w) (snd w) a) writes [] !! i
    = array_entry writes i.
Proof.
  induction writes as [| [k v] writes IH] using rev_ind; intros i; [reflexivity |].
  rewrite fold_left_app. cbn [fold_left fst snd].
  unfold array_entry. rewrite omap_app, last_app, existsb_app.
  cbn [omap list_omap existsb fst snd].
  destruct (Nat.eqb_spec k i) as [-> | Hne].
  - cbn [last]. apply js_array_set_lookup_eq.
  - cbn [last]. rewrite orb_false_r. specialize (IH i). unfold array_entry in IH.
    destruct (fold_left _ writes [] !! i) as [entry |] eqn:Hi.
    + rewrite (js_array_set_lookup_ne _ _ _ _ _ Hne Hi).
      destruct (last _) as [v0 |]; [exact IH |].
      destruct (existsb _ writes); [exact IH | discriminate].
    + rewrite (js_array_set_lookup_past _ _ _ _ Hne Hi).
      destruct (last _) as [v0 |]; [discriminate |].
      destruct (existsb _ writes); [discriminate |]. cbn [orb]. reflexivity.
Qed.

Lemma last_picked_snoc {V} (pick : ReplayCommandBufferCommand -> option V)
    (commands : list ReplayCommandBufferCommand) (c : ReplayCommandBufferCommand) :
  last_picked pick (commands ++ [c])
  = match pick c with
    | Some v => Some v
    | None => last_picked pick commands
    end.
Proof.
  unfold last_picked. rewrite omap_app, last_app. cbn [omap list_omap].
  destruct (pick c); reflexivity.
Qed.

(** The snapshot recorded from a list of commands holds, field by field,
    what the commands set last. *)
Lemma recorded_snapshot (s0 : RenderPassState) (commands : list ReplayCommandBufferCommand) :
  rps_bindGroups s0 = [] -> rps_vertexBuffers s0 = [] ->
  let s := fold_left record_command commands s0 in
  rps_viewport s = default (rps_viewport s0) (last_picked viewport_set commands) /\
  rps_colorAttachments s = rps_colorAttachments s0 /\
  rps_depthStencilAttachment s = rps_depthStencilAttachment s0 /\
  rps_pipeline s
  = match last_picked pipeline_set commands with
    | Some p => Some p
    | None => rps_pipeline s0
    end /\
  rps_indexBuffer s = default (rps_indexBuffer s0) (last_picked indexBuffer_set commands) /\
  rps_bindGroups s
  = fold_left (fun a w => js_array_set (fst w) (snd w) a) (omap bindGroup_set commands) [] /\
  rps_vertexBuffers s
  = fold_left (fun a w => js_array_set (fst w) (snd w) a) (omap vertexBuffer_set commands) [].
Proof.
  intros Hbg Hvb. cbn zeta. induction commands as [| c commands IH] using rev_ind.
  - cbn. rewrite Hbg, Hvb. auto 10.
  - rewrite fold_left_app. cbn [fold_left].
    destruct IH as (Hv & Hc & Hd & Hp & Hi & Hg & Hb).
    rewrite !last_picked_snoc, !omap_app, !fold_left_app.
    set (s1 := fold_left record_command commands s0) in *.
    destruct c as [t | | | | | index [g |] dyn | [buf |] fmt off sz | [p |] | slot [buf |] off sz];
      [destruct t |..];
      cbn [record_command viewport_set pipeline_set indexBuffer_set bindGroup_set
           vertexBuffer_set omap fold_left set_bindGroup set_indexBuffer set_pipeline
           set_vertexBuffer set_viewport rps_viewport rps_colorAttachments
           rps_depthStencilAttachment rps_pipeline rps_indexBuffer rps_bindGroups
           rps_vertexBuffers default fst snd];
      rewrite ?Hg, ?Hb; auto 10.
Qed.

(** X7.  The snapshot of a truncated render pass.  Under the conditions of
    X6, when the target at index [n] is the end marker, [replay.state] is
    left as it was; otherwise it is a render pass snapshot that holds, field
    by field, what the commands 1 to [n] of the pass set last: the viewport
    of the last setViewport, or the viewport that covers the texture of the
    first colour attachment when there is none; the pipeline of the last
    setPipeline, or none; the buffer, offset and size of the last
    setIndexBuffer, or no buffer at offset and size 0; at every index, the
    bind group last set at that index, with no dynamic offsets whatever
    offsets were recorded; at every slot, the buffer, offset and size last
    set at that slot; in both arrays a hole below a higher index that was
    set and nothing past the highest.  The attachments are those of the
    begin arguments. *)
Theorem truncated_render_pass_snapshot :
  forall rp args children a others n rest encoder e e',
    rp_commands rp = CmdBeginRenderPass args :: children ->
    bra_colorAttachments args = a :: others ->
    (1 <= n)%nat ->
    (forall i c, (1 <= i < n)%nat -> rp_commands rp !! i = Some c -> is_endPass c = false) ->
    ReplayRenderPass_encodeUpTo rp (Z.of_nat n :: rest) encoder e = (Ok tt, e') ->
    exists target,
      rp_commands rp !! n = Some target /\
      if is_endPass target then env_state e' = env_state e
      else
        exists s,
          env_state e' = StateRenderPass s /\
          rps_viewport s
          = default (full_viewport (rtv_texture (ca_viewState a)))
              (last_picked viewport_set (take n children)) /\
          rps_colorAttachments s
          = map (fun a => (ca_viewState a, ca_resolveTargetState a))
              (bra_colorAttachments args) /\
          rps_depthStencilAttachment s
          = option_map dsa_viewState (bra_depthStencilAttachment args) /\
          rps_pipeline s = last_picked pipeline_set (take n children) /\
          rps_indexBuffer s
          = default (None, 0, 0) (last_picked indexBuffer_set (take n children)) /\
          (forall i, rps_bindGroups s !! i
                     = array_entry (omap bindGroup_set (take n children)) i) /\
          (forall i, rps_vertexBuffers s !! i
                     = array_entry (omap vertexBuffer_set (take n children)) i).
Proof.
  intros rp args children a others n rest encoder e e' Hcmds Hatt Hn Hend H.
  destruct (encodeUpTo_inside_spec rp args children a others n rest encoder e e'
              Hcmds Hatt Hn Hend H) as (target & body & Ht & _ & _ & Hs).
  exists target. split; [exact Ht |].
  destruct (is_endPass target); [exact Hs |].
  eexists. split; [exact Hs |].
  destruct (recorded_snapshot (initial_pass_state args (ca_viewState a)) (take n children)
              eq_refl eq_refl) as (Hv & Hc & Hd & Hp & Hi & Hg & Hb).
  rewrite Hv, Hc, Hd, Hp, Hi, Hg, Hb.
  repeat split; try reflexivity.
  - destruct (last_picked pipeline_set (take n children)); reflexivity.
  - intros i. apply array_entry_written.
  - intros i. apply array_entry_written.
Qed.

Lemma truncated_render_pass_snapshot_witness :
  let e := init_env sample_trace in
  let e' := snd (ReplayRenderPass_encodeUpTo sample_state_pass [4] (HObject 0) e) in
  exists s,
    env_state e' = StateRenderPass s /\
    rps_viewport s = sample_viewport /\
    rps_pipeline s = None /\
    rps_indexBuffer s = (None, 0, 0) /\
    rps_bindGroups s = [None; Some (sample_bind_group, None)] /\
    rps_vertexBuffers s = [].
Proof.
  intros e e'.
  destruct (truncated_render_pass_snapshot sample_state_pass sample_begin_args
              [CmdSetBindGroup 1 (Some sample_bind_group) (Some [256]);
               CmdClone (TraceSetViewport (full_viewport sample_texture));
               CmdClone (TraceSetViewport sample_viewport);
               CmdClone (TraceDraw 3 1 0 0); CmdClone TraceEndPass] sample_attachment []
              4%nat [] (HObject 0) e e') as (target & Htarget & Hstate).
  - reflexivity.
  - reflexivity.
  - lia.
  - intros i c Hi Hc.
    destruct i as [| [| [| [| i]]]]; try lia; cbn in Hc; injection Hc as <-; reflexivity.
  - vm_compute. reflexivity.
  - cbn in Htarget. injection Htarget as <-. cbn [is_endPass] in Hstate.
    destruct Hstate as (s & Hs & Hv & _ & _ & Hp & Hi & Hg & Hb).
    exists s. split; [exact Hs |]. split; [exact Hv |]. split; [exact Hp |].
    split; [exact Hi |]. split.
    + apply list_eq. intros i. rewrite Hg. destruct i as [| [| i]]; reflexivity.
    + apply list_eq. intros i. rewrite Hb. reflexivity.
Defined.

(** ** Resolution keeps the recorded stream *)

Lemma flattened_app (l1 l2 : list ReplayCommandBufferCommand) :
  flattened (l1 ++ l2) = flattened l1 ++ flattened l2.
Proof. unfold flattened. rewrite map_app, concat_app. reflexivity. Qed.

Lemma resolve_render_pass_command_name (replay : Replay) (c : TraceCommandBufferCommand)
    (e e' : Env) (c' : ReplayCommandBufferCommand) :
  resolve_render_pass_command replay c e = (Ok c', e') ->
  command_name c' = trace_command_name c.
Proof.
  destruct c; cbv [resolve_render_pass_command bind ret console_assert console];
    intros [= <- _]; reflexivity.
Qed.

Lemma ReplayRenderPass_consumeCommands_names (replay : Replay)
    (stream : list TraceCommandBufferCommand) :
  forall commands e commands' rest e',
    ReplayRenderPass_consumeCommands replay stream commands e = (Ok (commands', rest), e') ->
    exists consumed,
      stream = consumed ++ rest /\
      map command_name commands'
      = map command_name commands ++ map trace_command_name consumed.
Proof.
  induction stream as [| c stream IH]; intros commands e commands' rest e' H.
  - cbn in H. injection H as <- <- _. exists []. cbn. rewrite app_nil_r. auto.
  - assert (Hstep :
      (c' <- resolve_render_pass_command replay c ;;
       ReplayRenderPass_consumeCommands replay stream (commands ++ [c'])) e
      = (Ok (commands', rest), e') ->
      exists consumed,
        c :: stream = consumed ++ rest /\
        map command_name commands'
        = map command_name commands ++ map trace_command_name consumed).
    { intros H'. bind_inv H'. apply resolve_render_pass_command_name in Hstep.
      apply IH in H' as (consumed & -> & Hnames). exists (c :: consumed).
      split; [reflexivity |]. rewrite Hnames, map_app. cbn. rewrite Hstep, <- app_assoc.
      reflexivity. }
    destruct c; try (exact (Hstep H)).
    cbn in H. injection H as <- <- _. exists [TraceEndPass]. split; [reflexivity |].
    rewrite map_app. reflexivity.
Qed.

Lemma ReplayCommandBuffer_consumeCommands_names (replay : Replay) (fuel : nat) :
  forall stream commands e commands' e',
    (length stream <= fuel)%nat ->
    ReplayCommandBuffer_consumeCommands fuel replay stream commands e = (Ok commands', e') ->
    map command_name (flattened commands')
    = map command_name (flattened commands) ++ map trace_command_name stream.
Proof.
  induction fuel as [| fuel IH]; intros stream commands e commands' e' Hlen H.
  - destruct stream; [| cbn in Hlen; lia]. cbn in H. injection H as <- _.
    cbn. rewrite app_nil_r. reflexivity.
  - destruct stream as [| c rest].
    { cbn in H. injection H as <- _. cbn. rewrite app_nil_r. reflexivity. }
    cbn [length] in Hlen.
    assert (Hplain : forall c' e1,
      command_name c' = trace_command_name c ->
      (forall rp, c' <> CmdRenderPass rp) ->
      ReplayCommandBuffer_consumeCommands fuel replay rest (commands ++ [c']) e1
      = (Ok commands', e') ->
      map command_name (flattened commands')
      = map command_name (flattened commands) ++ map trace_command_name (c :: rest)).
    { intros c' e1 Hname Hrp H'. apply IH in H'; [| lia].
      rewrite H', flattened_app, map_app, <- app_assoc. f_equal.
      destruct c'; try (cbn in Hname |- *; rewrite <- Hname; reflexivity).
      exfalso. eapply Hrp. reflexivity. }
    destruct c; cbn [ReplayCommandBuffer_consumeCommands] in H;
      try (bind_inv H; eapply Hplain; [| | exact H]; [reflexivity | discriminate]);
      try (eapply Hplain; [| | exact H]; [reflexivity | discriminate]).
    + bind_inv H. bind_inv H. destruct a0 as [children left].
      apply ReplayRenderPass_consumeCommands_names in Hstep0 as (consumed & -> & Hnames).
      cbn [fst snd] in H. apply IH in H; [| rewrite length_app in Hlen; lia].
      rewrite H, flattened_app, !map_app, <- app_assoc. f_equal.
      unfold flattened at 1. cbn [map concat rp_commands]. rewrite app_nil_r, Hnames.
      cbn [map app]. rewrite map_app. reflexivity.
    + bind_inv H. bind_inv H. eapply Hplain; [| | exact H]; [reflexivity | discriminate].
    + bind_inv H. bind_inv H. eapply Hplain; [| | exact H]; [reflexivity | discriminate].
Qed.

(** X8.  Resolution keeps every recorded command, once and in order.  When
    a command buffer is built from a descriptor, its commands, with every
    render pass replaced by its children, carry exactly the names of the
    recorded stream, position by position: no recorded command is dropped,
    duplicated or moved, whatever its kind, and the only command added is
    the render-pass pseudo-command that groups the children. *)
Theorem resolution_keeps_the_recorded_stream :
  forall replay desc e cb e',
    new_ReplayCommandBuffer replay desc e = (Ok cb, e') ->
    map command_name (flattened (rcb_commands cb))
    = map trace_command_name (tcmb_commands desc).
Proof.
  intros replay desc e cb e' H. unfold new_ReplayCommandBuffer in H. bind_inv H.
  injection H as <- _. cbn [rcb_commands].
  apply ReplayCommandBuffer_consumeCommands_names in Hstep; [exact Hstep | lia].
Qed.

Lemma resolution_keeps_the_recorded_stream_witness :
  let desc := {| tcmb_label := None;
                 tcmb_commands :=
                   [TraceOtherCommand "beginComputePass";
                    TraceBeginRenderPass sample_begin_no_color;
                    TraceSetScissorRect 0 0 1 1; TraceDraw 3 1 0 0; TraceEndPass;
                    TracePopDebugGroup] |} in
  let r := new_ReplayCommandBuffer empty_replay desc (init_env sample_trace) in
  exists cb,
    fst r = Ok cb /\
    map command_name (flattened (rcb_commands cb))
    = ["beginComputePass"; "beginRenderPass"; "setScissorRect"; "draw"; "endPass";
       "popDebugGroup"]%string.
Proof.
  intros desc r.
  destruct r as [[cb | err] e'] eqn:Hr; [| vm_compute in Hr; discriminate].
  exists cb. split; [reflexivity |].
  exact (resolution_keeps_the_recorded_stream empty_replay desc (init_env sample_trace) cb e' Hr).
Defined.

(** ** What a successful load has built *)

Lemma recreate_loop_keys {D T} (Class : string -> D -> M T) (l : list (string * D)) :
  forall acc e objs e',
    recreate_loop Class l acc e = (Ok objs, e') ->
    forall s, is_Some (objs !! s) <-> is_Some (acc !! s) \/ (s ∈ map fst l).
Proof.
  induction l as [| [k d] l IH]; intros acc e objs e' H s.
  - cbn in H. injection H as <- _. cbn. rewrite elem_of_nil. tauto.
  - cbn [recreate_loop] in H. bind_inv H. rewrite (IH _ _ _ _ H s).
    cbn [map fst]. rewrite elem_of_cons.
    destruct (decide (s = k)) as [-> | Hne].
    + rewrite lookup_insert_eq. split; [auto | intros _; left; eauto].
    + rewrite lookup_insert_ne by congruence. tauto.
Qed.




Lemma recreateObjects_registry {D T} (Class : string -> D -> M T)
    (descMap : option (list (string * D))) (e e' : Env) (objs : gmap string T) :
  (v <- recreateObjects Class descMap ;; destructure v) e = (Ok objs, e') ->
  registry_of descMap objs.
Proof.
  intros H. apply recreateObjects_ok in H as (l & -> & H). exists l. split; [reflexivity |].
  intros s. rewrite (recreate_loop_keys _ _ _ _ _ _ H s), lookup_empty.
  split; [intros [[x Hx] | Hs]; [discriminate | exact Hs] | auto].
Qed.


Lemma initialize_implicit_layouts_keys (r_renderPipelines : gmap string ReplayRenderPipeline)
    (keys : list string) :
  forall layouts e layouts' e',
    initialize_implicit_layouts r_renderPipelines keys layouts e = (Ok layouts', e') ->
    forall s, is_Some (layouts' !! s) <-> is_Some (layouts !! s).
Proof.
  induction keys as [| k keys IH]; intros layouts e layouts' e' H s.
  - cbn in H. injection H as <- _. tauto.
  - cbn [initialize_implicit_layouts] in H.
    destruct (layouts !! k) as [layout |] eqn:Hk; [| exact (IH _ _ _ _ H s)].
    destruct (rbgl_implicit layout); [| exact (IH _ _ _ _ H s)].
    bind_inv H. rewrite (IH _ _ _ _ H s).
    destruct (decide (s = k)) as [-> | Hne].
    + rewrite lookup_insert_eq, Hk. split; eauto.
    + rewrite lookup_insert_ne by congruence. tauto.
Qed.



Lemma map_m_ext {A B} (f g : A -> M B) (l : list A) :
  (forall x e, f x e = g x e) -> forall e, map_m f l e = map_m g l e.
Proof.
  intros Hfg. induction l as [| x l IH]; intros e; [reflexivity |].
  cbn [map_m]. apply bind_ext; [apply Hfg |]. intros y e1.
  apply bind_ext; [apply IH | reflexivity].
Qed.

Lemma load_from_implicit_layouts_inv (trace : Trace) (r_data : gmap string (list Z))
    (early : EarlyRegistries) (e e' : Env) (replay : Replay) :
  load_from_implicit_layouts trace r_data early e = (Ok replay, e') ->
  let objects := trace_objects trace in
  data replay = r_data /\
  adapters replay = er_adapters early /\ devices replay = er_devices early /\
  queues replay = er_queues early /\
  (forall s, is_Some (bindGroupLayouts replay !! s)
             <-> is_Some (er_bindGroupLayouts early !! s)) /\
  pipelineLayouts replay = er_pipelineLayouts early /\
  shaderModules replay = er_shaderModules early /\
  renderPipelines replay = er_renderPipelines early /\
  registry_of (to_buffers objects) (buffers replay) /\
  registry_of (to_samplers objects) (samplers replay) /\
  registry_of (to_textures objects) (textures replay) /\
  registry_of (to_textureViews objects) (textureViews replay) /\
  registry_of (to_querySets objects) (querySets replay) /\
  registry_of (to_bindGroups objects) (bindGroups replay) /\
  registry_of (to_commandBuffers objects) (commandBuffers replay) /\
  exists e1,
    map_m (resolve_queue_command replay) (trace_commands trace) e1
    = (Ok (commands replay), e').
Proof.
  intros H objects. unfold load_from_implicit_layouts in H. fold objects in H.
  bind_inv H. pose proof (initialize_implicit_layouts_keys _ _ _ _ _ _ Hstep) as Hbgl.
  bind_inv H. apply recreateObjects_registry in Hstep0.
  bind_inv H. apply recreateObjects_registry in Hstep1.
  bind_inv H. apply recreateObjects_registry in Hstep2.
  bind_inv H. apply recreateObjects_registry in Hstep3.
  bind_inv H. apply recreateObjects_registry in Hstep4.
  bind_inv H. apply recreateObjects_registry in Hstep5.
  bind_inv H. apply recreateObjects_registry in Hstep6.
  bind_inv H. injection H as <- <-. cbn.
  repeat (split; [solve [auto] |]).
  exists e7. rewrite <- Hstep7. apply map_m_ext.
  intros c env. destruct c; reflexivity.
Qed.

Lemma load_inv (requestUnwrappedAdapter : TraceAdapter -> option Handle) (e e' : Env)
    (replay : Replay) :
  load requestUnwrappedAdapter e = (Ok replay, e') ->
  exists early e1,
    load_until_pipelines requestUnwrappedAdapter (trace_objects (env_trace e)) e
    = (Ok early, e1) /\
    load_from_implicit_layouts (env_trace e) (load_data (trace_data (env_trace e))) early e1
    = (Ok replay, e').
Proof.
  intros H. unfold load in H. bind_inv H. injection Hstep as <- <-.
  bind_inv H. eauto.
Qed.



Lemma map_m_ok_lookup {A B} (f : A -> M B) (l : list A) :
  forall e ys e',
    map_m f l e = (Ok ys, e') ->
    length ys = length l /\
    forall i x, l !! i = Some x ->
                exists y e1 e2, ys !! i = Some y /\ f x e1 = (Ok y, e2).
Proof.
  induction l as [| x0 l IH]; intros e ys e' H.
  - cbn in H. injection H as <- _. split; [reflexivity |]. intros i x Hx. discriminate.
  - cbn [map_m] in H. bind_inv H. bind_inv H. injection H as <- _.
    apply IH in Hstep0 as (Hlen & Hall). split; [cbn; lia |].
    intros [| i] x Hx; cbn in Hx.
    + injection Hx as <-. eauto.
    + apply Hall. exact Hx.
Qed.

Lemma resolve_queue_command_name (replay : Replay) (c : TraceQueueCommand) (e e' : Env)
    (c' : ReplayQueueCommand) :
  resolve_queue_command replay c e = (Ok c', e') ->
  queue_command_name c' = resolved_queue_name c.
Proof.
  destruct c; cbn [resolve_queue_command]; intros H;
    try (injection H as <- _; reflexivity);
    bind_inv H; injection H as <- _; reflexivity.
Qed.

(** X10.  The top-level command list keeps the positions of the trace.
    After a successful load the session has as many commands as the trace,
    and the command at each position is the resolution of the trace command
    at that position against the final registries (in any environment); it
    has the name of the trace command, or 'bad-command' where the trace
    command is of no known kind.  So the first component of a path is a
    position in [trace.commands]. *)
Theorem top_level_commands_keep_their_positions :
  forall requestUnwrappedAdapter e replay e',
    load requestUnwrappedAdapter e = (Ok replay, e') ->
    length (commands replay) = length (trace_commands (env_trace e)) /\
    forall i c,
      trace_commands (env_trace e) !! i = Some c ->
      exists c',
        commands replay !! i = Some c' /\
        (forall e0, fst (resolve_queue_command replay c e0) = Ok c') /\
        queue_command_name c' = resolved_queue_name c.
Proof.
  intros rq e replay e' H.
  apply load_inv in H as (early & e1 & _ & Hlate).
  apply load_from_implicit_layouts_inv in Hlate as Hinv.
  do 15 (destruct Hinv as (_ & Hinv)). destruct Hinv as (e2 & Hmap).
  apply map_m_ok_lookup in Hmap as (Hlen & Hall). split; [exact Hlen |].
  intros i c Hc. destruct (Hall i c Hc) as (c' & e3 & e4 & Hc' & Hres).
  exists c'. split; [exact Hc' |]. split.
  - intros e0.
    destruct (console_function_resolve_queue_command replay c) as (r & msgs & Hr).
    rewrite Hr in Hres. injection Hres as -> _. rewrite Hr. reflexivity.
  - eapply resolve_queue_command_name. exact Hres.
Qed.

Lemma top_level_commands_keep_their_positions_witness :
  exists replay,
    fst (load (fun _ => None) (init_env sample_trace_unrecognized)) = Ok replay /\
    length (commands replay) = 3%nat /\
    forall i c,
      trace_commands sample_trace_unrecognized !! i = Some c ->
      exists c',
        commands replay !! i = Some c' /\
        (forall e0, fst (resolve_queue_command replay c e0) = Ok c') /\
        queue_command_name c' = resolved_queue_name c.
Proof.
  destruct (load (fun _ => None) (init_env sample_trace_unrecognized))
    as [[replay | err] e'] eqn:Hload; [| vm_compute in Hload; discriminate].
  exists replay. split; [reflexivity |].
  exact (top_level_commands_keep_their_positions (fun _ => None)
           (init_env sample_trace_unrecognized) replay e' Hload).
Defined.

(** ** Recorded data *)

Lemma load_data_fold_notin (blobs : list (string * list Z)) :
  forall (acc : gmap string (list Z)) (s : string),
    (s ∉ map fst blobs) ->
    fold_left (fun d kv => <[fst kv := map (fun x => x mod 256) (snd kv)]> d) blobs acc !! s
    = acc !! s.
Proof.
  induction blobs as [| [k v] blobs IH]; intros acc s Hs; [reflexivity |].
  cbn [fold_left fst snd]. cbn [map fst] in Hs. apply not_elem_of_cons in Hs as [Hne Hs].
  rewrite IH by exact Hs. apply lookup_insert_ne. congruence.
Qed.

Lemma load_data_fold_in (blobs : list (string * list Z)) :
  forall (acc : gmap string (list Z)) (s : string) (blob : list Z),
    NoDup (map fst blobs) ->
    ((s, blob) ∈ blobs) ->
    fold_left (fun d kv => <[fst kv := map (fun x => x mod 256) (snd kv)]> d) blobs acc !! s
    = Some (map (fun x => x mod 256) blob).
Proof.
  induction blobs as [| [k v] blobs IH]; intros acc s blob Hnd Hin.
  - apply elem_of_nil in Hin. contradiction.
  - cbn [map fst] in Hnd. apply NoDup_cons in Hnd as [Hk Hnd].
    cbn [fold_left fst snd]. apply elem_of_cons in Hin as [[= -> ->] | Hin].
    + rewrite load_data_fold_notin by exact Hk. apply lookup_insert_eq.
    + apply IH; assumption.
Qed.

(** X11.  Recorded data survives the load, byte by byte.  Take a trace
    whose data serials are distinct and name no member of
    [Object.prototype].  After a successful load, [getData] for a blob of
    the trace, asked with the length of that blob, returns the values of the
    blob reduced modulo 256 (the copy into a byte array), each between 0 and
    255, and writes nothing on the console; for a serial the trace has no
    blob under, and that names no member of [Object.prototype] either,
    [getData] raises. *)
Theorem recorded_data_round_trip :
  forall requestUnwrappedAdapter e replay e',
    load requestUnwrappedAdapter e = (Ok replay, e') ->
    NoDup (map fst (trace_data (env_trace e))) ->
    Forall (fun s => inherited_name s = false) (map fst (trace_data (env_trace e))) ->
    (forall s blob e0,
       ((s, blob) ∈ trace_data (env_trace e)) ->
       let bytes := map (fun x => x mod 256) blob in
       getData (data replay) {| td_serial := s; td_size := Z.of_nat (length blob) |} e0
       = (Ok bytes, e0) /\
       Forall (fun b => 0 <= b < 256) bytes) /\
    (forall s size e0,
       (s ∉ map fst (trace_data (env_trace e))) ->
       inherited_name s = false ->
       not_held (data replay) s /\
       getData (data replay) {| td_serial := s; td_size := size |} e0
       = (Throw (TypeError "byteLength"), e0)).
Proof.
  intros rq e replay e' H Hnd Hown.
  apply load_inv in H as (early & e1 & _ & Hlate).
  apply load_from_implicit_layouts_inv in Hlate as (Hdata & _).
  rewrite Hdata. unfold load_data. split.
  - intros s blob e0 Hin. split.
    + unfold getData. cbn [td_serial td_size].
      rewrite (load_data_fold_in _ ∅ s blob Hnd Hin). cbn [deref]. rewrite bind_ret.
      rewrite length_map, Z.eqb_refl. reflexivity.
    + apply Forall_forall. intros b Hb.
      apply list_elem_of_In, in_map_iff in Hb as (x & <- & _).
      apply Z.mod_pos_bound. lia.
  - intros s size e0 Hs Hname.
    assert (Hproto : "__proto__"%string ∉ map fst (trace_data (env_trace e))).
    { intros Hin. rewrite Forall_forall in Hown. apply Hown in Hin. discriminate Hin. }
    split.
    + unfold not_held. rewrite !load_data_fold_notin, !lookup_empty by assumption. auto.
    + unfold getData. cbn [td_serial].
      rewrite (load_data_fold_notin _ ∅ s Hs), lookup_empty. reflexivity.
Qed.

Lemma recorded_data_round_trip_witness :
  exists replay,
    fst (load (fun _ => None) (init_env sample_data_trace)) = Ok replay /\
    (forall e0,
       getData (data replay) {| td_serial := "9"; td_size := 4 |} e0
       = (Ok [1; 2; 3; 4], e0)) /\
    (forall e0,
       getData (data replay) {| td_serial := "8"; td_size := 4 |} e0
       = (Throw (TypeError "byteLength"), e0)).
Proof.
  destruct (load (fun _ => None) (init_env sample_data_trace))
    as [[replay | err] e'] eqn:Hload; [| vm_compute in Hload; discriminate].
  exists replay. split; [reflexivity |].
  assert (Hnd : NoDup (map fst (trace_data (env_trace (init_env sample_data_trace))))).
  { cbn. apply NoDup_cons. split; [apply not_elem_of_nil | apply NoDup_nil_2]. }
  assert (Hown : Forall (fun s => inherited_name s = false)
                   (map fst (trace_data (env_trace (init_env sample_data_trace))))).
  { cbn. repeat constructor. }
  destruct (recorded_data_round_trip (fun _ => None) (init_env sample_data_trace)
              replay e' Hload Hnd Hown) as (Hin & Hout).
  split.
  - intros e0. refine (proj1 (Hin "9"%string [1; 2; 3; 260] e0 _)).
    cbn. apply list_elem_of_singleton. reflexivity.
  - intros e0. refine (proj2 (Hout "8"%string 4 e0 _ _)).
    + cbn. intros Hin8. apply list_elem_of_singleton in Hin8. discriminate Hin8.
    + reflexivity.
Defined.

(** ** Initial data of a texture *)

Lemma js_shr_div (w m : Z) :
  0 <= w < 2 ^ 31 -> 0 <= m < 32 -> js_shr w m = w / 2 ^ m.
Proof.
  intros Hw Hm. unfold js_shr, to_int32.
  rewrite (Z.mod_small (w + 2 ^ 31)) by lia.
  rewrite (Z.mod_small m) by lia.
  replace (w + 2 ^ 31 - 2 ^ 31) with w by lia.
  apply Z.shiftr_div_pow2. lia.
Qed.

Lemma getData_ok (r_data : gmap string (list Z)) (d : TraceData) (e e' : Env)
    (dataBuf : list Z) :
  getData r_data d e = (Ok dataBuf, e') ->
  r_data !! td_serial d = Some dataBuf /\ env_gpu e' = env_gpu e.
Proof.
  intros H. unfold getData in H. bind_inv H. apply deref_ok_inv in Hstep as [Hl ->].
  bind_inv H. rewrite console_assert_run in Hstep. injection Hstep as _ <-.
  injection H as <- <-. auto.
Qed.

(** X12.  Initial data of a texture.  For a texture that is multisampled or
    not two-dimensional, [loadInitialData] writes nothing: it leaves one
    warning on the console and returns normally.  For a single-sampled 2-D
    texture whose width and height are below 2^31, when it returns normally
    it has made exactly one [writeTexture] per recorded sub-resource, in
    order, into that texture through the queue of its device, with the
    recorded bytes and bytes-per-row, and with the extent of the mip level:
    width and height halved once per level, rounded down, at least 1, all
    the layers, and rows-per-image equal to that height. *)
Theorem texture_initial_data_writes :
  forall r_data this initialData e,
    ((rt_sampleCount this <> 1 \/ rt_dimension this <> "2d"%string) ->
     exists message,
       loadInitialData r_data this initialData e = (Ok tt, log [Warning message] e)) /\
    (rt_sampleCount this = 1 ->
     rt_dimension this = "2d"%string ->
     0 <= ext_width (rt_size this) < 2 ^ 31 ->
     0 <= ext_height (rt_size this) < 2 ^ 31 ->
     Forall (fun subResource => 0 <= tid_mipLevel subResource < 32) initialData ->
     forall e',
       loadInitialData r_data this initialData e = (Ok tt, e') ->
       env_gpu e' = env_gpu e ++ map (initial_data_write r_data this) initialData).
Proof.
  intros r_data this initialData e. split.
  - intros Hunsupported. unfold loadInitialData, console_warn.
    destruct (rt_sampleCount this =? 1) eqn:Hsc; cbn [negb]; [| eexists; reflexivity].
    destruct (String.eqb (rt_dimension this) "2d") eqn:Hdim; cbn [negb];
      [| eexists; reflexivity].
    apply Z.eqb_eq in Hsc. apply String.eqb_eq in Hdim. tauto.
  - intros Hsc Hdim Hw Hh Hmips. unfold loadInitialData.
    rewrite Hsc, Hdim. cbn [Z.eqb Pos.eqb negb String.eqb Ascii.eqb Bool.eqb].
    cbv iota. revert e.
    induction Hmips as [| sub rest Hmip Hrest IH]; intros e e' H.
    + cbn in H. injection H as <-. cbn. rewrite app_nil_r. reflexivity.
    + cbn [for_of] in H. bind_inv H. bind_inv Hstep.
      apply getData_ok in Hstep0 as [Hdata Hg]. injection Hstep as _ <-.
      apply IH in H. rewrite H. cbn [env_gpu map]. rewrite Hg, <- app_assoc. cbn [app].
      do 2 f_equal. unfold initial_data_write, mip_extent, js_max. rewrite Hdata.
      cbn [default ext_height]. rewrite !js_shr_div by lia. reflexivity.
Qed.

Lemma texture_initial_data_writes_witness :
  let e := init_env sample_trace in
  (exists message,
     loadInitialData sample_data sample_multisampled_texture sample_mip_data e
     = (Ok tt, log [Warning message] e)) /\
  env_gpu (snd (loadInitialData sample_data sample_texture sample_mip_data e))
  = env_gpu e ++ map (initial_data_write sample_data sample_texture) sample_mip_data.
Proof.
  intros e. split.
  - apply (proj1 (texture_initial_data_writes sample_data sample_multisampled_texture
                    sample_mip_data e)).
    left. cbn. discriminate.
  - apply (proj2 (texture_initial_data_writes sample_data sample_texture sample_mip_data e)).
    + reflexivity.
    + reflexivity.
    + cbn. lia.
    + cbn. lia.
    + repeat constructor; cbn; lia.
    + vm_compute. reflexivity.
Defined.

(** ** Wrappers of objects whose device or texture is unknown *)

(** X13.  A wrapper whose device serial the device registry answers with
    [undefined] (the registry holds nothing under it, and it names no member
    of [Object.prototype]) is not built, and nothing is created for it: the
    constructors of buffers, textures, samplers, query sets, shader modules,
    pipeline layouts, bind groups, explicit bind-group layouts, render
    pipelines and queues raise without a call on the graphics context.  An
    implicit bind-group layout is the exception: it is built, without a
    device and without a live object. *)
Theorem unknown_device_builds_nothing :
  forall (r_devices : gmap string ReplayDevice) (e : Env),
    (forall r_data desc,
       not_held r_devices (tb_deviceSerial desc) ->
       raises_without_calls (new_ReplayBuffer r_devices r_data desc) e) /\
    (forall r_data desc,
       not_held r_devices (tt_deviceSerial desc) ->
       raises_without_calls (new_ReplayTexture r_devices r_data desc) e) /\
    (forall desc,
       not_held r_devices (tsa_deviceSerial desc) ->
       raises_without_calls (new_ReplaySampler r_devices desc) e) /\
    (forall desc,
       not_held r_devices (tqs_deviceSerial desc) ->
       raises_without_calls (new_ReplayQuerySet r_devices desc) e) /\
    (forall desc,
       not_held r_devices (tsm_deviceSerial desc) ->
       raises_without_calls (new_ReplayShaderModule r_devices desc) e) /\
    (forall r_bindGroupLayouts desc,
       not_held r_devices (tpl_deviceSerial desc) ->
       raises_without_calls (new_ReplayPipelineLayout r_devices r_bindGroupLayouts desc) e) /\
    (forall r_bindGroupLayouts r_textureViews r_samplers r_buffers desc,
       not_held r_devices (tbg_deviceSerial desc) ->
       raises_without_calls
         (new_ReplayBindGroup r_devices r_bindGroupLayouts r_textureViews r_samplers
            r_buffers desc) e) /\
    (forall label deviceSerial entries,
       not_held r_devices deviceSerial ->
       raises_without_calls
         (new_ReplayBindGroupLayout r_devices
            (TraceExplicitBindGroupLayout label deviceSerial entries)) e) /\
    (forall r_shaderModules r_pipelineLayouts serial desc,
       not_held r_devices (trp_deviceSerial desc) ->
       raises_without_calls
         (new_ReplayRenderPipeline r_devices r_shaderModules r_pipelineLayouts serial desc)
         e) /\
    (forall desc,
       not_held r_devices (tq_deviceSerial desc) ->
       raises_without_calls (new_ReplayQueue r_devices desc) e) /\
    (forall label deviceSerial renderPipelineSerial groupIndex,
       not_held r_devices deviceSerial ->
       exists layout,
         new_ReplayBindGroupLayout r_devices
           (TraceImplicitBindGroupLayout label deviceSerial renderPipelineSerial groupIndex) e
         = (Ok layout, e) /\
         rbgl_device layout = None /\ rbgl_webgpuObject layout = None).
Proof.
  intros r_devices e. unfold raises_without_calls, not_held.
  repeat match goal with |- _ /\ _ => split end.
  - intros r_data desc [H _]. unfold new_ReplayBuffer. rewrite H.
    destruct (_ || _); cbn; eauto.
  - intros r_data desc [H _]. unfold new_ReplayTexture. rewrite H. cbn. eauto.
  - intros desc [H _]. unfold new_ReplaySampler. rewrite H. cbn. eauto.
  - intros desc [H _]. unfold new_ReplayQuerySet. rewrite H. cbn. eauto.
  - intros desc [H _]. unfold new_ReplayShaderModule. rewrite H. cbn. eauto.
  - intros r_bgl desc [H _]. unfold new_ReplayPipelineLayout. rewrite H. cbn. eauto.
  - intros r_bgl r_tv r_s r_b desc [H _]. unfold new_ReplayBindGroup. rewrite H. cbn. eauto.
  - intros label serial entries [H _]. unfold new_ReplayBindGroupLayout.
    cbn [tbgl_entries tbgl_deviceSerial]. rewrite H. cbn. eauto.
  - intros r_sm r_pl serial desc [H _]. unfold new_ReplayRenderPipeline. rewrite H.
    destruct (r_sm !! stage_moduleSerial (trp_vertex desc)); [| cbn; eauto].
    destruct (trp_fragment desc) as [f |].
    + destruct (r_sm !! stage_moduleSerial f); [| cbn; eauto].
      destruct (trp_layout desc); [cbn; eauto |].
      destruct (r_pl !! js_key (trp_layoutSerial desc)); cbn; eauto.
    + destruct (trp_layout desc); [cbn; eauto |].
      destruct (r_pl !! js_key (trp_layoutSerial desc)); cbn; eauto.
  - intros desc [H _]. unfold new_ReplayQueue. rewrite H. cbn. eauto.
  - intros label serial rp gi [H _]. unfold new_ReplayBindGroupLayout.
    cbn [tbgl_entries tbgl_deviceSerial]. rewrite H. cbn. eauto.
Qed.

Lemma unknown_device_builds_nothing_witness :
  let e := init_env sample_trace in
  raises_without_calls (new_ReplayBuffer ∅ sample_data sample_buffer_desc) e /\
  raises_without_calls (new_ReplayTexture ∅ sample_data (sample_texture_desc None)) e /\
  exists layout,
    new_ReplayBindGroupLayout ∅ (TraceImplicitBindGroupLayout None "1" None None) e
    = (Ok layout, e) /\
    rbgl_device layout = None /\ rbgl_webgpuObject layout = None.
Proof.
  intros e.
  destruct (unknown_device_builds_nothing ∅ e)
    as (Hbuffer & Htexture & _ & _ & _ & _ & _ & _ & _ & _ & Himplicit).
  split; [| split].
  - apply Hbuffer. repeat split.
  - apply Htexture. repeat split.
  - apply Himplicit. repeat split.
Defined.

(** X14.  The defaults of a texture view.  When a view is built, its
    texture is the wrapper registered under the recorded serial and the only
    call made is [createView] on that texture.  Fields the trace leaves out
    are filled in: base mip level and base array layer 0; the mip levels up
    to the last one of the texture; as array layer count, the layers of the
    texture from the base layer on when the recorded dimension is
    '2d-array', else 1; as dimension, the one derived from the texture, which
    for a 2-D texture with several layers is '2d-array'.  So a view recorded
    without a dimension over such a texture is a '2d-array' view that counts
    one layer. *)
Theorem texture_view_defaults :
  forall r_textures desc e v e',
    new_ReplayTextureView r_textures desc e = (Ok v, e') ->
    exists t,
      r_textures !! ttv_textureSerial desc = Some t /\
      rtv_texture v = t /\
      env_gpu e' = env_gpu e ++ [CreateView (rt_webgpuObject t) (rtv_webgpuObject v)] /\
      rtv_baseMipLevel v = default 0 (ttv_baseMipLevel desc) /\
      rtv_baseArrayLayer v = default 0 (ttv_baseArrayLayer desc) /\
      rtv_mipLevelCount v
      = default (rt_mipLevelCount t - rtv_baseMipLevel v) (ttv_mipLevelCount desc) /\
      rtv_arrayLayerCount v
      = default (if bool_decide (ttv_dimension desc = Some "2d-array"%string)
                 then ext_depthOrArrayLayers (rt_size t) - rtv_baseArrayLayer v
                 else 1) (ttv_arrayLayerCount desc) /\
      rtv_dimension v
      = match ttv_dimension desc with
        | Some d => Some d
        | None => texture_view_dimension t
        end.
Proof.
  intros r_textures desc e v e' H. unfold new_ReplayTextureView in H.
  destruct (r_textures !! ttv_textureSerial desc) as [t |] eqn:Ht.
  - exists t. split; [reflexivity |].
    destruct (ttv_dimension desc) as [d |], (ttv_mipLevelCount desc) as [m |],
      (ttv_arrayLayerCount desc) as [n |];
      try (destruct (String.eqb d "2d-array") eqn:Hd;
           [apply String.eqb_eq in Hd; subst d | apply String.eqb_neq in Hd]);
      cbn in H; injection H as <- <-; cbn;
      repeat split; try reflexivity;
      rewrite bool_decide_eq_false_2 by congruence; reflexivity.
  - exfalso.
    destruct (ttv_dimension desc) as [d |], (ttv_mipLevelCount desc) as [m |],
      (ttv_arrayLayerCount desc) as [n |];
      try (destruct (String.eqb d "2d-array")); cbn in H; discriminate.
Qed.

Lemma texture_view_defaults_witness :
  let r_textures : gmap string ReplayTexture := {[ "5"%string := sample_layered_texture ]} in
  let r := new_ReplayTextureView r_textures sample_view_desc (init_env sample_trace) in
  exists v,
    fst r = Ok v /\
    rtv_dimension v = Some "2d-array"%string /\ rtv_arrayLayerCount v = 1 /\
    rtv_mipLevelCount v = 3.
Proof.
  intros r_textures r.
  destruct r as [[v | err] e'] eqn:Hr; [| vm_compute in Hr; discriminate].
  exists v. split; [reflexivity |].
  destruct (texture_view_defaults r_textures sample_view_desc (init_env sample_trace) v e' Hr)
    as (t & Ht & _ & _ & Hbase & _ & Hmips & Hlayers & Hdim).
  vm_compute in Ht. injection Ht as <-.
  rewrite Hdim, Hlayers, Hmips, Hbase. repeat split; reflexivity.
Defined.

(** ** The helpers of the step list *)

Lemma arrayEqual_from_spec (count : nat) :
  forall i a b,
    arrayEqual_from count i a b = true <->
    forall j, (i <= j < i + count)%nat -> a !! j = b !! j.
Proof.
  induction count as [| n IH]; intros i a b; cbn [arrayEqual_from].
  - split; [intros _ j Hj; lia | reflexivity].
  - destruct (bool_decide (a !! i = b !! i)) eqn:Hi; cbn [negb].
    + apply bool_decide_eq_true in Hi. rewrite IH. split.
      * intros H j Hj. destruct (decide (j = i)) as [-> | Hne]; [exact Hi | apply H; lia].
      * intros H j Hj. apply H. lia.
    + apply bool_decide_eq_false in Hi. split; [discriminate |].
      intros H. exfalso. apply Hi, H. lia.
Qed.

(** X15.  [arrayEqual] decides equality of step identifiers: it answers
    true exactly when the two arrays have the same length and the same
    number at every index.  So the step highlighted as current is the one
    whose identifier is the current step, and no other. *)
Theorem arrayEqual_decides_equality :
  forall a b : list Z, arrayEqual a b = true <-> a = b.
Proof.
  intros a b. unfold arrayEqual.
  destruct (length a =? length b)%nat eqn:Hlen; cbn [negb].
  - apply Nat.eqb_eq in Hlen. rewrite arrayEqual_from_spec. split.
    + intros H. apply list_eq. intros j.
      destruct (decide (j < length a)%nat) as [Hj | Hj]; [apply H; lia |].
      rewrite !lookup_ge_None_2 by lia. reflexivity.
    + intros -> j _. reflexivity.
  - apply Nat.eqb_neq in Hlen. split; [discriminate | intros ->; contradiction].
Qed.

Lemma interleave_from_spec {A} (count : nat) :
  forall i (array : list A) elem newArray,
    interleave_from count i array elem newArray
    = newArray ++ concat (map (fun x => [elem; x]) (take count (drop i array))).
Proof.
  induction count as [| n IH]; intros i array elem newArray; cbn [interleave_from].
  - rewrite take_0. cbn. rewrite app_nil_r. reflexivity.
  - destruct (array !! i) as [x |] eqn:Hi.
    + rewrite IH, (drop_S _ _ _ Hi). cbn [take map concat]. rewrite <- app_assoc.
      reflexivity.
    + rewrite drop_ge by (apply lookup_ge_None; exact Hi). rewrite take_nil. cbn.
      rewrite app_nil_r. reflexivity.
Qed.

Lemma interleave_cons {A} (x : A) (rest : list A) (elem : A) :
  interleave (x :: rest) elem = x :: concat (map (fun y => [elem; y]) rest).
Proof.
  unfold interleave. cbn [lookup list_lookup length]. rewrite interleave_from_spec.
  replace (S (length rest) - 1)%nat with (length rest) by lia.
  cbn [drop]. rewrite drop_0, firstn_all. reflexivity.
Qed.

Lemma lookup_separated {A} (rest : list A) (elem : A) :
  forall i,
    concat (map (fun y => [elem; y]) rest) !! (2 * i + 1)%nat = rest !! i /\
    (is_Some (rest !! i) ->
     concat (map (fun y => [elem; y]) rest) !! (2 * i)%nat = Some elem).
Proof.
  induction rest as [| y rest IH]; intros i.
  - cbn. split; [reflexivity | intros [x Hx]; discriminate].
  - cbn [map concat app]. destruct i as [| i].
    + cbn. eauto.
    + replace (2 * S i + 1)%nat with (S (S (2 * i + 1))) by lia.
      replace (2 * S i)%nat with (S (S (2 * i))) by lia.
      cbn [lookup list_lookup]. apply IH.
Qed.

(** X16.  [interleave] puts the separator between consecutive elements and
    nowhere else: the result of interleaving an array of [n] elements has
    [2n - 1] entries (none for the empty array), entry [2i] is element [i]
    of the array, and every entry at an odd index is the separator.  So the
    rendered argument list neither starts nor ends with a separator and
    loses no argument. *)
Theorem interleave_separates :
  forall {A} (array : list A) (elem : A),
    length (interleave array elem) = (2 * length array - 1)%nat /\
    (forall i, interleave array elem !! (2 * i)%nat = array !! i) /\
    (forall i, (2 * i + 1 < length (interleave array elem))%nat ->
               interleave array elem !! (2 * i + 1)%nat = Some elem).
Proof.
  intros A array elem. destruct array as [| x rest].
  - split; [reflexivity | split].
    + intros i. rewrite !lookup_nil. reflexivity.
    + intros i Hi. cbn in Hi. lia.
  - rewrite interleave_cons.
    assert (Hlen : length (concat (map (fun y => [elem; y]) rest)) = (2 * length rest)%nat).
    { induction rest as [| y rest IH]; [reflexivity |]. cbn [map concat app length].
      rewrite IH. lia. }
    repeat split.
    + cbn [length]. rewrite Hlen. lia.
    + intros [| i]; [reflexivity |].
      replace (2 * S i)%nat with (S (2 * i + 1)) by lia. cbn [lookup list_lookup].
      apply lookup_separated.
    + intros i Hi. cbn [length] in Hi. rewrite Hlen in Hi.
      replace (2 * i + 1)%nat with (S (2 * i)) by lia. cbn [lookup list_lookup].
      apply lookup_separated. apply lookup_lt_is_Some. lia.
Qed.

Lemma interleave_separates_witness :
  (2 * 0 + 1 < length (interleave ["a"; "b"; "c"] ", "))%nat /\
  interleave ["a"; "b"; "c"] ", " !! (2 * 0 + 1)%nat = Some ", "%string.
Proof.
  split; [vm_compute; lia |].
  apply (proj2 (proj2 (interleave_separates ["a"; "b"; "c"]%string ", "%string)) 0%nat).
  vm_compute. lia.
Defined.

(** ** Replaying to a position *)

Lemma bind_ret_r (m : M unit) (e : Env) : (m ;; ret tt) e = m e.
Proof. unfold bind. destruct (m e) as [[[] | err] e1]; reflexivity. Qed.

Lemma for_range_ext (body1 body2 : nat -> M unit) (n : nat) :
  forall start e,
    (forall j e0, (start <= j < start + n)%nat -> body1 j e0 = body2 j e0) ->
    for_range n start body1 e = for_range n start body2 e.
Proof.
  induction n as [| n IH]; intros start e Hb; [reflexivity |].
  rewrite !for_range_S. apply bind_ext; [apply Hb; lia |].
  intros [] e1. apply IH. intros j e0 Hj. apply Hb. lia.
Qed.

Lemma for_range_prefix_target {A} (l : list A) (what : string) (f : bool -> A -> M unit)
    (i : nat) (x : A) :
  l !! i = Some x ->
  forall n start e,
    (start + n)%nat = i ->
    for_range (S n) start
      (fun j => c <- deref what (l !! j) ;; f (bool_decide (j = i)) c) e
    = (for_of (take n (drop start l)) (f false) ;; f true x) e.
Proof.
  intros Hx. induction n as [| n IH]; intros start e Hi.
  - rewrite Nat.add_0_r in Hi. subst start. rewrite for_range_S. cbn [for_range].
    cbn beta. rewrite bind_ret_r, Hx. cbn [deref]. rewrite take_0. cbn [for_of].
    rewrite !bind_ret. rewrite bool_decide_eq_true_2 by reflexivity. reflexivity.
  - rewrite for_range_S.
    destruct (lookup_lt_is_Some_2 l start) as [c Hc].
    { apply lookup_lt_Some in Hx. lia. }
    cbn beta. rewrite Hc. cbn [deref]. rewrite bind_assoc, bind_ret.
    rewrite bool_decide_eq_false_2 by lia.
    rewrite (drop_S _ _ _ Hc). cbn [take for_of]. rewrite (bind_assoc (f false c)).
    apply bind_ext; [reflexivity |]. intros [] e1. apply IH. lia.
Qed.

(** X17.  Replaying to a top-level position executes what comes before it.
    For a path whose first component [i] is the position of a command,
    [replayTo] resets the state to the empty state, executes the commands
    before position [i] in order and in full, exactly as [execute] does, then
    handles the target: a submit is replayed up to the rest of the path, any
    other command is executed; the result is the state left at that point.
    No command after position [i] is touched. *)
Theorem replayTo_executes_the_commands_before_the_target :
  forall replay i rest target e,
    commands replay !! i = Some target ->
    replayTo replay (Z.of_nat i :: rest) e
    = (for_of (take i (commands replay)) (execute replay) ;;
       match target with
       | ReplayCommandSubmit queue commandBuffers =>
           q <- deref "replaySubmitTo" queue ;;
           replaySubmitTo q rest commandBuffers
       | _ => execute replay target
       end ;;
       get_state) (with_state StateEmpty e).
Proof.
  intros replay i rest target e Htarget. unfold replayTo, shift. cbn [head tail].
  unfold bind at 1. cbn [set_state]. fold (with_state StateEmpty e).
  replace (iterations_through 0 (Some (Z.of_nat i))) with (S i)
    by (unfold iterations_through; lia).
  set (f := fun (b : bool) (c : ReplayQueueCommand) =>
              match c with
              | ReplayCommandSubmit queue commandBuffers =>
                  if b then
                    q <- deref "replaySubmitTo" queue ;;
                    replaySubmitTo q rest commandBuffers
                  else
                    q <- deref "executeSubmit" queue ;;
                    executeSubmit q commandBuffers
              | _ => execute replay c
              end).
  rewrite <- bind_assoc. apply bind_ext; [| reflexivity].
  rewrite (for_range_ext _
             (fun j => c <- deref "name" (commands replay !! j) ;; f (bool_decide (j = i)) c)).
  - rewrite (for_range_prefix_target _ _ f i target Htarget i O) by lia.
    rewrite drop_0. apply bind_ext.
    + clear. generalize (take i (commands replay)). intros l.
      generalize (with_state StateEmpty e). induction l as [| c l IH]; intros e0.
      * reflexivity.
      * cbn [for_of]. apply bind_ext; [destruct c; reflexivity | intros [] e1; apply IH].
    + intros [] e1. destruct target; reflexivity.
  - intros j e0 _. apply bind_ext; [reflexivity |]. intros c e1. unfold f.
    destruct c; try reflexivity.
    rewrite (bool_decide_ext (Some (Z.of_nat j) = Some (Z.of_nat i)) (j = i)); [reflexivity |].
    split; [intros [= H]; lia | intros ->; reflexivity].
Qed.

Lemma replayTo_executes_the_commands_before_the_target_witness :
  let e := init_env sample_trace in
  replayTo sample_present_replay [0] e
  = (for_of [] (execute sample_present_replay) ;;
     execute sample_present_replay (ReplayCommandPresent (Some sample_texture) "") ;;
     get_state) (with_state StateEmpty e).
Proof.
  intros e.
  exact (replayTo_executes_the_commands_before_the_target sample_present_replay 0 []
           (ReplayCommandPresent (Some sample_texture) "") e eq_refl).
Defined.

(** X18.  A path without a target replays nothing.  With an empty path, or
    a path whose first component is negative, [replayTo] makes no call,
    raises nothing, and returns the empty state, whatever the command list
    holds. *)
Theorem replayTo_without_a_target :
  forall replay path e,
    match path with
    | [] => True
    | z :: _ => z < 0
    end ->
    replayTo replay path e = (Ok StateEmpty, with_state StateEmpty e).
Proof.
  intros replay path e Hpath. unfold replayTo, shift.
  replace (iterations_through 0 (head path)) with O.
  - reflexivity.
  - destruct path as [| z rest]; [reflexivity |]. cbn [head].
    unfold iterations_through. lia.
Qed.

Lemma replayTo_without_a_target_witness :
  replayTo sample_pass_replay [-1; 0; 0] (init_env sample_trace)
  = (Ok StateEmpty, with_state StateEmpty (init_env sample_trace)).
Proof.
  apply (replayTo_without_a_target sample_pass_replay [-1; 0; 0] (init_env sample_trace)).
  cbn. lia.
Defined.

(** ** Encoding a command buffer *)

Lemma for_range_take {A} (l : list A) (what : string) (g : A -> M unit) (n : nat) :
  forall start e,
    (start + n <= length l)%nat ->
    for_range n start (fun j => c <- deref what (l !! j) ;; g c) e
    = for_of (take n (drop start l)) g e.
Proof.
  induction n as [| n IH]; intros start e Hlen.
  - rewrite take_0. reflexivity.
  - rewrite for_range_S. cbn beta.
    destruct (lookup_lt_is_Some_2 l start) as [c Hc]; [lia |].
    rewrite Hc. cbn [deref]. rewrite bind_assoc, bind_ret.
    rewrite (drop_S _ _ _ Hc). cbn [take for_of].
    apply bind_ext; [reflexivity |]. intros [] e1. apply IH. lia.
Qed.

(** X19.  Encoding a command buffer goes through its commands in order.
    [encodeIn] encodes every command of the buffer, first to last, each in
    full (a render pass with all its children); an empty buffer encodes
    nothing.  [encodeUpTo] with a first path component [k] that is the
    position of a command encodes the commands before [k] in full and then
    the target: up to the rest of the path when it is a render pass. *)
Theorem command_buffer_encoding_order :
  forall this encoder e,
    ReplayCommandBuffer_encodeIn this encoder e
    = for_of (rcb_commands this) (encode_buffer_command encoder [] false) e /\
    forall k rest target,
      rcb_commands this !! k = Some target ->
      ReplayCommandBuffer_encodeUpTo this (Z.of_nat k :: rest) encoder false e
      = (for_of (take k (rcb_commands this)) (encode_buffer_command encoder rest false) ;;
         encode_buffer_command encoder rest true target) e.
Proof.
  intros this encoder e. split.
  - unfold ReplayCommandBuffer_encodeIn, ReplayCommandBuffer_encodeUpTo, shift.
    cbn [head tail].
    replace (iterations_through 0 (Some (Z.of_nat (length (rcb_commands this)) - 1)))
      with (length (rcb_commands this)) by (unfold iterations_through; lia).
    rewrite (for_range_ext _
               (fun j => c <- deref "name" (rcb_commands this !! j) ;;
                         encode_buffer_command encoder [] false c)).
    + rewrite for_range_take by lia. rewrite drop_0, firstn_all. reflexivity.
    + intros j e0 _. rewrite andb_false_r. reflexivity.
  - intros k rest target Htarget.
    unfold ReplayCommandBuffer_encodeUpTo, shift. cbn [head tail].
    replace (iterations_through 0 (Some (Z.of_nat k))) with (S k)
      by (unfold iterations_through; lia).
    rewrite (for_range_ext _
               (fun j => c <- deref "name" (rcb_commands this !! j) ;;
                         encode_buffer_command encoder rest (bool_decide (j = k)) c)).
    + rewrite (for_range_prefix_target _ _ (encode_buffer_command encoder rest) k target
                 Htarget k O) by lia.
      rewrite drop_0. reflexivity.
    + intros j e0 _. rewrite andb_true_r.
      rewrite (bool_decide_ext (Some (Z.of_nat j) = Some (Z.of_nat k)) (j = k));
        [reflexivity |].
      split; [intros [= H]; lia | intros ->; reflexivity].
Qed.

Lemma command_buffer_encoding_order_witness :
  let e := init_env sample_trace in
  let cb := {| rcb_label := ""; rcb_commands := [CmdClone TracePopDebugGroup;
                                                 CmdRenderPass sample_pass] |} in
  ReplayCommandBuffer_encodeUpTo cb [1; 1] (HObject 0) false e
  = (for_of [CmdClone TracePopDebugGroup] (encode_buffer_command (HObject 0) [1] false) ;;
     encode_buffer_command (HObject 0) [1] true (CmdRenderPass sample_pass)) e.
Proof.
  intros e cb.
  exact (proj2 (command_buffer_encoding_order cb (HObject 0) e) 1%nat [1]
           (CmdRenderPass sample_pass) eq_refl).
Defined.

(** ** Where the registered command buffers come from *)

Lemma consumeCommands_pass_ext (r1 r2 : Replay) :
  bindGroups r1 = bindGroups r2 -> buffers r1 = buffers r2 ->
  renderPipelines r1 = renderPipelines r2 ->
  forall stream commands e,
    ReplayRenderPass_consumeCommands r1 stream commands e
    = ReplayRenderPass_consumeCommands r2 stream commands e.
Proof.
  intros Hbg Hb Hrp stream.
  induction stream as [| c rest IH]; intros commands e; [reflexivity |].
  assert (Hc : forall e0, resolve_render_pass_command r1 c e0
                          = resolve_render_pass_command r2 c e0).
  { intros e0. destruct c; cbn [resolve_render_pass_command];
      rewrite ?Hbg, ?Hb, ?Hrp; reflexivity. }
  destruct c; cbn [ReplayRenderPass_consumeCommands]; try reflexivity;
    (apply bind_ext; [apply Hc | intros c' e1; apply IH]).
Qed.

Lemma resolve_beginRenderPass_ext (r1 r2 : Replay) (args : TraceBeginRenderPassArgs)
    (e : Env) :
  textureViews r1 = textureViews r2 -> querySets r1 = querySets r2 ->
  resolve_beginRenderPass r1 args e = resolve_beginRenderPass r2 args e.
Proof.
  intros Htv Hqs. unfold resolve_beginRenderPass. rewrite Htv, Hqs. reflexivity.
Qed.

Lemma consumeCommands_buffer_ext (r1 r2 : Replay) :
  textureViews r1 = textureViews r2 -> querySets r1 = querySets r2 ->
  bindGroups r1 = bindGroups r2 -> buffers r1 = buffers r2 ->
  renderPipelines r1 = renderPipelines r2 -> textures r1 = textures r2 ->
  forall fuel stream commands e,
    ReplayCommandBuffer_consumeCommands fuel r1 stream commands e
    = ReplayCommandBuffer_consumeCommands fuel r2 stream commands e.
Proof.
  intros Htv Hqs Hbg Hb Hrp Ht fuel.
  induction fuel as [| fuel IH]; intros stream commands e; [reflexivity |].
  destruct stream as [| c rest]; [reflexivity |].
  destruct c; cbn [ReplayCommandBuffer_consumeCommands]; rewrite ?Hb, ?Ht;
    try apply IH;
    try (apply bind_ext; [reflexivity | intros ? ?; apply IH]);
    try (apply bind_ext; [reflexivity | intros ? ?];
         apply bind_ext; [reflexivity | intros ? ?; apply IH]).
  apply bind_ext; [apply resolve_beginRenderPass_ext; assumption | intros args' e1].
  apply bind_ext; [apply consumeCommands_pass_ext; assumption | intros rp e2; apply IH].
Qed.

(** X20.  Every registered command buffer is the resolution of a recorded
    one.  After a successful load, a command buffer registered under a
    serial was built from a descriptor the trace holds under that serial,
    and it is what resolving that descriptor against the final registries
    gives, in any environment. *)
Theorem registered_command_buffers_are_resolved_descriptors :
  forall requestUnwrappedAdapter e replay e',
    load requestUnwrappedAdapter e = (Ok replay, e') ->
    forall serial cb,
      commandBuffers replay !! serial = Some cb ->
      exists descs desc,
        to_commandBuffers (trace_objects (env_trace e)) = Some descs /\
        ((serial, desc) ∈ descs) /\
        forall e0, fst (new_ReplayCommandBuffer replay desc e0) = Ok cb.
Proof.
  intros rq e replay e' H serial cb Hcb.
  apply load_inv in H as (early & e1 & _ & Hlate).
  unfold load_from_implicit_layouts in Hlate.
  do 7 bind_inv Hlate. bind_inv Hlate. bind_inv Hlate.
  injection Hlate as <- _. cbn [commandBuffers] in Hcb.
  apply recreateObjects_ok in Hstep6 as (descs & Hdescs & Hloop).
  eapply (recreate_loop_spec _
            (fun (_ : string) desc cb =>
               exists env env', new_ReplayCommandBuffer _ desc env = (Ok cb, env')))
    in Hloop; [| intros s d env o env' Ho; eauto | exact Hcb].
  destruct Hloop as [Hempty | (desc & Hin & env & env' & Hnew)];
    [rewrite lookup_empty in Hempty; discriminate |].
  exists descs, desc. split; [exact Hdescs |]. split; [exact Hin |].
  intros env0.
  match goal with
  | |- fst (new_ReplayCommandBuffer ?r desc env0) = _ =>
      destruct (console_function_new_ReplayCommandBuffer r desc) as (res & msgs & Hres);
      assert (Hext : new_ReplayCommandBuffer r desc env = (Ok cb, env'))
  end.
  { rewrite <- Hnew. unfold new_ReplayCommandBuffer. apply bind_ext; [| reflexivity].
    apply consumeCommands_buffer_ext; reflexivity. }
  rewrite Hres in Hext. injection Hext as -> _. rewrite Hres. reflexivity.
Qed.

Lemma registered_command_buffers_are_resolved_descriptors_witness :
  exists replay cb descs desc,
    fst (load (fun _ => None) (init_env sample_trace_unrecognized)) = Ok replay /\
    commandBuffers replay !! "1"%string = Some cb /\
    to_commandBuffers (trace_objects sample_trace_unrecognized) = Some descs /\
    (("1"%string, desc) ∈ descs) /\
    forall e0, fst (new_ReplayCommandBuffer replay desc e0) = Ok cb.
Proof.
  destruct (load (fun _ => None) (init_env sample_trace_unrecognized))
    as [[replay | err] e'] eqn:Hload; [| vm_compute in Hload; discriminate].
  destruct (commandBuffers replay !! "1"%string) as [cb |] eqn:Hcb.
  - destruct (registered_command_buffers_are_resolved_descriptors (fun _ => None)
                (init_env sample_trace_unrecognized) replay e' Hload "1"%string cb Hcb)
      as (descs & desc & Hdescs & Hin & Hres).
    exists replay, cb, descs, desc. auto.
  - exfalso. vm_compute in Hload. injection Hload as <- _. vm_compute in Hcb. discriminate.
Defined.

(** ** The step list and the paths of the replay driver *)

Lemma command_nested_ind (P : ReplayCommandBufferCommand -> Prop) :
  (forall c, (forall rp, c <> CmdRenderPass rp) -> P c) ->
  (forall label cs, Forall P cs -> P (CmdRenderPass (MkReplayRenderPass label cs))) ->
  forall c, P c.
Proof.
  intros Hleaf Hpass. fix IH 1. intros c.
  destruct c as [t | | | | rp | | | |]; try (apply Hleaf; discriminate).
  destruct rp as [label cs]. apply Hpass.
  revert cs. fix IHcs 1. intros [| c cs]; constructor; [apply IH | apply IHcs].
Qed.

Lemma and_then_ok {A B} (r : Res A) (k : A -> Res B) (b : B) :
  and_then r k = Ok b -> exists a, r = Ok a /\ k a = Ok b.
Proof. destruct r as [a | err]; [eauto | discriminate]. Qed.

Lemma Command_of_buffer_pass (label : string) (cs : list ReplayCommandBufferCommand)
    (commandId : list Z) :
  Command_of_buffer (CmdRenderPass (MkReplayRenderPass label cs)) commandId
  = and_then (Commands_of_buffer_from O cs commandId)
      (fun children => Ok ((commandId, "renderPass"%string) :: children)).
Proof.
  cbn [Command_of_buffer]. f_equal. generalize O.
  induction cs as [| c cs IH]; intros ndx; [reflexivity |].
  cbn [Commands_of_buffer_from]. rewrite <- IH. reflexivity.
Qed.

Lemma Command_of_buffer_leaf (c : ReplayCommandBufferCommand) (commandId : list Z)
    (steps : list Step) :
  (forall rp, c <> CmdRenderPass rp) ->
  Command_of_buffer c commandId = Ok steps ->
  steps = [(commandId, command_name c)].
Proof.
  intros Hleaf H.
  destruct c as [t | | | | rp | | | |]; try (exfalso; eapply Hleaf; reflexivity);
    cbn [Command_of_buffer] in H;
    repeat match type of H with
           | (if ?b then _ else _) = _ => destruct b; try discriminate
           end;
    injection H as <-; reflexivity.
Qed.

(** The rows of a list of commands: each comes from one command of the
    list, and the rows of every command of the list are there. *)
Lemma Commands_of_buffer_from_spec (cs : list ReplayCommandBufferCommand)
    (commandId : list Z) :
  forall ndx steps,
    Commands_of_buffer_from ndx cs commandId = Ok steps ->
    (forall s, s ∈ steps ->
       exists n c steps',
         cs !! n = Some c /\
         Command_of_buffer c (commandId ++ [Z.of_nat (ndx + n)]) = Ok steps' /\
         (s ∈ steps')) /\
    (forall n c,
       cs !! n = Some c ->
       exists steps',
         Command_of_buffer c (commandId ++ [Z.of_nat (ndx + n)]) = Ok steps' /\
         forall s, s ∈ steps' -> s ∈ steps).
Proof.
  induction cs as [| c cs IH]; intros ndx steps H.
  - cbn in H. injection H as <-. split.
    + intros s Hs. apply elem_of_nil in Hs. contradiction.
    + intros n c Hc. discriminate.
  - cbn [Commands_of_buffer_from] in H.
    apply and_then_ok in H as (now & Hnow & H).
    apply and_then_ok in H as (later & Hlater & H). injection H as <-.
    destruct (IH _ _ Hlater) as (Hfrom & Hall). split.
    + intros s Hs. apply elem_of_app in Hs as [Hs | Hs].
      * exists O, c, now. rewrite Nat.add_0_r. auto.
      * destruct (Hfrom s Hs) as (n & c' & steps' & Hc' & Hsteps' & Hin).
        exists (S n), c', steps'. replace (ndx + S n)%nat with (S ndx + n)%nat by lia. auto.
    + intros [| n] c' Hc'; cbn in Hc'.
      * injection Hc' as <-. exists now. rewrite Nat.add_0_r. split; [exact Hnow |].
        intros s Hs. apply elem_of_app. auto.
      * destruct (Hall n c' Hc') as (steps' & Hsteps' & Hsub).
        exists steps'. replace (ndx + S n)%nat with (S ndx + n)%nat by lia.
        split; [exact Hsteps' |]. intros s Hs. apply elem_of_app. auto.
Qed.

(** Every row of a command carries an identifier that extends the
    identifier of the command. *)
Lemma Command_of_buffer_prefix (c : ReplayCommandBufferCommand) :
  forall commandId steps,
    Command_of_buffer c commandId = Ok steps ->
    forall p name, ((p, name) ∈ steps) -> exists t, p = commandId ++ t.
Proof.
  induction c as [c Hleaf | label cs IH] using command_nested_ind;
    intros commandId steps H p name Hin.
  - apply Command_of_buffer_leaf in H; [| exact Hleaf]. subst steps.
    apply list_elem_of_singleton in Hin. injection Hin as -> _.
    exists []. rewrite app_nil_r. reflexivity.
  - rewrite Command_of_buffer_pass in H. apply and_then_ok in H as (children & Hch & H).
    injection H as <-. apply elem_of_cons in Hin as [[= -> ->] | Hin].
    + exists []. rewrite app_nil_r. reflexivity.
    + destruct (proj1 (Commands_of_buffer_from_spec _ _ _ _ Hch) _ Hin)
        as (n & c' & steps' & Hc' & Hsteps' & Hin').
      rewrite Forall_forall in IH.
      destruct (IH c' (list_elem_of_lookup_2 _ _ _ Hc') _ _ Hsteps' _ _ Hin') as (t & ->).
      exists (Z.of_nat (0 + n) :: t). rewrite <- app_assoc. reflexivity.
Qed.

Lemma Command_of_buffer_head (c : ReplayCommandBufferCommand) (commandId : list Z)
    (steps : list Step) :
  Command_of_buffer c commandId = Ok steps ->
  ((commandId, command_name c) ∈ steps) /\
  forall name, ((commandId, name) ∈ steps) -> name = command_name c.
Proof.
  intros H. destruct c as [t | | | | [label cs] | | | |];
    try (apply Command_of_buffer_leaf in H; [| discriminate]; subst steps;
         split; [apply list_elem_of_singleton; reflexivity |];
         intros name Hin; apply list_elem_of_singleton in Hin; congruence).
  rewrite Command_of_buffer_pass in H. apply and_then_ok in H as (children & Hch & H).
  injection H as <-. split; [left |].
  intros name Hin. apply elem_of_cons in Hin as [[= ->] | Hin]; [reflexivity |].
  exfalso.
  destruct (proj1 (Commands_of_buffer_from_spec _ _ _ _ Hch) _ Hin)
    as (n & c' & steps' & Hc' & Hsteps' & Hin').
  destruct (Command_of_buffer_prefix _ _ _ Hsteps' _ _ Hin') as (t & Ht).
  apply (f_equal length) in Ht. rewrite !length_app in Ht. cbn in Ht. lia.
Qed.

Lemma Command_of_buffer_children (c : ReplayCommandBufferCommand) (commandId : list Z)
    (steps : list Step) (l : Z) (t : list Z) (name : string) :
  Command_of_buffer c commandId = Ok steps ->
  ((commandId ++ l :: t, name) ∈ steps) ->
  exists label cs n c' steps',
    c = CmdRenderPass (MkReplayRenderPass label cs) /\
    l = Z.of_nat n /\ cs !! n = Some c' /\
    Command_of_buffer c' (commandId ++ [l]) = Ok steps' /\
    ((commandId ++ l :: t, name) ∈ steps').
Proof.
  intros H Hin.
  assert (Hne : commandId ++ l :: t <> commandId).
  { intros Heq. apply (f_equal length) in Heq. rewrite length_app in Heq. cbn in Heq. lia. }
  destruct c as [tc | | | | [label cs] | | | |];
    try (apply Command_of_buffer_leaf in H; [| discriminate]; subst steps;
         apply list_elem_of_singleton in Hin; injection Hin as Hp _; contradiction).
  rewrite Command_of_buffer_pass in H. apply and_then_ok in H as (children & Hch & H).
  injection H as <-. apply elem_of_cons in Hin as [[= Hp _] | Hin]; [contradiction |].
  destruct (proj1 (Commands_of_buffer_from_spec _ _ _ _ Hch) _ Hin)
    as (n & c' & steps' & Hc' & Hsteps' & Hin').
  destruct (Command_of_buffer_prefix _ _ _ Hsteps' _ _ Hin') as (t' & Ht).
  rewrite <- app_assoc in Ht. apply app_inv_head in Ht. cbn in Ht. injection Ht as -> ->.
  exists label, cs, n, c', steps'. auto.
Qed.

Lemma QueueSubmit_buffers_from_spec (cbs : list (option ReplayCommandBuffer))
    (commandId : list Z) :
  forall ndx steps,
    QueueSubmit_buffers_from ndx cbs commandId = Ok steps ->
    (forall s, s ∈ steps ->
       exists n cb steps',
         cbs !! n = Some (Some cb) /\
         Commands_of_buffer_from O (rcb_commands cb) (commandId ++ [Z.of_nat (ndx + n)])
         = Ok steps' /\
         (s ∈ steps')) /\
    (forall n cb,
       cbs !! n = Some (Some cb) ->
       exists steps',
         Commands_of_buffer_from O (rcb_commands cb) (commandId ++ [Z.of_nat (ndx + n)])
         = Ok steps' /\
         forall s, s ∈ steps' -> s ∈ steps).
Proof.
  induction cbs as [| cb cbs IH]; intros ndx steps H.
  - cbn in H. injection H as <-. split.
    + intros s Hs. apply elem_of_nil in Hs. contradiction.
    + intros n c Hc. discriminate.
  - cbn [QueueSubmit_buffers_from] in H.
    apply and_then_ok in H as (now & Hnow & H).
    apply and_then_ok in H as (later & Hlater & H). injection H as <-.
    destruct cb as [cb |]; [| discriminate].
    destruct (IH _ _ Hlater) as (Hfrom & Hall). split.
    + intros s Hs. apply elem_of_app in Hs as [Hs | Hs].
      * exists O, cb, now. rewrite Nat.add_0_r. auto.
      * destruct (Hfrom s Hs) as (n & c' & steps' & Hc' & Hsteps' & Hin).
        exists (S n), c', steps'. replace (ndx + S n)%nat with (S ndx + n)%nat by lia. auto.
    + intros [| n] c' Hc'; cbn in Hc'.
      * injection Hc' as <-. exists now. rewrite Nat.add_0_r. split; [exact Hnow |].
        intros s Hs. apply elem_of_app. auto.
      * destruct (Hall n c' Hc') as (steps' & Hsteps' & Hsub).
        exists steps'. replace (ndx + S n)%nat with (S ndx + n)%nat by lia.
        split; [exact Hsteps' |]. intros s Hs. apply elem_of_app. auto.
Qed.

Lemma Commands_of_queue_from_spec (cs : list ReplayQueueCommand) (commandId : list Z) :
  forall ndx steps,
    Commands_of_queue_from ndx cs commandId = Ok steps ->
    (forall s, s ∈ steps ->
       exists n c steps',
         cs !! n = Some c /\
         Command_of_queue c (commandId ++ [Z.of_nat (ndx + n)]) = Ok steps' /\
         (s ∈ steps')) /\
    (forall n c,
       cs !! n = Some c ->
       exists steps',
         Command_of_queue c (commandId ++ [Z.of_nat (ndx + n)]) = Ok steps' /\
         forall s, s ∈ steps' -> s ∈ steps).
Proof.
  induction cs as [| c cs IH]; intros ndx steps H.
  - cbn in H. injection H as <-. split.
    + intros s Hs. apply elem_of_nil in Hs. contradiction.
    + intros n c Hc. discriminate.
  - cbn [Commands_of_queue_from] in H.
    apply and_then_ok in H as (now & Hnow & H).
    apply and_then_ok in H as (later & Hlater & H). injection H as <-.
    destruct (IH _ _ Hlater) as (Hfrom & Hall). split.
    + intros s Hs. apply elem_of_app in Hs as [Hs | Hs].
      * exists O, c, now. rewrite Nat.add_0_r. auto.
      * destruct (Hfrom s Hs) as (n & c' & steps' & Hc' & Hsteps' & Hin).
        exists (S n), c', steps'. replace (ndx + S n)%nat with (S ndx + n)%nat by lia. auto.
    + intros [| n] c' Hc'; cbn in Hc'.
      * injection Hc' as <-. exists now. rewrite Nat.add_0_r. split; [exact Hnow |].
        intros s Hs. apply elem_of_app. auto.
      * destruct (Hall n c' Hc') as (steps' & Hsteps' & Hsub).
        exists steps'. replace (ndx + S n)%nat with (S ndx + n)%nat by lia.
        split; [exact Hsteps' |]. intros s Hs. apply elem_of_app. auto.
Qed.

Lemma Command_of_queue_generic (c : ReplayQueueCommand) (commandId : list Z)
    (steps : list Step) :
  (forall queue commandBuffers, c <> ReplayCommandSubmit queue commandBuffers) ->
  Command_of_queue c commandId = Ok steps ->
  steps = [(commandId, queue_command_name c)].
Proof.
  intros Hc H. destruct c; try (cbn in H; injection H as <-; reflexivity).
  exfalso. eapply Hc. reflexivity.
Qed.

(** ** Where [replayTo] stops *)

Lemma replayTo_prefix_target (replay : Replay) (i : nat) (rest : list Z)
    (target : ReplayQueueCommand) (e : Env) :
  commands replay !! i = Some target ->
  replayTo replay (Z.of_nat i :: rest) e
  = (for_of (take i (commands replay)) (execute replay) ;;
     replayTo_target replay rest target ;;
     get_state) (with_state StateEmpty e).
Proof.
  intros Htarget. unfold replayTo, shift. cbn [head tail].
  unfold bind at 1. cbn [set_state]. fold (with_state StateEmpty e).
  replace (iterations_through 0 (Some (Z.of_nat i))) with (S i)
    by (unfold iterations_through; lia).
  set (f := fun (b : bool) (c : ReplayQueueCommand) =>
              match c with
              | ReplayCommandSubmit queue commandBuffers =>
                  if b then
                    q <- deref "replaySubmitTo" queue ;;
                    replaySubmitTo q rest commandBuffers
                  else
                    q <- deref "executeSubmit" queue ;;
                    executeSubmit q commandBuffers
              | _ => execute replay c
              end).
  rewrite <- bind_assoc. apply bind_ext; [| reflexivity].
  rewrite (for_range_ext _
             (fun j => c <- deref "name" (commands replay !! j) ;; f (bool_decide (j = i)) c)).
  - rewrite (for_range_prefix_target _ _ f i target Htarget i O) by lia.
    rewrite drop_0. apply bind_ext.
    + clear. generalize (take i (commands replay)). intros l.
      generalize (with_state StateEmpty e). induction l as [| c l IH]; intros e0.
      * reflexivity.
      * cbn [for_of]. apply bind_ext; [destruct c; reflexivity | intros [] e1; apply IH].
    + intros [] e1. destruct target; reflexivity.
  - intros j e0 _. apply bind_ext; [reflexivity |]. intros c e1. unfold f.
    destruct c; try reflexivity.
    rewrite (bool_decide_ext (Some (Z.of_nat j) = Some (Z.of_nat i)) (j = i)); [reflexivity |].
    split; [intros [= H]; lia | intros ->; reflexivity].
Qed.

Lemma replaySubmitTo_around_ext (this : ReplayQueue)
    (commandBuffers : list (option ReplayCommandBuffer)) (j : nat)
    (inside1 inside2 : Handle -> M unit) (e : Env) :
  (forall encoder e0, inside1 encoder e0 = inside2 encoder e0) ->
  replaySubmitTo_around this commandBuffers j inside1 e
  = replaySubmitTo_around this commandBuffers j inside2 e.
Proof.
  intros Hext. unfold replaySubmitTo_around.
  apply bind_ext; [reflexivity | intros encoder e1].
  apply bind_ext; [reflexivity | intros [] e2].
  apply bind_ext; [apply Hext | reflexivity].
Qed.

Lemma replaySubmitTo_stops_in (this : ReplayQueue) (j : nat) (rest : list Z)
    (commandBuffers : list (option ReplayCommandBuffer)) (cb : ReplayCommandBuffer) (e : Env) :
  commandBuffers !! j = Some (Some cb) ->
  replaySubmitTo this (Z.of_nat j :: rest) commandBuffers e
  = replaySubmitTo_around this commandBuffers j
      (fun encoder => ReplayCommandBuffer_encodeUpTo cb rest encoder false) e.
Proof.
  intros Hcb.
  rewrite replaySubmitTo_encodes_up_to_two_before
    by (apply lookup_lt_Some in Hcb; lia).
  unfold replaySubmitTo_around. rewrite Hcb. cbn [mjoin option_join deref].
  apply bind_ext; [reflexivity | intros encoder e1].
  apply bind_ext; [reflexivity | intros [] e2].
  rewrite bind_ret. reflexivity.
Qed.

Lemma encodeUpTo_prefix_target (this : ReplayCommandBuffer) (k : nat) (rest : list Z)
    (target : ReplayCommandBufferCommand) (encoder : Handle) (e : Env) :
  rcb_commands this !! k = Some target ->
  ReplayCommandBuffer_encodeUpTo this (Z.of_nat k :: rest) encoder false e
  = (for_of (take k (rcb_commands this)) (encode_buffer_command encoder rest false) ;;
     encode_buffer_command encoder rest true target) e.
Proof.
  intros Htarget.
  unfold ReplayCommandBuffer_encodeUpTo, shift. cbn [head tail].
  replace (iterations_through 0 (Some (Z.of_nat k))) with (S k)
    by (unfold iterations_through; lia).
  rewrite (for_range_ext _
             (fun j => c <- deref "name" (rcb_commands this !! j) ;;
                       encode_buffer_command encoder rest (bool_decide (j = k)) c)).
  - rewrite (for_range_prefix_target _ _ (encode_buffer_command encoder rest) k target
               Htarget k O) by lia.
    rewrite drop_0. reflexivity.
  - intros j e0 _. rewrite andb_true_r.
    rewrite (bool_decide_ext (Some (Z.of_nat j) = Some (Z.of_nat k)) (j = k));
      [reflexivity |].
    split; [intros [= H]; lia | intros ->; reflexivity].
Qed.

(** The pass stops at the command its index names. *)
Lemma ReplayRenderPass_stops_at_lookup (rp : ReplayRenderPass) (l : nat)
    (c : ReplayCommandBufferCommand) :
  rp_commands rp !! l = Some c -> ReplayRenderPass_stops_at rp l c.
Proof.
  intros Hc args children a others encoder e Hcmds Hatt.
  destruct l as [| before].
  - exact (encodeUpTo_begin_marker rp args children a others [] encoder e Hcmds Hatt).
  - destruct (encodeUpTo_inside rp args children a others (Z.of_nat (S before)) [] encoder e
                Hcmds Hatt ltac:(lia)) as (msgs & Heq).
    exists msgs. rewrite Heq.
    apply bind_ext; [reflexivity | intros renderPass e1].
    apply bind_ext; [reflexivity | intros [] e2].
    replace (iterations_through 1 (Some (Z.of_nat (S before)))) with (S before)
      by (unfold iterations_through; lia).
    rewrite <- bind_assoc. apply bind_ext; [| reflexivity].
    rewrite for_range_acc_snoc. apply bind_ext; [reflexivity | intros acc e3].
    replace (1 + before)%nat with (S before) by lia.
    rewrite Hc. cbn [deref]. rewrite bind_ret. reflexivity.
Qed.

Lemma replayTo_stops_at_top (replay : Replay) (i : nat) (c : ReplayQueueCommand) :
  commands replay !! i = Some c -> replayTo_stops_at replay [Z.of_nat i] (QueueLevel c).
Proof.
  intros Hc. apply stops_at_top; [exact Hc |].
  intros e. apply replayTo_prefix_target. exact Hc.
Qed.

Lemma replayTo_stops_in_buffer (replay : Replay) (i j k : nat) (queue : option ReplayQueue)
    (commandBuffers : list (option ReplayCommandBuffer)) (cb : ReplayCommandBuffer)
    (c : ReplayCommandBufferCommand) :
  commands replay !! i = Some (ReplayCommandSubmit queue commandBuffers) ->
  commandBuffers !! j = Some (Some cb) ->
  rcb_commands cb !! k = Some c ->
  replayTo_stops_at replay [Z.of_nat i; Z.of_nat j; Z.of_nat k] (BufferLevel c).
Proof.
  intros Hi Hj Hk. apply (stops_in_buffer replay i j k queue commandBuffers cb c Hi Hj Hk).
  intros e. rewrite (replayTo_prefix_target _ _ _ _ _ Hi). cbn [replayTo_target].
  apply bind_ext; [reflexivity | intros [] e1].
  apply bind_ext; [| reflexivity].
  apply bind_ext; [reflexivity | intros q e2].
  rewrite (replaySubmitTo_stops_in _ _ _ _ _ _ Hj).
  apply replaySubmitTo_around_ext. intros encoder e3.
  apply encodeUpTo_prefix_target. exact Hk.
Qed.

Lemma replayTo_stops_in_pass (replay : Replay) (i j k l : nat) (queue : option ReplayQueue)
    (commandBuffers : list (option ReplayCommandBuffer)) (cb : ReplayCommandBuffer)
    (rp : ReplayRenderPass) (c : ReplayCommandBufferCommand) :
  commands replay !! i = Some (ReplayCommandSubmit queue commandBuffers) ->
  commandBuffers !! j = Some (Some cb) ->
  rcb_commands cb !! k = Some (CmdRenderPass rp) ->
  rp_commands rp !! l = Some c ->
  replayTo_stops_at replay [Z.of_nat i; Z.of_nat j; Z.of_nat k; Z.of_nat l] (BufferLevel c).
Proof.
  intros Hi Hj Hk Hl.
  apply (stops_in_pass replay i j k l queue commandBuffers cb rp c Hi Hj Hk Hl);
    [| apply ReplayRenderPass_stops_at_lookup; exact Hl].
  intros e. rewrite (replayTo_prefix_target _ _ _ _ _ Hi). cbn [replayTo_target].
  apply bind_ext; [reflexivity | intros [] e1].
  apply bind_ext; [| reflexivity].
  apply bind_ext; [reflexivity | intros q e2].
  rewrite (replaySubmitTo_stops_in _ _ _ _ _ _ Hj).
  apply replaySubmitTo_around_ext. intros encoder e3.
  rewrite (encodeUpTo_prefix_target _ _ _ _ _ _ Hk). reflexivity.
Qed.

(** X21.  The rows of the step list are the stops of the replay driver.
    When the step list renders a command tree, every row it shows with an
    identifier of at most four numbers names a stop of [replayTo]: called
    with the identifier of the row, [replayTo] executes the top-level
    commands before the first position in full and then handles, as its
    target, the node of the tree at the positions the identifier lists,
    which has the name shown on the row.  A top-level command is handled by
    the switch of [replayTo] (for the row of a submit that is
    [replaySubmitTo] with an empty path); a command of a command buffer by
    the switch of [ReplayCommandBuffer.encodeUpTo] with the target flag,
    after the earlier buffers but one and the commands before it in its
    buffer; a child of a render pass is the command
    [ReplayRenderPass.encodeUpTo] stops at when the pass starts with its
    begin marker and has a first colour attachment.  Conversely every stop
    of [replayTo] has a row with its path and its name, whether the
    enumerator yields it or not.  Whether the replay then returns or raises
    is not part of the statement. *)
Theorem step_rows_are_the_stops_of_replayTo :
  forall replay steps,
    StepsVis_steps replay = Ok steps ->
    (forall p name,
       ((p, name) ∈ steps) -> (length p <= 4)%nat ->
       exists node, replayTo_stops_at replay p node /\ node_name node = name) /\
    (forall p node,
       replayTo_stops_at replay p node -> ((p, node_name node) ∈ steps)).
Proof.
  intros replay steps H. unfold StepsVis_steps in H.
  destruct (Commands_of_queue_from_spec _ _ _ _ H) as (Hfrom & Hall). split.
  - intros p name Hin Hlen.
    destruct (Hfrom _ Hin) as (i & c & steps1 & Hc & Hsteps1 & Hin1).
    cbn [app Nat.add] in Hsteps1.
    assert (Hgeneric :
      (forall queue commandBuffers, c <> ReplayCommandSubmit queue commandBuffers) ->
      exists node, replayTo_stops_at replay p node /\ node_name node = name).
    { intros Hne. apply Command_of_queue_generic in Hsteps1; [| exact Hne]. subst steps1.
      apply list_elem_of_singleton in Hin1. injection Hin1 as -> ->.
      exists (QueueLevel c). split; [apply replayTo_stops_at_top; exact Hc | reflexivity]. }
    destruct c as [queue cbs | | | | | | |]; try (apply Hgeneric; discriminate).
    clear Hgeneric. cbn [Command_of_queue] in Hsteps1.
    apply and_then_ok in Hsteps1 as (children & Hch & Hsteps1). injection Hsteps1 as <-.
    apply elem_of_cons in Hin1 as [[= -> ->] | Hin1].
    { exists (QueueLevel (ReplayCommandSubmit queue cbs)).
      split; [apply replayTo_stops_at_top; exact Hc | reflexivity]. }
    destruct (proj1 (QueueSubmit_buffers_from_spec _ _ _ _ Hch) _ Hin1)
      as (j & cb & steps2 & Hcb & Hsteps2 & Hin2).
    cbn [app Nat.add] in Hsteps2.
    destruct (proj1 (Commands_of_buffer_from_spec _ _ _ _ Hsteps2) _ Hin2)
      as (k & c2 & steps3 & Hc2 & Hsteps3 & Hin3).
    cbn [app Nat.add] in Hsteps3.
    destruct (Command_of_buffer_prefix _ _ _ Hsteps3 _ _ Hin3) as (t & ->).
    destruct t as [| l [| l' t]].
    + rewrite app_nil_r in Hin3 |- *.
      apply (proj2 (Command_of_buffer_head _ _ _ Hsteps3)) in Hin3. subst name.
      exists (BufferLevel c2).
      split; [exact (replayTo_stops_in_buffer replay i j k queue cbs cb c2 Hc Hcb Hc2)
             | reflexivity].
    + destruct (Command_of_buffer_children _ _ _ _ _ _ Hsteps3 Hin3)
        as (label & cs & n & c' & steps4 & -> & -> & Hc' & Hsteps4 & Hin4).
      apply (proj2 (Command_of_buffer_head _ _ _ Hsteps4)) in Hin4. subst name.
      exists (BufferLevel c').
      split; [| reflexivity].
      exact (replayTo_stops_in_pass replay i j k n queue cbs cb
               (MkReplayRenderPass label cs) c' Hc Hcb Hc2 Hc').
    + cbn in Hlen. lia.
  - intros p node Hstop.
    destruct Hstop as [i c Hc _ | i j k queue cbs cb c Hc Hcb Hc2 _
                      | i j k l queue cbs cb rp c Hc Hcb Hc2 Hc' _ _].
    + destruct (Hall _ _ Hc) as (steps1 & Hsteps1 & Hsub1). cbn [app Nat.add] in Hsteps1.
      apply Hsub1. cbn [node_name].
      destruct c; try (cbn in Hsteps1; injection Hsteps1 as <-; left).
      cbn [Command_of_queue] in Hsteps1.
      apply and_then_ok in Hsteps1 as (children & _ & Hsteps1). injection Hsteps1 as <-.
      left.
    + destruct (Hall _ _ Hc) as (steps1 & Hsteps1 & Hsub1). cbn [app Nat.add] in Hsteps1.
      apply Hsub1. cbn [Command_of_queue] in Hsteps1.
      apply and_then_ok in Hsteps1 as (children & Hch & Hsteps1). injection Hsteps1 as <-.
      right.
      destruct (proj2 (QueueSubmit_buffers_from_spec _ _ _ _ Hch) _ _ Hcb)
        as (steps2 & Hsteps2 & Hsub2). cbn [app Nat.add] in Hsteps2.
      apply Hsub2.
      destruct (proj2 (Commands_of_buffer_from_spec _ _ _ _ Hsteps2) _ _ Hc2)
        as (steps3 & Hsteps3 & Hsub3). cbn [app Nat.add] in Hsteps3.
      apply Hsub3. apply (Command_of_buffer_head _ _ _ Hsteps3).
    + destruct (Hall _ _ Hc) as (steps1 & Hsteps1 & Hsub1). cbn [app Nat.add] in Hsteps1.
      apply Hsub1. cbn [Command_of_queue] in Hsteps1.
      apply and_then_ok in Hsteps1 as (children & Hch & Hsteps1). injection Hsteps1 as <-.
      right.
      destruct (proj2 (QueueSubmit_buffers_from_spec _ _ _ _ Hch) _ _ Hcb)
        as (steps2 & Hsteps2 & Hsub2). cbn [app Nat.add] in Hsteps2.
      apply Hsub2.
      destruct (proj2 (Commands_of_buffer_from_spec _ _ _ _ Hsteps2) _ _ Hc2)
        as (steps3 & Hsteps3 & Hsub3). cbn [app Nat.add] in Hsteps3.
      apply Hsub3. destruct rp as [label cs]. cbn [rp_commands] in Hc'.
      rewrite Command_of_buffer_pass in Hsteps3.
      apply and_then_ok in Hsteps3 as (children4 & Hch4 & Hsteps3). injection Hsteps3 as <-.
      right.
      destruct (proj2 (Commands_of_buffer_from_spec _ _ _ _ Hch4) _ _ Hc')
        as (steps5 & Hsteps5 & Hsub5). cbn [app Nat.add] in Hsteps5.
      apply Hsub5. apply (Command_of_buffer_head _ _ _ Hsteps5).
Qed.

Lemma step_rows_are_the_stops_of_replayTo_witness :
  exists steps,
    StepsVis_steps sample_pass_replay = Ok steps /\
    steps = [([0], "queueSubmit"); ([0; 0; 0], "renderPass");
             ([0; 0; 0; 0], "beginRenderPass"); ([0; 0; 0; 1], "draw");
             ([0; 0; 0; 2], "endPass")]%string /\
    exists node,
      replayTo_stops_at sample_pass_replay [0; 0; 0; 1] node /\
      node_name node = "draw"%string.
Proof.
  destruct (StepsVis_steps sample_pass_replay) as [steps | err] eqn:Hsteps;
    [| vm_compute in Hsteps; discriminate].
  exists steps. split; [reflexivity |].
  assert (Hrows : steps = [([0], "queueSubmit"); ([0; 0; 0], "renderPass");
                           ([0; 0; 0; 0], "beginRenderPass"); ([0; 0; 0; 1], "draw");
                           ([0; 0; 0; 2], "endPass")]%string).
  { vm_compute in Hsteps. injection Hsteps as <-. reflexivity. }
  split; [exact Hrows |].
  apply (proj1 (step_rows_are_the_stops_of_replayTo sample_pass_replay steps Hsteps)
           [0; 0; 0; 1] "draw"%string).
  - rewrite Hrows. do 3 right. left.
  - cbn. lia.
Defined.

(** ** Commands that are listed but not replayed *)

(** X22.  Buffer updates are listed but not replayed.  A recorded
    bufferUpdateData or bufferUnmap command is resolved without a report and
    is among the commands the enumerator yields, yet executing it does
    nothing to the graphics context: [execute] has no case for it and only
    writes an assertion failure on the console. *)
Theorem buffer_updates_are_listed_but_not_replayed :
  forall replay c i e,
    ((exists bufferSerial updates, c = TraceQueueCommandBufferUpdateData bufferSerial updates)
     \/ (exists bufferSerial, c = TraceQueueCommandBufferUnmap bufferSerial)) ->
    exists c',
      resolve_queue_command replay c e = (Ok c', e) /\
      enumerated ([Z.of_nat i], QueueLevel c') = true /\
      execute replay c' e
      = (Ok tt,
         log [AssertionFailed (quoted "Unhandled command type " (trace_queue_command_name c))]
           e).
Proof.
  intros replay c i e [(serial & updates & ->) | (serial & ->)];
    eexists; repeat split; reflexivity.
Qed.

Lemma buffer_updates_are_listed_but_not_replayed_witness :
  let e := init_env sample_trace in
  exists c',
    resolve_queue_command empty_replay (TraceQueueCommandBufferUnmap "4") e = (Ok c', e) /\
    enumerated ([Z.of_nat 0], QueueLevel c') = true /\
    execute empty_replay c' e
    = (Ok tt, log [AssertionFailed "Unhandled command type 'bufferUnmap'"] e).
Proof.
  intros e.
  apply (buffer_updates_are_listed_but_not_replayed empty_replay
           (TraceQueueCommandBufferUnmap "4") 0 e).
  right. exists "4"%string. reflexivity.
Defined.

(** ** The bindings of a bind group *)

Lemma bindings_fold_keeps (r_textureViews : gmap string ReplayTextureView)
    (r_samplers : gmap string ReplaySampler) (r_buffers : gmap string ReplayBuffer)
    (entries : list TraceBindGroupEntry) :
  forall acc j v,
    (j ∉ map tbe_binding entries) ->
    acc !! j = Some v ->
    fold_left (fun bindings e =>
      match tbe_textureViewSerial e, tbe_samplerSerial e, tbe_bufferSerial e with
      | Some s, _, _ =>
          js_array_set (tbe_binding e) (BindingTextureView (r_textureViews !! s)) bindings
      | None, Some s, _ =>
          js_array_set (tbe_binding e) (BindingSampler (r_samplers !! s)) bindings
      | None, None, Some s =>
          js_array_set (tbe_binding e)
            (BindingBuffer (r_buffers !! s) (tbe_offset e) (tbe_size e)) bindings
      | None, None, None => bindings
      end) entries acc !! j = Some v.
Proof.
  induction entries as [| e0 entries IH]; intros acc j v Hj Hacc; [exact Hacc |].
  cbn [map] in Hj. apply not_elem_of_cons in Hj as [Hne Hj].
  cbn [fold_left]. apply IH; [exact Hj |].
  destruct (tbe_textureViewSerial e0), (tbe_samplerSerial e0), (tbe_bufferSerial e0);
    try exact Hacc; apply js_array_set_lookup_ne; auto.
Qed.

Lemma bindings_fold_sets (r_textureViews : gmap string ReplayTextureView)
    (r_samplers : gmap string ReplaySampler) (r_buffers : gmap string ReplayBuffer)
    (entries : list TraceBindGroupEntry) :
  forall acc entry b,
    NoDup (map tbe_binding entries) ->
    (entry ∈ entries) ->
    binding_of r_textureViews r_samplers r_buffers entry = Some b ->
    fold_left (fun bindings e =>
      match tbe_textureViewSerial e, tbe_samplerSerial e, tbe_bufferSerial e with
      | Some s, _, _ =>
          js_array_set (tbe_binding e) (BindingTextureView (r_textureViews !! s)) bindings
      | None, Some s, _ =>
          js_array_set (tbe_binding e) (BindingSampler (r_samplers !! s)) bindings
      | None, None, Some s =>
          js_array_set (tbe_binding e)
            (BindingBuffer (r_buffers !! s) (tbe_offset e) (tbe_size e)) bindings
      | None, None, None => bindings
      end) entries acc !! tbe_binding entry = Some (Some b).
Proof.
  induction entries as [| e0 entries IH]; intros acc entry b Hnd Hin Hb.
  - apply elem_of_nil in Hin. contradiction.
  - cbn [map] in Hnd. apply NoDup_cons in Hnd as [Hfresh Hnd].
    cbn [fold_left]. apply elem_of_cons in Hin as [-> | Hin].
    + apply bindings_fold_keeps; [exact Hfresh |].
      unfold binding_of in Hb.
      destruct (tbe_textureViewSerial e0), (tbe_samplerSerial e0), (tbe_bufferSerial e0);
        try discriminate; injection Hb as <-; apply js_array_set_lookup_eq.
    + apply IH; assumption.
Qed.

(** X23.  The bindings of a bind group are indexed by binding number.
    When a bind group is built from a descriptor whose entries have distinct
    binding numbers, its [bindings] array holds, at the binding number of
    every entry that names a texture view, a sampler or a buffer, the
    wrapper of that resource (a buffer with the recorded offset and size);
    one [createBindGroup] call is made, with one entry per entry of the
    descriptor. *)
Theorem bind_group_bindings_by_number :
  forall r_devices r_bindGroupLayouts r_textureViews r_samplers r_buffers desc e bg e',
    new_ReplayBindGroup r_devices r_bindGroupLayouts r_textureViews r_samplers r_buffers
      desc e = (Ok bg, e') ->
    NoDup (map tbe_binding (tbg_entries desc)) ->
    (forall entry b,
       (entry ∈ tbg_entries desc) ->
       binding_of r_textureViews r_samplers r_buffers entry = Some b ->
       rbg_bindings bg !! tbe_binding entry = Some (Some b)) /\
    exists layout resources,
      env_gpu e' = env_gpu e ++
        [CreateBindGroup (rd_webgpuObject (rbg_device bg)) layout resources
           (rbg_webgpuObject bg)] /\
      length resources = length (tbg_entries desc).
Proof.
  intros r_devices r_bgl r_tv r_s r_b desc e bg e' H Hnd.
  unfold new_ReplayBindGroup in H.
  bind_inv H. apply deref_ok_inv in Hstep as [Hdev ->].
  bind_inv H. apply deref_ok_inv in Hstep as [Hlayout ->].
  bind_inv H. rename a1 into resources.
  assert (Henv : e0 = e).
  { eapply reads_only_ok; [| exact Hstep].
    apply reads_only_map_m. intros entry.
    destruct (tbe_textureViewSerial entry), (tbe_samplerSerial entry),
      (tbe_bufferSerial entry);
      try apply reads_only_ret;
      (apply reads_only_bind; [apply reads_only_deref | intros; apply reads_only_ret]). }
  subst e0. apply map_m_ok_lookup in Hstep as [Hlen _].
  bind_inv H. injection Hstep as <- <-. injection H as <- <-.
  cbn [rbg_bindings rbg_device rbg_webgpuObject env_gpu]. split.
  - intros entry b Hin Hb. apply bindings_fold_sets; assumption.
  - eauto.
Qed.

Lemma bind_group_bindings_by_number_witness :
  let r_devices := sample_devices in
  let r_layouts : gmap string ReplayBindGroupLayout := {[ "1"%string := sample_layout ]} in
  let r_samplers : gmap string ReplaySampler := {[ "3"%string := sample_sampler ]} in
  let r := new_ReplayBindGroup r_devices r_layouts ∅ r_samplers ∅ sample_bind_group_desc
             (init_env sample_trace) in
  exists bg,
    fst r = Ok bg /\
    rbg_bindings bg !! 2%nat = Some (Some (BindingSampler (Some sample_sampler))) /\
    rbg_bindings bg !! 0%nat = Some None.
Proof.
  intros r_devices r_layouts r_samplers r.
  destruct r as [[bg | err] e'] eqn:Hr; [| vm_compute in Hr; discriminate].
  exists bg. split; [reflexivity |]. split.
  - refine (proj1 (bind_group_bindings_by_number r_devices r_layouts ∅ r_samplers ∅
                     sample_bind_group_desc (init_env sample_trace) bg e' Hr _)
              sample_entry _ _ _).
    + cbn. apply NoDup_cons. split; [apply not_elem_of_nil | apply NoDup_nil_2].
    + apply list_elem_of_singleton. reflexivity.
    + reflexivity.
  - vm_compute in Hr. injection Hr as <- _. reflexivity.
Defined.

(** ** What a load may call *)

Lemma gpu_appends_create (P : GpuCall -> Prop) (call : Handle -> GpuCall) :
  (forall h, P (call h)) -> gpu_appends P (create call).
Proof. intros Hc e. eexists [_]. cbn. auto. Qed.

Lemma gpu_appends_quiet {A} (P : GpuCall -> Prop) (m : M A) :
  (forall e, env_gpu (snd (m e)) = env_gpu e) -> gpu_appends P m.
Proof. intros Hm e. exists []. rewrite app_nil_r. auto. Qed.

Lemma gpu_appends_console_function {A} (P : GpuCall -> Prop) (m : M A) :
  console_function m -> gpu_appends P m.
Proof.
  intros (r & msgs & Hm). apply gpu_appends_quiet. intros e. rewrite Hm. reflexivity.
Qed.

Lemma gpu_appends_settle {A} (P : GpuCall -> Prop) (m : M A) :
  gpu_appends P m -> gpu_appends P (settle m).
Proof.
  intros Hm e. destruct (Hm e) as (calls & Hg & Hall). exists calls.
  unfold settle. destruct (m e) as [r e1]. auto.
Qed.

Lemma gpu_appends_map_m {A B} (P : GpuCall -> Prop) (f : A -> M B) (l : list A) :
  (forall x, gpu_appends P (f x)) -> gpu_appends P (map_m f l).
Proof.
  intros Hf. induction l as [| x l IH]; cbn [map_m].
  - apply gpu_appends_ret.
  - apply gpu_appends_bind; [apply Hf | intros y].
    apply gpu_appends_bind; [apply IH | intros ys; apply gpu_appends_ret].
Qed.

Lemma gpu_appends_recreateObjectsAsync {D P T} (Q : GpuCall -> Prop)
    (start : string -> D -> M P) (resume : D -> P -> M T)
    (descMap : option (list (string * D))) :
  (forall s d, gpu_appends Q (start s d)) ->
  (forall d p, gpu_appends Q (resume d p)) ->
  gpu_appends Q (v <- recreateObjectsAsync start resume descMap ;; destructure v).
Proof.
  intros Hstart Hresume.
  apply gpu_appends_bind;
    [| intros [| objs]; [apply gpu_appends_throw | apply gpu_appends_ret]].
  destruct descMap as [l |]; [| apply gpu_appends_ret]. cbn [recreateObjectsAsync].
  apply gpu_appends_bind.
  - induction l as [| [s d] l IH]; cbn [recreate_async_start].
    + apply gpu_appends_ret.
    + apply gpu_appends_bind; [apply gpu_appends_settle, Hstart | intros promise].
      apply gpu_appends_bind; [apply IH | intros; apply gpu_appends_ret].
  - intros recreatePromises.
    apply gpu_appends_bind; [| intros; apply gpu_appends_ret].
    generalize (∅ : gmap string T), (first_rejection recreatePromises).
    induction recreatePromises as [| [[s d] [p | err]] rest IH]; intros acc rejected.
    + cbn. destruct rejected; [apply gpu_appends_throw | apply gpu_appends_ret].
    + cbn [recreate_async_settle].
      apply gpu_appends_bind; [apply gpu_appends_settle, Hresume | intros [o | err]; apply IH].
    + cbn [recreate_async_settle]. apply IH.
Qed.

Lemma gpu_appends_destructured {D T} (P : GpuCall -> Prop) (Class : string -> D -> M T)
    (descMap : option (list (string * D))) :
  (forall s d, gpu_appends P (Class s d)) ->
  gpu_appends P (v <- recreateObjects Class descMap ;; destructure v) /\
  gpu_appends P (v <- recreateObjectsAsync Class recreate_stored descMap ;; destructure v).
Proof.
  intros HC.
  assert (Hd : forall v : Recreated T, gpu_appends P (destructure v)).
  { intros [| objs]; [apply gpu_appends_throw | apply gpu_appends_ret]. }
  split.
  - apply gpu_appends_bind; [| exact Hd].
    destruct descMap as [l |]; [| apply gpu_appends_ret]. cbn [recreateObjects].
    apply gpu_appends_bind; [| intros; apply gpu_appends_ret].
    generalize (∅ : gmap string T). induction l as [| [s d] l IH]; intros acc.
    + apply gpu_appends_ret.
    + cbn [recreate_loop]. apply gpu_appends_bind; [apply HC | intros o; apply IH].
  - apply gpu_appends_recreateObjectsAsync; [exact HC |].
    intros d p. apply gpu_appends_ret.
Qed.

Ltac gpu_appends_steps :=
  repeat first
    [ apply gpu_appends_ret | apply gpu_appends_throw | apply gpu_appends_deref
    | apply gpu_appends_console_assert | apply gpu_appends_console_warn
    | apply gpu_appends_console | apply gpu_appends_getData
    | apply gpu_appends_gpu; exact I
    | apply gpu_appends_create; intros ?; exact I
    | apply gpu_appends_for_of; intros ?
    | apply gpu_appends_map_m; intros ?
    | apply gpu_appends_bind; [| intros ?] ].

Lemma gpu_appends_constructors (r_devices : gmap string ReplayDevice)
    (r_data : gmap string (list Z)) :
  ((forall rq desc, gpu_appends load_call (ReplayAdapter_recreate_request rq desc)) /\
   (forall desc webgpuObject,
      gpu_appends load_call (ReplayAdapter_recreate_resume desc webgpuObject))) /\
  (forall r_adapters desc, gpu_appends load_call (new_ReplayDevice r_adapters desc)) /\
  (forall desc, gpu_appends load_call (new_ReplayQueue r_devices desc)) /\
  (forall desc, gpu_appends load_call (new_ReplayBindGroupLayout r_devices desc)) /\
  (forall r_bgl desc, gpu_appends load_call (new_ReplayPipelineLayout r_devices r_bgl desc)) /\
  (forall desc, gpu_appends load_call (new_ReplayShaderModule r_devices desc)) /\
  (forall r_sm r_pl serial desc,
     gpu_appends load_call (new_ReplayRenderPipeline r_devices r_sm r_pl serial desc)) /\
  (forall desc, gpu_appends load_call (new_ReplayBuffer r_devices r_data desc)) /\
  (forall desc, gpu_appends load_call (new_ReplaySampler r_devices desc)) /\
  (forall desc, gpu_appends load_call (new_ReplayTexture r_devices r_data desc)) /\
  (forall r_textures desc, gpu_appends load_call (new_ReplayTextureView r_textures desc)) /\
  (forall desc, gpu_appends load_call (new_ReplayQuerySet r_devices desc)) /\
  (forall r_bgl r_tv r_s r_b desc,
     gpu_appends load_call (new_ReplayBindGroup r_devices r_bgl r_tv r_s r_b desc)).
Proof.
  assert (Hwrite : forall serial f, gpu_appends load_call (write_pipeline_desc serial f)).
  { intros serial f. apply gpu_appends_quiet. intros e. reflexivity. }
  repeat match goal with |- _ /\ _ => split end.
  - intros rq desc. unfold ReplayAdapter_recreate_request. gpu_appends_steps.
  - intros desc webgpuObject. unfold ReplayAdapter_recreate_resume. gpu_appends_steps.
  - intros r_adapters desc. unfold new_ReplayDevice. gpu_appends_steps.
  - intros desc. unfold new_ReplayQueue. gpu_appends_steps.
  - intros desc. unfold new_ReplayBindGroupLayout.
    destruct (tbgl_entries desc); gpu_appends_steps.
  - intros r_bgl desc. unfold new_ReplayPipelineLayout. gpu_appends_steps.
  - intros desc. unfold new_ReplayShaderModule. gpu_appends_steps.
  - intros r_sm r_pl serial desc. unfold new_ReplayRenderPipeline.
    apply gpu_appends_bind; [apply Hwrite | intros _].
    apply gpu_appends_bind; [gpu_appends_steps | intros vs].
    apply gpu_appends_bind.
    { destruct (trp_fragment desc); [| gpu_appends_steps].
      apply gpu_appends_bind; [apply Hwrite | intros _]. gpu_appends_steps. }
    intros fragment. apply gpu_appends_bind.
    { destruct (trp_layout desc); [gpu_appends_steps |].
      apply gpu_appends_bind; [apply Hwrite | intros _]. gpu_appends_steps. }
    intros layout. gpu_appends_steps.
  - intros desc. unfold new_ReplayBuffer.
    apply gpu_appends_bind; [gpu_appends_steps | intros _].
    apply gpu_appends_bind; [gpu_appends_steps | intros dev].
    apply gpu_appends_bind; [gpu_appends_steps | intros buffer].
    apply gpu_appends_bind; [| intros _; gpu_appends_steps].
    destruct (tb_initialData desc); gpu_appends_steps.
  - intros desc. unfold new_ReplaySampler. gpu_appends_steps.
  - intros desc. unfold new_ReplayTexture.
    apply gpu_appends_bind; [gpu_appends_steps | intros dev].
    apply gpu_appends_bind; [gpu_appends_steps | intros texture].
    apply gpu_appends_bind; [| intros _; gpu_appends_steps].
    destruct (tt_initialData desc) as [initialData |].
    + unfold loadInitialData. destruct (negb _); [gpu_appends_steps |].
      destruct (negb _); gpu_appends_steps.
    + destruct (String.eqb _ _); gpu_appends_steps.
  - intros r_textures desc. unfold new_ReplayTextureView.
    apply gpu_appends_bind; [destruct (ttv_dimension desc); gpu_appends_steps | intros d].
    apply gpu_appends_bind; [destruct (ttv_mipLevelCount desc); gpu_appends_steps | intros m].
    apply gpu_appends_bind; [| intros n; gpu_appends_steps].
    destruct (ttv_dimension desc) as [dim |], (ttv_arrayLayerCount desc);
      try (destruct (String.eqb dim "2d-array")); gpu_appends_steps.
  - intros desc. unfold new_ReplayQuerySet. gpu_appends_steps.
  - intros r_bgl r_tv r_s r_b desc. unfold new_ReplayBindGroup.
    apply gpu_appends_bind; [gpu_appends_steps | intros dev].
    apply gpu_appends_bind; [gpu_appends_steps | intros layout].
    apply gpu_appends_bind; [| intros resources; gpu_appends_steps].
    apply gpu_appends_map_m. intros entry.
    destruct (tbe_textureViewSerial entry), (tbe_samplerSerial entry),
      (tbe_bufferSerial entry); gpu_appends_steps.
Qed.

Lemma gpu_appends_initialize_implicit_layouts
    (r_renderPipelines : gmap string ReplayRenderPipeline) (keys : list string) :
  forall layouts,
    gpu_appends load_call (initialize_implicit_layouts r_renderPipelines keys layouts).
Proof.
  induction keys as [| k keys IH]; intros layouts; cbn [initialize_implicit_layouts].
  - apply gpu_appends_ret.
  - destruct (layouts !! k) as [layout |]; [| apply IH].
    destruct (rbgl_implicit layout); [| apply IH].
    apply gpu_appends_bind; [| intros layout'; apply IH].
    unfold initializeFromImplicitDesc. gpu_appends_steps.
Qed.

(** X24.  A load creates and initialises, it replays nothing.  Whatever
    the trace and whatever the outcome, the calls [Replay.load] makes on the
    graphics context are requests for an adapter and a device, creations of
    objects, writes of initial data and destructions of textures recorded as
    destroyed: no command encoder is created, nothing is encoded, nothing is
    submitted, and no recorded queueWriteTexture is performed. *)
Theorem load_creates_and_initialises_only :
  forall requestUnwrappedAdapter, gpu_appends load_call (load requestUnwrappedAdapter).
Proof.
  intros rq. unfold load.
  apply gpu_appends_bind; [apply gpu_appends_quiet; reflexivity | intros trace].
  destruct (gpu_appends_constructors ∅ ∅) as ((Hrequest & Hresume) & Hdevice & _).
  apply gpu_appends_bind.
  - unfold load_until_pipelines.
    apply gpu_appends_bind;
      [apply gpu_appends_recreateObjectsAsync; intros; [apply Hrequest | apply Hresume]
      | intros r_adapters].
    apply gpu_appends_bind;
      [apply gpu_appends_destructured; intros; apply Hdevice | intros r_devices].
    destruct (gpu_appends_constructors r_devices ∅)
      as (_ & _ & Hq & Hbgl & Hpl & Hsm & Hrp & _).
    apply gpu_appends_bind; [apply gpu_appends_destructured; intros; apply Hq | intros ?].
    apply gpu_appends_bind; [apply gpu_appends_destructured; intros; apply Hbgl | intros ?].
    apply gpu_appends_bind; [apply gpu_appends_destructured; intros; apply Hpl | intros ?].
    apply gpu_appends_bind; [apply gpu_appends_destructured; intros; apply Hsm | intros ?].
    apply gpu_appends_bind; [apply gpu_appends_destructured; intros; apply Hrp | intros ?].
    apply gpu_appends_ret.
  - intros early. unfold load_from_implicit_layouts.
    destruct (gpu_appends_constructors (er_devices early) (load_data (trace_data trace)))
      as (_ & _ & _ & _ & _ & _ & _ & Hb & Hs & Ht & Htv & Hqs & Hbg).
    apply gpu_appends_bind; [apply gpu_appends_initialize_implicit_layouts | intros ?].
    apply gpu_appends_bind; [apply gpu_appends_destructured; intros; apply Hb | intros ?].
    apply gpu_appends_bind; [apply gpu_appends_destructured; intros; apply Hs | intros ?].
    apply gpu_appends_bind; [apply gpu_appends_destructured; intros; apply Ht | intros ?].
    apply gpu_appends_bind; [apply gpu_appends_destructured; intros; apply Htv | intros ?].
    apply gpu_appends_bind; [apply gpu_appends_destructured; intros; apply Hqs | intros ?].
    apply gpu_appends_bind; [apply gpu_appends_destructured; intros; apply Hbg | intros ?].
    apply gpu_appends_bind.
    { apply gpu_appends_destructured. intros s d.
      apply gpu_appends_console_function, console_function_new_ReplayCommandBuffer. }
    intros r_cbs. apply gpu_appends_bind; [| intros; apply gpu_appends_ret].
    apply gpu_appends_map_m. intros c.
    apply gpu_appends_console_function, console_function_resolve_queue_command.
Qed.

(** ** The row of a submit *)

Lemma for_range_ok_body (body : nat -> M unit) (n : nat) :
  forall start e e',
    for_range n start body e = (Ok tt, e') ->
    forall j, (start <= j < start + n)%nat -> exists e1 e2, body j e1 = (Ok tt, e2).
Proof.
  induction n as [| n IH]; intros start e e' H j Hj; [lia |].
  rewrite for_range_S in H. bind_inv H. destruct a.
  destruct (decide (j = start)) as [-> | Hne]; [eauto |].
  eapply (IH (S start)); [exact H | lia].
Qed.

(** X25.  The row of a submit cannot be replayed to.  The step list shows,
    for a submit at position [i] of the command list, a row whose
    identifier is [[i]]; [replayTo] with that path never returns normally:
    [replaySubmitTo] is handed an empty path, finds no command buffer index
    in it, and raises when it reads the target command buffer. *)
Theorem submit_row_cannot_be_replayed_to :
  forall replay i queue commandBuffers,
    commands replay !! i = Some (ReplayCommandSubmit queue commandBuffers) ->
    (forall steps,
       StepsVis_steps replay = Ok steps ->
       ([Z.of_nat i], "queueSubmit"%string) ∈ steps) /\
    (forall e, exists err, fst (replayTo replay [Z.of_nat i] e) = Throw err).
Proof.
  intros replay i queue cbs Hc. split.
  - intros steps H. unfold StepsVis_steps in H.
    destruct (proj2 (Commands_of_queue_from_spec _ _ _ _ H) _ _ Hc)
      as (steps1 & Hsteps1 & Hsub). cbn [app Nat.add] in Hsteps1.
    apply Hsub. cbn [Command_of_queue] in Hsteps1.
    apply and_then_ok in Hsteps1 as (children & _ & Hsteps1). injection Hsteps1 as <-.
    left.
  - intros e.
    destruct (replayTo replay [Z.of_nat i] e) as [[s | err] e'] eqn:H; [| eauto].
    exfalso. unfold replayTo, shift in H. cbn [head tail] in H.
    bind_inv H. bind_inv H. destruct a0.
    destruct (for_range_ok_body _ _ _ _ _ Hstep0 i) as (e2 & e3 & Hbody);
      [unfold iterations_through; lia |].
    cbn beta in Hbody. rewrite Hc in Hbody. cbn [deref] in Hbody.
    rewrite bind_ret in Hbody.
    rewrite bool_decide_eq_true_2 in Hbody by reflexivity.
    bind_inv Hbody. unfold replaySubmitTo, shift in Hbody. cbn [head tail] in Hbody.
    bind_inv Hbody. bind_inv Hbody. bind_inv Hbody.
    cbn in Hstep3. discriminate.
Qed.

Lemma submit_row_cannot_be_replayed_to_witness :
  (forall steps,
     StepsVis_steps sample_pass_replay = Ok steps ->
     ([Z.of_nat 0], "queueSubmit"%string) ∈ steps) /\
  (forall e, exists err, fst (replayTo sample_pass_replay [Z.of_nat 0] e) = Throw err).
Proof.
  exact (submit_row_cannot_be_replayed_to sample_pass_replay 0 (Some sample_queue)
           [Some {| rcb_label := ""; rcb_commands := [CmdRenderPass sample_pass] |}] eq_refl).
Defined.

(** ** Replaying to a leaf of a session that can be replayed *)

Lemma returns_ret {A} (a : A) : returns (ret a).
Proof. intros e. eauto. Qed.

Lemma returns_bind {A B} (m : M A) (k : A -> M B) :
  returns m -> (forall a, returns (k a)) -> returns (bind m k).
Proof.
  intros Hm Hk e. destruct (Hm e) as (a & e1 & Ha). destruct (Hk a e1) as (b & e2 & Hb).
  exists b, e2. unfold bind. rewrite Ha. exact Hb.
Qed.

Lemma returns_deref {A B} (what : string) (o : option A) (k : A -> M B) :
  (forall a, o = Some a -> returns (k a)) -> present o = true ->
  returns (bind (deref what o) k).
Proof.
  intros Hk Ho. destruct o as [a |]; [| discriminate]. intros e. cbn [deref].
  rewrite bind_ret. apply Hk. reflexivity.
Qed.

Lemma returns_console (msg : ConsoleMsg) : returns (console msg).
Proof. intros e. eexists _, _. reflexivity. Qed.

Lemma returns_console_assert (b : bool) (msg : string) : returns (console_assert b msg).
Proof. destruct b; [apply returns_ret | apply returns_console]. Qed.

Lemma returns_gpu (c : GpuCall) : returns (gpu c).
Proof. intros e. eexists _, _. reflexivity. Qed.

Lemma returns_create (call : Handle -> GpuCall) : returns (create call).
Proof. intros e. eexists _, _. reflexivity. Qed.

Lemma returns_set_state (s : ReplayState) : returns (set_state s).
Proof. intros e. eexists _, _. reflexivity. Qed.

Lemma returns_for_of {A} (l : list A) (body : A -> M unit) :
  (forall x, (x ∈ l) -> returns (body x)) -> returns (for_of l body).
Proof.
  induction l as [| x l IH]; intros Hb; cbn [for_of].
  - apply returns_ret.
  - apply returns_bind; [apply Hb; left | intros _].
    apply IH. intros y Hy. apply Hb. right. exact Hy.
Qed.

Lemma returns_for_range (body : nat -> M unit) (n : nat) :
  forall start,
    (forall j, (start <= j < start + n)%nat -> returns (body j)) ->
    returns (for_range n start body).
Proof.
  induction n as [| n IH]; intros start Hb; cbn [for_range].
  - apply returns_ret.
  - apply returns_bind; [apply Hb; lia | intros _]. apply IH. intros j Hj. apply Hb. lia.
Qed.

Lemma returns_for_range_acc {St} (body : nat -> St -> M St) (n : nat) :
  forall start acc,
    (forall j acc', (start <= j < start + n)%nat -> returns (body j acc')) ->
    returns (for_range_acc n start body acc).
Proof.
  induction n as [| n IH]; intros start acc Hb; cbn [for_range_acc].
  - apply returns_ret.
  - apply returns_bind; [apply Hb; lia | intros acc'].
    apply IH. intros j acc'' Hj. apply Hb. lia.
Qed.

Lemma returns_warn_discards (ops : list string) (ds : option (option string * option string)) :
  returns (warn_discards ops ds).
Proof.
  intros e. destruct (console_only_warn_discards ops ds e) as (msgs & Hm).
  rewrite Hm. eauto.
Qed.

Lemma returns_getData (r_data : gmap string (list Z)) (d : TraceData) :
  present (r_data !! td_serial d) = true -> returns (getData r_data d).
Proof.
  intros Hd. unfold getData. apply returns_deref; [| exact Hd]. intros buf _.
  apply returns_bind; [apply returns_console_assert | intros _; apply returns_ret].
Qed.

Ltac returns_steps :=
  repeat first
    [ apply returns_ret | apply returns_console_assert | apply returns_console
    | apply returns_gpu | apply returns_create | apply returns_set_state
    | apply returns_warn_discards
    | apply returns_bind; [| intros ?] ].

Lemma returns_encode_pass_command (pass : Handle) (c : ReplayCommandBufferCommand)
    (acc : RenderPassState * bool) :
  pass_command_replayable c = true -> returns (encode_pass_command pass c acc).
Proof.
  intros Hc. destruct acc as [state ended].
  destruct c as [t | | | | | index [g |] dyn | [buf |] fmt off sz | [p |] | slot [buf |] off sz];
    [destruct t |..]; try discriminate;
    cbn [encode_pass_command deref]; unfold unhandled_render_pass_command; returns_steps.
Qed.

Lemma returns_pass_encodeUpTo (rp : ReplayRenderPass) (l : nat) (rest : list Z)
    (encoder : Handle) :
  pass_replayable rp = true ->
  (l < length (rp_commands rp))%nat ->
  returns (ReplayRenderPass_encodeUpTo rp (Z.of_nat l :: rest) encoder).
Proof.
  intros Hrp Hl. unfold pass_replayable in Hrp. unfold ReplayRenderPass_encodeUpTo.
  destruct (rp_commands rp) as [| first children] eqn:Hcmds; [discriminate |].
  destruct first as [| | | args | | | | |]; try discriminate.
  destruct (bra_colorAttachments args) as [| a others] eqn:Hatt; [discriminate |].
  apply andb_true_iff in Hrp as [Hresolve Hchildren].
  apply andb_true_iff in Hresolve as [Hresolve _].
  rewrite forallb_forall in Hchildren.
  apply returns_bind; [apply returns_console_assert | intros _].
  cbn [lookup list_lookup]. apply returns_deref; [| reflexivity]. intros first [= <-].
  apply returns_bind; [apply returns_console_assert | intros _].
  apply returns_deref; [| destruct (lookup_lt_is_Some_2 (CmdBeginRenderPass args :: children)
                                      (length (CmdBeginRenderPass args :: children) - 1))
                            as [x ->]; [cbn; lia | reflexivity]].
  intros last _.
  apply returns_bind; [apply returns_console_assert | intros _].
  apply returns_bind; [destruct (negb _); returns_steps | intros _].
  apply returns_bind; [apply returns_console_assert | intros _].
  rewrite Hatt. cbn [head]. apply returns_deref; [| reflexivity]. intros a' [= <-].
  apply returns_bind; [apply returns_console_assert | intros _].
  destruct (bool_decide _); [apply returns_set_state |].
  apply returns_bind; [apply returns_create | intros pass].
  apply returns_bind.
  { destruct (ca_resolveTarget a); [| intros e; eexists _, _; reflexivity].
    apply returns_deref; [| exact Hresolve]. intros t _ e. eexists _, _. reflexivity. }
  intros _. apply returns_bind.
  - apply returns_for_range_acc. intros j acc Hj.
    assert (Hjl : (j < length (CmdBeginRenderPass args :: children))%nat).
    { unfold shift, iterations_through in Hj. cbn [fst head] in Hj. lia. }
    destruct (lookup_lt_is_Some_2 _ _ Hjl) as [c Hc].
    apply returns_deref; [| rewrite Hc; reflexivity].
    intros c' Hc'. rewrite Hc in Hc'. injection Hc' as <-.
    apply returns_encode_pass_command.
    destruct j as [| j]; [lia |]. cbn [lookup list_lookup] in Hc.
    apply Hchildren. apply list_elem_of_In. eapply list_elem_of_lookup_2. exact Hc.
  - intros final. destruct (snd final); returns_steps.
Qed.

Lemma returns_pass_encodeIn (rp : ReplayRenderPass) (encoder : Handle) :
  pass_replayable rp = true -> returns (ReplayRenderPass_encodeIn rp encoder).
Proof.
  intros Hrp. unfold ReplayRenderPass_encodeIn.
  assert (Hlen : (1 <= length (rp_commands rp))%nat).
  { unfold pass_replayable in Hrp. destruct (rp_commands rp); [discriminate | cbn; lia]. }
  replace (Z.of_nat (length (rp_commands rp)) - 1)
    with (Z.of_nat (length (rp_commands rp) - 1)) by lia.
  apply returns_pass_encodeUpTo; [exact Hrp | lia].
Qed.

Lemma returns_encode_buffer_command (encoder : Handle) (path : list Z) (target : bool)
    (c : ReplayCommandBufferCommand) :
  buffer_command_replayable c = true ->
  (target = true ->
   forall rp, c = CmdRenderPass rp ->
              exists l rest, path = Z.of_nat l :: rest /\ (l < length (rp_commands rp))%nat) ->
  returns (encode_buffer_command encoder path target c).
Proof.
  intros Hc Htarget.
  destruct c as [t | | | | rp | | | |]; [destruct t |..];
    try discriminate;
    cbn [encode_buffer_command]; unfold unhandled_encoder_command;
    try (returns_steps; fail).
  - cbn [buffer_command_replayable] in Hc. apply negb_true_iff in Hc. rewrite Hc.
    returns_steps.
  - cbn [buffer_command_replayable] in Hc. destruct target.
    + destruct (Htarget eq_refl rp eq_refl) as (l & rest & -> & Hl).
      apply returns_pass_encodeUpTo; assumption.
    + apply returns_pass_encodeIn. exact Hc.
Qed.

Lemma returns_buffer_encodeUpTo (cb : ReplayCommandBuffer) (k : nat) (rest : list Z)
    (encoder : Handle) (full : bool) :
  buffer_replayable cb = true ->
  (k < length (rcb_commands cb))%nat ->
  (full = false ->
   forall rp, rcb_commands cb !! k = Some (CmdRenderPass rp) ->
              exists l rest', rest = Z.of_nat l :: rest' /\ (l < length (rp_commands rp))%nat) ->
  returns (ReplayCommandBuffer_encodeUpTo cb (Z.of_nat k :: rest) encoder full).
Proof.
  intros Hcb Hk Htarget. unfold ReplayCommandBuffer_encodeUpTo, shift. cbn [head tail].
  unfold buffer_replayable in Hcb. rewrite forallb_forall in Hcb.
  apply returns_for_range. intros j Hj.
  assert (Hjl : (j < length (rcb_commands cb))%nat)
    by (unfold iterations_through in Hj; lia).
  destruct (lookup_lt_is_Some_2 _ _ Hjl) as [c Hc].
  apply returns_deref; [| rewrite Hc; reflexivity].
  intros c' Hc'. rewrite Hc in Hc'. injection Hc' as <-.
  apply returns_encode_buffer_command.
  - apply Hcb. apply list_elem_of_In. eapply list_elem_of_lookup_2. exact Hc.
  - intros Hflag rp ->. apply andb_true_iff in Hflag as [Hjk Hfull].
    apply bool_decide_eq_true in Hjk. injection Hjk as Hjk. apply Nat2Z.inj in Hjk. subst j.
    apply negb_true_iff in Hfull. exact (Htarget Hfull rp Hc).
Qed.

Lemma returns_buffer_encodeIn (cb : ReplayCommandBuffer) (encoder : Handle) :
  buffer_replayable cb = true -> returns (ReplayCommandBuffer_encodeIn cb encoder).
Proof.
  intros Hcb. unfold ReplayCommandBuffer_encodeIn.
  destruct (rcb_commands cb) as [| c cs] eqn:Hcmds.
  - unfold ReplayCommandBuffer_encodeUpTo, shift. cbn. apply returns_ret.
  - replace (Z.of_nat (length (c :: cs)) - 1) with (Z.of_nat (length cs)) by (cbn; lia).
    apply returns_buffer_encodeUpTo; [exact Hcb | rewrite Hcmds; cbn; lia | discriminate].
Qed.

Lemma returns_finish_and_submit (this : ReplayQueue) (encoder : Handle) :
  returns (finish_and_submit this encoder).
Proof. unfold finish_and_submit. returns_steps. Qed.

Lemma returns_executeSubmit (this : ReplayQueue)
    (commandBuffers : list (option ReplayCommandBuffer)) :
  forallb (fun cb => match cb with
                     | Some cb => buffer_replayable cb
                     | None => false
                     end) commandBuffers = true ->
  returns (executeSubmit this commandBuffers).
Proof.
  intros Hcbs. rewrite forallb_forall in Hcbs. unfold executeSubmit.
  apply returns_bind; [apply returns_create | intros encoder].
  apply returns_bind; [| intros _; apply returns_finish_and_submit].
  apply returns_for_of. intros cb Hin. apply list_elem_of_In, Hcbs in Hin.
  destruct cb as [cb |]; [| discriminate].
  apply returns_deref; [| reflexivity]. intros cb' [= <-].
  apply returns_buffer_encodeIn. exact Hin.
Qed.

Lemma returns_execute (replay : Replay) (c : ReplayQueueCommand) :
  command_replayable replay c = true -> returns (execute replay c).
Proof.
  intros Hc. destruct c; cbn [execute command_replayable] in *;
    repeat match goal with
           | H : _ && _ = true |- _ => apply andb_true_iff in H as [? ?]
           end;
    try (returns_steps; fail).
  - apply returns_deref; [| assumption]. intros q _.
    apply returns_executeSubmit. assumption.
  - apply returns_bind; [apply returns_getData; assumption | intros dataBuf].
    apply returns_deref; [| assumption]. intros q _.
    apply returns_deref; [| assumption]. intros b _. apply returns_gpu.
  - apply returns_bind; [apply returns_getData; assumption | intros dataBuf].
    apply returns_deref; [| assumption]. intros q _. apply returns_gpu.
Qed.

Lemma returns_replaySubmitTo (this : ReplayQueue) (j k : nat) (rest : list Z)
    (commandBuffers : list (option ReplayCommandBuffer)) (cb : ReplayCommandBuffer) :
  forallb (fun cb => match cb with
                     | Some cb => buffer_replayable cb
                     | None => false
                     end) commandBuffers = true ->
  commandBuffers !! j = Some (Some cb) ->
  (k < length (rcb_commands cb))%nat ->
  (forall rp, rcb_commands cb !! k = Some (CmdRenderPass rp) ->
              exists l rest', rest = Z.of_nat l :: rest' /\ (l < length (rp_commands rp))%nat) ->
  returns (replaySubmitTo this (Z.of_nat j :: Z.of_nat k :: rest) commandBuffers).
Proof.
  intros Hcbs Hcb Hk Htarget. pose proof Hcbs as Hall. rewrite forallb_forall in Hall.
  unfold replaySubmitTo, shift. cbn [head tail].
  apply returns_bind; [apply returns_create | intros encoder].
  apply returns_bind.
  - apply returns_for_range. intros i Hi.
    assert (Hil : (i < length commandBuffers)%nat).
    { apply lookup_lt_Some in Hcb. lia. }
    destruct (lookup_lt_is_Some_2 _ _ Hil) as [cbi Hcbi].
    pose proof (Hall cbi (proj1 (list_elem_of_In _ _) (list_elem_of_lookup_2 _ _ _ Hcbi)))
      as Hwf.
    destruct cbi as [cbi |]; [| discriminate].
    rewrite Hcbi. apply returns_deref; [| reflexivity]. intros cb' [= <-].
    apply returns_buffer_encodeIn. exact Hwf.
  - intros _. rewrite js_index_of_nat, Hcb.
    apply returns_deref; [| reflexivity]. intros cb' [= <-].
    apply returns_bind; [| intros _; apply returns_finish_and_submit].
    apply returns_buffer_encodeUpTo; [| exact Hk | intros _; exact Htarget].
    exact (Hall (Some cb) (proj1 (list_elem_of_In _ _) (list_elem_of_lookup_2 _ _ _ Hcb))).
Qed.

Lemma leaf_path_shape (i : nat) (c : ReplayQueueCommand) (p : list Z) (node : YieldedCommand) :
  ((p, node) ∈ leaves_of_command i c) ->
  exists rest,
    p = Z.of_nat i :: rest /\
    forall queue commandBuffers,
      c = ReplayCommandSubmit queue commandBuffers ->
      exists j k rest' cb,
        rest = Z.of_nat j :: Z.of_nat k :: rest' /\
        commandBuffers !! j = Some (Some cb) /\
        (k < length (rcb_commands cb))%nat /\
        forall rp,
          rcb_commands cb !! k = Some (CmdRenderPass rp) ->
          exists l rest'', rest' = Z.of_nat l :: rest'' /\ (l < length (rp_commands rp))%nat.
Proof.
  intros Hin.
  destruct c as [queue cbs | | | | | | |];
    try (apply list_elem_of_singleton in Hin; injection Hin as -> _;
         exists []; split; [reflexivity | discriminate]).
  cbn [leaves_of_command] in Hin.
  apply elem_of_concat_imap in Hin as (j & cbo & Hcb & Hin).
  destruct cbo as [cb |]; [| apply elem_of_nil in Hin; contradiction].
  unfold leaves_of_buffer in Hin.
  apply elem_of_concat_imap in Hin as (k & c2 & Hc2 & Hin).
  assert (Hk : (k < length (rcb_commands cb))%nat) by (eapply lookup_lt_Some; exact Hc2).
  assert (Hleaf :
    (forall rp, c2 <> CmdRenderPass rp) ->
    ((p, node) ∈ [([Z.of_nat i; Z.of_nat j; Z.of_nat k], BufferLevel c2)]) ->
    exists rest,
      p = Z.of_nat i :: rest /\
      forall q commandBuffers,
        ReplayCommandSubmit queue cbs = ReplayCommandSubmit q commandBuffers ->
        exists j k rest' cb,
          rest = Z.of_nat j :: Z.of_nat k :: rest' /\
          commandBuffers !! j = Some (Some cb) /\
          (k < length (rcb_commands cb))%nat /\
          forall rp,
            rcb_commands cb !! k = Some (CmdRenderPass rp) ->
            exists l rest'', rest' = Z.of_nat l :: rest'' /\
                             (l < length (rp_commands rp))%nat).
  { intros Hne Hin'. apply list_elem_of_singleton in Hin'. injection Hin' as -> _.
    eexists. split; [reflexivity |]. intros q cbs' [= _ <-].
    exists j, k, [], cb. repeat split; auto.
    intros rp Hrp. rewrite Hc2 in Hrp. injection Hrp as ->. exfalso. eapply Hne. reflexivity. }
  destruct c2 as [tc | | | | rp | | | |]; try (apply Hleaf; [discriminate | exact Hin]).
  clear Hleaf. unfold leaves_of_pass in Hin.
  apply elem_of_lookup_imap in Hin as (l & c' & Heq & Hc'). injection Heq as -> _.
  eexists. split; [reflexivity |]. intros q cbs' [= _ <-].
  exists j, k, [Z.of_nat l], cb. repeat split; auto.
  intros rp' Hrp'. rewrite Hc2 in Hrp'. injection Hrp' as <-.
  exists l, []. split; [reflexivity |]. eapply lookup_lt_Some. exact Hc'.
Qed.

(** X26.  Every leaf of a session that can be replayed can be replayed to.
    In a session where every submit has its queue and all its command
    buffers, every queue write has its queue, buffer and data, no command
    buffer holds a copy command (the host rejects the copy calls the driver
    makes), every render pass starts with a resolved begin marker that has a
    first colour attachment and no occlusion query set, and every
    state-setting command of a pass carries its wrapper, [replayTo] returns
    normally, in every environment, for the path of every leaf of the
    command tree: a top-level command other than a submit, a command of a
    command buffer, a child of a render pass.  The engine then reads no
    missing wrapper on the way; what the host makes of the recorded values
    it is handed is not part of the statement. *)
Theorem leaves_of_a_replayable_session_can_be_replayed_to :
  forall replay,
    replayable replay = true ->
    forall p node, ((p, node) ∈ leaves replay) -> returns (replayTo replay p).
Proof.
  intros replay Hwf p node Hin. unfold replayable in Hwf. rewrite forallb_forall in Hwf.
  unfold leaves in Hin. apply elem_of_concat_imap in Hin as (i & c & Hc & Hin).
  destruct (leaf_path_shape _ _ _ _ Hin) as (rest & -> & Hshape).
  unfold replayTo, shift. cbn [head tail].
  apply returns_bind; [apply returns_set_state | intros _].
  apply returns_bind; [| intros _ e; eexists _, _; reflexivity].
  apply returns_for_range. intros j Hj.
  assert (Hil : (i < length (commands replay))%nat) by (eapply lookup_lt_Some; exact Hc).
  assert (Hjl : (j < length (commands replay))%nat)
    by (unfold iterations_through in Hj; lia).
  destruct (lookup_lt_is_Some_2 _ _ Hjl) as [cj Hcj].
  pose proof (Hwf cj (proj1 (list_elem_of_In _ _) (list_elem_of_lookup_2 _ _ _ Hcj))) as Hcjwf.
  apply returns_deref; [| rewrite Hcj; reflexivity].
  intros c' Hc'. rewrite Hcj in Hc'. injection Hc' as <-.
  destruct cj as [queue cbs | | | | | | |]; try (apply returns_execute; exact Hcjwf).
  cbn [command_replayable] in Hcjwf. apply andb_true_iff in Hcjwf as [Hq Hcbs].
  destruct (bool_decide (Some (Z.of_nat j) = Some (Z.of_nat i))) eqn:Hji.
  - apply bool_decide_eq_true in Hji. injection Hji as Hji. apply Nat2Z.inj in Hji. subst j.
    rewrite Hc in Hcj. injection Hcj as ->.
    destruct (Hshape _ _ eq_refl) as (j & k & rest' & cb & -> & Hcb & Hk & Htarget).
    apply returns_deref; [| exact Hq]. intros q _.
    eapply returns_replaySubmitTo; eauto.
  - apply returns_deref; [| exact Hq]. intros q _.
    apply returns_executeSubmit. exact Hcbs.
Qed.

Lemma leaves_of_a_replayable_session_can_be_replayed_to_witness :
  returns (replayTo sample_pass_replay [0; 0; 0; 1]).
Proof.
  apply (leaves_of_a_replayable_session_can_be_replayed_to sample_pass_replay eq_refl
           [0; 0; 0; 1] (BufferLevel (CmdClone (TraceDraw 3 1 0 0)))).
  vm_compute. do 1 right. left.
Defined.
